(* ===== verification/_CoqProject ===== *)
-Q . S2P
Prelude.v
Wire.v
Text.v
Iteration.v
Float.v
Json.v
Crypto.v
Device.v
Certificate.v
Bundle.v
Enrollment.v
Genesis.v
Deletion.v
Store.v
GarbageCollection.v
SyncWire.v
Replay.v
Bypass.v
FlowControl.v
SyncErrors.v
SyncCoordinator.v
Routing.v
Encryption.v
Formation.v
Transport.v
Capabilities.v
TransportManager.v
LiteWire.v
LiteTransport.v
LiteOta.v
Geohash.v
Ttl.v
Qos.v
Bandwidth.v
Preemption.v
Eviction.v
Negentropy.v
SyncProtocol.v
Network.v
Health.v
Beacon.v
BeaconTasks.v
GeohashIndex.v
Hierarchy.v
Selection.v
Reconnection.v
Partition.v
Topology.v
TopologyManager.v
Decoders.v
SyncTypes.v
InMemory.v
DocTree.v
JsonConvert.v
StoreQuery.v
TypedCollection.v
CertificateStore.v
