(* ===== verification/Prelude.v ===== *)
(** * Verification of peat-mesh

    peat-mesh is a Rust library for peer-to-peer meshes: nodes enroll with signed
    certificates, exchange documents and deletions, route telemetry and commands
    along a hierarchy, and send low-latency traffic over a UDP side channel.  This
    library is a shallow embedding of its protocol core in Rocq: each Rust type is a
    [Record] or [Inductive], each function a Rocq function of the same name in a
    [Module] named after its type, and the theorems are about these functions.

    ** How the code is translated

    - A function returning [Result<A, E>] returns [outcome E A]: [Ok], [Err] or
      [Panic].  Slices and indexing out of range, divisions by zero and, under the
      [Debug] profile, arithmetic overflow are [Panic]; under [Release] overflow wraps
      ([checked], [wrap]).  The [?] operator is the monad's bind; an early return
      guarded by a condition is [bail! c with e; k].
    - A machine integer is a [Z] with its range stated where it matters ([in_u w z])
      and its wrap-around or saturation written out.  A Rust [String] is its UTF-8
      bytes; decoders validate UTF-8 as [String::from_utf8] does.
    - [&mut self] and interior mutability are state passing.  Locks and
      compare-and-swap loops make the modelled operations atomic, so an execution is
      a sequence of operations; where operations of several tasks or nodes interleave
      (the sync coordinator, the network) they are steps of a relation.
    - A clock reading is an argument, in nanoseconds (milliseconds in certificates,
      as in the code); so are fresh random values, socket results and file contents.
    - A [HashMap] is a [gmap] and a [HashSet] a [gset]; where the code iterates one,
      the order is a parameter, any permutation ([IterOrder] and the like).
    - Third-party code is a type class with its documented behaviour as a second
      class of laws: [Ed25519], [Hkdf] and [Aead] in [Crypto], [Automerge], [Redb] and
      [Lru] in [Store], and others where they are used.  Theorems that need the laws
      say so; concrete instances that satisfy them serve the witnesses.
    - Error values keep their constructor; messages interpolated from other errors
      are left out.  Event counters are unbounded integers except where the code's
      width shows.

    ** Files

    - [Prelude], [Wire], [Text], [Float], [Iteration], [Json]: outcomes and the state monad
      [stm], widths, durations; byte strings, little- and big-endian integers, slices,
      UTF-8, and the automation of the codec proofs ([panic_free], [decode_inv],
      [decode_run], the hint databases [wire], [lens]); string searches; IEEE binary32
      and binary64; iteration orders of maps, maxima and the sorts of slices; JSON values.
    - Security.  [Crypto]: [src/security/error.rs], [keypair.rs].  [Device]:
      [device_id.rs].  [Certificate], [Bundle]: [certificate.rs].  [Enrollment]:
      [enrollment.rs].  [Genesis]: [genesis.rs].  [Encryption]: [encryption.rs].
      [Formation]: [formation_key.rs], [formation_peers.rs] and the handshake of
      [src/storage/mesh_sync_transport.rs].
    - Documents.  [Deletion]: [src/qos/deletion.rs].  [Store]:
      [src/storage/automerge_store.rs].  [GarbageCollection]:
      [src/qos/garbage_collection.rs].  [Ttl]: [src/storage/ttl.rs], [ttl_manager.rs].
      [Qos]: [src/qos/mod.rs], [retention.rs], [lifecycle.rs].  [Eviction]:
      [src/qos/storage.rs], [audit.rs], [eviction.rs], [eviction_service.rs].
      [Bandwidth], [Preemption]: [src/qos/bandwidth.rs], [preemption.rs].  [DocTree]: the
      objects and transactions of Automerge, an interface.  [JsonConvert], [StoreQuery],
      [TypedCollection], [GeohashIndex]: [src/storage/json_convert.rs], [query.rs],
      [typed_collection.rs], [geohash_index.rs].  [SyncTypes], [InMemory]:
      [src/sync/types.rs], [in_memory.rs], [traits.rs].
    - Synchronisation.  [SyncWire]: the formats of [src/storage/automerge_sync.rs].
      [FlowControl]: [flow_control.rs].  [SyncErrors]: [sync_errors.rs].
      [SyncCoordinator]: what guards a sync in [automerge_sync.rs].  [Negentropy]:
      [negentropy_sync.rs].  [SyncProtocol]: the handlers and senders of
      [automerge_sync.rs] and [src/qos/sync_mode.rs], composed with the store, the
      guards, bandwidth and reconciliation into one node.  [Network]: nodes of
      [SyncProtocol] that exchange frames.
    - Transport.  [Replay], [Bypass]: [src/transport/bypass.rs].  [Transport]:
      [mod.rs].  [LiteWire], [LiteTransport]: [lite.rs].  [LiteOta]: [lite_ota.rs].
      [Health]: [health.rs].  [Reconnection]: [reconnection.rs].  [Capabilities]:
      [capabilities.rs].  [TransportManager]: [manager.rs].
    - Topology.  [Routing]: [src/routing].  [Geohash]: [src/geohash.rs].  [Beacon]:
      [src/beacon/types.rs], [config.rs].  [BeaconTasks]: [broadcaster.rs],
      [observer.rs], [janitor.rs], [storage.rs].  [Hierarchy]: [src/hierarchy].
      [Selection]: [src/topology/selection.rs].  [Topology]: [builder.rs].
      [TopologyManager]: [src/topology/manager.rs].  [Partition]:
      [src/topology/partition.rs], [autonomous.rs] and
      [src/storage/partition_detection.rs].
    - [Decoders]: the formats together, as instances of the interfaces [PrefixCodec]
      and [WholeCodec].

    ** What is proved

    - Wire formats.  Every decoder accepts exactly the encodings of representable
      values and inverts the encoder; enrollment responses and tombstone batches
      round-trip; no decoder panics on any input; whatever the coordinator sends
      arrives.  What a signature covers determines the certificate, when identifiers
      have at most 255 bytes; without that bound it does not.
    - Trust.  A peer that a bundle validates has a valid certificate and a chain of
      delegation; a self-signed root starts such a chain by itself.  Enrollment issues
      certificates only for signed requests with known tokens, and the whole path from
      request to validated peer works, as does bootstrapping from a genesis.  A sync
      connection is only started for a peer that answered the formation challenge (the
      accepting side is not authenticated in turn).  Peer channels agree; rotation of
      a group key separates the generations; the key of documents at rest is public.
    - Documents.  The store refines a map for every sequence of operations and every
      behaviour of the cache (concurrent phases of [get] and [put] do not).  While its
      tombstone is stored no stream of bytes brings a document back, and tombstones
      flood any network of working nodes, in a bounded number of deliveries.  Garbage
      collection and expiry remove exactly what is due, within their batches; eviction
      spares critical, protected and young documents and keeps its byte account.
      JSON written over any document reads back, so that a value put into a typed
      collection is found there; a query returns the documents it selects, sorted when
      the field has values of one kind; the geohash index finds exactly the documents in
      the cells around a point.  The in-memory backend refines a map, observers that
      follow its events reconstruct it unless the collection is cleared, and deletion
      follows the policy of the collection.
    - Flow control and errors.  The token bucket's rate bound and the parameters
      outside which it fails; queue, cooldown and memory accounting; the invariant of
      the circuit breaker; an open circuit is never left by the coordinator; a class
      over its bandwidth is locked out; nested preemptions resume early.
    - Transports.  Bypass frames arrive as sent; the 8-bit replay window refines a
      specification with unbounded sequence numbers; fresh sources suffer false
      replays.  The lite peer table matches the events it reported and drops silent
      peers; firmware transfers deliver the image, and sessions without answer end.
      Unanswered pings kill a peer after exactly the configured number.  The transport
      manager picks the best usable transport, falls over PACE levels in order and
      connects when any transport can; a cached transport that fails is kept.
    - Topology.  Exactly which peers a packet is forwarded to; duplicates are caught
      for the TTL within the capacity of the cache; hop counts bound every path; a
      node operates autonomously exactly while the detector reports a partition.
      Geohashes name the cells of a grid, nested by prefix.  The cache of an observer
      is the last beacon of each near node.  An election has at most one winner; the
      events of the topology builder are a complete log of its state, selected peers
      form no cycle, and the peer tables are those seen within the timeout.  Under
      every interleaving of events and retry tasks of the topology manager retries
      stay below their limit and end; telemetry queued without a parent is delivered
      to the next one; one lateral peer over the limit ends the event loop.

    ** Bounds and fuel

    Loops over received data recurse on a count read from the data
    ([Batch.decode_loop]) or on a list; compare-and-swap retries succeed at once when
    operations are atomic.  Fuel is given to
    [negentropy_loop], which reads at least seven bytes per round, one more than the
    length of its input; to the conversion of JSON, whose recursion is bounded by the
    size of the value ([value_size]); and to [wait_for_peer], one round per poll until
    the deadline.
    Numeric side conditions of theorems are the widths of the fields concerned
    (lengths below 256, 2^16 or 2^32, timestamps in 64 bits), the 8-bit distance of
    sequence numbers, and, for the token bucket, that the tokens of a window fit in
    32 bits.

    ** What is not modelled

    Ed25519, X25519, HKDF, HMAC and the AEAD themselves ([vendor/ed25519-dalek] and
    crates), Automerge, redb, the LRU cache, negentropy and peat-lite constants: type
    classes with laws.  Sockets, files, spawned tasks (their loop bodies are
    modelled), [FromStr]-style name parsers, display and logging.  The retry delay of
    sync errors (random jitter) is a parameter.  The trigonometric functions of
    positions are a type class without laws.  Not modelled: the HTTP broker, discovery,
    Bluetooth, blobs, the iroh transport and its persistent channels, and the node
    binary. *)
From Stdlib Require Import ZArith Lia Strings.Byte Strings.String.
From stdpp Require Import prelude gmap.

Set Default Proof Using "Type".

(** * Outcomes of Rust computations

    A fallible Rust function returns [Result<A, E>] and may also panic (slice
    index out of range, [unwrap] of an error, checked arithmetic).  [outcome E A]
    has the three cases; [MBind] is the [?] operator, a panic unwinds past it. *)
Inductive outcome (E A : Type) : Type :=
| Ok (a : A)
| Err (e : E)
| Panic.
Arguments Ok {E A} a.
Arguments Err {E A} e.
Arguments Panic {E A}.

Global Instance outcome_ret {E} : MRet (outcome E) := λ A a, Ok a.
Global Instance outcome_bind {E} : MBind (outcome E) := λ A B f m,
  match m with
  | Ok a => f a
  | Err e => Err e
  | Panic => Panic
  end.

(** [Option::ok_or] and [Result::map_err]. *)
Definition ok_or {E A} (o : option A) (e : E) : outcome E A :=
  match o with Some a => Ok a | None => Err e end.

Definition map_err {E F A} (f : E → F) (m : outcome E A) : outcome F A :=
  match m with Ok a => Ok a | Err e => Err (f e) | Panic => Panic end.

(** [Result::ok]. *)
Definition is_ok {E A} (m : outcome E A) : bool :=
  match m with Ok _ => true | _ => false end.

(** A fallible computation that also changes a state of type [S]; what it changed
    before an error stays changed. *)
Definition stm (S E A : Type) : Type := S → outcome E A * S.
Global Instance stm_ret {S E} : MRet (stm S E) := λ A a s, (Ok a, s).
Global Instance stm_bind {S E} : MBind (stm S E) := λ A B f m s,
  match m s with
  | (Ok a, s) => f a s
  | (Err e, s) => (Err e, s)
  | (Panic, s) => (Panic, s)
  end.
Definition lift {S E A} (m : outcome E A) : stm S E A := λ s, (m, s).
Definition gets {S E A} (f : S → A) : stm S E A := λ s, (Ok (f s), s).
Definition modify {S E} (f : S → S) : stm S E unit := λ s, (Ok tt, f s).

Lemma stm_bind_inv {S E A B} (m : stm S E A) (k : A → stm S E B) s r :
  (a ← m; k a) s = r →
  (∃ a s', m s = (Ok a, s') ∧ k a s' = r)
  ∨ (∃ e s', m s = (Err e, s') ∧ r = (Err e, s')) ∨ (∃ s', m s = (Panic, s') ∧ r = (Panic, s')).
Proof. unfold mbind, stm_bind. destruct (m s) as [[]]; naive_solver. Qed.
Lemma stm_bind_Ok_inv {S E A B} (m : stm S E A) (k : A → stm S E B) s b s'' :
  (a ← m; k a) s = (Ok b, s'') → ∃ a s', m s = (Ok a, s') ∧ k a s' = (Ok b, s'').
Proof. intros [|[(? & ? & ? & ?)|(? & ? & ?)]]%stm_bind_inv; done. Qed.

Definition no_panic {E A} (m : outcome E A) : Prop := m ≠ Panic.

Declare Scope peat_scope.
Delimit Scope peat_scope with peat.
(** Early return: [bail! c with e ; k] is [if c { return Err(e); } k]. *)
Notation "'bail!' c 'with' e ; k" := (if c then Err e else k)
  (at level 10, c at level 200, e at level 200, k at level 200,
   format "'bail!'  c  'with'  e ; '/' k") : peat_scope.
Open Scope peat_scope.

(** * Machine integers

    A [w]-bit unsigned integer is a [Z] in [0, 2^w); additions that may leave
    the range are written with the profile: a debug build panics, a release
    build wraps (the repository sets no [overflow-checks]). *)
Inductive profile := Debug | Release.

Definition in_u (w z : Z) : Prop := (0 ≤ z < 2 ^ w)%Z.
Definition umax (w : Z) : Z := (2 ^ w - 1)%Z.
Definition wrap (w z : Z) : Z := (z mod 2 ^ w)%Z.
Definition checked {E} (p : profile) (w z : Z) : outcome E Z :=
  if ((0 <=? z) && (z <? 2 ^ w))%Z then Ok z
  else match p with Debug => Panic | Release => Ok (wrap w z) end.
Definition saturating_mul (w a b : Z) : Z := Z.min (a * b) (umax w).
Definition saturating_sub (a b : Z) : Z := Z.max 0 (a - b).

Global Instance in_u_dec w z : Decision (in_u w z).
Proof. unfold in_u. apply _. Defined.

Lemma checked_in {E} p w z : in_u w z → checked (E:=E) p w z = Ok z.
Proof.
  intros [Hlo Hhi]. unfold checked.
  by rewrite (proj2 (Z.leb_le _ _) Hlo), (proj2 (Z.ltb_lt _ _) Hhi).
Qed.

(** * Time

    [Instant], [SystemTime] and [Duration] are numbers of nanoseconds; functions
    that read a clock take the reading as an argument. *)
Definition ns_per_ms : Z := 1000000.
Definition from_secs (s : Z) : Z := s * 1000000000.
Definition from_millis (ms : Z) : Z := ms * ns_per_ms.
Definition as_millis (d : Z) : Z := d / ns_per_ms.

(** Concrete equations, decided by one run of the virtual machine. *)
Ltac vm_eq :=
  lazymatch goal with
  | |- _ = ?y => vm_cast_no_check (eq_refl y)
  | |- _ => by vm_compute
  end.
