(* ===== verification/Wire.v ===== *)
(** Byte strings as the wire codecs of the mesh use them: bytes, fixed-width
    integers in both byte orders, slices that panic out of range, UTF-8
    validation ([String::from_utf8]), and the cursor lemmas the encode/decode
    proofs of every component share. *)
From Stdlib Require Import ZArith Lia Strings.Byte Strings.String.
From stdpp Require Import prelude gmap.
From S2P Require Import Prelude.

Set Default Proof Using "Type".

Abbreviation byte := Byte.byte.
Abbreviation bytes := (list Byte.byte).

(** * Bytes and integers *)

Definition u8 (b : byte) : Z := Z.of_N (Byte.to_N b).
(** [z as u8]: truncation to the low eight bits. *)
Definition as_u8 (z : Z) : byte :=
  default Byte.x00 (Byte.of_N (Z.to_N (z mod 256))).

Lemma u8_range b : (0 ≤ u8 b < 256)%Z.
Proof. unfold u8. pose proof (Byte.to_N_bounded b). lia. Qed.

Lemma u8_as_u8 z : u8 (as_u8 z) = (z mod 256)%Z.
Proof.
  unfold u8, as_u8.
  pose proof (Z.mod_pos_bound z 256 ltac:(lia)) as Hb.
  destruct (Byte.of_N (Z.to_N (z mod 256))) as [b|] eqn:E; simpl.
  - apply Byte.to_of_N in E. lia.
  - apply Byte.of_N_None_iff in E. lia.
Qed.

Lemma u8_inj b c : u8 b = u8 c → b = c.
Proof.
  unfold u8. intros H%N2Z.inj.
  pose proof (Byte.of_to_N b) as Hb. rewrite H, Byte.of_to_N in Hb. congruence.
Qed.

Lemma as_u8_u8 b : as_u8 (u8 b) = b.
Proof.
  apply u8_inj. rewrite u8_as_u8. apply Z.mod_small, u8_range.
Qed.

Lemma u8_as_u8_small z : (0 ≤ z < 256)%Z → u8 (as_u8 z) = z.
Proof. intros. rewrite u8_as_u8. by apply Z.mod_small. Qed.

Global Instance byte_eq_dec : EqDecision byte := Byte.byte_eq_dec.
Global Instance byte_countable : Countable byte.
Proof. apply (inj_countable' u8 as_u8), as_u8_u8. Defined.

(** String literals of the source, as the bytes of the [str]. *)
Definition str (s : string) : bytes := list_byte_of_string s.

(** * Fixed-width integers: [to_le_bytes], [to_be_bytes], [from_*_bytes] *)

Fixpoint to_le (n : nat) (z : Z) : bytes :=
  match n with
  | O => []
  | S n => as_u8 z :: to_le n (z / 256)
  end.
Fixpoint from_le (l : bytes) : Z :=
  match l with
  | [] => 0
  | b :: l => u8 b + 256 * from_le l
  end.
Definition to_be (n : nat) (z : Z) : bytes := reverse (to_le n z).
Definition from_be (l : bytes) : Z := from_le (reverse l).

Lemma length_to_le n z : length (to_le n z) = n.
Proof. revert z. induction n as [|n IH]; intros z; simpl; auto. Qed.

Lemma length_to_be n z : length (to_be n z) = n.
Proof. unfold to_be. by rewrite length_reverse, length_to_le. Qed.

Lemma from_to_le n z : from_le (to_le n z) = (z mod 256 ^ Z.of_nat n)%Z.
Proof.
  revert z. induction n as [|n IH]; intros z; [by rewrite Z.mod_1_r|].
  simpl to_le. simpl from_le. rewrite IH, u8_as_u8, Nat2Z.inj_succ, Z.pow_succ_r by lia.
  rewrite Z.rem_mul_r by lia. lia.
Qed.

Lemma from_to_be n z : from_be (to_be n z) = (z mod 256 ^ Z.of_nat n)%Z.
Proof. unfold from_be, to_be. by rewrite reverse_involutive, from_to_le. Qed.

Lemma from_le_range l : (0 ≤ from_le l < 256 ^ Z.of_nat (length l))%Z.
Proof.
  induction l as [|b l IH]; [by split|].
  simpl from_le. rewrite length_cons, Nat2Z.inj_succ, Z.pow_succ_r by lia.
  pose proof (u8_range b). lia.
Qed.

Lemma from_be_range l : (0 ≤ from_be l < 256 ^ Z.of_nat (length l))%Z.
Proof. unfold from_be. rewrite <- (length_reverse l). apply from_le_range. Qed.

Lemma to_from_le l : to_le (length l) (from_le l) = l.
Proof.
  induction l as [|b l IH]; [done|]. simpl. pose proof (u8_range b). f_equal.
  - apply u8_inj. rewrite u8_as_u8, (Z.mul_comm 256), Z_mod_plus_full.
    apply Z.mod_small. lia.
  - rewrite (Z.mul_comm 256), Z_div_plus_full, Z.div_small by lia. exact IH.
Qed.

Lemma to_from_be l : to_be (length l) (from_be l) = l.
Proof.
  unfold to_be, from_be.
  rewrite <- (length_reverse l), to_from_le. apply reverse_involutive.
Qed.

Arguments to_le : simpl never.
Arguments to_be : simpl never.
Arguments from_le : simpl never.
Arguments from_be : simpl never.

(** Two-byte lengths read byte by byte. *)
Lemma to_le_2 z : to_le 2 z = [as_u8 z; as_u8 (z / 256)].
Proof. done. Qed.

(** The widths the codecs use; [in_u] is the range of the Rust type. *)
Lemma le_roundtrip n w z :
  w = (8 * Z.of_nat n)%Z → in_u w z → from_le (to_le n z) = z.
Proof.
  intros -> Hz. rewrite from_to_le. apply Z.mod_small. unfold in_u in Hz.
  by rewrite Z.pow_mul_r in Hz by lia.
Qed.
Lemma be_roundtrip n w z :
  w = (8 * Z.of_nat n)%Z → in_u w z → from_be (to_be n z) = z.
Proof.
  intros -> Hz. rewrite from_to_be. apply Z.mod_small. unfold in_u in Hz.
  by rewrite Z.pow_mul_r in Hz by lia.
Qed.
Lemma from_le_in_u n w l : w = (8 * Z.of_nat n)%Z → length l = n → in_u w (from_le l).
Proof.
  intros -> <-. unfold in_u. rewrite Z.pow_mul_r by lia. apply from_le_range.
Qed.
Lemma from_be_in_u n w l : w = (8 * Z.of_nat n)%Z → length l = n → in_u w (from_be l).
Proof.
  intros -> <-. unfold in_u. rewrite Z.pow_mul_r by lia. apply from_be_range.
Qed.

(** [x.len() as u8 / u16 / u32] for a byte string. *)
Definition zlen {A} (l : list A) : Z := Z.of_nat (length l).

(** A length prefix that holds the length reads back as the length. *)
Lemma len_u8 {A} (l : list A) : length l ≤ 255 → Z.to_nat (u8 (as_u8 (zlen l))) = length l.
Proof. intros. unfold zlen. rewrite u8_as_u8_small; lia. Qed.
Lemma len_le {A} n (l : list A) :
  (zlen l < 256 ^ Z.of_nat n)%Z → Z.to_nat (from_le (to_le n (zlen l))) = length l.
Proof. intros. rewrite from_to_le, Z.mod_small by (unfold zlen in *; lia). unfold zlen. lia. Qed.
Lemma len_be {A} n (l : list A) :
  (zlen l < 256 ^ Z.of_nat n)%Z → Z.to_nat (from_be (to_be n (zlen l))) = length l.
Proof. intros. rewrite from_to_be, Z.mod_small by (unfold zlen in *; lia). unfold zlen. lia. Qed.

Lemma len_u8_inv {A} (l : list A) b : length l = Z.to_nat (u8 b) → as_u8 (zlen l) = b.
Proof.
  intros Hl. unfold zlen. pose proof (u8_range b).
  rewrite Hl, Z2Nat.id, as_u8_u8 by lia. done.
Qed.
Lemma len_u8_bound {A} (l : list A) b : length l = Z.to_nat (u8 b) → length l ≤ 255.
Proof. intros ->. pose proof (u8_range b). lia. Qed.
Lemma to_from_le_n n l : length l = n → to_le n (from_le l) = l.
Proof. intros <-. apply to_from_le. Qed.
Lemma to_from_be_n n l : length l = n → to_be n (from_be l) = l.
Proof. intros <-. apply to_from_be. Qed.
Lemma len_le_inv {A} n (l : list A) m :
  length l = Z.to_nat (from_le m) → length m = n → to_le n (zlen l) = m.
Proof.
  intros Hl <-. unfold zlen. pose proof (from_le_range m).
  rewrite Hl, Z2Nat.id by lia. apply to_from_le.
Qed.
Lemma len_be_inv {A} n (l : list A) m :
  length l = Z.to_nat (from_be m) → length m = n → to_be n (zlen l) = m.
Proof.
  intros Hl <-. unfold zlen. pose proof (from_be_range m).
  rewrite Hl, Z2Nat.id by lia. apply to_from_be.
Qed.
Lemma len_le_bound {A} n (l : list A) m :
  length l = Z.to_nat (from_le m) → length m = n → (zlen l < 256 ^ Z.of_nat n)%Z.
Proof. intros Hl <-. unfold zlen. pose proof (from_le_range m). lia. Qed.
Lemma len_be_bound {A} n (l : list A) m :
  length l = Z.to_nat (from_be m) → length m = n → (zlen l < 256 ^ Z.of_nat n)%Z.
Proof. intros Hl <-. unfold zlen. pose proof (from_be_range m). lia. Qed.

(** * Slices: [&data[a..b]] and [data[i]] panic out of range *)

Definition slice {E} (data : bytes) (a b : nat) : outcome E bytes :=
  if decide (a ≤ b ∧ b ≤ length data) then Ok (take (b - a) (drop a data)) else Panic.
Definition index {E} (data : bytes) (i : nat) : outcome E byte :=
  match data !! i with Some b => Ok b | None => Panic end.
(** [copy_from_slice] into, and [try_into().unwrap()] to, an array of [n] bytes. *)
Definition array {E} (n : nat) (s : bytes) : outcome E bytes :=
  if decide (length s = n) then Ok s else Panic.

(** [[data[pos], data[pos + 1], ..., data[pos + n - 1]]], one index at a time. *)
Fixpoint indices {E} (data : bytes) (pos n : nat) : outcome E bytes :=
  match n with
  | O => Ok []
  | S n => b ← index data pos; bs ← indices data (pos + 1) n; Ok (b :: bs)
  end.

Lemma slice_in {E} (data : bytes) a b :
  a ≤ b → b ≤ length data → slice (E:=E) data a b = Ok (take (b - a) (drop a data)).
Proof. intros. unfold slice. by rewrite decide_True. Qed.

Lemma index_in {E} (data : bytes) i :
  i < length data → ∃ b, data !! i = Some b ∧ index (E:=E) data i = Ok b.
Proof.
  intros [b Hb]%lookup_lt_is_Some. exists b. unfold index. by rewrite Hb.
Qed.

Lemma slice_length (data : bytes) a b :
  a ≤ b → b ≤ length data → length (take (b - a) (drop a data)) = b - a.
Proof. intros. rewrite length_take, length_drop. lia. Qed.

(** * Reading with a position

    The decoders keep [data] and a position [pos]; [cursor data pos rest] says
    that [rest] is what has not been read. *)

Definition cursor (data : bytes) (pos : nat) (rest : bytes) : Prop :=
  pos ≤ length data ∧ drop pos data = rest.

Lemma cursor_start data : cursor data 0 data.
Proof. split; [lia|done]. Qed.

Lemma cursor_length data pos rest : cursor data pos rest → length data = pos + length rest.
Proof. intros [Hp <-]. rewrite length_drop. lia. Qed.

Lemma cursor_skip data pos m rest n :
  cursor data pos (m ++ rest) → length m = n → cursor data (pos + n) rest.
Proof.
  intros [Hp Hd] <-. split.
  - apply (f_equal length) in Hd. rewrite length_drop, length_app in Hd. lia.
  - by rewrite <- drop_drop, Hd, drop_app_length.
Qed.

Lemma cursor_slice {E} data pos m rest n :
  cursor data pos (m ++ rest) → length m = n → slice (E:=E) data pos (pos + n) = Ok m.
Proof.
  intros C Hn. pose proof (cursor_length _ _ _ C) as HL. rewrite length_app in HL.
  rewrite slice_in by lia. destruct C as [_ ->].
  by rewrite Nat.add_comm, Nat.add_sub, <- Hn, take_app_length.
Qed.

Lemma cursor_index {E} data pos b rest :
  cursor data pos (b :: rest) → index (E:=E) data pos = Ok b.
Proof.
  intros [_ Hd]. unfold index.
  rewrite <- (Nat.add_0_r pos), <- lookup_drop, Hd. done.
Qed.

(** Reads at computed offsets. *)
Lemma cursor_slice_at {E} data pos m rest a b :
  cursor data pos (m ++ rest) → a = pos → b = pos + length m → slice (E:=E) data a b = Ok m.
Proof. intros C -> ->. by apply (cursor_slice _ _ _ _ _ C). Qed.
Lemma cursor_index_at {E} data pos b rest a :
  cursor data pos (b :: rest) → a = pos → index (E:=E) data a = Ok b.
Proof. intros C ->. apply (cursor_index _ _ _ _ C). Qed.

(** Reading to the end of the input. *)
Lemma slice_to_end {E} data pos rest a :
  cursor data pos rest → a = pos → slice (E:=E) data a (length data) = Ok rest.
Proof.
  intros C ->. rewrite (cursor_slice_at data pos rest [] pos (length data)); [done| |done|].
  - by rewrite app_nil_r.
  - by apply cursor_length.
Qed.
Lemma cursor_end data rest : cursor data (length data) rest → rest = [].
Proof. intros C%cursor_length. apply nil_length_inv. lia. Qed.

Lemma cursor_cons data pos b rest :
  cursor data pos (b :: rest) → cursor data (pos + 1) rest.
Proof. intros C. by apply (cursor_skip _ _ [b] _ 1) in C. Qed.

(** Reading back: a successful read splits what was left. *)
Lemma slice_inv {E} data pos n m rest :
  cursor data pos rest → slice (E:=E) data pos (pos + n) = Ok m →
  ∃ rest', rest = m ++ rest' ∧ length m = n ∧ cursor data (pos + n) rest'.
Proof.
  intros C. pose proof (cursor_length _ _ _ C) as HL. unfold slice.
  case_decide as Hb; [|discriminate]. intros [= <-].
  destruct C as [Hp Hd]. exists (drop n rest). split_and!.
  - by rewrite Hd, Nat.add_comm, Nat.add_sub, take_drop.
  - rewrite Hd, length_take. lia.
  - split; [lia|]. by rewrite <- Hd, drop_drop.
Qed.

(** The same for a read at computed offsets [a], [b]. *)
Lemma slice_inv_at {E} data pos a b m rest :
  cursor data pos rest → slice (E:=E) data a b = Ok m → a = pos →
  ∃ rest', rest = m ++ rest' ∧ length m = b - a ∧ cursor data b rest'.
Proof.
  intros C H ->.
  assert (b = pos + (b - pos)) as Hb.
  { unfold slice in H. case_decide; [lia|discriminate]. }
  rewrite Hb in H. apply (slice_inv _ _ _ _ _ C) in H. by rewrite <- Hb in H.
Qed.

Lemma index_inv {E} data pos b rest :
  cursor data pos rest → index (E:=E) data pos = Ok b →
  ∃ rest', rest = b :: rest' ∧ cursor data (pos + 1) rest'.
Proof.
  intros C. unfold index. destruct (data !! pos) as [b'|] eqn:Hl; [|discriminate].
  intros [= ->]. destruct C as [Hp Hd].
  rewrite (drop_S _ _ _ Hl) in Hd. exists (drop (S pos) data). split; [done|].
  split; [apply lookup_lt_Some in Hl; lia|]. by rewrite Nat.add_comm.
Qed.

Lemma array_inv {E} n s t : array (E:=E) n s = Ok t → s = t ∧ length s = n.
Proof. unfold array. case_decide; [|discriminate]. by intros [= ->]. Qed.

Lemma array_ok {E} n s : length s = n → array (E:=E) n s = Ok s.
Proof. intros. unfold array. by rewrite decide_True. Qed.

Lemma bind_Ok_inv {E A B} (m : outcome E A) (f : A → outcome E B) b :
  m ≫= f = Ok b → ∃ a, m = Ok a ∧ f a = Ok b.
Proof. destruct m; simpl; intros; try discriminate. eauto. Qed.

Lemma indices_inv {E} data pos n m rest :
  cursor data pos rest → indices (E:=E) data pos n = Ok m →
  ∃ rest', rest = m ++ rest' ∧ length m = n ∧ cursor data (pos + n) rest'.
Proof.
  revert pos m rest. induction n as [|n IH]; intros pos m rest C H; simpl in H.
  - simplify_eq. exists rest. by rewrite Nat.add_0_r.
  - apply bind_Ok_inv in H as (b & Hb & H). apply bind_Ok_inv in H as (bs & Hbs & H).
    simplify_eq. apply (index_inv _ _ _ _ C) in Hb as (r & -> & C').
    apply (IH _ _ _ C') in Hbs as (r' & -> & <- & C'').
    exists r'. split_and!; [done..|]. simpl. by replace (pos + S (length bs))
      with (pos + 1 + length bs) by lia.
Qed.

Lemma cursor_indices {E} data pos m rest n :
  cursor data pos (m ++ rest) → length m = n → indices (E:=E) data pos n = Ok m.
Proof.
  intros C <-. revert pos C. induction m as [|b m IH]; intros pos C; [done|]. simpl.
  rewrite (cursor_index _ _ _ _ C). cbn [mbind outcome_bind].
  by rewrite (IH _ (cursor_cons _ _ _ _ C)).
Qed.

Lemma cursor_indices_at {E} data pos m rest a n :
  cursor data pos (m ++ rest) → a = pos → n = length m → indices (E:=E) data a n = Ok m.
Proof. intros C -> ->. by eapply cursor_indices. Qed.

Lemma indices_inv_at {E} data pos a n m rest :
  cursor data pos rest → indices (E:=E) data a n = Ok m → a = pos →
  ∃ rest', rest = m ++ rest' ∧ length m = n ∧ cursor data (pos + n) rest'.
Proof. intros C H ->. by eapply indices_inv. Qed.

Lemma bind_assoc {E A B C} (m : outcome E A) (f : A → outcome E B) (g : B → outcome E C) :
  (m ≫= f) ≫= g = m ≫= λ a, f a ≫= g.
Proof. by destruct m. Qed.

Lemma ok_or_inv {E A} (o : option A) (e : E) a : ok_or o e = Ok a → o = Some a.
Proof. destruct o; simpl; congruence. Qed.

(** * Absence of panics *)

Lemma no_panic_bind {E A B} (m : outcome E A) (f : A → outcome E B) :
  no_panic m → (∀ a, m = Ok a → no_panic (f a)) → no_panic (m ≫= f).
Proof. unfold no_panic. intros Hm Hf. destruct m; simpl; [by apply Hf|done|done]. Qed.
Lemma no_panic_Ok {E A} (a : A) : no_panic (E:=E) (Ok a).
Proof. done. Qed.
Lemma no_panic_Err {E A} (e : E) : no_panic (A:=A) (Err e).
Proof. done. Qed.
Lemma no_panic_ok_or {E A} (o : option A) (e : E) : no_panic (ok_or o e).
Proof. by destruct o. Qed.
Lemma no_panic_slice {E} data a b :
  a ≤ b → b ≤ length data → no_panic (slice (E:=E) data a b).
Proof. intros. rewrite slice_in by done. done. Qed.
Lemma no_panic_index {E} data i : i < length data → no_panic (index (E:=E) data i).
Proof. intros (b & _ & Hb)%(index_in (E:=E)). by rewrite Hb. Qed.
Lemma no_panic_indices {E} data pos n :
  pos + n ≤ length data → no_panic (indices (E:=E) data pos n).
Proof.
  revert pos. induction n as [|n IH]; intros pos H; simpl; [done|].
  apply no_panic_bind; [apply no_panic_index; lia|intros b _].
  apply no_panic_bind; [apply IH; lia|done].
Qed.
Lemma no_panic_array {E} n s : length s = n → no_panic (array (E:=E) n s).
Proof. intros. by rewrite array_ok. Qed.

Lemma slice_Ok_length {E} data a b m :
  slice (E:=E) data a b = Ok m → length m = b - a.
Proof.
  unfold slice. case_decide as H; [|discriminate]. intros [= <-].
  rewrite length_take, length_drop. lia.
Qed.

Create Rewrite HintDb lens.
#[export] Hint Rewrite @length_app @length_cons @length_nil @length_replicate : lens.
#[export] Hint Rewrite length_to_le length_to_be : lens.

Create HintDb wire.
#[export] Hint Resolve no_panic_Ok no_panic_Err no_panic_ok_or : wire.
#[export] Hint Resolve len_u8_bound len_le_bound len_be_bound : wire.
#[export] Hint Extern 1 (in_u _ (from_le _)) => eapply from_le_in_u; [|eassumption]; done : wire.
#[export] Hint Extern 1 (in_u _ (from_be _)) => eapply from_be_in_u; [|eassumption]; done : wire.
#[export] Hint Resolve cursor_start length_to_le length_to_be array_ok : wire.

(** * UTF-8: the bytes [String::from_utf8] accepts *)

Definition between (lo hi : Z) (b : byte) : bool := ((lo <=? u8 b) && (u8 b <=? hi))%Z.
Definition continuation : byte → bool := between 0x80 0xBF.

Fixpoint utf8_valid (l : bytes) : bool :=
  match l with
  | [] => true
  | b0 :: r0 =>
      if between 0x00 0x7F b0 then utf8_valid r0
      else if between 0xC2 0xDF b0 then
        match r0 with
        | b1 :: r1 => continuation b1 && utf8_valid r1
        | _ => false
        end
      else if between 0xE0 0xEF b0 then
        match r0 with
        | b1 :: b2 :: r2 =>
            (if between 0xE0 0xE0 b0 then between 0xA0 0xBF b1
             else if between 0xED 0xED b0 then between 0x80 0x9F b1
             else continuation b1)
            && continuation b2 && utf8_valid r2
        | _ => false
        end
      else if between 0xF0 0xF4 b0 then
        match r0 with
        | b1 :: b2 :: b3 :: r3 =>
            (if between 0xF0 0xF0 b0 then between 0x90 0xBF b1
             else if between 0xF4 0xF4 b0 then between 0x80 0x8F b1
             else continuation b1)
            && continuation b2 && continuation b3 && utf8_valid r3
        | _ => false
        end
      else false
  end.

Definition from_utf8 (l : bytes) : option bytes := if utf8_valid l then Some l else None.

Lemma from_utf8_valid l : utf8_valid l = true → from_utf8 l = Some l.
Proof. unfold from_utf8. by intros ->. Qed.
Lemma from_utf8_inv l s : from_utf8 l = Some s → s = l ∧ utf8_valid l = true.
Proof. unfold from_utf8. destruct (utf8_valid l); naive_solver. Qed.

(** Every ASCII string is valid. *)
Lemma utf8_ascii l : Forall (λ b, u8 b < 128)%Z l → utf8_valid l = true.
Proof.
  induction 1 as [|b l Hb _ IH]; [done|]. simpl.
  replace (between 0x00 0x7F b) with true; [done|].
  symmetry. unfold between. pose proof (u8_range b).
  apply andb_true_intro. split; apply Z.leb_le; lia.
Qed.

(** * Hexadecimal text: [{:02X}], [{:08X}] *)

Definition hex_digit (z : Z) : byte := as_u8 (if (z <? 10)%Z then 48 + z else 55 + z).
Definition hex2 (b : byte) : bytes := [hex_digit (u8 b / 16); hex_digit (u8 b mod 16)].
Definition hex8 (z : Z) : bytes := to_be 4 z ≫= hex2.

Lemma hex_digit_u8 z :
  (0 ≤ z < 16)%Z → u8 (hex_digit z) = (if (z <? 10)%Z then 48 + z else 55 + z)%Z.
Proof. intros. unfold hex_digit. case_match; apply u8_as_u8_small; lia. Qed.
Lemma hex_digit_ascii z : (0 ≤ z < 16)%Z → (u8 (hex_digit z) < 128)%Z.
Proof. intros. rewrite hex_digit_u8 by done. case_match; lia. Qed.
Lemma hex_digit_inj x y :
  (0 ≤ x < 16)%Z → (0 ≤ y < 16)%Z → hex_digit x = hex_digit y → x = y.
Proof.
  intros Hx Hy H%(f_equal u8). rewrite !hex_digit_u8 in H by done.
  destruct (Z.ltb_spec x 10), (Z.ltb_spec y 10); lia.
Qed.

(** The two hexadecimal digits of a byte. *)
Lemma nibbles b : (0 ≤ u8 b / 16 < 16)%Z ∧ (0 ≤ u8 b mod 16 < 16)%Z.
Proof.
  pose proof (u8_range b). split; [|apply Z.mod_pos_bound; lia].
  split; [apply Z.div_pos; lia|apply Z.div_lt_upper_bound; lia].
Qed.
Lemma hex2_ascii b : Forall (λ c, u8 c < 128)%Z (hex2 b).
Proof. destruct (nibbles b). repeat constructor; by apply hex_digit_ascii. Qed.
Lemma hex2_inj b c : hex2 b = hex2 c → b = c.
Proof.
  destruct (nibbles b), (nibbles c). intros [= Hhi Hlo]. apply u8_inj.
  apply hex_digit_inj in Hhi, Hlo; [|done..].
  rewrite (Z_div_mod_eq_full (u8 b) 16), (Z_div_mod_eq_full (u8 c) 16). congruence.
Qed.

Lemma to_be_inj n z z' :
  in_u (8 * Z.of_nat n) z → in_u (8 * Z.of_nat n) z' → to_be n z = to_be n z' → z = z'.
Proof.
  intros Hz Hz' H. rewrite <- (be_roundtrip n _ z eq_refl Hz), H. by apply (be_roundtrip n _ _ eq_refl).
Qed.
Lemma bind_hex2_inj l l' : l ≫= hex2 = l' ≫= hex2 → l = l'.
Proof.
  revert l'. induction l as [|b l IH]; intros [|b' l'] H; cbn in H; try done.
  injection H as H1 H2 H3. f_equal; [|by apply IH].
  apply hex2_inj. unfold hex2. by rewrite H1, H2.
Qed.
Lemma hex8_inj z z' : in_u 32 z → in_u 32 z' → hex8 z = hex8 z' → z = z'.
Proof. intros ? ? H%bind_hex2_inj. by apply (to_be_inj 4) in H. Qed.

(** * Automation for decoders *)

(** One read of a decoder cannot panic; the side goals are lengths. *)
Ltac panic_free_step :=
  match goal with
  | |- no_panic (if ?c then _ else _) => destruct c
  | |- no_panic (match ?c with _ => _ end) => destruct c
  | |- no_panic (_ ≫= _) => apply no_panic_bind; [|intros ? ?]
  | |- no_panic (slice _ _ _) => apply no_panic_slice; [try lia|try lia]
  | |- no_panic (indices _ _ _) => apply no_panic_indices; try lia
  | |- no_panic (index _ _) => apply no_panic_index; try lia
  | H : slice _ _ _ = Ok ?s |- no_panic (array _ ?s) =>
      apply no_panic_array; rewrite (slice_Ok_length _ _ _ _ H); lia
  | |- no_panic _ => solve [eauto with wire]
  end.
Ltac panic_free := repeat (cbv zeta; panic_free_step).

(** One step of a decoder that returned [Ok]: invert the bind, the guard or the
    read in hypothesis [H], and move the cursor hypothesis along. *)
Ltac decode_inv_step H :=
  match type of H with
  | (if decide ?c then _ else _) = Ok _ => destruct (decide c); [discriminate|]
  | (if ?c then Err _ else _) = Ok _ => destruct c eqn:?; [discriminate|]
  | _ ≫= _ = Ok _ =>
      let a := fresh "v" in let Ha := fresh "Hv" in
      apply bind_Ok_inv in H as (a & Ha & H);
      lazymatch type of Ha with
      | slice ?d ?p _ = Ok _ =>
          match goal with
          | C : cursor d p _ |- _ =>
              let r := fresh "rest" in let Hl := fresh "Hlen" in
              apply (slice_inv _ _ _ _ _ C) in Ha as (r & -> & Hl & ?); clear C
          | C : cursor d _ _ |- _ =>
              let r := fresh "rest" in let Hl := fresh "Hlen" in
              apply (slice_inv_at _ _ _ _ _ _ C) in Ha as (r & -> & Hl & ?); [|lia]; clear C;
              try match type of Hl with
                  | _ = ?q + ?n - ?q => replace (q + n - q) with n in Hl by lia
                  end
          end
      | indices ?d ?p _ = Ok _ =>
          match goal with
          | C : cursor d p _ |- _ =>
              let r := fresh "rest" in let Hl := fresh "Hlen" in
              apply (indices_inv _ _ _ _ _ C) in Ha as (r & -> & Hl & ?); clear C
          | C : cursor d _ _ |- _ =>
              let r := fresh "rest" in let Hl := fresh "Hlen" in
              apply (indices_inv_at _ _ _ _ _ _ C) in Ha as (r & -> & Hl & ?); [|lia]; clear C
          end
      | index ?d ?p = Ok _ =>
          match goal with
          | C : cursor d p _ |- _ =>
              let r := fresh "rest" in
              apply (index_inv _ _ _ _ C) in Ha as (r & -> & ?); clear C
          | C : cursor d ?q _ |- _ =>
              let r := fresh "rest" in
              replace p with q in Ha by lia;
              apply (index_inv _ _ _ _ C) in Ha as (r & -> & ?); clear C
          end
      | array _ _ = Ok _ => apply array_inv in Ha as [<- ?]
      | ok_or (from_utf8 _) _ = Ok _ =>
          apply ok_or_inv in Ha; apply from_utf8_inv in Ha as [-> ?]
      | ok_or _ _ = Ok _ => apply ok_or_inv in Ha
      | _ => idtac
      end
  end.
Ltac decode_inv H := repeat (cbv zeta in H; decode_inv_step H).

(** One step of a decoder run on what its encoder wrote; [C] is the cursor. *)
Ltac decode_step C :=
  cbv zeta;
  match goal with
  | |- context [from_le [as_u8 ?z; as_u8 (?z / 256)]] => rewrite <- (to_le_2 z)
  | |- context [Z.to_nat (u8 (as_u8 (zlen ?l)))] => rewrite (len_u8 l) by done
  | |- context [Z.to_nat (from_le (to_le ?n (zlen ?l)))] => rewrite (len_le n l) by done
  | |- context [Z.to_nat (from_be (to_be ?n (zlen ?l)))] => rewrite (len_be n l) by done
  | |- (if decide ?c then Err _ else _) = _ =>
      rewrite (decide_False (P:=c)) by
        (let HL := fresh in pose proof (cursor_length _ _ _ C) as HL;
         autorewrite with lens in HL; lia)
  | |- (if decide ?c then Err _ else _) ≫= _ = _ =>
      rewrite (decide_False (P:=c)) by
        (let HL := fresh in pose proof (cursor_length _ _ _ C) as HL;
         autorewrite with lens in HL; lia)
  | |- (_ ≫= _) ≫= _ = _ => rewrite bind_assoc
  | |- slice _ _ _ ≫= _ = _ =>
      erewrite (cursor_slice _ _ _ _ _ C) by (rewrite ?length_to_le, ?length_to_be; done);
      eapply cursor_skip in C; [|rewrite ?length_to_le, ?length_to_be; done];
      cbn [mbind outcome_bind]
  | |- indices _ _ _ ≫= _ = _ =>
      erewrite (cursor_indices _ _ _ _ _ C) by (rewrite ?length_to_le, ?length_to_be; done);
      eapply cursor_skip in C; [|rewrite ?length_to_le, ?length_to_be; done];
      cbn [mbind outcome_bind]
  | |- index _ _ ≫= _ = _ =>
      rewrite (cursor_index _ _ _ _ C); apply cursor_cons in C; cbn [mbind outcome_bind]
  | |- slice _ ?a ?b ≫= _ = _ =>
      rewrite (cursor_slice_at _ _ _ _ a b C) by (autorewrite with lens; lia);
      eapply cursor_skip in C; [|reflexivity]; cbn [mbind outcome_bind]
  | |- indices _ ?a ?n ≫= _ = _ =>
      rewrite (cursor_indices_at _ _ _ _ a n C) by (autorewrite with lens; lia);
      eapply cursor_skip in C; [|reflexivity]; cbn [mbind outcome_bind]
  | |- index _ ?a ≫= _ = _ =>
      rewrite (cursor_index_at _ _ _ _ a C) by (autorewrite with lens; lia);
      apply cursor_cons in C; cbn [mbind outcome_bind]
  | |- array _ _ ≫= _ = _ =>
      rewrite array_ok by (rewrite ?length_to_le, ?length_to_be; done);
      cbn [mbind outcome_bind]
  | |- ok_or (from_utf8 _) _ ≫= _ = _ =>
      rewrite from_utf8_valid by done; cbn [ok_or mbind outcome_bind]
  end.

(** The bytes a decoder read are those the encoder writes for the value. *)
Ltac wire_eq :=
  repeat match goal with
  | H : length ?l = Z.to_nat (u8 ?b) |- context [as_u8 (zlen ?l)] =>
      rewrite (len_u8_inv l b H)
  | H : length ?l = Z.to_nat (from_le ?m) |- context [to_le ?n (zlen ?l)] =>
      rewrite (len_le_inv n l m H) by done
  | H : length ?l = Z.to_nat (from_be ?m) |- context [to_be ?n (zlen ?l)] =>
      rewrite (len_be_inv n l m H) by done
  | |- context [to_le ?n (from_le ?l)] => rewrite (to_from_le_n n l) by done
  | |- context [to_be ?n (from_be ?l)] => rewrite (to_from_be_n n l) by done
  end;
  repeat (progress (rewrite <- ?(assoc_L (++)); cbn [app])); reflexivity.

(** Run a decoder as far as the cursor lemmas reach. *)
Ltac decode_run C := repeat decode_step C.
