(* ===== verification/Text.v ===== *)
(** Strings as the storage layer uses them: prefixes, the position of a separator,
    lossy UTF-8 decoding, and the byte order of database keys with the fact that
    makes prefix scans work, that the keys with a given prefix are contiguous. *)
From Stdlib Require Import ZArith Lia Strings.Byte Strings.String.
From stdpp Require Import prelude gmap sorting.
From S2P Require Import Prelude Wire.

Set Default Proof Using "Type".

(** * Prefixes and separators *)

(** [str::starts_with], and [str::contains]. *)
Fixpoint starts_with (needle hay : bytes) : bool :=
  match needle, hay with
  | [], _ => true
  | n :: needle, b :: hay => bool_decide (n = b) && starts_with needle hay
  | _ :: _, [] => false
  end.
Fixpoint contains (hay needle : bytes) : bool :=
  starts_with needle hay || match hay with [] => false | _ :: hay => contains hay needle end.

(** [str::strip_prefix]. *)
Definition strip_prefix (prefix s : bytes) : option bytes :=
  if starts_with prefix s then Some (drop (length prefix) s) else None.

(** [str::find] of an ASCII character, and the text before it. *)
Definition find_byte (p : byte → bool) (s : bytes) : option nat :=
  fst <$> list_find (λ b, p b = true) s.

Definition is_colon (b : byte) : bool := bool_decide (u8 b = 58%Z).

Lemma starts_with_spec p s : starts_with p s = true ↔ ∃ r, s = p ++ r.
Proof.
  revert s. induction p as [|b p IH]; intros [|c s]; cbn; [naive_solver..|by split; [|intros []]|].
  rewrite andb_true_iff, bool_decide_eq_true, IH. naive_solver.
Qed.
Lemma starts_with_app p r : starts_with p (p ++ r) = true.
Proof. apply starts_with_spec. eauto. Qed.

Lemma strip_prefix_Some p s r : strip_prefix p s = Some r ↔ s = p ++ r.
Proof.
  unfold strip_prefix. split.
  - destruct (starts_with p s) eqn:Hs; [|done]. apply starts_with_spec in Hs as [r' ->].
    rewrite drop_app_length. by intros [= ->].
  - intros ->. by rewrite starts_with_app, drop_app_length.
Qed.

(** The key [collection ":" id] determines both parts when the collection has no
    colon. *)
Lemma find_byte_sep (p : byte → bool) c b r :
  Forall (λ x, p x = false) c → p b = true → find_byte p (c ++ b :: r) = Some (length c).
Proof.
  intros Hc Hb. unfold find_byte. induction Hc as [|x c Hx Hc IH]; cbn [app list_find].
  - by rewrite decide_True.
  - rewrite decide_False by (by rewrite Hx). cbn [length].
    destruct (list_find _ (c ++ b :: r)) as [[i y]|]; [|done]. cbn in *. congruence.
Qed.

Lemma find_byte_inv p s n :
  find_byte p s = Some n →
  ∃ b r, s = take n s ++ b :: r ∧ p b = true ∧ Forall (λ x, p x = false) (take n s).
Proof.
  unfold find_byte. revert n. induction s as [|x s IH]; intros n; [done|]. cbn [list_find].
  case_decide as Hx.
  - intros [= <-]. by exists x, s.
  - destruct (list_find _ s) as [[i y]|]; [|done]. cbn in IH |- *. intros [= <-].
    destruct (IH i eq_refl) as (b & r & Hs & Hb & Hall). exists b, r. cbn [take app].
    split_and!; [congruence|done|]. constructor; [by apply not_true_is_false|done].
Qed.

(** * Lossy decoding: [String::from_utf8_lossy] *)
Definition replacement : bytes := as_u8 <$> [0xEF; 0xBF; 0xBD]%Z.

Definition second3 (b0 b1 : byte) : bool :=
  if between 0xE0 0xE0 b0 then between 0xA0 0xBF b1
  else if between 0xED 0xED b0 then between 0x80 0x9F b1
  else continuation b1.
Definition second4 (b0 b1 : byte) : bool :=
  if between 0xF0 0xF0 b0 then between 0x90 0xBF b1
  else if between 0xF4 0xF4 b0 then between 0x80 0x8F b1
  else continuation b1.

(** A maximal invalid part becomes one replacement character. *)
Fixpoint from_utf8_lossy (l : bytes) : bytes :=
  match l with
  | [] => []
  | b0 :: r0 =>
      if between 0x00 0x7F b0 then b0 :: from_utf8_lossy r0
      else if between 0xC2 0xDF b0 then
        match r0 with
        | b1 :: r1 =>
            if continuation b1 then b0 :: b1 :: from_utf8_lossy r1
            else replacement ++ from_utf8_lossy r0
        | [] => replacement
        end
      else if between 0xE0 0xEF b0 then
        match r0 with
        | b1 :: r1 =>
            if second3 b0 b1 then
              match r1 with
              | b2 :: r2 =>
                  if continuation b2 then b0 :: b1 :: b2 :: from_utf8_lossy r2
                  else replacement ++ from_utf8_lossy r1
              | [] => replacement
              end
            else replacement ++ from_utf8_lossy r0
        | [] => replacement
        end
      else if between 0xF0 0xF4 b0 then
        match r0 with
        | b1 :: r1 =>
            if second4 b0 b1 then
              match r1 with
              | b2 :: r2 =>
                  if continuation b2 then
                    match r2 with
                    | b3 :: r3 =>
                        if continuation b3 then b0 :: b1 :: b2 :: b3 :: from_utf8_lossy r3
                        else replacement ++ from_utf8_lossy r2
                    | [] => replacement
                    end
                  else replacement ++ from_utf8_lossy r1
              | [] => replacement
              end
            else replacement ++ from_utf8_lossy r0
        | [] => replacement
        end
      else replacement ++ from_utf8_lossy r0
  end.

Lemma from_utf8_lossy_valid l : utf8_valid l = true → from_utf8_lossy l = l.
Proof.
  remember (length l) as n eqn:Hn. revert l Hn.
  induction (lt_wf n) as [n _ IH]; intros [|b0 r0] ->; [done|].
  cbn [utf8_valid from_utf8_lossy length] in *.
  destruct (between 0x00 0x7F b0). { intros Hv. f_equal. eapply IH; [|done|done]. lia. }
  destruct (between 0xC2 0xDF b0).
  { destruct r0 as [|b1 r1]; [done|]. intros [-> Hv]%andb_true_iff. do 2 f_equal.
    eapply IH; [|done|done]. cbn. lia. }
  destruct (between 0xE0 0xEF b0).
  { destruct r0 as [|b1 [|b2 r2]]; [done..|].
    intros [[H1 ->]%andb_true_iff Hv]%andb_true_iff. unfold second3. rewrite H1. do 3 f_equal.
    eapply IH; [|done|done]. cbn. lia. }
  destruct (between 0xF0 0xF4 b0); [|done].
  destruct r0 as [|b1 [|b2 [|b3 r3]]]; [done..|].
  intros [[[H1 ->]%andb_true_iff ->]%andb_true_iff Hv]%andb_true_iff. unfold second4. rewrite H1.
  do 4 f_equal. eapply IH; [|done|done]. cbn. lia.
Qed.

(** * The byte order of keys *)
Fixpoint bytes_leb (a b : bytes) : bool :=
  match a, b with
  | [], _ => true
  | _ :: _, [] => false
  | x :: a, y :: b => (u8 x <? u8 y)%Z || (bool_decide (x = y) && bytes_leb a b)
  end.
Definition bytes_le (a b : bytes) : Prop := bytes_leb a b = true.

(** [str::cmp]. *)
Definition bytes_cmp (a b : bytes) : comparison :=
  if decide (a = b) then Eq else if bytes_leb a b then Lt else Gt.

Lemma prefix_le p r : bytes_le p (p ++ r).
Proof.
  unfold bytes_le. induction p as [|x p IH]; [done|]. cbn.
  by rewrite IH, bool_decide_eq_true_2, orb_true_r.
Qed.

Global Instance bytes_le_trans : Transitive bytes_le.
Proof.
  unfold bytes_le. intros a. induction a as [|x a IH]; intros [|y b] [|z c]; try done. cbn [bytes_leb].
  rewrite !orb_true_iff, !andb_true_iff, !bool_decide_eq_true, !Z.ltb_lt.
  intros [Hxy|[-> Hab]] [Hyz|[-> Hbc]]; [left; lia|by left|by left|right; eauto].
Qed.
Global Instance bytes_le_total : Total bytes_le.
Proof.
  unfold bytes_le. intros a. induction a as [|x a IH]; intros [|y b]; cbn [bytes_leb]; try (by left); try (by right).
  rewrite !orb_true_iff, !andb_true_iff, !bool_decide_eq_true, !Z.ltb_lt.
  destruct (Z.lt_trichotomy (u8 x) (u8 y)) as [|[->%u8_inj|]]; [by auto| |by auto].
  destruct (IH b); [left|right]; auto.
Qed.

Lemma bytes_le_antisym a b : bytes_le a b → bytes_le b a → a = b.
Proof.
  unfold bytes_le. revert b. induction a as [|x a IH]; intros [|y b]; try done. cbn [bytes_leb].
  rewrite !orb_true_iff, !andb_true_iff, !bool_decide_eq_true, !Z.ltb_lt.
  intros [?|[-> ?]] [?|[? ?]]; try lia; [by subst; lia|]. f_equal. auto.
Qed.
Lemma bytes_cmp_opp a b : bytes_cmp b a = CompOpp (bytes_cmp a b).
Proof.
  unfold bytes_cmp. destruct (decide (a = b)) as [->|Hne]; [by rewrite decide_True|].
  rewrite decide_False by congruence. pose proof (bytes_le_antisym a b) as Ha. pose proof (bytes_le_total a b) as Ht.
  unfold bytes_le in *. destruct (bytes_leb a b), (bytes_leb b a); try done; naive_solver.
Qed.
Lemma bytes_cmp_le a b : bytes_cmp a b ≠ Gt ↔ bytes_le a b.
Proof.
  unfold bytes_cmp, bytes_le. case_decide as D; [subst|by destruct (bytes_leb a b)].
  split; [|done]. intros _. destruct (bytes_le_total b b); done.
Qed.

(** Between a prefix and a key that has it, every key has it. *)
Lemma prefix_convex p : ∀ a b,
  bytes_le p a → bytes_le a b → starts_with p b = true → starts_with p a = true.
Proof.
  unfold bytes_le. induction p as [|x p IH]; intros a b Hpa Hab Hb; [done|].
  destruct b as [|z b]; [done|]. destruct a as [|y a]; [done|]. cbn in *.
  apply andb_true_iff in Hb as [->%bool_decide_eq_true Hb].
  apply orb_true_iff in Hpa as [Hzy%Z.ltb_lt|[->%bool_decide_eq_true Hpa]%andb_true_iff];
    apply orb_true_iff in Hab as [Hyz%Z.ltb_lt|[Heq%bool_decide_eq_true Hab]%andb_true_iff];
    subst; try lia.
  rewrite bool_decide_eq_true_2 by done. cbn. eauto.
Qed.

Lemma StronglySorted_sublist {A} (R : relation A) l k :
  l `sublist_of` k → StronglySorted R k → StronglySorted R l.
Proof.
  induction 1 as [|x l k Hs IH|x l k Hs IH]; [done|..];
    intros [Hk Hx]%StronglySorted_inv; [|by apply IH].
  constructor; [by apply IH|]. rewrite Forall_forall in Hx |- *.
  intros y Hy. by eapply Hx, elem_of_sublist.
Qed.

(** The scan that stops at the first key without the prefix finds them all. *)
Fixpoint take_prefixed {V} (p : bytes) (l : list (bytes * V)) : list (bytes * V) :=
  match l with
  | [] => []
  | e :: l => if starts_with p e.1 then e :: take_prefixed p l else []
  end.

Lemma take_prefixed_filter {V} p (l : list (bytes * V)) :
  StronglySorted bytes_le l.*1 → Forall (bytes_le p) l.*1 →
  take_prefixed p l = filter (λ e, starts_with p e.1 = true) l.
Proof.
  induction l as [|[k v] l IH]; [done|]. cbn [fmap list_fmap fst take_prefixed].
  intros [Hs Hk]%StronglySorted_inv [Hp Hpl]%Forall_cons. rewrite filter_cons. cbn [fst].
  destruct (starts_with p k) eqn:Hst; [by rewrite decide_True, IH|].
  rewrite decide_False by done. symmetry.
  clear IH Hs Hpl. induction l as [|[k' v'] l IH]; [done|]. cbn in Hk.
  apply Forall_cons in Hk as [Hk Hkl]. rewrite filter_cons, decide_False; [by apply IH|].
  cbn. intros Hk'. rewrite (prefix_convex p k k') in Hst; done.
Qed.

(** * Tables read through a partial function on the values *)
Definition keyed {V W} (f : V → option W) (e : bytes * V) : option (bytes * W) :=
  (λ w, (e.1, w)) <$> f e.2.

Lemma keyed_filter {V W} (f : V → option W) (keep : bytes → bool) (l : list (bytes * V)) :
  omap (keyed f) (filter (λ e, keep e.1 = true) l)
  = filter (λ e, keep e.1 = true) (omap (keyed f) l).
Proof.
  assert (∀ k v l', omap (keyed f) ((k, v) :: l') =
    match f v with Some w => (k, w) :: omap (keyed f) l' | None => omap (keyed f) l' end) as Hcons.
  { intros k v l'. cbn. unfold keyed at 1. cbn. by destruct (f v). }
  induction l as [|[k v] l IH]; [done|]. rewrite filter_cons, Hcons. cbn [fst].
  destruct (keep k) eqn:Hk; cbn [fst];
    [rewrite decide_True, Hcons by done|rewrite decide_False by done];
    destruct (f v); try rewrite filter_cons; cbn [fst]; rewrite ?Hk, IH; done.
Qed.

Lemma keyed_entries {V W} (f : V → option W) (l : list (bytes * V)) :
  NoDup l.*1 →
  omap (keyed f) l ≡ₚ map_to_list (omap f (list_to_map l : gmap bytes V)).
Proof.
  intros Hnd. apply NoDup_Permutation.
  - apply NoDup_fmap_1 with (f := fst). eapply sublist_NoDup; [exact Hnd|].
    clear Hnd. induction l as [|[k v] l IH]; [done|]. cbn. unfold keyed at 1. cbn.
    destruct (f v); cbn; by constructor.
  - apply NoDup_map_to_list.
  - intros [k w]. rewrite list_elem_of_omap, elem_of_map_to_list, lookup_omap. split.
    + intros ([k' v] & Hin & (w' & Hw & [= -> ->])%fmap_Some). cbn in *.
      apply (elem_of_list_to_map (M := gmap bytes)) in Hin; [|done]. by rewrite Hin.
    + intros (v & Hv & Hw)%bind_Some. exists (k, v).
      split; [by apply (elem_of_list_to_map (M := gmap bytes))|]. unfold keyed. cbn. by rewrite Hw.
Qed.

(** * Maps without some keys *)
Definition remove_keys {V} (ks : list bytes) (m : gmap bytes V) : gmap bytes V :=
  filter (λ e, e.1 ∉ ks) m.
Lemma lookup_remove_keys {V} (ks : list bytes) (m : gmap bytes V) (k : bytes) :
  remove_keys ks m !! k = if decide (k ∈ ks) then None else m !! k.
Proof.
  unfold remove_keys. case_decide as Hk.
  - apply map_lookup_filter_None. right. intros x _ Hn. by apply Hn.
  - destruct (m !! k) as [x|] eqn:Hm; [by apply map_lookup_filter_Some|].
    apply map_lookup_filter_None. by left.
Qed.
Lemma remove_keys_nil {V} (m : gmap bytes V) : remove_keys [] m = m.
Proof. apply map_eq. intros k. rewrite lookup_remove_keys, decide_False; [done|]. apply not_elem_of_nil. Qed.
Lemma remove_keys_cons {V} (k : bytes) (ks : list bytes) (m : gmap bytes V) :
  remove_keys (k :: ks) m = remove_keys ks (delete k m).
Proof.
  apply map_eq. intros k'. rewrite !lookup_remove_keys, lookup_delete.
  repeat case_decide; set_solver.
Qed.
Lemma remove_keys_app {V} (ks1 ks2 : list bytes) (m : gmap bytes V) :
  remove_keys (ks1 ++ ks2) m = remove_keys ks2 (remove_keys ks1 m).
Proof.
  apply map_eq. intros k. rewrite !lookup_remove_keys. repeat case_decide; set_solver.
Qed.
Lemma size_delete {V} (k : bytes) (m : gmap bytes V) :
  size m = size (delete k m) + (if bool_decide (is_Some (m !! k)) then 1 else 0).
Proof.
  case_bool_decide as Hk.
  - destruct Hk as [v Hv]. pose proof (map_size_delete_Some k m (mk_is_Some _ _ Hv)).
    assert (size m ≠ 0). { rewrite map_size_non_empty_iff. intros ->. by rewrite lookup_empty in Hv. }
    lia.
  - rewrite delete_id; [lia|]. by apply eq_None_not_Some.
Qed.
Lemma remove_keys_sub {V} (ks : list bytes) (m : gmap bytes V) : remove_keys ks m ⊆ m.
Proof. apply map_filter_subseteq. Qed.

(** * The [hex] crate *)
Class Hex := {
  hex_encode : bytes → bytes;
  hex_decode : bytes → option bytes
}.
Class HexLaws `{!Hex} : Prop := {
  hex_decode_encode b : hex_decode (hex_encode b) = Some b;
  (** Digits and letters. *)
  hex_alphanumeric b :
    Forall (λ c, 48 ≤ u8 c ≤ 57 ∨ 97 ≤ u8 c ≤ 102)%Z (hex_encode b)
}.
Lemma hex_encode_inj `{!Hex} {HL : HexLaws} a b : hex_encode a = hex_encode b → a = b.
Proof. intros E%(f_equal hex_decode). rewrite !hex_decode_encode in E. congruence. Qed.
Lemma hex_utf8 `{!Hex} {HL : HexLaws} b : utf8_valid (hex_encode b) = true.
Proof. apply utf8_ascii. eapply Forall_impl; [apply hex_alphanumeric|]. cbn. intros c ?. lia. Qed.
