(* ===== verification/Iteration.v ===== *)
(** What the components use of Rust's iterators: the unspecified order of a hash map,
    maxima by a key, and stable sorts. *)
From Stdlib Require Import ZArith Lia Sorting.Sorted.
From stdpp Require Import prelude gmap.
From S2P Require Import Prelude Wire.

Set Default Proof Using "Type".

(** The order in which a [HashMap] is iterated: any one. *)
Class IterOrder (K V : Type) `{Countable K} := {
  iter : gmap K V → list (K * V);
  iter_perm m : iter m ≡ₚ map_to_list m
}.
(** The order of the keys' codes. *)
Definition key_order K V `{Countable K} : IterOrder K V :=
  {| iter := map_to_list; iter_perm m := Permutation_refl _ |}.

(** The order of a [HashSet] of strings. *)
Class SetOrder := { set_iter : gset bytes → list bytes; set_iter_perm s : set_iter s ≡ₚ elements s }.
Lemma elem_of_set_iter {O : SetOrder} (x : bytes) (s : gset bytes) : x ∈ set_iter s ↔ x ∈ s.
Proof. by rewrite set_iter_perm, elem_of_elements. Qed.

Lemma elem_of_iter {K V} `{Countable K} {O : IterOrder K V} (m : gmap K V) k v :
  (k, v) ∈ iter m ↔ m !! k = Some v.
Proof. rewrite iter_perm. apply elem_of_map_to_list. Qed.
Lemma NoDup_iter_fst {K V} `{Countable K} {O : IterOrder K V} (m : gmap K V) : NoDup (iter m).*1.
Proof. rewrite iter_perm. apply NoDup_fst_map_to_list. Qed.

(** * [Iterator::max_by_key]: the last of the maximal elements *)
Section max.
Context {A : Type}.
Definition max_step (key : A → Z) (acc : option A) (x : A) : option A :=
  match acc with
  | Some y => if decide (key y ≤ key x)%Z then Some x else Some y
  | None => Some x
  end.
Definition max_by_key (key : A → Z) (l : list A) : option A := foldl (max_step key) None l.

Lemma max_fold key l y :
  ∃ x, foldl (max_step key) (Some y) l = Some x ∧ (x = y ∨ x ∈ l) ∧ (key y ≤ key x)%Z
       ∧ ∀ z, z ∈ l → (key z ≤ key x)%Z.
Proof.
  revert y. induction l as [|a l IH]; intros y; cbn [foldl].
  - exists y. split_and!; [done|by left|lia|]. by intros z ?%elem_of_nil.
  - unfold max_step at 2. case_decide as D.
    + destruct (IH a) as (x & -> & [->|Hx] & Hle & Hall); eexists; (split; [done|]).
      * split_and!; [right; by left|lia|]. intros z [->|?]%elem_of_cons; [lia|auto].
      * split_and!; [right; by right|lia|]. intros z [->|?]%elem_of_cons; [lia|auto].
    + destruct (IH y) as (x & -> & [->|Hx] & Hle & Hall); eexists; (split; [done|]).
      * split_and!; [by left|lia|]. intros z [->|?]%elem_of_cons; [lia|auto].
      * split_and!; [right; by right|lia|]. intros z [->|?]%elem_of_cons; [lia|auto].
Qed.
Lemma max_by_key_Some key l x :
  max_by_key key l = Some x → x ∈ l ∧ ∀ z, z ∈ l → (key z ≤ key x)%Z.
Proof.
  destruct l as [|y l]; [done|]. unfold max_by_key. cbn [foldl max_step].
  destruct (max_fold key l y) as (x' & -> & Hx & Hy & Hall). intros [= <-]. split.
  - apply elem_of_cons. naive_solver.
  - intros z [->|?]%elem_of_cons; [done|auto].
Qed.
Lemma max_by_key_None key l : max_by_key key l = None ↔ l = [].
Proof.
  destruct l as [|y l]; [done|]. unfold max_by_key. cbn [foldl max_step].
  by destruct (max_fold key l y) as (x' & -> & _).
Qed.
End max.

(** * [slice::sort_by]

    A stable sort: insertion behind every element that is not after the new one.
    [before x y] says that [x] is to come before [y]. *)
Section sort.
Context {A : Type} (before : A → A → bool).
Fixpoint insert_by (x : A) (l : list A) : list A :=
  match l with
  | [] => [x]
  | y :: l' => if before x y then x :: l else y :: insert_by x l'
  end.
Definition sort_by (l : list A) : list A := foldl (λ acc x, insert_by x acc) [] l.

Lemma insert_by_perm x l : insert_by x l ≡ₚ x :: l.
Proof.
  induction l as [|y l IH]; [done|]. cbn [insert_by]. destruct (before x y); [done|].
  rewrite IH. apply Permutation_swap.
Qed.
Lemma sort_by_fold_perm l acc : foldl (λ acc x, insert_by x acc) acc l ≡ₚ l ++ acc.
Proof.
  revert acc. induction l as [|x l IH]; intros acc; cbn [foldl app]; [done|].
  rewrite IH, insert_by_perm. by rewrite Permutation_middle.
Qed.
Lemma sort_by_perm l : sort_by l ≡ₚ l.
Proof. unfold sort_by. by rewrite sort_by_fold_perm, app_nil_r. Qed.
Lemma elem_of_sort_by l x : x ∈ sort_by l ↔ x ∈ l.
Proof. by rewrite sort_by_perm. Qed.

(** When [before] is the strict part of an order [R] that is total on the elements, the
    result is sorted. *)
Lemma sort_by_sorted_on (P : A → Prop) (R : relation A) l :
  (∀ x y, P x → P y → before x y = true → R x y) →
  (∀ x y, P x → P y → before x y = false → R y x) →
  (∀ x y z, P x → P y → P z → R x y → R y z → R x z) →
  Forall P l → StronglySorted R (sort_by l).
Proof.
  intros Ht Hf HR Hl. unfold sort_by.
  assert (∀ x acc, P x → Forall P acc → StronglySorted R acc → StronglySorted R (insert_by x acc)) as Hins.
  { intros x acc Px. induction acc as [|y acc IH]; intros Hp Hs; cbn [insert_by]; [by repeat constructor|].
    apply Forall_cons in Hp as [Py Hp]. apply StronglySorted_inv in Hs as [Hs Hall].
    destruct (before x y) eqn:B.
    - constructor; [by constructor|]. constructor; [by apply Ht|].
      rewrite Forall_forall in Hall, Hp |- *. intros z Hz. apply (HR x y z); auto.
    - constructor; [by apply IH|]. rewrite insert_by_perm. constructor; [by apply Hf|done]. }
  assert (∀ acc, Forall P acc → StronglySorted R acc →
    StronglySorted R (foldl (λ acc x, insert_by x acc) acc l)) as H; [|by apply H; constructor].
  induction Hl as [|x l Px Hl IH]; intros acc Hp Hs; cbn [foldl]; [done|].
  apply IH; [|by apply Hins]. rewrite insert_by_perm. by constructor.
Qed.
Lemma sort_by_sorted (R : relation A) l :
  (∀ x y, before x y = true → R x y) → (∀ x y, before x y = false → R y x) → Transitive R →
  StronglySorted R (sort_by l).
Proof.
  intros Ht Hf HR. apply (sort_by_sorted_on (λ _, True)); [by auto..| |by apply Forall_true].
  intros x y z _ _ _. apply HR.
Qed.
End sort.

(** [sort_by_key(Reverse(key))] *)
Definition sort_desc {A} (key : A → Z) (l : list A) : list A :=
  sort_by (λ x y, bool_decide (key y < key x)%Z) l.
Lemma sort_desc_sorted {A} (key : A → Z) l : StronglySorted (λ x y, key y ≤ key x)%Z (sort_desc key l).
Proof.
  apply sort_by_sorted.
  - intros x y ?%bool_decide_eq_true. lia.
  - intros x y ?%bool_decide_eq_false. lia.
  - intros x y z ? ?. lia.
Qed.

(** [slice::sort_by] with any comparison: stable when it is a total preorder on the
    elements; otherwise the order is unspecified and it may panic ([None]). *)
Definition total_preorder {A} (cmp : A → A → comparison) (l : list A) : Prop :=
  (∀ x y, x ∈ l → y ∈ l → cmp y x = CompOpp (cmp x y))
  ∧ ∀ x y z, x ∈ l → y ∈ l → z ∈ l → cmp x y ≠ Gt → cmp y z ≠ Gt → cmp x z ≠ Gt.
Definition is_lt (c : comparison) : bool := match c with Lt => true | _ => false end.
Class SliceSort := {
  slice_sort {A} (cmp : A → A → comparison) : list A → option (list A);
  slice_sort_total {A} (cmp : A → A → comparison) l :
    total_preorder cmp l → slice_sort cmp l = Some (sort_by (λ x y, is_lt (cmp x y)) l);
  slice_sort_perm {A} (cmp : A → A → comparison) l l' : slice_sort cmp l = Some l' → l' ≡ₚ l
}.

(** Sorting by a total preorder sorts. *)
Lemma sort_by_preorder {A} (cmp : A → A → comparison) l :
  total_preorder cmp l →
  StronglySorted (λ x y, cmp x y ≠ Gt) (sort_by (λ x y, is_lt (cmp x y)) l).
Proof.
  intros [Ho Ht].
  apply (sort_by_sorted_on (λ x y, is_lt (cmp x y)) (λ x, x ∈ l) (λ x y, cmp x y ≠ Gt) l).
  - by intros ?? _ _; destruct (cmp _ _).
  - intros a b Ha Hb. rewrite (Ho a b) by done. by destruct (cmp a b).
  - eauto.
  - by apply Forall_forall.
Qed.
(** The first of the sorted elements: none is before it. *)
Lemma slice_sort_head {SS : SliceSort} {A} (cmp : A → A → comparison) l :
  total_preorder cmp l →
  match slice_sort cmp l with
  | Some [] => l = []
  | Some (x :: _) => x ∈ l ∧ ∀ y, y ∈ l → cmp x y ≠ Gt
  | None => False
  end.
Proof.
  intros Hcmp. rewrite slice_sort_total by done. pose proof (sort_by_preorder cmp l Hcmp) as Hs.
  pose proof (sort_by_perm (λ x y, is_lt (cmp x y)) l) as Hp.
  destruct (sort_by _ l) as [|x r]; [by apply Permutation_nil in Hp|].
  assert (x ∈ l) as Hx by (rewrite <-Hp; by left). split; [done|].
  intros y. rewrite <-Hp, elem_of_cons. intros [->|Hy].
  - pose proof (proj1 Hcmp x x Hx Hx). by destruct (cmp x x).
  - apply StronglySorted_inv in Hs as [_ Hall]. rewrite Forall_forall in Hall. by apply Hall.
Qed.

(** The stable sort, whatever the comparison. *)
Definition insertion_sort : SliceSort.
Proof.
  refine {| slice_sort A cmp l := Some (sort_by (λ x y, is_lt (cmp x y)) l) |}.
  - done.
  - intros A cmp l l' [= <-]. apply sort_by_perm.
Defined.
