(* ===== verification/Float.v ===== *)
(** IEEE 754 arithmetic of [f32] and [f64], as far as the mesh computes with them:
    the executable binary floats of the Standard Library ([SpecFloat]), rounding to
    integers, and Rust's saturating casts. *)
From Stdlib Require Import ZArith Lia SpecFloat.
From stdpp Require Import prelude.
From S2P Require Import Prelude.

Set Default Proof Using "Type".

Abbreviation float := spec_float.

(** Casts to an integer saturate, a NaN becomes zero. *)
Definition cast_sat (lo hi : Z) (x : float) : Z :=
  match x with
  | S754_zero _ => 0
  | S754_infinity s => if s then lo else hi
  | S754_nan => 0
  | S754_finite s m e =>
      let q := if (0 <=? e)%Z then (Z.pos m * 2 ^ e)%Z else (Z.pos m / 2 ^ (- e))%Z in
      Z.max lo (Z.min hi (if s then - q else q))
  end.
Definition as_u (w : Z) (x : float) : Z := cast_sat 0 (umax w) x.

Lemma cast_sat_range lo hi x : (lo ≤ 0 ≤ hi)%Z → (lo ≤ cast_sat lo hi x ≤ hi)%Z.
Proof. intros H. unfold cast_sat. destruct x as [s|s| |s m e]; [|destruct s| |]; cbv zeta; lia. Qed.

Lemma as_u_range w x : (0 ≤ w)%Z → in_u w (as_u w x).
Proof.
  intros Hw. unfold as_u, in_u. pose proof (Z.pow_pos_nonneg 2 w ltac:(lia) Hw).
  pose proof (cast_sat_range 0 (umax w) x). unfold umax in *. lia.
Qed.

(** The operations of a format with [prec] bits of precision. *)
Section Format.
Variables prec emax : Z.
Definition of_Z (z : Z) : float := binary_normalize prec emax z 0 false.
(** The float nearest to [m * 2^e]. *)
Definition of_ZE (m e : Z) : float := binary_normalize prec emax m e false.
Definition fadd : float → float → float := SFadd prec emax.
Definition fsub : float → float → float := SFsub prec emax.
Definition fmul : float → float → float := SFmul prec emax.
Definition fdiv : float → float → float := SFdiv prec emax.

(** [round]: to the nearest integer, halves away from zero. *)
Definition fround (x : float) : float :=
  match x with
  | S754_finite s m e =>
      if (0 <=? e)%Z then x
      else
        let q := ((Z.pos m + 2 ^ (- e - 1)) / 2 ^ (- e))%Z in
        if (q =? 0)%Z then S754_zero s
        else binary_normalize prec emax (if s then - q else q) 0 s
  | _ => x
  end.
End Format.

(** [a < b], [a > b], [a == b]: false when one of them is a NaN. *)
Definition flt (a b : float) : bool := SFltb a b.
Definition fgt (a b : float) : bool := SFltb b a.
Definition fle (a b : float) : bool := SFleb a b.
Definition feq (a b : float) : bool := SFeqb a b.
Definition is_nan (x : float) : bool := match x with S754_nan => true | _ => false end.

(** [f64::min] and [f64::max] ignore a NaN. *)
Definition fmin (a b : float) : float :=
  if is_nan a then b else if is_nan b then a else if flt b a then b else a.
Definition fmax (a b : float) : float :=
  if is_nan a then b else if is_nan b then a else if flt a b then b else a.

Definition fneg (x : float) : float := SFopp x.
Definition fabs (x : float) : float := SFabs x.

Module F64.
Definition of_Z : Z → float := of_Z 53 1024.
Definition of_ZE : Z → Z → float := of_ZE 53 1024.
Definition add := fadd 53 1024.
Definition sub := fsub 53 1024.
Definition mul := fmul 53 1024.
Definition div := fdiv 53 1024.
Definition round := fround 53 1024.
Definition sqrt : float → float := SFsqrt 53 1024.
(** The literal [m * 10^-k]: the nearest double, for [m] and [10^k] that are doubles. *)
Definition dec (m k : Z) : float := div (of_Z m) (of_Z (10 ^ k)).
(** [f64::to_bits]; the payload of a NaN is that of the quiet one. *)
Definition to_bits (x : float) : Z :=
  let sign (s : bool) : Z := (if s then 2 ^ 63 else 0)%Z in
  match x with
  | S754_zero s => sign s
  | S754_infinity s => sign s + 2047 * 2 ^ 52
  | S754_nan => 2047 * 2 ^ 52 + 2 ^ 51
  | S754_finite s m e =>
      sign s + (if Z.pos m <? 2 ^ 52 then Z.pos m else (e + 1075) * 2 ^ 52 + (Z.pos m - 2 ^ 52))
  end%Z.
Definition from_bits (b : Z) : float :=
  let s := Z.testbit b 63 in
  let e := (b / 2 ^ 52 mod 2 ^ 11)%Z in
  let f := (b mod 2 ^ 52)%Z in
  if (e =? 2047)%Z then (if (f =? 0)%Z then S754_infinity s else S754_nan)
  else if (e =? 0)%Z
  then match f with Z.pos m => S754_finite s m (-1074) | _ => S754_zero s end
  else match (f + 2 ^ 52)%Z with
       | Z.pos m => S754_finite s m (e - 1075)
       | _ => S754_zero s
       end.
(** The remainder [%], exact and of the sign of the dividend, and [rem_euclid]. *)
Definition rem (x y : float) : float :=
  match x, y with
  | S754_nan, _ | _, S754_nan | S754_infinity _, _ | _, S754_zero _ => S754_nan
  | S754_zero _, _ | _, S754_infinity _ => x
  | S754_finite s m e, S754_finite _ n d =>
      let k := Z.min e d in
      let r := ((Z.pos m * 2 ^ (e - k)) mod (Z.pos n * 2 ^ (d - k)))%Z in
      if (r =? 0)%Z then S754_zero s
      else binary_normalize 53 1024 (if s then - r else r) k s
  end.
Definition rem_euclid (x y : float) : float :=
  let r := rem x y in if flt r (of_Z 0) then add r (fabs y) else r.
(** [Duration::as_secs_f64] of a number of nanoseconds. *)
Definition as_secs_f64 (d : Z) : float :=
  add (of_Z (d / 1000000000)) (div (of_Z (d mod 1000000000)) (of_Z 1000000000)).
End F64.

Module F32.
Definition of_Z : Z → float := of_Z 24 128.
Definition of_ZE : Z → Z → float := of_ZE 24 128.
Definition add := fadd 24 128.
Definition mul := fmul 24 128.
Definition div := fdiv 24 128.
End F32.

(** [f64::powi] has no specified rounding: a parameter. *)
Class Powi := powi : float → Z → float.
(** The precision of the transcendental functions is unspecified as well. *)
Class Libm := {
  fsin : float → float;
  fcos : float → float;
  fatan2 : float → float → float;
  fasin : float → float;
  fexp : float → float
}.

(** [Duration::from_secs_f64], in nanoseconds: rounded to the nearest, halves to
    even; negative, infinite and NaN arguments and those of 2^64 seconds panic. *)
Definition round_half_even (n d : Z) : Z :=
  let q := (n / d)%Z in
  let r := (n mod d)%Z in
  if (2 * r <? d)%Z then q
  else if (d <? 2 * r)%Z then (q + 1)%Z
  else if Z.even q then q else (q + 1)%Z.
Definition from_secs_f64 {E} (x : float) : outcome E Z :=
  match x with
  | S754_zero _ => Ok 0%Z
  | S754_finite false m e =>
      let ns := if (0 <=? e)%Z then (Z.pos m * 1000000000 * 2 ^ e)%Z
                else round_half_even (Z.pos m * 1000000000) (2 ^ (- e)) in
      if (ns / 1000000000 <? 2 ^ 64)%Z then Ok ns else Panic
  | _ => Panic
  end.

Lemma round_half_even_nonneg n d : (0 ≤ n)%Z → (0 < d)%Z → (0 ≤ round_half_even n d)%Z.
Proof.
  intros Hn Hd. unfold round_half_even. pose proof (Z.div_pos n d Hn Hd).
  repeat case_match; lia.
Qed.

Lemma from_secs_f64_nonneg {E} x d : from_secs_f64 (E:=E) x = Ok d → (0 ≤ d)%Z.
Proof.
  destruct x as [s|s| |[] m e]; cbn; try discriminate; [by intros [= <-]|].
  case_match; [|discriminate]. intros [= <-]. case_match.
  - apply Z.leb_le in H0. apply Z.mul_nonneg_nonneg; [lia|]. apply Z.pow_nonneg. lia.
  - apply Z.leb_gt in H0. apply round_half_even_nonneg; [lia|]. apply Z.pow_pos_nonneg; lia.
Qed.

(** * The order of floats

    [partial_cmp] orders everything but the NaNs, the two zeros being equal: by class,
    then exponent and mantissa, reversed for the negative ones. *)
Definition fkey (x : float) : Z * Z * Z :=
  match x with
  | S754_zero _ | S754_nan => (0, 0, 0)
  | S754_infinity s => (if s then -2 else 2, 0, 0)
  | S754_finite s m e => if s then (-1, - e, Z.neg m) else (1, e, Z.pos m)
  end%Z.
Definition key_le (a b : Z * Z * Z) : Prop :=
  (a.1.1 < b.1.1 ∨ a.1.1 = b.1.1 ∧ (a.1.2 < b.1.2 ∨ a.1.2 = b.1.2 ∧ a.2 ≤ b.2))%Z.

Lemma key_le_trans a b c : key_le a b → key_le b c → key_le a c.
Proof. unfold key_le. lia. Qed.
Lemma key_le_total a b : key_le a b ∨ key_le b a.
Proof. unfold key_le. lia. Qed.
Lemma fcompare_total x y : is_nan x = false → is_nan y = false → is_Some (SFcompare x y).
Proof. destruct x, y; cbn; done. Qed.
Lemma fcompare_opp x y : SFcompare y x = CompOpp <$> SFcompare x y.
Proof.
  destruct x as [[]|[]| |[] m e], y as [[]|[]| |[] m' e']; try done; cbn; do 2 f_equal.
  all: rewrite (Z.compare_antisym e e'); destruct (Z.compare e e'); try done; cbn.
  all: rewrite ?Pos.compare_cont_antisym; cbn; by rewrite ?CompOpp_involutive.
Qed.
Lemma fcompare_key x y c :
  SFcompare x y = Some c → c ≠ Gt ↔ key_le (fkey x) (fkey y).
Proof.
  unfold key_le.
  destruct x as [[]|[]| |[] m e], y as [[]|[]| |[] m' e']; cbn; try done; intros [= <-]; try (split; [lia|done]).
  all: try (split; [done|lia]).
  - destruct (Z.compare_spec e e'); [|split; [done|lia]|split; [lia|done]].
    change (Pos.compare_cont Eq m m') with (m ?= m')%positive.
    destruct (Pos.compare_spec m m'); cbn; split; lia || done.
  - destruct (Z.compare_spec e e'); [|split; [lia|done]|split; [done|lia]].
    change (Pos.compare_cont Eq m m') with (m ?= m')%positive.
    destruct (Pos.compare_spec m m'); cbn; split; lia || done.
Qed.

(** Comparisons of floats as an order. *)
Lemma flt_key x y : flt x y = true → is_nan x = false ∧ is_nan y = false ∧ ¬ key_le (fkey y) (fkey x).
Proof.
  unfold flt, SFltb. destruct (SFcompare x y) as [c|] eqn:E; [|done]. destruct c; try done. intros _.
  assert (SFcompare y x = Some Gt) as E' by by rewrite fcompare_opp, E.
  rewrite <-(fcompare_key _ _ _ E'). split_and!; [by destruct x| |naive_solver]. by destruct x, y.
Qed.
Lemma fle_key x y : fle x y = true → is_nan x = false ∧ is_nan y = false ∧ key_le (fkey x) (fkey y).
Proof.
  unfold fle, SFleb. destruct (SFcompare x y) as [c|] eqn:E; [|done]. intros H.
  rewrite <-(fcompare_key _ _ _ E). split_and!; [by destruct x|by destruct x, y|by destruct c].
Qed.
Lemma flt_key_2 x y :
  is_nan x = false → is_nan y = false → ¬ key_le (fkey y) (fkey x) → flt x y = true.
Proof.
  intros Hx Hy H. unfold flt, SFltb. destruct (fcompare_total x y Hx Hy) as [c E]. rewrite E.
  assert (SFcompare y x = Some (CompOpp c)) as E' by by rewrite fcompare_opp, E.
  rewrite <-(fcompare_key _ _ _ E') in H. destruct c; cbn in H; naive_solver.
Qed.
