(* ===== verification/Json.v ===== *)
(** JSON values as the crate handles them ([serde_json::Value]): the value type with its
    public constructors, the accessors the code uses and equality.  The representation of
    a number belongs to [serde_json]; it is an interface with the documented conversions
    as laws. *)
From Stdlib Require Import ZArith Lia Floats.SpecFloat.
From stdpp Require Import prelude gmap.
From S2P Require Import Prelude Wire Float.

Set Default Proof Using "Type".

(** * Numbers *)
Class JsonNumber := {
  number : Type;
  number_from_i64 : Z → number;
  number_from_u64 : Z → number;
  (** [Number::from_f64]: no number for an infinity or NaN. *)
  number_from_f64 : float → option number;
  number_as_i64 : number → option Z;
  number_as_f64 : number → option float;
  number_eqb : number → number → bool
}.
Definition is_finite (f : float) : bool :=
  match f with S754_zero _ | S754_finite _ _ _ => true | _ => false end.
(** A signed 64-bit integer, and the largest one. *)
Definition i64_max : Z := 2 ^ 63 - 1.
Definition in_i64 (z : Z) : Prop := (- 2 ^ 63 ≤ z ≤ i64_max)%Z.

(** An integer is read back as an [i64] when it fits, as a float in any case; a float is
    never an [i64]. *)
Class JsonNumberLaws `{!JsonNumber} : Prop := {
  as_i64_from_i64 z : in_i64 z → number_as_i64 (number_from_i64 z) = Some z;
  as_f64_from_i64 z : in_i64 z → number_as_f64 (number_from_i64 z) = Some (F64.of_Z z);
  as_i64_from_u64 z : in_u 64 z →
    number_as_i64 (number_from_u64 z) = if (z <=? i64_max)%Z then Some z else None;
  as_f64_from_u64 z : in_u 64 z → number_as_f64 (number_from_u64 z) = Some (F64.of_Z z);
  from_f64_None f : number_from_f64 f = None ↔ is_finite f = false;
  from_f64_Some f n : number_from_f64 f = Some n →
    number_as_i64 n = None ∧ number_as_f64 n = Some f;
  (** Every number is one of these. *)
  number_cases n :
    (∃ z, in_i64 z ∧ n = number_from_i64 z) ∨ (∃ z, in_u 64 z ∧ n = number_from_u64 z)
    ∨ ∃ f, number_from_f64 f = Some n;
  (** The same non-negative integer from either type. *)
  from_i64_u64 z : (0 ≤ z ≤ i64_max)%Z → number_from_i64 z = number_from_u64 z;
  number_eqb_refl n : number_eqb n n = true
}.

(** * Values *)
Section value.
Context `{!JsonNumber}.

Inductive Value :=
| Null
| Bool (b : bool)
| Number (n : number)
| String (s : bytes)
| Array (l : list Value)
| Object (m : gmap bytes Value).

Definition as_bool (v : Value) : option bool := match v with Bool b => Some b | _ => None end.
Definition as_str (v : Value) : option bytes := match v with String s => Some s | _ => None end.
Definition as_f64 (v : Value) : option float := match v with Number n => number_as_f64 n | _ => None end.
Definition as_object (v : Value) : option (gmap bytes Value) :=
  match v with Object m => Some m | _ => None end.

(** [Value::eq]: objects are equal when they have equal values under the same keys. *)
Fixpoint value_eqb (v w : Value) : bool :=
  match v, w with
  | Null, Null => true
  | Bool a, Bool b => Bool.eqb a b
  | Number a, Number b => number_eqb a b
  | String a, String b => bool_decide (a = b)
  | Array l, Array l' =>
      (fix go l l' := match l, l' with
                      | [], [] => true
                      | a :: l, b :: l' => value_eqb a b && go l l'
                      | _, _ => false
                      end) l l'
  | Object m, Object m' =>
      (size m =? size m')
      && map_fold (λ k a acc, match m' !! k with Some b => value_eqb a b | None => false end && acc)
           true m
  | _, _ => false
  end.

(** Induction over values, with the hypothesis for every element, by their size. *)
Fixpoint value_size (v : Value) : nat :=
  match v with
  | Array l => S (foldr (λ w n, value_size w + n) 0 l)
  | Object m => S (map_fold (λ _ w n, value_size w + n) 0 m)
  | _ => 1
  end.
Lemma array_size_lt l v : v ∈ l → value_size v < value_size (Array l).
Proof. cbn. induction 1; cbn; lia. Qed.
Lemma object_size_lt m k v : m !! k = Some v → value_size v < value_size (Object m).
Proof.
  cbn. apply (map_fold_weak_ind (λ n m, m !! k = Some v → value_size v < S n)); [done|].
  intros k' w m' n _ IH. destruct (decide (k = k')) as [->|].
  - rewrite lookup_insert_eq. intros [= ->]. lia.
  - rewrite lookup_insert_ne by done. intros ?%IH. lia.
Qed.
Lemma value_ind' (P : Value → Prop) :
  P Null → (∀ b, P (Bool b)) → (∀ n, P (Number n)) → (∀ s, P (String s)) →
  (∀ l, Forall P l → P (Array l)) → (∀ m, map_Forall (λ _, P) m → P (Object m)) →
  ∀ v, P v.
Proof.
  intros HN HB HNum HS HA HO v. induction v as [v IH] using (induction_ltof1 _ value_size).
  unfold ltof in IH. destruct v as [|b|n|s|l|m]; auto.
  - apply HA, Forall_forall. intros v Hv. by apply IH, array_size_lt.
  - apply HO. intros k v Hv. by eapply IH, object_size_lt.
Qed.
End value.

(** * Numbers that satisfy the laws *)
Module Reference.
Inductive num := PosInt (z : Z) | NegInt (z : Z) | FloatNum (f : float).
Definition valid (n : num) : bool :=
  match n with
  | PosInt z => (0 <=? z)%Z && (z <? 2 ^ 64)%Z
  | NegInt z => (- 2 ^ 63 <=? z)%Z && (z <? 0)%Z
  | FloatNum f => is_finite f
  end.
Definition number := {n : num | Is_true (valid n)}.
Definition checked_num (n : num) : option number :=
  match decide (Is_true (valid n)) with left H => Some (n ↾ H) | right _ => None end.
Definition zero : number := PosInt 0 ↾ I.
Definition of_int (z : Z) : number :=
  default zero (checked_num (if (0 <=? z)%Z then PosInt z else NegInt z)).

Lemma checked_num_Some n (x : number) : checked_num n = Some x ↔ `x = n.
Proof.
  unfold checked_num. destruct x as [m Hm]. case_decide as Hv.
  - split; [by intros [= ->]|]. cbn. intros ->. f_equal. by apply (sig_eq_pi _).
  - split; [done|]. cbn. by intros ->.
Qed.
Lemma of_int_num z :
  (- 2 ^ 63 ≤ z < 2 ^ 64)%Z → proj1_sig (of_int z) = if (0 <=? z)%Z then PosInt z else NegInt z.
Proof.
  intros Hz. unfold of_int, checked_num. case_decide as Hv; [done|]. destruct Hv. apply Is_true_true.
  destruct (Z.leb_spec 0 z); cbn [valid]; apply andb_true_iff; split.
  all: first [apply Z.leb_le|apply Z.ltb_lt]; lia.
Qed.
End Reference.

#[export] Instance reference_numbers : JsonNumber := {|
  number := Reference.number;
  number_from_i64 := Reference.of_int;
  number_from_u64 := Reference.of_int;
  number_from_f64 f := Reference.checked_num (Reference.FloatNum f);
  number_as_i64 n := match `n with
                     | Reference.PosInt z => if (z <=? i64_max)%Z then Some z else None
                     | Reference.NegInt z => Some z
                     | Reference.FloatNum _ => None
                     end;
  number_as_f64 n := match `n with
                     | Reference.PosInt z | Reference.NegInt z => Some (F64.of_Z z)
                     | Reference.FloatNum f => Some f
                     end;
  number_eqb m n := match `m, `n with
                    | Reference.PosInt a, Reference.PosInt b
                    | Reference.NegInt a, Reference.NegInt b => (a =? b)%Z
                    | Reference.FloatNum a, Reference.FloatNum b => feq a b
                    | _, _ => false
                    end
|}.
#[export] Instance reference_numbers_laws : JsonNumberLaws.
Proof.
  split; unfold in_i64, in_u;
    cbn [number number_from_i64 number_from_u64 number_from_f64 number_as_i64 number_as_f64
         number_eqb reference_numbers].
  - intros z Hz. rewrite Reference.of_int_num by (unfold i64_max in *; lia). destruct (Z.leb_spec 0 z); [|done].
    by destruct (Z.leb_spec z i64_max); [|unfold i64_max in *; lia].
  - intros z Hz. rewrite Reference.of_int_num by (unfold i64_max in *; lia). by destruct (Z.leb_spec 0 z).
  - intros z Hz. rewrite Reference.of_int_num by (unfold i64_max in *; lia). by rewrite (proj2 (Z.leb_le 0 z)) by lia.
  - intros z Hz. rewrite Reference.of_int_num by (unfold i64_max in *; lia). by destruct (Z.leb_spec 0 z).
  - intros f. unfold Reference.checked_num. case_decide as Hf; cbn in Hf; [|by destruct (is_finite f)].
    pose proof (Is_true_eq_true _ Hf) as E. rewrite E. by split.
  - intros f n ->%Reference.checked_num_Some. done.
  - intros [n Hv]. pose proof Hv as Hn%Is_true_true. destruct n as [z|z|f]; cbn [Reference.valid] in Hn.
    + apply andb_true_iff in Hn as [H0%Z.leb_le H1%Z.ltb_lt]. right. left. exists z.
      split; [lia|]. apply (sig_eq_pi _). rewrite Reference.of_int_num by lia. cbn [proj1_sig].
      by rewrite (proj2 (Z.leb_le 0 z)) by lia.
    + apply andb_true_iff in Hn as [H0%Z.leb_le H1%Z.ltb_lt]. left. exists z.
      split; [unfold i64_max; lia|]. apply (sig_eq_pi _). rewrite Reference.of_int_num by lia. cbn [proj1_sig].
      by destruct (Z.leb_spec 0 z); [lia|].
    + right. right. exists f. by apply Reference.checked_num_Some.
  - done.
  - intros [[z|z|f] Hv]; cbn; [apply Z.eqb_refl|apply Z.eqb_refl|].
    destruct f as [s|s| |s m e]; [done|done|done|]. unfold feq, SFeqb. cbn.
    by destruct s; rewrite Z.compare_refl, Pos.compare_cont_refl.
Qed.
