(* ===== verification/Crypto.v ===== *)
(** Security errors ([src/security/error.rs]), the device keypair
    ([src/security/keypair.rs]) and the interfaces of the cryptographic crates
    it wraps.  Ed25519 and HKDF-SHA256 are third-party code: [Ed25519] and
    [Hkdf] are their operations, [Ed25519Laws] and [HkdfLaws] the documented
    behaviour the mesh relies on, and [toy_ed25519], [toy_hkdf] are concrete
    instances that satisfy the laws, used by the witnesses. *)
From Stdlib Require Import ZArith Lia Strings.Byte Strings.String.
From stdpp Require Import prelude gmap.
From S2P Require Import Prelude Wire.

Set Default Proof Using "Type".

(** * [SecurityError]

    The [String] payloads carry the message without the values [format!]
    interpolates into it. *)
Inductive SecurityError :=
| InvalidSignature (msg : string)
| ChallengeExpired (until : Z)
| NonceMismatch (expected actual : string)
| InvalidPublicKey (msg : string)
| InvalidDeviceId (msg : string)
| KeypairError (msg : string)
| PeerNotAuthenticated (msg : string)
| AuthenticationFailed (msg : string)
| IoError (msg : string)
| SerializationError (msg : string)
| Internal (msg : string)
| PeerNotFound (msg : string)
| PermissionDenied (permission entity_id : string) (roles : list string)
| CertificateError (msg : string)
| InvalidCertificateChain (msg : string)
| CertificateExpired (msg : string)
| CertificateRevoked (msg : string)
| UserNotFound (username : string)
| UserAlreadyExists (username : string)
| InvalidCredential (username : string)
| InvalidMfaCode
| AccountLocked (username : string)
| AccountDisabled (username : string)
| AccountPending (username : string)
| SessionNotFound
| SessionExpired
| UnsupportedAuthMethod (method : string)
| PasswordHashError (message : string)
| TotpError (message : string)
| EncryptionError (msg : string)
| DecryptionError (msg : string)
| KeyExchangeError (msg : string)
| NoGroupKey (cell_id : string)
| KeyGenerationMismatch (expected actual : Z).

Definition code (e : SecurityError) : string :=
  match e with
  | InvalidSignature _ => "INVALID_SIGNATURE"
  | ChallengeExpired _ => "CHALLENGE_EXPIRED"
  | NonceMismatch _ _ => "NONCE_MISMATCH"
  | InvalidPublicKey _ => "INVALID_PUBLIC_KEY"
  | InvalidDeviceId _ => "INVALID_DEVICE_ID"
  | KeypairError _ => "KEYPAIR_ERROR"
  | PeerNotAuthenticated _ => "PEER_NOT_AUTHENTICATED"
  | AuthenticationFailed _ => "AUTH_FAILED"
  | IoError _ => "IO_ERROR"
  | SerializationError _ => "SERIALIZATION_ERROR"
  | Internal _ => "INTERNAL_ERROR"
  | PeerNotFound _ => "PEER_NOT_FOUND"
  | PermissionDenied _ _ _ => "PERMISSION_DENIED"
  | CertificateError _ => "CERTIFICATE_ERROR"
  | InvalidCertificateChain _ => "INVALID_CERT_CHAIN"
  | CertificateExpired _ => "CERTIFICATE_EXPIRED"
  | CertificateRevoked _ => "CERTIFICATE_REVOKED"
  | UserNotFound _ => "USER_NOT_FOUND"
  | UserAlreadyExists _ => "USER_EXISTS"
  | InvalidCredential _ => "INVALID_CREDENTIAL"
  | InvalidMfaCode => "INVALID_MFA"
  | AccountLocked _ => "ACCOUNT_LOCKED"
  | AccountDisabled _ => "ACCOUNT_DISABLED"
  | AccountPending _ => "ACCOUNT_PENDING"
  | SessionNotFound => "SESSION_NOT_FOUND"
  | SessionExpired => "SESSION_EXPIRED"
  | UnsupportedAuthMethod _ => "UNSUPPORTED_AUTH"
  | PasswordHashError _ => "PASSWORD_HASH_ERROR"
  | TotpError _ => "TOTP_ERROR"
  | EncryptionError _ => "ENCRYPTION_ERROR"
  | DecryptionError _ => "DECRYPTION_ERROR"
  | KeyExchangeError _ => "KEY_EXCHANGE_ERROR"
  | NoGroupKey _ => "NO_GROUP_KEY"
  | KeyGenerationMismatch _ _ => "KEY_GENERATION_MISMATCH"
  end.

Definition is_recoverable (e : SecurityError) : bool :=
  match e with ChallengeExpired _ => true | _ => false end.

(** * Interfaces of the cryptographic crates *)

Class Ed25519 := {
  SigningKey : Type;
  (** [SigningKey::from_bytes], [SigningKey::to_bytes] *)
  sk_from_bytes : bytes → SigningKey;
  sk_to_bytes : SigningKey → bytes;
  (** [SigningKey::verifying_key().to_bytes()] *)
  sk_public : SigningKey → bytes;
  (** [SigningKey::sign] *)
  sk_sign : SigningKey → bytes → bytes;
  (** [VerifyingKey::from_bytes] accepts the 32 bytes *)
  vk_valid : bytes → bool;
  (** [VerifyingKey::verify] of a key, a message and a signature *)
  vk_verify : bytes → bytes → bytes → bool
}.

Class Ed25519Laws `{!Ed25519} := {
  sk_from_to k : sk_from_bytes (sk_to_bytes k) = k;
  sk_to_from b : length b = 32 → sk_to_bytes (sk_from_bytes b) = b;
  sk_to_bytes_length k : length (sk_to_bytes k) = 32;
  sk_public_length k : length (sk_public k) = 32;
  sk_sign_length k m : length (sk_sign k m) = 64;
  sk_public_valid k : vk_valid (sk_public k) = true;
  vk_verify_sign k m : vk_verify (sk_public k) m (sk_sign k m) = true
}.

(** [Hkdf::<Sha256>::new(salt, ikm)] followed by [expand(info, &mut [0; n])]. *)
Class Hkdf := hkdf : option bytes → bytes → bytes → nat → bytes.
Class HkdfLaws `{!Hkdf} :=
  hkdf_length salt ikm info n : length (hkdf salt ikm info n) = n.

(** ChaCha20-Poly1305 with a 32-byte key and a 12-byte nonce; [None] is an error
    of the cipher. *)
Class Aead := {
  aead_encrypt : bytes → bytes → bytes → option bytes;
  aead_decrypt : bytes → bytes → bytes → option bytes
}.
Class AeadLaws `{!Aead} := {
  aead_encrypt_some key nonce plaintext :
    length key = 32 → length nonce = 12 → is_Some (aead_encrypt key nonce plaintext);
  aead_decrypt_encrypt key nonce plaintext ciphertext :
    aead_encrypt key nonce plaintext = Some ciphertext →
    aead_decrypt key nonce ciphertext = Some plaintext
}.

#[export] Hint Resolve sk_to_bytes_length sk_public_length sk_sign_length : wire.
#[export] Hint Resolve hkdf_length : wire.

(** * [DeviceKeypair] *)
Section DeviceKeypair.
Context {Ed : Ed25519} {Kdf : Hkdf}.

Record DeviceKeypair := { signing_key : SigningKey }.

Definition from_signing_key (k : SigningKey) : DeviceKeypair := {| signing_key := k |}.

(** HKDF never fails for a 32-byte output, so [from_seed] returns a keypair. *)
Definition from_seed (seed context : bytes) : DeviceKeypair :=
  let okm := hkdf None seed context 32 in
  {| signing_key := sk_from_bytes okm |}.

Definition from_secret_bytes (b : bytes) : outcome SecurityError DeviceKeypair :=
  bail! decide (length b ≠ 32) with KeypairError "expected 32 bytes";
  b ← array 32 b;
  Ok {| signing_key := sk_from_bytes b |}.

Definition public_key_bytes (k : DeviceKeypair) : bytes := sk_public (signing_key k).
Definition secret_key_bytes (k : DeviceKeypair) : bytes := sk_to_bytes (signing_key k).
Definition sign (k : DeviceKeypair) (message : bytes) : bytes :=
  sk_sign (signing_key k) message.

Definition verify (k : DeviceKeypair) (message sig : bytes) : outcome SecurityError unit :=
  if vk_verify (public_key_bytes k) message sig then Ok tt
  else Err (InvalidSignature "signature error").

Definition signature_from_bytes (b : bytes) : outcome SecurityError bytes :=
  bail! decide (length b ≠ 64) with InvalidSignature "expected 64 bytes";
  array 64 b.

Definition verifying_key_from_bytes (b : bytes) : outcome SecurityError bytes :=
  bail! decide (length b ≠ 32) with InvalidPublicKey "expected 32 bytes";
  b ← array 32 b;
  if vk_valid b then Ok b else Err (InvalidPublicKey "invalid key").

(** [VerifyingKey::from_bytes(pk)?] then [vk.verify(msg, sig)], as certificates
    and enrollment requests call them. *)
Definition verify_with_bytes (pk message sig : bytes) : outcome SecurityError unit :=
  if vk_valid pk then
    if vk_verify pk message sig then Ok tt else Err (InvalidSignature "signature error")
  else Err (InvalidPublicKey "invalid key").

Lemma verify_with_bytes_sign `{!Ed25519Laws} k m :
  verify_with_bytes (public_key_bytes k) m (sign k m) = Ok tt.
Proof.
  unfold verify_with_bytes, public_key_bytes, sign.
  by rewrite sk_public_valid, vk_verify_sign.
Qed.

(** A stored secret key gives the same keypair back. *)
Lemma from_secret_bytes_roundtrip `{!Ed25519Laws} k :
  from_secret_bytes (secret_key_bytes k) = Ok k.
Proof.
  unfold from_secret_bytes, secret_key_bytes.
  rewrite decide_False by (rewrite sk_to_bytes_length; auto).
  rewrite array_ok by apply sk_to_bytes_length. simpl. rewrite sk_from_to. by destruct k.
Qed.

Lemma public_key_bytes_length `{!Ed25519Laws} k : length (public_key_bytes k) = 32.
Proof. apply sk_public_length. Qed.
Lemma sign_length `{!Ed25519Laws} k m : length (sign k m) = 64.
Proof. apply sk_sign_length. Qed.
End DeviceKeypair.
#[export] Hint Resolve public_key_bytes_length sign_length verify_with_bytes_sign : wire.

(** * Concrete instances, for witnesses

    A key is 32 bytes and its own public key; the signature of a message is the
    public key and the first 32 bytes of the message.  Not secure, but lawful. *)
Definition pad (n : nat) (l : bytes) : bytes := take n (l ++ replicate n Byte.x00).

Lemma length_pad n l : length (pad n l) = n.
Proof. unfold pad. rewrite length_take, length_app, length_replicate. lia. Qed.

#[local] Instance toy_ed25519 : Ed25519 := {
  SigningKey := dsig (λ l : bytes, length l = 32);
  sk_from_bytes b := dexist (pad 32 b) (length_pad 32 b);
  sk_to_bytes k := `k;
  sk_public k := `k;
  sk_sign k m := `k ++ pad 32 m;
  vk_valid pk := bool_decide (length pk = 32);
  vk_verify pk m sig := bool_decide (sig = pk ++ pad 32 m)
}.

Lemma pad_id n l : length l = n → pad n l = l.
Proof. intros <-. unfold pad. apply take_app_length. Qed.

Lemma toy_ed25519_laws : Ed25519Laws.
Proof.
  split; simpl.
  - intros k. apply dsig_eq. simpl. apply pad_id. apply (proj2_dsig k).
  - intros b. apply pad_id.
  - intros k. apply (proj2_dsig k).
  - intros k. apply (proj2_dsig k).
  - intros k m. rewrite length_app, length_pad. by rewrite (proj2_dsig k).
  - intros k. apply bool_decide_eq_true_2, (proj2_dsig k).
  - intros k m. by apply bool_decide_eq_true_2.
Qed.

Definition toy_hkdf : Hkdf := λ salt ikm info n, pad n (default [] salt ++ info ++ ikm).
#[local] Existing Instance toy_hkdf.

Lemma toy_hkdf_laws : HkdfLaws.
Proof. intros salt ikm info n. apply length_pad. Qed.

Definition toy_key (b : byte) : DeviceKeypair :=
  {| signing_key := sk_from_bytes (replicate 32 b) |}.

(** The tag is the key and the nonce. *)
#[local] Instance toy_aead : Aead := {
  aead_encrypt key nonce plaintext := Some (key ++ nonce ++ plaintext);
  aead_decrypt key nonce ciphertext :=
    let n := length (key ++ nonce) in
    if decide (take n ciphertext = key ++ nonce) then Some (drop n ciphertext) else None
}.

Lemma toy_aead_laws : AeadLaws.
Proof.
  split; simpl; [done|]. intros key nonce plaintext ? [= <-].
  by rewrite (assoc_L (++)), take_app_length, drop_app_length, decide_True.
Qed.
