(* ===== verification/Device.v ===== *)
(** Device identifiers ([src/security/device_id.rs]): the truncated SHA-256 of the
    public key, and its hexadecimal text form with the string slicing and the
    integer parser of the standard library it goes through. *)
From Stdlib Require Import ZArith Lia Strings.Byte Strings.String.
From stdpp Require Import prelude gmap.
From S2P Require Import Prelude Wire Text Crypto.

Set Default Proof Using "Type".

(** SHA-256 comes from the [sha2] crate. *)
Class Sha256 := sha256 : bytes → bytes.
Class Sha256Laws `{!Sha256} := sha256_length m : length (sha256 m) = 32.

(** * Standard library pieces *)

(** [str::is_char_boundary]: the ends, and every byte that does not continue a
    character. *)
Definition is_char_boundary (s : bytes) (i : nat) : bool :=
  if decide (i = 0) then true
  else if decide (i = length s) then true
  else match s !! i with Some b => negb (continuation b) | None => false end.

(** [&s[a..b]] on a [str]: out of range or inside a character it panics. *)
Definition str_slice {E} (s : bytes) (a b : nat) : outcome E bytes :=
  if decide (a ≤ b) then
    if is_char_boundary s a && is_char_boundary s b
    then Ok (take (b - a) (drop a s)) else Panic
  else Panic.

(** [char::to_digit(16)] *)
Definition to_digit16 (b : byte) : option Z :=
  if between 48 57 b then Some (u8 b - 48)%Z
  else if between 97 102 b then Some (u8 b - 87)%Z
  else if between 65 70 b then Some (u8 b - 55)%Z
  else None.

Fixpoint digits16 (acc : Z) (s : bytes) : option Z :=
  match s with
  | [] => Some acc
  | b :: s =>
      d ← to_digit16 b;
      let acc := (acc * 16 + d)%Z in
      if decide (acc < 256)%Z then digits16 acc s else None
  end.

(** [u8::from_str_radix(s, 16)]: a leading plus sign is accepted. *)
Definition u8_from_str_radix16 (s : bytes) : option Z :=
  match s with
  | [] => None
  | b :: r =>
      if decide (b = as_u8 43) then match r with [] => None | _ => digits16 0 r end
      else digits16 0 s
  end.

(** * [DeviceId] *)
Abbreviation DeviceId := bytes (only parsing).

Module Device.

(** [format!("{:02x}", b)] *)
Definition hex_digit_lower (z : Z) : byte := as_u8 (if (z <? 10)%Z then 48 + z else 87 + z).
Definition hex_encode (l : bytes) : bytes :=
  l ≫= λ b, [hex_digit_lower (u8 b / 16); hex_digit_lower (u8 b mod 16)].

(** [(0..hex.len()).step_by(2).map(...).collect()]: [n] more pairs from [i]. *)
Fixpoint hex_pairs (hex : bytes) (i n : nat) : outcome string bytes :=
  match n with
  | O => Ok []
  | S n =>
      pair ← str_slice hex i (i + 2);
      z ← ok_or (u8_from_str_radix16 pair) "invalid hex at position"%string;
      rest ← hex_pairs hex (i + 2) n;
      Ok (as_u8 z :: rest)
  end.

Definition hex_decode (hex : bytes) : outcome string bytes :=
  bail! decide (length hex mod 2 ≠ 0) with "odd length hex string"%string;
  hex_pairs hex 0 (length hex / 2).

Section with_crypto.
Context {Ed : Ed25519} {Sha : Sha256}.

Definition from_public_key (public_key : bytes) : outcome SecurityError DeviceId :=
  id ← slice (sha256 public_key) 0 16;
  array 16 id.

Definition from_public_key_bytes (b : bytes) : outcome SecurityError DeviceId :=
  bail! decide (length b ≠ 32) with InvalidPublicKey "expected 32 bytes";
  b ← array 32 b;
  bail! negb (vk_valid b) with InvalidPublicKey "invalid key";
  from_public_key b.
End with_crypto.

Definition to_hex (id : DeviceId) : bytes := hex_encode id.

Definition from_hex (hex : bytes) : outcome SecurityError DeviceId :=
  b ← map_err (λ _, InvalidDeviceId "invalid hex") (hex_decode hex);
  bail! decide (length b ≠ 16) with InvalidDeviceId "expected 16 bytes (32 hex chars)";
  array 16 b.

(** ** Printing and parsing *)

Lemma hex_digit_lower_u8 z :
  (0 ≤ z < 16)%Z → u8 (hex_digit_lower z) = (if (z <? 10)%Z then 48 + z else 87 + z)%Z.
Proof. intros. unfold hex_digit_lower. case_match; apply u8_as_u8_small; lia. Qed.

Lemma between_spec lo hi b : between lo hi b = true ↔ (lo ≤ u8 b ≤ hi)%Z.
Proof. unfold between. rewrite andb_true_iff, !Z.leb_le. done. Qed.
Lemma between_false lo hi b : between lo hi b = false ↔ ¬ (lo ≤ u8 b ≤ hi)%Z.
Proof. rewrite <- between_spec. destruct (between lo hi b); naive_solver. Qed.

Lemma to_digit16_lower z : (0 ≤ z < 16)%Z → to_digit16 (hex_digit_lower z) = Some z.
Proof.
  intros Hz. pose proof (hex_digit_lower_u8 z Hz) as Hu. unfold to_digit16.
  destruct (Z.ltb_spec z 10).
  - rewrite (proj2 (between_spec 48 57 _)) by lia. f_equal. lia.
  - rewrite (proj2 (between_false 48 57 _)) by lia.
    rewrite (proj2 (between_spec 97 102 _)) by lia. f_equal. lia.
Qed.

Lemma to_digit16_range b d : to_digit16 b = Some d → (0 ≤ d < 16)%Z.
Proof.
  unfold to_digit16. repeat case_match; intros [= <-];
    repeat match goal with H : between _ _ _ = true |- _ => apply between_spec in H end; lia.
Qed.

Lemma hex_digit_lower_ascii z : (0 ≤ z < 16)%Z → (u8 (hex_digit_lower z) < 128)%Z.
Proof. intros Hz. rewrite hex_digit_lower_u8 by done. case_match; lia. Qed.

Lemma digits16_step acc b d s :
  to_digit16 b = Some d → (acc * 16 + d < 256)%Z →
  digits16 acc (b :: s) = digits16 (acc * 16 + d) s.
Proof. intros Hd Hl. cbn [digits16]. rewrite Hd. cbn [mbind option_bind]. by rewrite decide_True. Qed.

(** The pair the encoder writes for a byte reads back as the byte. *)
Lemma pair_reads_back b :
  u8_from_str_radix16 [hex_digit_lower (u8 b / 16); hex_digit_lower (u8 b mod 16)]
  = Some (u8 b).
Proof.
  destruct (nibbles b) as [Hh Hl]. pose proof (u8_range b). unfold u8_from_str_radix16.
  rewrite decide_False.
  2:{ intros H'%(f_equal u8). rewrite hex_digit_lower_u8, u8_as_u8_small in H' by lia.
      revert H'. case_match; lia. }
  rewrite (digits16_step _ _ (u8 b / 16)), (digits16_step _ _ (u8 b mod 16));
    [|by apply to_digit16_lower|lia|by apply to_digit16_lower|lia].
  cbn [digits16]. f_equal. pose proof (Z.div_mod (u8 b) 16 ltac:(lia)). lia.
Qed.

Lemma hex_encode_cons b l :
  hex_encode (b :: l)
  = hex_digit_lower (u8 b / 16) :: hex_digit_lower (u8 b mod 16) :: hex_encode l.
Proof. done. Qed.

Lemma length_hex_encode l : length (hex_encode l) = 2 * length l.
Proof. induction l as [|b l IH]; [done|]. rewrite hex_encode_cons. cbn. rewrite IH. lia. Qed.

Lemma hex_encode_ascii l : Forall (λ c, u8 c < 128)%Z (hex_encode l).
Proof.
  induction l as [|b l IH]; [constructor|]. rewrite hex_encode_cons.
  destruct (nibbles b). auto using hex_digit_lower_ascii.
Qed.

(** Inside ASCII text every position is a boundary. *)
Lemma ascii_boundary s i :
  Forall (λ c, u8 c < 128)%Z s → i ≤ length s → is_char_boundary s i = true.
Proof.
  intros Hs Hi. unfold is_char_boundary. repeat case_decide; try done.
  destruct (lookup_lt_is_Some_2 s i) as [b Hb]; [lia|]. rewrite Hb.
  pose proof (Forall_lookup_1 _ _ _ _ Hs Hb). cbn in *. unfold continuation.
  rewrite (proj2 (between_false _ _ _)); [done|lia].
Qed.

Lemma str_slice_ascii {E} s a b :
  Forall (λ c, u8 c < 128)%Z s → a ≤ b → b ≤ length s →
  str_slice (E:=E) s a b = Ok (take (b - a) (drop a s)).
Proof.
  intros Hs Ha Hb. unfold str_slice. rewrite decide_True by done.
  by rewrite !ascii_boundary by (done || lia).
Qed.

Lemma hex_pairs_encode hex i l :
  Forall (λ c, u8 c < 128)%Z hex → cursor hex i (hex_encode l) →
  hex_pairs hex i (length l) = Ok l.
Proof.
  intros Ha. revert i. induction l as [|b l IH]; intros i C; [done|]. cbn [length hex_pairs].
  pose proof (cursor_length _ _ _ C) as HL. rewrite length_hex_encode in HL.
  rewrite hex_encode_cons in C. cbn in HL.
  rewrite str_slice_ascii by (done || lia).
  replace (i + 2 - i) with 2 by lia. pose proof (proj2 C) as ->.
  cbn [take mbind outcome_bind].
  rewrite pair_reads_back. cbn [ok_or mbind outcome_bind]. rewrite IH.
  - cbn. by rewrite as_u8_u8.
  - by apply (cursor_skip _ _ [_; _] _ 2) in C.
Qed.

Lemma hex_decode_encode l : hex_decode (hex_encode l) = Ok l.
Proof.
  unfold hex_decode. rewrite length_hex_encode, (Nat.mul_comm 2), Nat.Div0.mod_mul.
  rewrite decide_False by auto. rewrite Nat.div_mul by done.
  apply hex_pairs_encode; [apply hex_encode_ascii|apply cursor_start].
Qed.

(** The text of a device id reads back as the id. *)
Lemma device_hex_roundtrip id : length id = 16 → from_hex (to_hex id) = Ok id.
Proof.
  intros Hl. unfold from_hex, to_hex. rewrite hex_decode_encode. cbn.
  rewrite decide_False by auto. by apply array_ok.
Qed.

(** ASCII input cannot make the parser panic. *)
Lemma hex_pairs_no_panic hex i n :
  Forall (λ c, u8 c < 128)%Z hex → i + 2 * n ≤ length hex → no_panic (hex_pairs hex i n).
Proof.
  intros Ha. revert i. induction n as [|n IH]; intros i Hi; [done|]. cbn [hex_pairs].
  rewrite str_slice_ascii by (done || lia). cbn [mbind outcome_bind].
  apply no_panic_bind; [auto with wire|]. intros z _.
  apply no_panic_bind; [apply IH; lia|done].
Qed.

Lemma from_hex_ascii_no_panic hex :
  Forall (λ c, u8 c < 128)%Z hex → no_panic (from_hex hex).
Proof.
  intros Ha. unfold from_hex.
  assert (no_panic (hex_decode hex)) as Hn.
  { unfold hex_decode. case_decide as He; [done|].
    apply hex_pairs_no_panic; [done|].
    pose proof (Nat.Div0.div_mod (length hex) 2). lia. }
  destruct (hex_decode hex); try done. cbn. case_decide; [done|].
  rewrite array_ok; [done|]. lia.
Qed.

(** ** What the parser accepts beyond the printed form *)

(** The text form of device ids: printing then parsing returns the id and
    ASCII text never makes the parser panic; but some valid UTF-8 text of even
    length panics, because pairs are cut at byte offsets that may fall inside a
    character, and distinct texts parse to the same id, because the integer parser
    also accepts a plus sign (and upper-case digits). *)
Theorem device_id_text :
  (∀ id, length id = 16 → from_hex (to_hex id) = Ok id)
  ∧ (∀ hex, Forall (λ c, u8 c < 128)%Z hex → from_hex hex ≠ Panic)
  ∧ (∃ hex, utf8_valid hex = true ∧ length hex = 32 ∧ from_hex hex = Panic)
  ∧ (∃ h1 h2 id, h1 ≠ h2 ∧ In (as_u8 43) h2 ∧ from_hex h1 = Ok id ∧ from_hex h2 = Ok id).
Proof.
  split_and!.
  - apply device_hex_roundtrip.
  - apply from_hex_ascii_no_panic.
  - exists (str "0" ++ [as_u8 0xC3; as_u8 0xA9] ++ replicate 29 (as_u8 48)).
    split_and!; [vm_eq..].
  - exists (hex_encode (replicate 16 (as_u8 10))),
      (mjoin (replicate 16 (str "+a"))), (replicate 16 (as_u8 10)).
    split_and!; [by vm_compute|vm_compute; auto|vm_eq..].
Qed.

End Device.

(** The functions of device ids satisfy the laws of the [hex] crate. *)
#[export] Instance reference_hex : Hex := {|
  hex_encode := Device.hex_encode;
  hex_decode l := match Device.hex_decode l with Ok b => Some b | _ => None end
|}.
#[export] Instance reference_hex_laws : HexLaws.
Proof.
  split; intros l; cbn.
  - by rewrite Device.hex_decode_encode.
  - induction l as [|b l IH]; [constructor|]. rewrite Device.hex_encode_cons. destruct (nibbles b).
    rewrite !Forall_cons. split_and!; [| |done]; rewrite Device.hex_digit_lower_u8 by done; case Z.ltb_spec; lia.
Qed.
