(* ===== verification/Certificate.v ===== *)
(** Mesh certificates ([src/security/certificate.rs]): tiers, permissions, the signed
    wire format and validity. *)
From Stdlib Require Import ZArith Lia Strings.Byte Strings.String.
From stdpp Require Import prelude gmap.
From S2P Require Import Prelude Wire Crypto.

Set Default Proof Using "Type".

(** * [MeshTier] *)
Inductive MeshTier := Enterprise | Regional | Tactical | Edge.

Global Instance MeshTier_eq_dec : EqDecision MeshTier.
Proof. solve_decision. Defined.

Module Tier.
Definition as_str (t : MeshTier) : string :=
  match t with
  | Enterprise => "Enterprise"
  | Regional => "Regional"
  | Tactical => "Tactical"
  | Edge => "Edge"
  end.

Definition to_byte (t : MeshTier) : byte :=
  as_u8 match t with Enterprise => 0 | Regional => 1 | Tactical => 2 | Edge => 3 end.

Definition from_byte (b : byte) : option MeshTier :=
  match u8 b with
  | 0%Z => Some Enterprise
  | 1%Z => Some Regional
  | 2%Z => Some Tactical
  | 3%Z => Some Edge
  | _ => None
  end.

Lemma tier_from_to_byte t : from_byte (to_byte t) = Some t.
Proof. by destruct t. Qed.

Lemma tier_to_from_byte b t : from_byte b = Some t → to_byte t = b.
Proof.
  intros H. apply u8_inj. unfold from_byte in H. destruct (u8 b) eqn:Hb;
    repeat case_match; by simplify_eq.
Qed.
End Tier.

(** * Permission flags *)
Module permissions.
Definition RELAY : byte := as_u8 0x01.
Definition EMERGENCY : byte := as_u8 0x02.
Definition ENROLL : byte := as_u8 0x04.
Definition ADMIN : byte := as_u8 0x80.
Definition u8_or (a b : byte) : byte := as_u8 (Z.lor (u8 a) (u8 b)).
Definition STANDARD : byte := u8_or RELAY EMERGENCY.
Definition AUTHORITY : byte := u8_or (u8_or (u8_or RELAY EMERGENCY) ENROLL) ADMIN.
End permissions.

(** * [MeshCertificate] *)
Record MeshCertificate := {
  subject_public_key : bytes;
  mesh_id : bytes;
  node_id : bytes;
  tier : MeshTier;
  perms : byte;
  issued_at_ms : Z;
  expires_at_ms : Z;
  issuer_public_key : bytes;
  signature : bytes
}.

(** The Rust types: arrays of 32, 32 and 64 bytes, UTF-8 strings, [u64] times. *)
Record cert_wf (c : MeshCertificate) : Prop := {
  wf_subject : length (subject_public_key c) = 32;
  wf_mesh : utf8_valid (mesh_id c) = true;
  wf_node : utf8_valid (node_id c) = true;
  wf_issued : in_u 64 (issued_at_ms c);
  wf_expires : in_u 64 (expires_at_ms c);
  wf_issuer : length (issuer_public_key c) = 32;
  wf_signature : length (signature c) = 64
}.

(** The identifiers fit their one-byte length prefixes. *)
Definition cert_ids_fit (c : MeshCertificate) : Prop :=
  length (mesh_id c) ≤ 255 ∧ length (node_id c) ≤ 255.

Module Cert.
Section with_crypto.
Context {Ed : Ed25519}.

Definition new (subject mesh node : bytes) (t : MeshTier) (p : byte)
    (issued expires : Z) (issuer : bytes) : MeshCertificate := {|
  subject_public_key := subject;
  mesh_id := mesh;
  node_id := node;
  tier := t;
  perms := p;
  issued_at_ms := issued;
  expires_at_ms := expires;
  issuer_public_key := issuer;
  signature := replicate 64 Byte.x00
|}.

(** Everything but the signature; the lengths are truncated to one byte. *)
Definition signable_bytes (c : MeshCertificate) : bytes :=
  subject_public_key c
  ++ [as_u8 (zlen (mesh_id c))]
  ++ mesh_id c
  ++ [as_u8 (zlen (node_id c))]
  ++ node_id c
  ++ [Tier.to_byte (tier c)]
  ++ [perms c]
  ++ to_le 8 (issued_at_ms c)
  ++ to_le 8 (expires_at_ms c)
  ++ issuer_public_key c.

Definition set_signature (c : MeshCertificate) (s : bytes) : MeshCertificate := {|
  subject_public_key := subject_public_key c;
  mesh_id := mesh_id c;
  node_id := node_id c;
  tier := tier c;
  perms := perms c;
  issued_at_ms := issued_at_ms c;
  expires_at_ms := expires_at_ms c;
  issuer_public_key := issuer_public_key c;
  signature := s
|}.

Definition sign_with (c : MeshCertificate) (issuer : DeviceKeypair) : MeshCertificate :=
  let signable := signable_bytes c in
  set_signature c (sign issuer signable).

Definition signed : MeshCertificate → DeviceKeypair → MeshCertificate := sign_with.

Definition new_root (authority : DeviceKeypair) (mesh node : bytes) (t : MeshTier)
    (issued expires : Z) : MeshCertificate :=
  let pubkey := public_key_bytes authority in
  sign_with (new pubkey mesh node t permissions.AUTHORITY issued expires pubkey) authority.

Definition verify (c : MeshCertificate) : outcome SecurityError unit :=
  verify_with_bytes (issuer_public_key c) (signable_bytes c) (signature c).

Definition is_root (c : MeshCertificate) : bool :=
  bool_decide (subject_public_key c = issuer_public_key c).

Definition is_valid (c : MeshCertificate) (now_ms : Z) : bool :=
  (issued_at_ms c <=? now_ms)%Z &&
  ((expires_at_ms c =? 0)%Z || (now_ms <? expires_at_ms c)%Z).

Definition has_permission (c : MeshCertificate) (perm : byte) : bool :=
  (Z.land (u8 (perms c)) (u8 perm) =? u8 perm)%Z.

Definition time_remaining_ms (c : MeshCertificate) (now_ms : Z) : Z :=
  if (expires_at_ms c =? 0)%Z then umax 64
  else saturating_sub (expires_at_ms c) now_ms.

Definition encode (c : MeshCertificate) : bytes := signable_bytes c ++ signature c.

Definition decode (data : bytes) : outcome SecurityError MeshCertificate :=
  bail! decide (length data < 148) with SerializationError "certificate too short";
  let pos := 0 in
  subject ← slice data pos (pos + 32);
  subject ← array 32 subject;
  let pos := pos + 32 in
  mesh_id_len ← index data pos;
  let mesh_id_len := Z.to_nat (u8 mesh_id_len) in
  let pos := pos + 1 in
  bail! decide (length data ≤ pos + mesh_id_len)
    with SerializationError "certificate truncated at mesh_id";
  mesh ← slice data pos (pos + mesh_id_len);
  mesh ← ok_or (from_utf8 mesh) (SerializationError "invalid mesh_id");
  let pos := pos + mesh_id_len in
  node_id_len ← index data pos;
  let node_id_len := Z.to_nat (u8 node_id_len) in
  let pos := pos + 1 in
  bail! decide (length data < pos + node_id_len + 1 + 1 + 8 + 8 + 32 + 64)
    with SerializationError "certificate truncated at node_id";
  node ← slice data pos (pos + node_id_len);
  node ← ok_or (from_utf8 node) (SerializationError "invalid node_id");
  let pos := pos + node_id_len in
  t ← index data pos;
  t ← ok_or (Tier.from_byte t) (SerializationError "invalid tier byte");
  let pos := pos + 1 in
  p ← index data pos;
  let pos := pos + 1 in
  issued ← slice data pos (pos + 8);
  issued ← array 8 issued;
  let pos := pos + 8 in
  expires ← slice data pos (pos + 8);
  expires ← array 8 expires;
  let pos := pos + 8 in
  issuer ← slice data pos (pos + 32);
  issuer ← array 32 issuer;
  let pos := pos + 32 in
  sig ← slice data pos (pos + 64);
  sig ← array 64 sig;
  Ok {|
    subject_public_key := subject;
    mesh_id := mesh;
    node_id := node;
    tier := t;
    perms := p;
    issued_at_ms := from_le issued;
    expires_at_ms := from_le expires;
    issuer_public_key := issuer;
    signature := sig
  |}.

Lemma cert_decode_no_panic data : no_panic (decode data).
Proof. unfold decode. panic_free. Qed.

Lemma cert_decode_cursor c data rest :
  cert_wf c → cert_ids_fit c → cursor data 0 (encode c ++ rest) → decode data = Ok c.
Proof.
  intros [Hsub Hmesh Hnode Hiss Hexp Hissr Hsig] [Hm Hn] C.
  unfold decode, encode, signable_bytes in *. rewrite <- !(assoc_L (++)) in C. cbn [app] in C.
  decode_run C.
  rewrite Tier.tier_from_to_byte. cbn [ok_or mbind outcome_bind].
  decode_run C.
  rewrite !(le_roundtrip 8 64) by done. by destruct c.
Qed.

Lemma cert_decode_inv data c :
  decode data = Ok c → cert_wf c ∧ cert_ids_fit c ∧ ∃ rest, data = encode c ++ rest.
Proof.
  intros H. unfold decode in H. pose proof (cursor_start data) as C.
  decode_inv H. simplify_eq.
  match goal with Ht : Tier.from_byte _ = Some _ |- _ =>
    apply Tier.tier_to_from_byte in Ht as <- end.
  split_and!; [split; cbn; eauto with wire..|split; cbn; eauto with wire|].
  eexists. unfold encode, signable_bytes. cbn. wire_eq.
Qed.

(** The certificate decoder accepts exactly the encodings of well-formed
    certificates whose identifiers fit their one-byte length prefixes, followed
    by anything, and returns the certificate that was encoded: encode/decode is a
    round trip, nothing else decodes, and no two encodings are confused. *)
Theorem cert_decode_exact data c :
  decode data = Ok c ↔ cert_wf c ∧ cert_ids_fit c ∧ ∃ rest, data = encode c ++ rest.
Proof.
  split; [apply cert_decode_inv|]. intros (Hwf & Hfit & rest & ->).
  eapply cert_decode_cursor; eauto using cursor_start.
Qed.

Lemma set_signature_encode c s : encode (set_signature c s) = signable_bytes c ++ s.
Proof. done. Qed.
Lemma set_signature_wf c s : cert_wf c → length s = 64 → cert_wf (set_signature c s).
Proof. intros [] ?. by split. Qed.

(** What is signed determines the certificate: two well-formed certificates
    with the same signable bytes agree on subject, mesh, node, tier, permissions,
    validity window and issuer, as long as the identifiers have at most 255
    bytes.  A signature therefore vouches for one certificate only. *)
Theorem signable_bytes_injective c d :
  cert_wf c → cert_wf d → cert_ids_fit c → cert_ids_fit d →
  signable_bytes c = signable_bytes d → d = set_signature c (signature d).
Proof.
  intros Hc Hd Fc Fd E.
  assert (decode (encode d) = Ok (set_signature c (signature d))) as Hdec.
  { eapply (cert_decode_cursor _ _ []).
    - apply set_signature_wf, wf_signature; done.
    - done.
    - rewrite set_signature_encode, E, app_nil_r. apply cursor_start. }
  assert (decode (encode d) = Ok d) as Hdec'.
  { eapply (cert_decode_cursor _ _ []); [done..|]. rewrite app_nil_r. apply cursor_start. }
  congruence.
Qed.

(** The bound of 255 bytes is needed and not enforced: [len() as u8]
    truncates, and for identifiers beyond it there are two well-formed
    certificates for the same key, with different mesh and node identifiers,
    whose signable bytes are equal; a signature of one is a signature of the other. *)
Theorem long_ids_share_signable_bytes :
  ∃ c d, cert_wf c ∧ cert_wf d ∧ signable_bytes c = signable_bytes d ∧
    subject_public_key c = subject_public_key d ∧
    mesh_id c ≠ mesh_id d ∧ node_id c ≠ node_id d ∧ verify c = verify d.
Proof.
  set (key := replicate 32 Byte.x01).
  set (w := replicate 255 Byte.x61).
  set (n := replicate 97 Byte.x62).
  exists (new key (str "alpha" ++ [Byte.x61] ++ w) n Edge permissions.STANDARD 0 0 key).
  exists (new key (str "alpha") (w ++ [Byte.x61] ++ n) Edge permissions.STANDARD 0 0 key).
  split_and!; by vm_compute.
Qed.

(** Issued certificates verify. *)
Lemma verify_signed `{!Ed25519Laws} c k :
  issuer_public_key c = public_key_bytes k → verify (signed c k) = Ok tt.
Proof.
  intros Hi. unfold verify, signed, sign_with.
  cbn [issuer_public_key set_signature signature]. rewrite Hi.
  apply (verify_with_bytes_sign k (signable_bytes c)).
Qed.
Lemma verify_new_root `{!Ed25519Laws} k m n t i e : verify (new_root k m n t i e) = Ok tt.
Proof. by apply verify_signed. Qed.
Lemma is_root_new_root k m n t i e : is_root (new_root k m n t i e) = true.
Proof. by apply bool_decide_eq_true_2. Qed.

Lemma is_valid_iff c now :
  is_valid c now = true ↔
  (issued_at_ms c ≤ now ∧ (expires_at_ms c = 0 ∨ now < expires_at_ms c))%Z.
Proof. unfold is_valid. rewrite andb_true_iff, orb_true_iff. lia. Qed.
Lemma is_valid_false c now :
  is_valid c now = false ↔
  (now < issued_at_ms c ∨ (expires_at_ms c ≠ 0 ∧ expires_at_ms c ≤ now))%Z.
Proof. unfold is_valid. rewrite andb_false_iff, orb_false_iff. lia. Qed.

(** An expired certificate stays expired. *)
Lemma expired_stays c now later :
  (issued_at_ms c ≤ now)%Z → is_valid c now = false → (now ≤ later)%Z →
  is_valid c later = false.
Proof. rewrite !is_valid_false. lia. Qed.
End with_crypto.
End Cert.

Lemma signable_bytes_injective_witness :
  let c := Cert.new (replicate 32 Byte.x01) (str "ALPHA") (str "node-1") Tactical
             permissions.STANDARD 1000 2000 (replicate 32 Byte.x02) in
  let d := Cert.set_signature c (replicate 64 Byte.xff) in
  Cert.signable_bytes c = Cert.signable_bytes d ∧ d = Cert.set_signature c (signature d).
Proof.
  intros c d. split; [done|].
  apply Cert.signable_bytes_injective; try done;
    split; vm_compute; repeat split; try done; repeat constructor.
Defined.
