(* ===== verification/Bundle.v ===== *)
(** The certificate bundle ([CertificateBundle] of [src/security/certificate.rs]):
    trusted authorities, certificates by subject key, and the node-id index;
    its operations as functions on the record, the step relation of a bundle in
    use, the trust-chain invariant, and what the node-id index does and does not
    guarantee.  [now] arguments are the clock readings the code takes. *)
From Stdlib Require Import ZArith Lia Strings.Byte Strings.String.
From stdpp Require Import prelude gmap.
From S2P Require Import Prelude Wire Crypto Certificate.

Set Default Proof Using "Type".

Record CertificateBundle := {
  authorities : list bytes;
  certificates : gmap bytes MeshCertificate;
  node_id_index : gmap bytes bytes
}.

(** What [std::fs::read_dir] yields for one entry: an I/O error, something that
    is not a file, or a file whose content [std::fs::read] may fail to return. *)
Inductive DirEntry :=
| EntryError
| NotAFile
| AFile (content : option bytes).

Module Bundle.
Section with_crypto.
Context {Ed : Ed25519}.

Definition new : CertificateBundle :=
  {| authorities := []; certificates := ∅; node_id_index := ∅ |}.

Definition add_authority (b : CertificateBundle) (public_key : bytes) : CertificateBundle :=
  if decide (public_key ∈ authorities b) then b
  else {| authorities := authorities b ++ [public_key];
          certificates := certificates b;
          node_id_index := node_id_index b |}.

Definition is_trusted_issuer (b : CertificateBundle) (issuer_key : bytes) (now_ms : Z) : bool :=
  if decide (issuer_key ∈ authorities b) then true
  else match certificates b !! issuer_key with
  | Some issuer_cert =>
      if Cert.has_permission issuer_cert permissions.ENROLL && Cert.is_valid issuer_cert now_ms
      then is_ok (Cert.verify issuer_cert)
      else false
  | None => false
  end.

Definition add_certificate_unchecked (b : CertificateBundle) (c : MeshCertificate)
    : CertificateBundle := {|
  authorities := authorities b;
  certificates := <[subject_public_key c := c]> (certificates b);
  node_id_index :=
    if decide (node_id c = []) then node_id_index b
    else <[node_id c := subject_public_key c]> (node_id_index b)
|}.

(** The insertion at the end of [add_certificate] is the body of
    [add_certificate_unchecked]. *)
Definition add_certificate (b : CertificateBundle) (c : MeshCertificate) (now_ms : Z)
    : outcome SecurityError CertificateBundle :=
  _ ← Cert.verify c;
  bail! (negb (Cert.is_root c) && negb (is_trusted_issuer b (issuer_public_key c) now_ms))
    with CertificateError "issuer not in trusted authorities and has no ENROLL delegation";
  Ok (add_certificate_unchecked b c).

Definition check_cert (c : MeshCertificate) (now_ms : Z) : bool :=
  if negb (Cert.is_valid c now_ms) then false
  else if negb (is_ok (Cert.verify c)) then false
  else true.

Definition validate_peer (b : CertificateBundle) (peer : bytes) (now_ms : Z) : bool :=
  match certificates b !! peer with
  | Some c => check_cert c now_ms
  | None => false
  end.

Definition get_peer_tier (b : CertificateBundle) (peer : bytes) : option MeshTier :=
  tier <$> certificates b !! peer.
Definition get_peer_permissions (b : CertificateBundle) (peer : bytes) : option byte :=
  perms <$> certificates b !! peer.
Definition get_certificate (b : CertificateBundle) (pk : bytes) : option MeshCertificate :=
  certificates b !! pk.

Definition get_certificate_by_node_id (b : CertificateBundle) (n : bytes)
    : option MeshCertificate :=
  pk ← node_id_index b !! n; certificates b !! pk.

Definition validate_node_id (b : CertificateBundle) (n : bytes) (now_ms : Z) : bool :=
  match get_certificate_by_node_id b n with
  | Some c => check_cert c now_ms
  | None => false
  end.

Definition get_node_tier (b : CertificateBundle) (n : bytes) : option MeshTier :=
  tier <$> get_certificate_by_node_id b n.

Definition len (b : CertificateBundle) : nat := size (certificates b).
Definition is_empty (b : CertificateBundle) : bool := bool_decide (certificates b = ∅).
Definition authority_count (b : CertificateBundle) : nat := length (authorities b).

(** The closure [retain] runs on each certificate, as it acts on the index. *)
Definition unindex (now_ms : Z) (pk : bytes) (c : MeshCertificate) (idx : gmap bytes bytes)
    : gmap bytes bytes :=
  if negb (Cert.is_valid c now_ms) && negb (bool_decide (node_id c = []))
  then delete (node_id c) idx else idx.

Definition remove_expired (b : CertificateBundle) (now_ms : Z) : CertificateBundle * nat :=
  let before := size (certificates b) in
  let kept := filter (λ kc, Cert.is_valid kc.2 now_ms = true) (certificates b) in
  ({| authorities := authorities b;
      certificates := kept;
      node_id_index := map_fold (unindex now_ms) (node_id_index b) (certificates b) |},
   before - size kept).

(** Directory loading.  [None] is a [read_dir] that failed; every entry carries
    the time it is processed at.  Entries before an I/O error stay loaded. *)
Fixpoint load_authorities (b : CertificateBundle) (es : list DirEntry) (count : nat)
    : CertificateBundle * outcome SecurityError nat :=
  match es with
  | [] => (b, Ok count)
  | EntryError :: _ => (b, Err (IoError "read_dir"))
  | NotAFile :: es => load_authorities b es count
  | AFile None :: _ => (b, Err (IoError "read"))
  | AFile (Some data) :: es =>
      if decide (length data = 32) then
        if vk_valid data then load_authorities (add_authority b data) es (count + 1)
        else load_authorities b es count
      else load_authorities b es count
  end.
Definition load_authorities_from_dir (b : CertificateBundle) (dir : option (list DirEntry))
    : CertificateBundle * outcome SecurityError nat :=
  match dir with
  | None => (b, Err (IoError "read_dir"))
  | Some es => load_authorities b es 0
  end.

Fixpoint load_certificates (b : CertificateBundle) (es : list (Z * DirEntry)) (count : nat)
    : CertificateBundle * outcome SecurityError nat :=
  match es with
  | [] => (b, Ok count)
  | (_, EntryError) :: _ => (b, Err (IoError "read_dir"))
  | (_, NotAFile) :: es => load_certificates b es count
  | (_, AFile None) :: _ => (b, Err (IoError "read"))
  | (now, AFile (Some data)) :: es =>
      match Cert.decode data with
      | Ok c =>
          match add_certificate b c now with
          | Ok b' => load_certificates b' es (count + 1)
          | Err _ => load_certificates b es count
          | Panic => (b, Panic)
          end
      | Err _ => load_certificates b es count
      | Panic => (b, Panic)
      end
  end.
Definition load_certificates_from_dir (b : CertificateBundle)
    (dir : option (list (Z * DirEntry))) : CertificateBundle * outcome SecurityError nat :=
  match dir with
  | None => (b, Err (IoError "read_dir"))
  | Some es => load_certificates b es 0
  end.

(** * Chains of delegation

    [chain auths now c]: [c] verifies and is a self-signed root, or is issued by
    an authority, or by the subject of a chained certificate that had [ENROLL]
    and was within its validity window at some time up to [now]. *)
Inductive chain (auths : list bytes) (now : Z) : MeshCertificate → Prop :=
| chain_root c :
    Cert.verify c = Ok tt → Cert.is_root c = true → chain auths now c
| chain_authority c :
    Cert.verify c = Ok tt → issuer_public_key c ∈ auths → chain auths now c
| chain_delegated c d t :
    Cert.verify c = Ok tt → chain auths now d →
    subject_public_key d = issuer_public_key c →
    Cert.has_permission d permissions.ENROLL = true →
    Cert.is_valid d t = true → (t ≤ now)%Z → chain auths now c.

(** A bundle in use: every operation that changes it, with the time it runs at;
    only [add_certificate_unchecked], for bundles validated elsewhere, is out. *)
Inductive reachable : Z → CertificateBundle → Prop :=
| reach_new now : reachable now new
| reach_authority now now' b pk :
    reachable now b → (now ≤ now')%Z → reachable now' (add_authority b pk)
| reach_add now now' b b' c :
    reachable now b → (now ≤ now')%Z → add_certificate b c now' = Ok b' → reachable now' b'
| reach_expire now now' b :
    reachable now b → (now ≤ now')%Z → reachable now' (remove_expired b now').1
| reach_load_authorities now now' b dir :
    reachable now b → (now ≤ now')%Z → reachable now' (load_authorities_from_dir b dir).1
| reach_load_certificates now now' b dir :
    reachable now b → (now ≤ now')%Z →
    Forall (λ e, e.1 ≤ now')%Z (default [] dir) →
    reachable now' (load_certificates_from_dir b dir).1.

Definition bundle_ok (now : Z) (b : CertificateBundle) : Prop :=
  map_Forall (λ pk c, subject_public_key c = pk ∧ chain (authorities b) now c) (certificates b).

Lemma chain_mono auths auths' now now' c :
  auths ⊆ auths' → (now ≤ now')%Z → chain auths now c → chain auths' now' c.
Proof.
  intros Ha Hn. induction 1.
  - by apply chain_root.
  - apply chain_authority; auto.
  - eapply chain_delegated; eauto. lia.
Qed.

Lemma chain_verify auths now c : chain auths now c → Cert.verify c = Ok tt.
Proof. by inversion 1. Qed.

Lemma bundle_ok_later now now' b : (now ≤ now')%Z → bundle_ok now b → bundle_ok now' b.
Proof.
  intros Hn Hb pk c [Hs Hc]%Hb. split; [done|]. by eapply chain_mono.
Qed.

Lemma add_authority_ok now b pk : bundle_ok now b → bundle_ok now (add_authority b pk).
Proof.
  intros Hb. unfold add_authority. case_decide; [done|]. intros pk' c [Hs Hc]%Hb.
  split; [done|]. eapply chain_mono; [|reflexivity|exact Hc]. cbn. set_solver.
Qed.

Lemma verify_is_ok c : is_ok (Cert.verify c) = true → Cert.verify c = Ok tt.
Proof. by destruct (Cert.verify c) as [[]| |]. Qed.

(** The conditions under which a certificate is accepted. *)
Lemma add_certificate_inv b c now b' :
  add_certificate b c now = Ok b' →
  Cert.verify c = Ok tt ∧ b' = add_certificate_unchecked b c ∧
  (Cert.is_root c = true ∨ is_trusted_issuer b (issuer_public_key c) now = true).
Proof.
  unfold add_certificate. intros ([] & Hv & H)%bind_Ok_inv.
  destruct (Cert.is_root c), (is_trusted_issuer b _ now); naive_solver.
Qed.

Lemma is_trusted_issuer_inv b pk now :
  is_trusted_issuer b pk now = true →
  pk ∈ authorities b ∨
  ∃ d, certificates b !! pk = Some d ∧ Cert.has_permission d permissions.ENROLL = true ∧
       Cert.is_valid d now = true.
Proof.
  unfold is_trusted_issuer. case_decide; [auto|].
  destruct (certificates b !! pk) as [d|]; [|done].
  destruct (Cert.has_permission d _) eqn:?, (Cert.is_valid d now) eqn:?; naive_solver.
Qed.

Lemma accepted_chain now t b c b' :
  bundle_ok now b → (t ≤ now)%Z → add_certificate b c t = Ok b' →
  chain (authorities b) now c.
Proof.
  intros Hb Hn (Hv & _ & [Hr|Ht])%add_certificate_inv; [by apply chain_root|].
  apply is_trusted_issuer_inv in Ht as [?|(d & Hd & He & Hval)]; [by apply chain_authority|].
  apply Hb in Hd as [Hs Hc]. by eapply chain_delegated.
Qed.

Lemma add_certificate_ok now t b c b' :
  bundle_ok now b → (t ≤ now)%Z → add_certificate b c t = Ok b' → bundle_ok now b'.
Proof.
  intros Hb Hn Ha. pose proof (accepted_chain _ _ _ _ _ Hb Hn Ha) as Hc.
  apply add_certificate_inv in Ha as (_ & -> & _). by apply map_Forall_insert_2.
Qed.

Lemma remove_expired_ok now b t : bundle_ok now b → bundle_ok now (remove_expired b t).1.
Proof. intros Hb pk c [Hc _]%map_lookup_filter_Some. by apply Hb. Qed.

Lemma load_authorities_ok now b es n : bundle_ok now b → bundle_ok now (load_authorities b es n).1.
Proof.
  revert b n. induction es as [|[| |[data|]] es IH]; intros b n Hb; cbn; auto.
  repeat case_match; auto using add_authority_ok.
Qed.

Lemma load_certificates_ok now b es n :
  Forall (λ e, e.1 ≤ now)%Z es → bundle_ok now b → bundle_ok now (load_certificates b es n).1.
Proof.
  intros Hes. revert b n. induction Hes as [|[t e] es Ht _ IH]; intros b n Hb; cbn; [done|].
  destruct e as [| |[data|]]; auto.
  destruct (Cert.decode data); auto.
  destruct (add_certificate b _ t) eqn:Ha; auto. eauto using add_certificate_ok.
Qed.

Lemma reachable_ok now b : reachable now b → bundle_ok now b.
Proof.
  induction 1 as [now|now now' b pk _ IH Hn|now now' b b' c _ IH Hn Ha|now now' b _ IH Hn
                 |now now' b dir _ IH Hn|now now' b dir _ IH Hn Hd];
    try apply (bundle_ok_later _ _ _ Hn) in IH.
  - apply map_Forall_empty.
  - by apply add_authority_ok.
  - eapply add_certificate_ok; [exact IH|reflexivity|exact Ha].
  - by apply remove_expired_ok.
  - destruct dir; cbn; auto using load_authorities_ok.
  - destruct dir; cbn; auto using load_certificates_ok.
Qed.

Lemma check_cert_inv c now :
  check_cert c now = true ↔ Cert.is_valid c now = true ∧ Cert.verify c = Ok tt.
Proof.
  unfold check_cert. destruct (Cert.is_valid c now), (Cert.verify c) as [[]| |]; naive_solver.
Qed.

(** C6.  Trust chains: in a bundle built with [add_authority], [add_certificate],
    [remove_expired] and the directory loaders, a peer that [validate_peer]
    accepts holds a certificate for its own key, inside its validity window, with
    a correct signature, and a chain of delegation from a self-signed root or an
    authority of the bundle, each delegate having had [ENROLL] and a valid
    certificate when it was used. *)
Theorem validated_peer_has_chain now b peer t :
  reachable now b → validate_peer b peer t = true →
  ∃ c, certificates b !! peer = Some c ∧ subject_public_key c = peer ∧
       Cert.is_valid c t = true ∧ Cert.verify c = Ok tt ∧ chain (authorities b) now c.
Proof.
  intros Hr%reachable_ok. unfold validate_peer.
  destruct (certificates b !! peer) as [c|] eqn:Hl; [|done].
  intros [Hval Hver]%check_cert_inv. apply Hr in Hl as Hc. naive_solver.
Qed.

(** A certificate an authority of the bundle signed is taken. *)
Lemma authority_signed_accepted `{!Ed25519Laws} b a c arrival :
  issuer_public_key c = public_key_bytes a → public_key_bytes a ∈ authorities b →
  add_certificate b (Cert.signed c a) arrival =
    Ok (add_certificate_unchecked b (Cert.signed c a)).
Proof.
  intros Hi Ha. unfold add_certificate. rewrite Cert.verify_signed by done.
  cbn [mbind outcome_bind]. unfold is_trusted_issuer.
  rewrite decide_True by (cbn; by rewrite Hi). by rewrite andb_false_r.
Qed.

(** A self-signed certificate is its own admission: any key, authority or
    not, can put a root certificate with [ENROLL] in the bundle, then counts as a
    valid peer, and can enroll every other key it signs for. *)
Theorem self_signed_root_is_admitted `{!Ed25519Laws} b k mesh node t issued expires now :
  let root := Cert.new_root k mesh node t issued expires in
  Cert.is_valid root now = true →
  ∃ b', add_certificate b root now = Ok b' ∧
    validate_peer b' (public_key_bytes k) now = true ∧
    ∀ c, issuer_public_key c = public_key_bytes k →
      add_certificate b' (Cert.signed c k) now =
        Ok (add_certificate_unchecked b' (Cert.signed c k)).
Proof.
  intros root Hval. exists (add_certificate_unchecked b root).
  assert (Cert.verify root = Ok tt) as Hver by apply Cert.verify_new_root.
  assert (certificates (add_certificate_unchecked b root) !! public_key_bytes k = Some root)
    as Hl by apply lookup_insert_eq.
  split_and!.
  - unfold add_certificate. rewrite Hver. unfold root at 1. by rewrite Cert.is_root_new_root.
  - unfold validate_peer. rewrite Hl. by apply check_cert_inv.
  - intros c Hc. unfold add_certificate. rewrite (Cert.verify_signed c k Hc).
    change (issuer_public_key (Cert.signed c k)) with (issuer_public_key c).
    replace (is_trusted_issuer _ (issuer_public_key c) now) with true
      by (unfold is_trusted_issuer; case_decide; [done|]; rewrite Hc, Hl, Hval, Hver; done).
    by rewrite andb_false_r.
Qed.

(** * The node-id index *)

Lemma unchecked_by_key b c :
  certificates (add_certificate_unchecked b c) !! subject_public_key c = Some c.
Proof. apply lookup_insert_eq. Qed.

Lemma unchecked_by_node b c :
  node_id c ≠ [] → get_certificate_by_node_id (add_certificate_unchecked b c) (node_id c) = Some c.
Proof.
  intros Hn. unfold get_certificate_by_node_id. cbn [node_id_index add_certificate_unchecked].
  rewrite decide_False, lookup_insert_eq by done. apply unchecked_by_key.
Qed.

(** An entry of another node keeps its key, which may name a new certificate. *)
Lemma unchecked_other_node b c n :
  n ≠ node_id c → node_id_index (add_certificate_unchecked b c) !! n = node_id_index b !! n.
Proof. intros. cbn. case_decide; [done|]. by rewrite lookup_insert_ne. Qed.

(** Adding a certificate: on success it is found under its subject key and,
    when it names a node, under its node id, while the certificates of all other
    keys, the node ids of all other nodes and the authorities are as before. *)
Theorem add_certificate_lookup b c now b' :
  add_certificate b c now = Ok b' →
  get_certificate b' (subject_public_key c) = Some c ∧
  (node_id c ≠ [] → get_certificate_by_node_id b' (node_id c) = Some c) ∧
  (∀ pk, pk ≠ subject_public_key c → get_certificate b' pk = get_certificate b pk) ∧
  (∀ n, n ≠ node_id c → node_id_index b' !! n = node_id_index b !! n) ∧
  authorities b' = authorities b.
Proof.
  intros (_ & -> & _)%add_certificate_inv. split_and!.
  - apply unchecked_by_key.
  - apply unchecked_by_node.
  - intros pk Hpk. by apply lookup_insert_ne.
  - apply unchecked_other_node.
  - done.
Qed.

(** A renewed certificate under a new node id leaves the old one behind:
    when a subject's certificate for node [n1] is followed by one for node [n2],
    looking up [n1] still succeeds and returns the certificate of [n2], so
    [validate_node_id] vouches for a host name no certificate carries. *)
Theorem renamed_node_keeps_old_id b b1 b2 c1 c2 t1 t2 now :
  add_certificate b c1 t1 = Ok b1 → add_certificate b1 c2 t2 = Ok b2 →
  subject_public_key c1 = subject_public_key c2 →
  node_id c1 ≠ [] → node_id c1 ≠ node_id c2 → Cert.is_valid c2 now = true →
  get_certificate_by_node_id b2 (node_id c1) = Some c2 ∧
  validate_node_id b2 (node_id c1) now = true.
Proof.
  intros (_ & -> & _)%add_certificate_inv (Hv & -> & _)%add_certificate_inv Hs Hn Hne Hval.
  assert (get_certificate_by_node_id
            (add_certificate_unchecked (add_certificate_unchecked b c1) c2) (node_id c1)
          = Some c2) as Hl.
  { unfold get_certificate_by_node_id. rewrite unchecked_other_node by done.
    cbn [node_id_index add_certificate_unchecked]. rewrite decide_False by done.
    rewrite lookup_insert_eq. cbn. rewrite Hs. apply lookup_insert_eq. }
  split; [done|]. unfold validate_node_id. rewrite Hl. by apply check_cert_inv.
Qed.

(** * Expiry *)

(** [n] stays indexed when no expired certificate carries it. *)
Definition stays_indexed (now : Z) (n : bytes) (certs : gmap bytes MeshCertificate) : Prop :=
  map_Forall (λ _ c, n ≠ [] → node_id c = n → Cert.is_valid c now = true) certs.

Lemma unindex_lookup now certs idx n pk :
  map_fold (unindex now) idx certs !! n = Some pk ↔
  idx !! n = Some pk ∧ stays_indexed now n certs.
Proof.
  unfold stays_indexed. revert certs.
  apply (map_fold_weak_ind (λ r certs, r !! n = Some pk ↔ _)).
  { split; [|by intros [? _]]. intros ?. split; [done|apply map_Forall_empty]. }
  intros pk' c m r Hm IH. rewrite map_Forall_insert by done. unfold unindex.
  destruct (Cert.is_valid c now); cbn [negb andb]; [naive_solver|].
  destruct (decide (node_id c = [])) as [He|He].
  - rewrite bool_decide_eq_true_2 by done. naive_solver.
  - rewrite bool_decide_eq_false_2 by done. cbn [negb].
    destruct (decide (node_id c = n)) as [<-|Hn].
    + rewrite lookup_delete_eq. naive_solver.
    + rewrite lookup_delete_ne by done. naive_solver.
Qed.

Lemma size_filter_complement {A} (P : bytes * A → Prop) `{∀ x, Decision (P x)}
    (m : gmap bytes A) : size (filter P m) + size (filter (λ x, ¬ P x) m) = size m.
Proof.
  rewrite <- (map_filter_union_complement P m) at 3.
  rewrite map_size_disj_union; [done|]. apply map_disjoint_filter_complement.
Qed.

Lemma remove_expired_lookup b now pk c :
  certificates (remove_expired b now).1 !! pk = Some c ↔
  certificates b !! pk = Some c ∧ Cert.is_valid c now = true.
Proof. apply map_lookup_filter_Some. Qed.

(** [remove_expired] keeps exactly the certificates inside their validity
    window, returns how many it dropped, keeps the authorities, and drops from
    the node-id index exactly the node ids that some dropped certificate carries. *)
Theorem remove_expired_spec b now b' removed :
  remove_expired b now = (b', removed) →
  (∀ pk c, certificates b' !! pk = Some c ↔
           certificates b !! pk = Some c ∧ Cert.is_valid c now = true) ∧
  removed = size (filter (λ kc, ¬ Cert.is_valid kc.2 now = true) (certificates b)) ∧
  authorities b' = authorities b ∧
  (∀ n pk, node_id_index b' !! n = Some pk ↔
           node_id_index b !! n = Some pk ∧ stays_indexed now n (certificates b)).
Proof.
  intros H. pose proof (remove_expired_lookup b now) as Hl. rewrite H in Hl.
  injection H as <- <-. split_and!; [done| |done|].
  - rewrite <- (size_filter_complement
                  (λ kc, Cert.is_valid kc.2 now = true) (certificates b)) at 1. lia.
  - intros n pk. apply unindex_lookup.
Qed.

(** Expiry of one certificate unlists another: when an expired and a valid
    certificate of different keys carry the same node id and the index points to
    the valid one, [remove_expired] keeps the valid certificate but drops the
    node id, so the node stops validating by name while its key still does. *)
Theorem remove_expired_unlists_valid_node b c1 c2 now :
  certificates b !! subject_public_key c1 = Some c1 → Cert.is_valid c1 now = false →
  certificates b !! subject_public_key c2 = Some c2 →
  node_id c1 = node_id c2 → node_id c2 ≠ [] →
  node_id_index b !! node_id c2 = Some (subject_public_key c2) →
  validate_node_id b (node_id c2) now = true →
  validate_peer (remove_expired b now).1 (subject_public_key c2) now = true ∧
  validate_node_id (remove_expired b now).1 (node_id c2) now = false.
Proof.
  intros H1 Hexp H2 Hn He Hi Hv.
  unfold validate_node_id, get_certificate_by_node_id in Hv. rewrite Hi in Hv. cbn in Hv.
  rewrite H2 in Hv. apply check_cert_inv in Hv as Hv'. destruct Hv' as [Hval _].
  split.
  - unfold validate_peer.
    by rewrite (proj2 (remove_expired_lookup b now _ c2) (conj H2 Hval)).
  - unfold validate_node_id, get_certificate_by_node_id.
    destruct (node_id_index (remove_expired b now).1 !! node_id c2) as [pk|] eqn:Hl; [|done].
    apply unindex_lookup in Hl as [_ Hl]. specialize (Hl _ _ H1 He Hn). congruence.
Qed.
End with_crypto.
End Bundle.

(** * Witnesses *)
#[local] Existing Instance toy_ed25519.

Definition ex_auth : DeviceKeypair := toy_key Byte.x0a.
Definition ex_issue (subject : byte) (node : string) (issued expires : Z) : MeshCertificate :=
  Cert.signed (Cert.new (public_key_bytes (toy_key subject)) (str "ALPHA") (str node) Tactical
    permissions.STANDARD issued expires (public_key_bytes ex_auth)) ex_auth.
Definition ex_bundle : CertificateBundle := Bundle.add_authority Bundle.new (public_key_bytes ex_auth).
Definition ex_old : MeshCertificate := ex_issue Byte.x01 "node-1" 0 100.
Definition ex_new : MeshCertificate := ex_issue Byte.x02 "node-1" 50 0.
Definition ex_renamed : MeshCertificate := ex_issue Byte.x01 "node-2" 60 0.

Lemma validated_peer_has_chain_witness :
  let b := Bundle.add_certificate_unchecked ex_bundle ex_old in
  ∃ c, certificates b !! subject_public_key ex_old = Some c ∧
       Bundle.chain (authorities b) 20 c.
Proof.
  intros b. destruct (Bundle.validated_peer_has_chain 20 b (subject_public_key ex_old) 30)
    as (c & Hl & _ & _ & _ & Hc).
  - apply (Bundle.reach_add 10 20 ex_bundle b ex_old); [|done|vm_eq].
    by apply (Bundle.reach_authority 5 10); [apply Bundle.reach_new|].
  - vm_eq.
  - by exists c.
Defined.

Lemma self_signed_root_is_admitted_witness :
  ∃ b', Bundle.add_certificate Bundle.new
          (Cert.new_root (toy_key Byte.x07) (str "ALPHA") (str "rogue") Edge 0 0) 10 = Ok b' ∧
        Bundle.validate_peer b' (public_key_bytes (toy_key Byte.x07)) 10 = true.
Proof.
  pose proof toy_ed25519_laws.
  destruct (Bundle.self_signed_root_is_admitted Bundle.new (toy_key Byte.x07) (str "ALPHA")
              (str "rogue") Edge 0 0 10 ltac:(vm_eq)) as (b' & Ha & Hv & _).
  by exists b'.
Defined.

Lemma add_certificate_lookup_witness :
  Bundle.get_certificate_by_node_id (Bundle.add_certificate_unchecked ex_bundle ex_old)
    (str "node-1") = Some ex_old.
Proof.
  destruct (Bundle.add_certificate_lookup ex_bundle ex_old 10
              (Bundle.add_certificate_unchecked ex_bundle ex_old) ltac:(vm_eq))
    as (_ & Hn & _).
  by apply Hn.
Defined.

Lemma renamed_node_keeps_old_id_witness :
  let b1 := Bundle.add_certificate_unchecked ex_bundle ex_old in
  let b2 := Bundle.add_certificate_unchecked b1 ex_renamed in
  node_id ex_renamed = str "node-2" ∧ Bundle.validate_node_id b2 (str "node-1") 70 = true.
Proof.
  intros b1 b2. split; [done|].
  apply (Bundle.renamed_node_keeps_old_id ex_bundle b1 b2 ex_old ex_renamed 10 65 70);
    vm_eq.
Defined.

Lemma remove_expired_spec_witness :
  let b := Bundle.add_certificate_unchecked
             (Bundle.add_certificate_unchecked ex_bundle ex_old) ex_new in
  (Bundle.remove_expired b 120).2 = 1 ∧
  1 = size (filter (λ kc, ¬ Cert.is_valid kc.2 120 = true) (certificates b)).
Proof.
  intros b. split; [vm_eq|].
  apply (Bundle.remove_expired_spec b 120 (Bundle.remove_expired b 120).1 1).
  vm_eq.
Defined.

Lemma remove_expired_unlists_valid_node_witness :
  let b := Bundle.add_certificate_unchecked
             (Bundle.add_certificate_unchecked ex_bundle ex_old) ex_new in
  Bundle.add_certificate ex_bundle ex_old 10
    = Ok (Bundle.add_certificate_unchecked ex_bundle ex_old) ∧
  Bundle.validate_node_id (Bundle.remove_expired b 120).1 (str "node-1") 120 = false.
Proof.
  intros b. split; [vm_eq|].
  apply (Bundle.remove_expired_unlists_valid_node b ex_old ex_new 120); vm_eq.
Defined.
