(* ===== verification/Enrollment.v ===== *)
(** Mesh enrollment ([src/security/enrollment.rs]): the request and response
    messages with their wire formats, the [EnrollmentService] trait and the
    static token-based service.  The theorems cover both codecs, what an
    approval implies, and the whole path from a device's request to a peer that
    a bundle validates. *)
From Stdlib Require Import ZArith Lia Strings.Byte Strings.String.
From stdpp Require Import prelude gmap.
From S2P Require Import Prelude Wire Crypto Certificate Bundle.

Set Default Proof Using "Type".

Inductive EnrollmentStatus :=
| Pending
| Approved
| Denied (reason : bytes)
| Revoked (reason : bytes).

Definition status_to_byte (s : EnrollmentStatus) : byte :=
  as_u8 match s with Pending => 0 | Approved => 1 | Denied _ => 2 | Revoked _ => 3 end.

Module Request.
Record EnrollmentRequest := {
  subject_public_key : bytes;
  mesh_id : bytes;
  node_id : bytes;
  requested_tier : MeshTier;
  bootstrap_token : bytes;
  timestamp_ms : Z;
  signature : bytes
}.

Record request_wf (r : EnrollmentRequest) : Prop := {
  rwf_subject : length (subject_public_key r) = 32;
  rwf_mesh : utf8_valid (mesh_id r) = true;
  rwf_node : utf8_valid (node_id r) = true;
  rwf_time : in_u 64 (timestamp_ms r);
  rwf_signature : length (signature r) = 64
}.

(** Identifiers and token fit their length prefixes. *)
Definition request_fits (r : EnrollmentRequest) : Prop :=
  length (mesh_id r) ≤ 255 ∧ length (node_id r) ≤ 255 ∧ (zlen (bootstrap_token r) < 65536)%Z.

Section with_crypto.
Context {Ed : Ed25519}.

Definition signable_bytes (r : EnrollmentRequest) : bytes :=
  subject_public_key r
  ++ [as_u8 (zlen (mesh_id r))]
  ++ mesh_id r
  ++ [as_u8 (zlen (node_id r))]
  ++ node_id r
  ++ [Tier.to_byte (requested_tier r)]
  ++ to_le 2 (zlen (bootstrap_token r))
  ++ bootstrap_token r
  ++ to_le 8 (timestamp_ms r).

Definition set_signature (r : EnrollmentRequest) (s : bytes) : EnrollmentRequest := {|
  subject_public_key := subject_public_key r;
  mesh_id := mesh_id r;
  node_id := node_id r;
  requested_tier := requested_tier r;
  bootstrap_token := bootstrap_token r;
  timestamp_ms := timestamp_ms r;
  signature := s
|}.

Definition new (keypair : DeviceKeypair) (mesh node : bytes) (t : MeshTier) (token : bytes)
    (timestamp : Z) : EnrollmentRequest :=
  let req := {|
    subject_public_key := public_key_bytes keypair;
    mesh_id := mesh;
    node_id := node;
    requested_tier := t;
    bootstrap_token := token;
    timestamp_ms := timestamp;
    signature := replicate 64 Byte.x00
  |} in
  let signable := signable_bytes req in
  set_signature req (sign keypair signable).

Definition verify_signature (r : EnrollmentRequest) : outcome SecurityError unit :=
  verify_with_bytes (subject_public_key r) (signable_bytes r) (signature r).

Definition encode (r : EnrollmentRequest) : bytes := signable_bytes r ++ signature r.

Definition decode (data : bytes) : outcome SecurityError EnrollmentRequest :=
  bail! decide (length data < 109) with SerializationError "enrollment request too short";
  let pos := 0 in
  subject ← slice data pos (pos + 32);
  subject ← array 32 subject;
  let pos := pos + 32 in
  mesh_id_len ← index data pos;
  let mesh_id_len := Z.to_nat (u8 mesh_id_len) in
  let pos := pos + 1 in
  bail! decide (length data < pos + mesh_id_len + 1)
    with SerializationError "enrollment request truncated at mesh_id";
  mesh ← slice data pos (pos + mesh_id_len);
  mesh ← ok_or (from_utf8 mesh) (SerializationError "invalid mesh_id");
  let pos := pos + mesh_id_len in
  node_id_len ← index data pos;
  let node_id_len := Z.to_nat (u8 node_id_len) in
  let pos := pos + 1 in
  bail! decide (length data < pos + node_id_len + 1 + 2)
    with SerializationError "enrollment request truncated at node_id";
  node ← slice data pos (pos + node_id_len);
  node ← ok_or (from_utf8 node) (SerializationError "invalid node_id");
  let pos := pos + node_id_len in
  t ← index data pos;
  t ← ok_or (Tier.from_byte t) (SerializationError "invalid tier byte");
  let pos := pos + 1 in
  token_len ← slice data pos (pos + 2);
  token_len ← array 2 token_len;
  let token_len := Z.to_nat (from_le token_len) in
  let pos := pos + 2 in
  bail! decide (length data < pos + token_len + 8 + 64)
    with SerializationError "enrollment request truncated at token";
  token ← slice data pos (pos + token_len);
  let pos := pos + token_len in
  timestamp ← slice data pos (pos + 8);
  timestamp ← array 8 timestamp;
  let pos := pos + 8 in
  sig ← slice data pos (pos + 64);
  sig ← array 64 sig;
  Ok {|
    subject_public_key := subject;
    mesh_id := mesh;
    node_id := node;
    requested_tier := t;
    bootstrap_token := token;
    timestamp_ms := from_le timestamp;
    signature := sig
  |}.

Lemma request_decode_no_panic data : no_panic (decode data).
Proof. unfold decode. panic_free. Qed.

Lemma request_decode_cursor r data rest :
  request_wf r → request_fits r → cursor data 0 (encode r ++ rest) → decode data = Ok r.
Proof.
  intros [] (Hm & Hn & Ht) C.
  unfold decode, encode, signable_bytes in *. rewrite <- !(assoc_L (++)) in C. cbn [app] in C.
  decode_run C.
  rewrite Tier.tier_from_to_byte. cbn [ok_or mbind outcome_bind].
  decode_run C.
  rewrite !(le_roundtrip 8 64) by done. by destruct r.
Qed.

Lemma request_decode_inv data r :
  decode data = Ok r → request_wf r ∧ request_fits r ∧ ∃ rest, data = encode r ++ rest.
Proof.
  intros H. unfold decode in H. pose proof (cursor_start data) as C.
  decode_inv H. simplify_eq.
  match goal with Ht : Tier.from_byte _ = Some _ |- _ =>
    apply Tier.tier_to_from_byte in Ht as <- end.
  split_and!; [split; cbn; eauto with wire..|split_and!; cbn; eauto with wire|].
  - eapply (len_le_bound 2); eauto.
  - eexists. unfold encode, signable_bytes. cbn. wire_eq.
Qed.

(** The enrollment-request decoder accepts exactly the encodings of
    well-formed requests whose identifiers and token fit their length prefixes,
    followed by anything, and returns the request that was encoded. *)
Theorem request_decode_exact data r :
  decode data = Ok r ↔ request_wf r ∧ request_fits r ∧ ∃ rest, data = encode r ++ rest.
Proof.
  split; [apply request_decode_inv|]. intros (Hwf & Hfit & rest & ->).
  eapply request_decode_cursor; eauto using cursor_start.
Qed.

Lemma verify_signature_new `{!Ed25519Laws} k mesh node t token ts :
  verify_signature (new k mesh node t token ts) = Ok tt.
Proof. apply verify_with_bytes_sign. Qed.

Lemma new_wf `{!Ed25519Laws} k mesh node t token ts :
  utf8_valid mesh = true → utf8_valid node = true → in_u 64 ts →
  request_wf (new k mesh node t token ts).
Proof. intros. split; cbn; auto with wire. Qed.
End with_crypto.
End Request.
#[export] Hint Resolve Cert.cert_decode_no_panic Request.request_decode_no_panic : wire.

Module Response.
Record EnrollmentResponse := {
  status : EnrollmentStatus;
  certificate : option MeshCertificate;
  formation_secret : option bytes;
  timestamp_ms : Z
}.

Definition status_reason (s : EnrollmentStatus) : bytes :=
  match s with Denied reason | Revoked reason => reason | _ => [] end.

Definition certificate_fits (c : MeshCertificate) : Prop := cert_wf c ∧ cert_ids_fit c.

Record response_wf (r : EnrollmentResponse) : Prop := {
  pwf_reason : utf8_valid (status_reason (status r)) = true;
  pwf_reason_len : (zlen (status_reason (status r)) < 65536)%Z;
  pwf_cert : ∀ c, certificate r = Some c → certificate_fits c;
  pwf_secret : ∀ s, formation_secret r = Some s → (zlen s < 65536)%Z;
  pwf_time : in_u 64 (timestamp_ms r)
}.

Section with_crypto.
Context {Ed : Ed25519}.

Definition approved (c : MeshCertificate) (secret : option bytes) (ts : Z)
    : EnrollmentResponse :=
  {| status := Approved; certificate := Some c; formation_secret := secret; timestamp_ms := ts |}.
Definition denied (reason : bytes) (ts : Z) : EnrollmentResponse :=
  {| status := Denied reason; certificate := None; formation_secret := None; timestamp_ms := ts |}.
Definition pending (ts : Z) : EnrollmentResponse :=
  {| status := Pending; certificate := None; formation_secret := None; timestamp_ms := ts |}.

Definition encode_status (s : EnrollmentStatus) : bytes :=
  [status_to_byte s] ++
  match s with
  | Denied reason | Revoked reason => to_le 2 (zlen reason) ++ reason
  | _ => to_le 2 0
  end.
Definition encode_certificate (o : option MeshCertificate) : bytes :=
  match o with
  | Some c => [Byte.x01] ++ to_le 2 (zlen (Cert.encode c)) ++ Cert.encode c
  | None => [Byte.x00]
  end.
Definition encode_secret (o : option bytes) : bytes :=
  match o with
  | Some s => [Byte.x01] ++ to_le 2 (zlen s) ++ s
  | None => [Byte.x00]
  end.
Definition encode (r : EnrollmentResponse) : bytes :=
  encode_status (status r)
  ++ encode_certificate (certificate r)
  ++ encode_secret (formation_secret r)
  ++ to_le 8 (timestamp_ms r).

(** The parts of [decode]: each returns what it read and the new position. *)
Definition decode_status (data : bytes) (pos : nat)
    : outcome SecurityError (EnrollmentStatus * nat) :=
  status_byte ← index data pos;
  let pos := pos + 1 in
  reason_len ← slice data pos (pos + 2);
  reason_len ← array 2 reason_len;
  let reason_len := Z.to_nat (from_le reason_len) in
  let pos := pos + 2 in
  bail! decide (length data ≤ pos + reason_len)
    with SerializationError "enrollment response truncated at reason";
  reason ← (if decide (0 < reason_len) then
              reason ← slice data pos (pos + reason_len);
              ok_or (from_utf8 reason) (SerializationError "invalid reason")
            else Ok []);
  let pos := pos + reason_len in
  match u8 status_byte with
  | 0%Z => Ok (Pending, pos)
  | 1%Z => Ok (Approved, pos)
  | 2%Z => Ok (Denied reason, pos)
  | 3%Z => Ok (Revoked reason, pos)
  | _ => Err (SerializationError "invalid status byte")
  end.
Definition decode_certificate (data : bytes) (pos : nat)
    : outcome SecurityError (option MeshCertificate * nat) :=
  bail! decide (length data ≤ pos)
    with SerializationError "enrollment response truncated at certificate flag";
  has_cert ← index data pos;
  let pos := pos + 1 in
  if decide (has_cert = Byte.x01) then
    bail! decide (length data < pos + 2)
      with SerializationError "enrollment response truncated at cert_len";
    cert_len ← slice data pos (pos + 2);
    cert_len ← array 2 cert_len;
    let cert_len := Z.to_nat (from_le cert_len) in
    let pos := pos + 2 in
    bail! decide (length data < pos + cert_len)
      with SerializationError "enrollment response truncated at certificate";
    cert_bytes ← slice data pos (pos + cert_len);
    c ← Cert.decode cert_bytes;
    Ok (Some c, pos + cert_len)
  else Ok (None, pos).
Definition decode_secret (data : bytes) (pos : nat)
    : outcome SecurityError (option bytes * nat) :=
  bail! decide (length data ≤ pos)
    with SerializationError "enrollment response truncated at secret flag";
  has_secret ← index data pos;
  let pos := pos + 1 in
  if decide (has_secret = Byte.x01) then
    bail! decide (length data < pos + 2)
      with SerializationError "enrollment response truncated at secret_len";
    secret_len ← slice data pos (pos + 2);
    secret_len ← array 2 secret_len;
    let secret_len := Z.to_nat (from_le secret_len) in
    let pos := pos + 2 in
    bail! decide (length data < pos + secret_len)
      with SerializationError "enrollment response truncated at secret";
    secret ← slice data pos (pos + secret_len);
    Ok (Some secret, pos + secret_len)
  else Ok (None, pos).
Definition decode (data : bytes) : outcome SecurityError EnrollmentResponse :=
  bail! decide (length data < 13) with SerializationError "enrollment response too short";
  '(st, pos) ← decode_status data 0;
  '(c, pos) ← decode_certificate data pos;
  '(secret, pos) ← decode_secret data pos;
  bail! decide (length data < pos + 8)
    with SerializationError "enrollment response truncated at timestamp";
  ts ← slice data pos (pos + 8);
  ts ← array 8 ts;
  Ok {| status := st; certificate := c; formation_secret := secret; timestamp_ms := from_le ts |}.

Lemma decode_status_no_panic data : 13 ≤ length data → no_panic (decode_status data 0).
Proof. intros. unfold decode_status. panic_free. Qed.
Lemma decode_certificate_no_panic data pos : no_panic (decode_certificate data pos).
Proof. unfold decode_certificate. panic_free. Qed.
Lemma decode_secret_no_panic data pos : no_panic (decode_secret data pos).
Proof. unfold decode_secret. panic_free. Qed.

Lemma response_decode_no_panic data : no_panic (decode data).
Proof.
  unfold decode. case_decide; [done|].
  apply no_panic_bind; [apply decode_status_no_panic; lia|intros [st p1] _].
  apply no_panic_bind; [apply decode_certificate_no_panic|intros [c p2] _].
  apply no_panic_bind; [apply decode_secret_no_panic|intros [secret p3] _].
  panic_free.
Qed.

Lemma encode_zlen c : certificate_fits c → (zlen (Cert.encode c) < 256 ^ Z.of_nat 2)%Z.
Proof.
  intros [[] [Hm Hn]]. unfold zlen, Cert.encode, Cert.signable_bytes.
  autorewrite with lens. lia.
Qed.

Lemma decode_status_run s data rest :
  utf8_valid (status_reason s) = true → (zlen (status_reason s) < 65536)%Z → rest ≠ [] →
  cursor data 0 (encode_status s ++ rest) →
  ∃ pos, decode_status data 0 = Ok (s, pos) ∧ cursor data pos rest.
Proof.
  intros Hu Hl Hr C. destruct rest as [|b rest]; [done|].
  assert (cursor data 0 (status_to_byte s ::
            to_le 2 (zlen (status_reason s)) ++ status_reason s ++ b :: rest)) as C'.
  { destruct s; cbn [status_reason encode_status] in *;
      rewrite <- ?(assoc_L (++)) in C; exact C. }
  clear C. unfold decode_status. eexists. split; cycle 1.
  { eapply cursor_skip; [|reflexivity]. eapply cursor_skip; [|apply (length_to_le 2)].
    eapply cursor_cons. exact C'. }
  decode_run C'. case_decide as Hpos.
  - decode_run C'. by destruct s.
  - destruct (status_reason s) eqn:E; [|cbn in Hpos; lia]. destruct s; naive_solver.
Qed.

Lemma decode_certificate_run o data pos rest :
  (∀ c, o = Some c → certificate_fits c) →
  cursor data pos (encode_certificate o ++ rest) →
  ∃ pos', decode_certificate data pos = Ok (o, pos') ∧ cursor data pos' rest.
Proof.
  intros Hc C. unfold decode_certificate.
  destruct o as [c|]; cbn [encode_certificate] in C; rewrite <- ?(assoc_L (++)) in C;
    cbn [app] in C.
  - destruct (Hc c eq_refl) as [Hwf Hfit].
    assert (zlen (Cert.encode c) < 256 ^ Z.of_nat 2)%Z as Hlen by by apply encode_zlen.
    eexists. split; cycle 1.
    { eapply cursor_skip; [|reflexivity]. eapply cursor_skip; [|apply (length_to_le 2)].
      eapply cursor_cons. exact C. }
    decode_run C. rewrite decide_True by done. decode_run C.
    rewrite (Cert.cert_decode_cursor c _ []); [done..|].
    rewrite app_nil_r. apply cursor_start.
  - eexists. split; [|eapply cursor_cons; exact C].
    decode_run C. by rewrite decide_False.
Qed.

Lemma decode_secret_run o data pos rest :
  (∀ s, o = Some s → zlen s < 65536)%Z →
  cursor data pos (encode_secret o ++ rest) →
  ∃ pos', decode_secret data pos = Ok (o, pos') ∧ cursor data pos' rest.
Proof.
  intros Hs C. unfold decode_secret.
  destruct o as [s|]; cbn [encode_secret] in C; rewrite <- ?(assoc_L (++)) in C;
    cbn [app] in C.
  - specialize (Hs s eq_refl).
    eexists. split; cycle 1.
    { eapply cursor_skip; [|reflexivity]. eapply cursor_skip; [|apply (length_to_le 2)].
      eapply cursor_cons. exact C. }
    decode_run C. rewrite decide_True by done. by decode_run C.
  - eexists. split; [|eapply cursor_cons; exact C].
    decode_run C. by rewrite decide_False.
Qed.

Lemma response_decode_cursor r data rest :
  response_wf r → cursor data 0 (encode r ++ rest) → decode data = Ok r.
Proof.
  intros [] C. unfold decode, encode in *. rewrite <- !(assoc_L (++)) in C.
  assert (¬ length data < 13) as Hlen.
  { pose proof (cursor_length _ _ _ C) as HL. autorewrite with lens in HL.
    destruct (status r), (certificate r), (formation_secret r); cbn in HL;
      autorewrite with lens in HL; lia. }
  rewrite decide_False by done.
  apply decode_status_run in C as (p1 & -> & C); [|done..|]; cycle 1.
  { intros E%(f_equal length). autorewrite with lens in E. cbn in E. lia. }
  cbn [mbind outcome_bind].
  apply decode_certificate_run in C as (p2 & -> & C); [|done]. cbn [mbind outcome_bind].
  apply decode_secret_run in C as (p3 & -> & C); [|done]. cbn [mbind outcome_bind].
  decode_run C. rewrite (le_roundtrip 8 64) by done. by destruct r.
Qed.

Lemma response_rt r : response_wf r → decode (encode r) = Ok r.
Proof.
  intros Hwf. eapply (response_decode_cursor _ _ []); [done|].
  rewrite app_nil_r. apply cursor_start.
Qed.

(** Enrollment responses survive the wire: decoding an encoded response,
    with anything after it, returns the response, for every response whose parts
    fit their length prefixes; the certificate inside goes through its own codec. *)
Theorem response_roundtrip r rest :
  response_wf r → decode (encode r ++ rest) = Ok r.
Proof. intros Hwf. eapply response_decode_cursor; eauto using cursor_start. Qed.
End with_crypto.
End Response.
#[export] Hint Resolve Response.response_decode_no_panic : wire.

(** * Services *)

(** The [EnrollmentService] trait; [process_request] also takes the build profile
    and the clock reading. *)
Class EnrollmentService (S : Type) := {
  process_request : profile → S → Request.EnrollmentRequest → Z →
                    outcome SecurityError Response.EnrollmentResponse;
  check_status : S → bytes → outcome SecurityError EnrollmentStatus;
  revoke : S → bytes → bytes → outcome SecurityError unit
}.

Module Static.
Section with_crypto.
Context {Ed : Ed25519}.

Record StaticEnrollmentService := {
  authority : DeviceKeypair;
  mesh_id : bytes;
  allowed_tokens : gmap bytes (MeshTier * byte);
  validity_ms : Z
}.

Definition new (a : DeviceKeypair) (mesh : bytes) (validity : Z) : StaticEnrollmentService :=
  {| authority := a; mesh_id := mesh; allowed_tokens := ∅; validity_ms := validity |}.

Definition add_token (s : StaticEnrollmentService) (token : bytes) (t : MeshTier) (p : byte)
    : StaticEnrollmentService := {|
  authority := authority s;
  mesh_id := mesh_id s;
  allowed_tokens := <[token := (t, p)]> (allowed_tokens s);
  validity_ms := validity_ms s
|}.

Definition process (p : profile) (s : StaticEnrollmentService)
    (request : Request.EnrollmentRequest) (now : Z)
    : outcome SecurityError Response.EnrollmentResponse :=
  _ ← Request.verify_signature request;
  if decide (Request.mesh_id request ≠ mesh_id s) then
    Ok (Response.denied
          (str "mesh ID mismatch: expected " ++ mesh_id s ++ str ", got "
             ++ Request.mesh_id request)
          (Request.timestamp_ms request))
  else match allowed_tokens s !! Request.bootstrap_token request with
  | None =>
      Ok (Response.denied (str "invalid bootstrap token") (Request.timestamp_ms request))
  | Some (t, permissions) =>
      expires ← checked p 64 (now + validity_ms s);
      let cert :=
        Cert.signed (Cert.new (Request.subject_public_key request) (mesh_id s)
          (Request.node_id request) t permissions now expires
          (public_key_bytes (authority s))) (authority s) in
      Ok (Response.approved cert None now)
  end.

Global Instance static_service : EnrollmentService StaticEnrollmentService := {
  process_request := process;
  check_status _ _ := Ok Pending;
  revoke _ _ _ := Err (Internal "static enrollment service does not support revocation")
}.

Definition issued (s : StaticEnrollmentService) (request : Request.EnrollmentRequest)
    (t : MeshTier) (p : byte) (now expires : Z) : MeshCertificate :=
  Cert.signed (Cert.new (Request.subject_public_key request) (mesh_id s)
    (Request.node_id request) t p now expires (public_key_bytes (authority s))) (authority s).

Lemma process_certificate_inv p s req now resp c :
  process p s req now = Ok resp → Response.certificate resp = Some c →
  Request.verify_signature req = Ok tt ∧ Request.mesh_id req = mesh_id s ∧
  ∃ t perm expires,
    allowed_tokens s !! Request.bootstrap_token req = Some (t, perm) ∧
    checked (E:=SecurityError) p 64 (now + validity_ms s) = Ok expires ∧
    c = issued s req t perm now expires.
Proof.
  unfold process. intros ([] & Hv & H)%bind_Ok_inv Hc.
  case_decide as Hm; [by simplify_eq/=|].
  destruct (allowed_tokens s !! _) as [[t perm]|]; [|by simplify_eq/=].
  apply bind_Ok_inv in H as (expires & He & H). simplify_eq/=. eauto 10.
Qed.

(** C7.  A certificate leaves the static enrollment service only for a request
    that its key signed, for the service's mesh, with a known bootstrap token;
    it then binds the request's key and node id to the tier and the permissions of
    the token, starts now, and verifies under the service's authority key. *)
Theorem enrollment_approval_sound `{!Ed25519Laws} p s req now resp c :
  process_request p s req now = Ok resp → Response.certificate resp = Some c →
  Request.verify_signature req = Ok tt ∧
  Request.mesh_id req = mesh_id s ∧
  allowed_tokens s !! Request.bootstrap_token req = Some (tier c, perms c) ∧
  subject_public_key c = Request.subject_public_key req ∧
  node_id c = Request.node_id req ∧
  Certificate.mesh_id c = mesh_id s ∧
  issued_at_ms c = now ∧
  issuer_public_key c = public_key_bytes (authority s) ∧
  Cert.verify c = Ok tt.
Proof.
  intros Hp Hc. destruct (process_certificate_inv _ _ _ _ _ _ Hp Hc)
    as (Hv & Hm & t & perm & expires & Ht & _ & ->).
  split_and!; try done. by apply Cert.verify_signed.
Qed.

Lemma process_new `{!Ed25519Laws} p s k node tier0 token ts now t perm :
  allowed_tokens s !! token = Some (t, perm) → in_u 64 (now + validity_ms s) →
  let req := Request.new k (mesh_id s) node tier0 token ts in
  process p s req now =
    Ok (Response.approved (issued s req t perm now (now + validity_ms s)) None now).
Proof.
  intros Ht Hexp req. unfold process.
  rewrite (Request.verify_signature_new k (mesh_id s) node tier0 token ts : _ req = _).
  cbn [mbind outcome_bind].
  rewrite decide_False by (intros []; done). cbn [Request.bootstrap_token req Request.new
    Request.set_signature]. rewrite Ht. by rewrite checked_in.
Qed.

Lemma issued_fits `{!Ed25519Laws} s req t perm now expires :
  Request.request_wf req → Request.request_fits req → Request.mesh_id req = mesh_id s →
  in_u 64 now → in_u 64 expires →
  Response.certificate_fits (issued s req t perm now expires).
Proof.
  intros [] (Hm & Hn & _) He Hnow Hexp. rewrite He in *.
  split; [split|split]; cbn; auto with wire.
Qed.

(** C37.  Enrollment end to end: a device with an allowed token signs a request,
    the service receives it off the wire and approves it, the response comes back
    off the wire, and any bundle that lists the service's key as an authority takes
    the certificate, whenever it arrives; the device's key then validates exactly
    from the moment of issue until the validity period is over. *)
Theorem enrollment_end_to_end `{!Ed25519Laws} p s k node tier0 token ts now t perm b arrival :
  allowed_tokens s !! token = Some (t, perm) →
  utf8_valid (mesh_id s) = true → utf8_valid node = true →
  length (mesh_id s) ≤ 255 → length node ≤ 255 → (zlen token < 65536)%Z →
  in_u 64 ts → in_u 64 now → in_u 64 (now + validity_ms s) → (0 < validity_ms s)%Z →
  public_key_bytes (authority s) ∈ authorities b →
  let req := Request.new k (mesh_id s) node tier0 token ts in
  ∃ resp c b',
    Request.decode (Request.encode req) = Ok req ∧
    process_request p s req now = Ok resp ∧
    Response.decode (Response.encode resp) = Ok resp ∧
    Response.certificate resp = Some c ∧
    Bundle.add_certificate b c arrival = Ok b' ∧
    ∀ time, Bundle.validate_peer b' (public_key_bytes k) time = true ↔
            (now ≤ time < now + validity_ms s)%Z.
Proof.
  intros Ht Hum Hun Hm Hn Htok Hts Hnow Hexp Hval Hauth req.
  assert (Request.request_wf req) as Hwf by by apply Request.new_wf.
  assert (Request.request_fits req) as Hfit by done.
  set (c := issued s req t perm now (now + validity_ms s)).
  assert (Cert.verify c = Ok tt) as Hver by by apply Cert.verify_signed.
  exists (Response.approved c None now), c, (Bundle.add_certificate_unchecked b c).
  split_and!; [| |apply Response.response_rt|done| |].
  - eapply (Request.request_decode_cursor _ _ []); [done..|].
    rewrite app_nil_r. apply cursor_start.
  - by apply process_new.
  - split; cbn; try done. intros ? [= <-]. by apply issued_fits.
  - by apply Bundle.authority_signed_accepted.
  - intros time. unfold Bundle.validate_peer.
    change (public_key_bytes k) with (subject_public_key c).
    rewrite Bundle.unchecked_by_key, Bundle.check_cert_inv, Cert.is_valid_iff. cbn.
    destruct Hnow. naive_solver lia.
Qed.
End with_crypto.
End Static.

(** * Witnesses *)
#[local] Existing Instance toy_ed25519.

Definition ex_service : Static.StaticEnrollmentService :=
  Static.add_token (Static.new ex_auth (str "ALPHA") 3600000) (str "token") Tactical
    permissions.STANDARD.
Definition ex_request : Request.EnrollmentRequest :=
  Request.new (toy_key Byte.x01) (str "ALPHA") (str "node-1") Edge (str "token") 5.

Lemma response_roundtrip_witness :
  Response.decode (Response.encode (Response.denied (str "invalid bootstrap token") 7) ++ str "x")
  = Ok (Response.denied (str "invalid bootstrap token") 7).
Proof.
  apply Response.response_roundtrip. split; [vm_eq|done|discriminate|discriminate|done].
Defined.

Lemma enrollment_approval_sound_witness :
  let c := Static.issued ex_service ex_request Tactical permissions.STANDARD 10 3600010 in
  Cert.verify c = Ok tt ∧ tier c = Tactical.
Proof.
  intros c. pose proof toy_ed25519_laws.
  edestruct (Static.enrollment_approval_sound Debug ex_service ex_request 10
               (Response.approved c None 10) c) as (_ & _ & _ & _ & _ & _ & _ & _ & Hv);
    [vm_eq|done|by split].
Defined.

Lemma enrollment_end_to_end_witness :
  ∃ b', ∀ time, Bundle.validate_peer b' (public_key_bytes (toy_key Byte.x01)) time = true ↔
                (10 ≤ time < 3600010)%Z.
Proof.
  pose proof toy_ed25519_laws.
  edestruct (Static.enrollment_end_to_end Release ex_service (toy_key Byte.x01) (str "node-1")
               Edge (str "token") 5 10 Tactical permissions.STANDARD ex_bundle 20)
    as (_ & _ & b' & _ & _ & _ & _ & _ & Hv); 
    [vm_eq|vm_eq|vm_eq|cbn; lia|cbn; lia|done..|left|by exists b'].
Defined.
