(* ===== verification/Genesis.v ===== *)
(** Mesh genesis and shareable credentials ([src/security/genesis.rs]): key
    derivation from the mesh seed, the root certificate, issuing certificates, and
    the persistence and distribution formats. *)
From Stdlib Require Import ZArith Lia Strings.Byte Strings.String.
From stdpp Require Import prelude gmap.
From S2P Require Import Prelude Wire Crypto Certificate Bundle.

Set Default Proof Using "Type".

Inductive MembershipPolicy := Open | Controlled | Strict.

Module Policy.
Definition default_policy : MembershipPolicy := Controlled.
Definition to_byte (p : MembershipPolicy) : byte :=
  as_u8 match p with Open => 0 | Controlled => 1 | Strict => 2 end.
Definition from_byte (b : byte) : option MembershipPolicy :=
  match u8 b with
  | 0%Z => Some Open
  | 1%Z => Some Controlled
  | 2%Z => Some Strict
  | _ => None
  end.
Definition as_str (p : MembershipPolicy) : string :=
  match p with Open => "Open" | Controlled => "Controlled" | Strict => "Strict" end.

Lemma policy_from_to_byte p : from_byte (to_byte p) = Some p.
Proof. by destruct p. Qed.
Lemma policy_to_from_byte b p : from_byte b = Some p → to_byte p = b.
Proof.
  intros H. apply u8_inj. unfold from_byte in H. destruct (u8 b) eqn:Hb;
    repeat case_match; by simplify_eq.
Qed.
End Policy.

Module Credentials.
Record MeshCredentials := {
  mesh_id : bytes;
  mesh_name : bytes;
  formation_secret : bytes;
  authority_public_key : bytes;
  policy : MembershipPolicy
}.

(** Field types, the 8-character mesh id of the format, and the name's prefix. *)
Record credentials_wf (c : MeshCredentials) : Prop := {
  kwf_id : length (mesh_id c) = 8;
  kwf_id_utf8 : utf8_valid (mesh_id c) = true;
  kwf_name : utf8_valid (mesh_name c) = true;
  kwf_name_len : (zlen (mesh_name c) < 65536)%Z;
  kwf_secret : length (formation_secret c) = 32;
  kwf_key : length (authority_public_key c) = 32
}.

Definition encode (c : MeshCredentials) : bytes :=
  to_le 2 (zlen (mesh_name c))
  ++ mesh_name c
  ++ mesh_id c
  ++ formation_secret c
  ++ authority_public_key c
  ++ [Policy.to_byte (policy c)].

Definition decode (data : bytes) : outcome SecurityError MeshCredentials :=
  bail! decide (length data < 75) with SerializationError "credentials too short";
  b0 ← index data 0;
  b1 ← index data 1;
  let name_len := Z.to_nat (from_le [b0; b1]) in
  bail! decide (length data < 75 + name_len)
    with SerializationError "credentials truncated at mesh_name";
  name ← slice data 2 (2 + name_len);
  name ← ok_or (from_utf8 name) (SerializationError "invalid mesh_name");
  let offset := 2 + name_len in
  id ← slice data offset (offset + 8);
  id ← ok_or (from_utf8 id) (SerializationError "invalid mesh_id");
  secret ← slice data (offset + 8) (offset + 40);
  secret ← array 32 secret;
  key ← slice data (offset + 40) (offset + 72);
  key ← array 32 key;
  p ← index data (offset + 72);
  p ← ok_or (Policy.from_byte p) (SerializationError "invalid policy byte");
  Ok {|
    mesh_id := id;
    mesh_name := name;
    formation_secret := secret;
    authority_public_key := key;
    policy := p
  |}.

Lemma credentials_decode_no_panic data : no_panic (decode data).
Proof. unfold decode. panic_free. Qed.

Lemma credentials_decode_cursor c data rest :
  credentials_wf c → cursor data 0 (encode c ++ rest) → decode data = Ok c.
Proof.
  intros [] C. unfold decode, encode in *. rewrite <- !(assoc_L (++)), to_le_2 in C.
  cbn [app] in C. decode_run C.
  rewrite Policy.policy_from_to_byte. by destruct c.
Qed.

Lemma credentials_decode_inv data c :
  decode data = Ok c → credentials_wf c ∧ ∃ rest, data = encode c ++ rest.
Proof.
  intros H. unfold decode in H. pose proof (cursor_start data) as C.
  decode_inv H. simplify_eq.
  match goal with Hp : Policy.from_byte _ = Some _ |- _ =>
    apply Policy.policy_to_from_byte in Hp as <- end.
  split; [split; cbn; eauto; try lia|].
  - eapply (len_le_bound 2); [eassumption|done].
  - eexists. unfold encode. cbn. wire_eq.
Qed.

(** Mesh credentials: the decoder accepts exactly the encodings of
    well-formed credentials (an 8-byte mesh id, 32-byte secret and key, a name that
    fits its prefix), followed by anything, and returns the credentials encoded. *)
Theorem credentials_decode_exact data c :
  decode data = Ok c ↔ credentials_wf c ∧ ∃ rest, data = encode c ++ rest.
Proof.
  split; [apply credentials_decode_inv|]. intros (Hwf & rest & ->).
  eapply credentials_decode_cursor; eauto using cursor_start.
Qed.
End Credentials.
#[export] Hint Resolve Credentials.credentials_decode_no_panic : wire.

Module Genesis.
Section with_crypto.
Context {Ed : Ed25519} {Kdf : Hkdf}.

Record MeshGenesis := {
  mesh_name : bytes;
  mesh_seed : bytes;
  authority : DeviceKeypair;
  created_at_ms : Z;
  policy : MembershipPolicy
}.

Record genesis_wf (g : MeshGenesis) : Prop := {
  gwf_name : utf8_valid (mesh_name g) = true;
  gwf_name_len : (zlen (mesh_name g) < 65536)%Z;
  gwf_seed : length (mesh_seed g) = 32;
  gwf_created : in_u 64 (created_at_ms g)
}.

Definition MESH_ID_CONTEXT : bytes := str "peat-mesh:mesh-id".
Definition FORMATION_SECRET_CONTEXT : bytes := str "peat-mesh:formation-secret".
Definition AUTHORITY_CONTEXT : bytes := str "peat-mesh:authority-keypair".

Definition with_authority (name seed : bytes) (a : DeviceKeypair) (p : MembershipPolicy)
    (now_ms : Z) : MeshGenesis := {|
  mesh_name := name;
  mesh_seed := seed;
  authority := a;
  created_at_ms := now_ms;
  policy := p
|}.

Definition with_seed (name seed : bytes) (p : MembershipPolicy) (now_ms : Z) : MeshGenesis := {|
  mesh_name := name;
  mesh_seed := seed;
  authority := from_seed seed AUTHORITY_CONTEXT;
  created_at_ms := now_ms;
  policy := p
|}.

(** [create]: the seed is what the operating system's generator returned. *)
Definition create (name : bytes) (p : MembershipPolicy) (os_rng : bytes) (now_ms : Z)
    : MeshGenesis := with_seed name os_rng p now_ms.

Definition derive (g : MeshGenesis) (context : bytes) : bytes :=
  hkdf (Some (mesh_name g)) (mesh_seed g) context 32.

Definition mesh_id (g : MeshGenesis) : bytes :=
  take 4 (derive g MESH_ID_CONTEXT) ≫= hex2.

Definition formation_secret (g : MeshGenesis) : bytes := derive g FORMATION_SECRET_CONTEXT.

Definition authority_public_key (g : MeshGenesis) : bytes := public_key_bytes (authority g).

Definition root_certificate (g : MeshGenesis) (node : bytes) (now : Z) : MeshCertificate :=
  Cert.new_root (authority g) (mesh_id g) node Enterprise now 0.

Definition issue_certificate (pr : profile) (g : MeshGenesis) (subject node : bytes)
    (t : MeshTier) (perm : byte) (validity_ms now : Z) : outcome SecurityError MeshCertificate :=
  expires ← (if decide (validity_ms = 0%Z) then Ok 0%Z else checked pr 64 (now + validity_ms));
  Ok (Cert.signed (Cert.new subject (mesh_id g) node t perm now expires
        (public_key_bytes (authority g))) (authority g)).

Definition credentials (g : MeshGenesis) : Credentials.MeshCredentials := {|
  Credentials.mesh_id := mesh_id g;
  Credentials.mesh_name := mesh_name g;
  Credentials.formation_secret := formation_secret g;
  Credentials.authority_public_key := authority_public_key g;
  Credentials.policy := policy g
|}.

Definition encode (g : MeshGenesis) : bytes :=
  to_le 2 (zlen (mesh_name g))
  ++ mesh_name g
  ++ mesh_seed g
  ++ secret_key_bytes (authority g)
  ++ to_le 8 (created_at_ms g)
  ++ [Policy.to_byte (policy g)].

Definition decode (data : bytes) : outcome SecurityError MeshGenesis :=
  bail! decide (length data < 75) with SerializationError "genesis too short";
  b0 ← index data 0;
  b1 ← index data 1;
  let name_len := Z.to_nat (from_le [b0; b1]) in
  bail! decide (length data < 75 + name_len)
    with SerializationError "genesis truncated at mesh_name";
  name ← slice data 2 (2 + name_len);
  name ← ok_or (from_utf8 name) (SerializationError "invalid mesh_name");
  let offset := 2 + name_len in
  seed ← slice data offset (offset + 32);
  seed ← array 32 seed;
  secret ← slice data (offset + 32) (offset + 64);
  a ← from_secret_bytes secret;
  created ← slice data (offset + 64) (offset + 72);
  created ← array 8 created;
  p ← index data (offset + 72);
  p ← ok_or (Policy.from_byte p) (SerializationError "invalid policy byte");
  Ok {|
    mesh_name := name;
    mesh_seed := seed;
    authority := a;
    created_at_ms := from_le created;
    policy := p
  |}.

Lemma from_secret_bytes_no_panic b : no_panic (from_secret_bytes b).
Proof.
  unfold from_secret_bytes. case_decide; [done|]. rewrite array_ok by lia. done.
Qed.
#[local] Hint Resolve from_secret_bytes_no_panic : wire.

Lemma genesis_decode_no_panic data : no_panic (decode data).
Proof. unfold decode. panic_free. Qed.

Section laws.
Context {EdLaws : Ed25519Laws} {KdfLaws : HkdfLaws}.

Lemma genesis_decode_cursor g data rest :
  genesis_wf g → cursor data 0 (encode g ++ rest) → decode data = Ok g.
Proof using EdLaws.
  intros [] C. unfold decode, encode in *. rewrite <- !(assoc_L (++)), to_le_2 in C.
  pose proof (sk_to_bytes_length (signing_key (authority g))) as Hs.
  change (length (secret_key_bytes (authority g)) = 32) in Hs.
  cbn [app] in C. decode_run C.
  rewrite from_secret_bytes_roundtrip. cbn [mbind outcome_bind]. decode_run C.
  rewrite Policy.policy_from_to_byte, (le_roundtrip 8 64) by done. by destruct g.
Qed.

Lemma from_secret_bytes_inv b a : from_secret_bytes b = Ok a → secret_key_bytes a = b.
Proof using EdLaws.
  unfold from_secret_bytes. case_decide as Hl; [discriminate|].
  rewrite array_ok by lia. intros [= <-]. apply sk_to_from. lia.
Qed.

Lemma genesis_decode_inv data g :
  decode data = Ok g → genesis_wf g ∧ ∃ rest, data = encode g ++ rest.
Proof using EdLaws.
  intros H. unfold decode in H. pose proof (cursor_start data) as C.
  decode_inv H.
  match goal with Hk : from_secret_bytes _ = Ok _ |- _ =>
    apply from_secret_bytes_inv in Hk as <- end.
  decode_inv H. simplify_eq.
  match goal with Hp : Policy.from_byte _ = Some _ |- _ =>
    apply Policy.policy_to_from_byte in Hp as <- end.
  split; [split; cbn; eauto with wire; try lia|].
  - eapply (len_le_bound 2); [eassumption|done].
  - eexists. unfold encode. cbn. wire_eq.
Qed.

(** A persisted genesis comes back: the decoder accepts exactly the encodings
    of well-formed genesis data, followed by anything, and returns the name, seed,
    authority keypair, creation time and policy that were stored. *)
Theorem genesis_decode_exact data g :
  decode data = Ok g ↔ genesis_wf g ∧ ∃ rest, data = encode g ++ rest.
Proof using EdLaws.
  split; [apply genesis_decode_inv|]. intros (Hwf & rest & ->).
  eapply genesis_decode_cursor; eauto using cursor_start.
Qed.

Lemma mesh_id_length g : length (mesh_id g) = 8.
Proof using KdfLaws.
  unfold mesh_id, derive.
  pose proof (hkdf_length (Some (mesh_name g)) (mesh_seed g) MESH_ID_CONTEXT 32) as Hl.
  by destruct (hkdf _ _ _ _) as [|? [|? [|? [|? ?]]]].
Qed.

Lemma mesh_id_utf8 g : utf8_valid (mesh_id g) = true.
Proof.
  apply utf8_ascii. unfold mesh_id. generalize (take 4 (derive g MESH_ID_CONTEXT)).
  induction l as [|b l IH]; [constructor|]. apply Forall_app. auto using hex2_ascii.
Qed.

Lemma credentials_of_wf g : genesis_wf g → Credentials.credentials_wf (credentials g).
Proof using EdLaws KdfLaws.
  intros []. split; cbn;
    [apply mesh_id_length|apply mesh_id_utf8|done|done|apply hkdf_length|apply sk_public_length].
Qed.

(** Bootstrapping a mesh: the credentials of a genesis survive distribution;
    a bundle that starts from the authority key they carry takes every certificate
    the genesis issues, whose subject then validates from the moment of issue,
    forever when the validity is 0 and otherwise until the validity is over. *)
Theorem genesis_bootstrap pr g subject node t perm validity now arrival :
  genesis_wf g → in_u 64 now → (0 ≤ validity)%Z → in_u 64 (now + validity) →
  ∃ creds c b',
    Credentials.decode (Credentials.encode (credentials g)) = Ok creds ∧
    issue_certificate pr g subject node t perm validity now = Ok c ∧
    Bundle.add_certificate
      (Bundle.add_authority Bundle.new (Credentials.authority_public_key creds)) c arrival
      = Ok b' ∧
    Certificate.mesh_id c = Credentials.mesh_id creds ∧
    ∀ time, Bundle.validate_peer b' subject time = true ↔
            (now ≤ time ∧ (validity = 0 ∨ time < now + validity))%Z.
Proof using EdLaws KdfLaws.
  intros Hwf Hnow Hv Hexp.
  set (expires := if decide (validity = 0%Z) then 0%Z else (now + validity)%Z).
  set (c := Cert.new subject (mesh_id g) node t perm now expires (authority_public_key g)).
  set (b := Bundle.add_authority Bundle.new (authority_public_key g)).
  exists (credentials g), (Cert.signed c (authority g)),
    (Bundle.add_certificate_unchecked b (Cert.signed c (authority g))). split_and!.
  - eapply (Credentials.credentials_decode_cursor _ _ []); [by apply credentials_of_wf|].
    rewrite app_nil_r. apply cursor_start.
  - unfold issue_certificate, c, expires. case_decide; [done|]. by rewrite checked_in.
  - by apply Bundle.authority_signed_accepted; [|left].
  - done.
  - intros time. unfold Bundle.validate_peer.
    change subject with (subject_public_key (Cert.signed c (authority g))) at 1.
    rewrite Bundle.unchecked_by_key, Bundle.check_cert_inv, Cert.is_valid_iff.
    rewrite Cert.verify_signed by done. unfold c, expires, in_u in *. cbn.
    case_decide; naive_solver lia.
Qed.
End laws.
End with_crypto.
End Genesis.
#[export] Hint Resolve Genesis.genesis_decode_no_panic : wire.

(** * Witnesses *)
#[local] Existing Instance toy_ed25519.
#[local] Existing Instance toy_hkdf.

Definition ex_genesis : Genesis.MeshGenesis :=
  Genesis.create (str "ALPHA") Controlled (replicate 32 Byte.x07) 1000.

Lemma ex_genesis_wf : Genesis.genesis_wf ex_genesis.
Proof. by split. Qed.

Lemma genesis_decode_exact_witness :
  Genesis.decode (Genesis.encode ex_genesis ++ [Byte.x00]) = Ok ex_genesis.
Proof.
  pose proof toy_ed25519_laws. apply (Genesis.genesis_decode_exact _ ex_genesis).
  split; [apply ex_genesis_wf|by exists [Byte.x00]].
Defined.

Lemma genesis_bootstrap_witness :
  ∃ b', ∀ time, Bundle.validate_peer b' (replicate 32 Byte.x05) time = true ↔
                (2000 ≤ time ∧ (3600 = 0 ∨ time < 5600))%Z.
Proof.
  pose proof toy_ed25519_laws. pose proof toy_hkdf_laws.
  destruct (Genesis.genesis_bootstrap Debug ex_genesis (replicate 32 Byte.x05) (str "n") Edge
              permissions.STANDARD 3600 2000 2100 ex_genesis_wf ltac:(done) ltac:(lia)
              ltac:(done)) as (_ & _ & b' & _ & _ & _ & _ & Hb).
  by exists b'.
Defined.
