(* ===== verification/Deletion.v ===== *)
(** Deletion ([src/qos/deletion.rs]): propagation directions, tombstones and their
    sync messages with the wire formats of single messages and batches, deletion
    policies and the per-collection registry.  A [SystemTime] is a number of
    nanoseconds since the Unix epoch, a [Duration] a number of nanoseconds. *)
From Stdlib Require Import ZArith Lia Strings.Byte Strings.String.
From stdpp Require Import prelude gmap.
From S2P Require Import Prelude Wire.

Set Default Proof Using "Type".

(** * [PropagationDirection] *)
Inductive PropagationDirection := Bidirectional | UpOnly | DownOnly | SystemWide.

Module Direction.
Definition default_for_collection (collection : bytes) : PropagationDirection :=
  if decide (collection = str "cells" ∨ collection = str "contact_reports") then UpOnly
  else if decide (collection = str "commands") then DownOnly
  else Bidirectional.
Definition allows_up (d : PropagationDirection) : bool :=
  match d with Bidirectional | UpOnly | SystemWide => true | DownOnly => false end.
Definition allows_down (d : PropagationDirection) : bool :=
  match d with Bidirectional | DownOnly | SystemWide => true | UpOnly => false end.
Definition is_system_wide (d : PropagationDirection) : bool :=
  match d with SystemWide => true | _ => false end.
Definition to_byte (d : PropagationDirection) : byte :=
  as_u8 match d with Bidirectional => 0 | UpOnly => 1 | DownOnly => 2 | SystemWide => 3 end.
Definition from_byte (b : byte) : option PropagationDirection :=
  match u8 b with
  | 0%Z => Some Bidirectional
  | 1%Z => Some UpOnly
  | 2%Z => Some DownOnly
  | 3%Z => Some SystemWide
  | _ => None
  end.

Lemma direction_from_to_byte d : from_byte (to_byte d) = Some d.
Proof. by destruct d. Qed.
Lemma direction_to_from_byte b d : from_byte b = Some d → to_byte d = b.
Proof.
  intros H. apply u8_inj. unfold from_byte in H. destruct (u8 b) eqn:Hb;
    repeat case_match; by simplify_eq.
Qed.
End Direction.

(** * [Tombstone] *)
Record Tombstone := {
  document_id : bytes;
  collection : bytes;
  deleted_at : Z;
  deleted_by : bytes;
  lamport : Z;
  reason : option bytes
}.

Global Instance Tombstone_eq_dec : EqDecision Tombstone.
Proof. solve_decision. Defined.

Module Tomb.
Definition new (doc coll by_ : bytes) (l : Z) (now : Z) : Tombstone :=
  {| document_id := doc; collection := coll; deleted_at := now; deleted_by := by_;
     lamport := l; reason := None |}.
Definition with_reason (doc coll by_ : bytes) (l : Z) (r : bytes) (now : Z) : Tombstone :=
  {| document_id := doc; collection := coll; deleted_at := now; deleted_by := by_;
     lamport := l; reason := Some r |}.

(** [SystemTime::duration_since]: [Err] when the other time is later. *)
Definition duration_since (now t : Z) : option Z :=
  if decide (t ≤ now)%Z then Some (now - t)%Z else None.

Definition is_expired (t : Tombstone) (ttl now : Z) : bool :=
  match duration_since now (deleted_at t) with
  | Some age => bool_decide (ttl ≤ age)%Z
  | None => false
  end.
Definition age (t : Tombstone) (now : Z) : option Z := duration_since now (deleted_at t).
Definition key (t : Tombstone) : bytes := collection t ++ str ":" ++ document_id t.
End Tomb.

Inductive TombstoneDecodeError := TooShort | InvalidUtf8 | InvalidDirection.

(** * [TombstoneSyncMessage] *)
Record TombstoneSyncMessage := {
  tombstone : Tombstone;
  direction : PropagationDirection
}.

Module SyncMessage.
Definition from_tombstone (t : Tombstone) : TombstoneSyncMessage :=
  {| tombstone := t; direction := Direction.default_for_collection (collection t) |}.

(** [deleted_at.duration_since(UNIX_EPOCH).unwrap_or_default().as_millis() as u64] *)
Definition deleted_at_millis (t : Tombstone) : Z :=
  wrap 64 (default 0%Z (Tomb.duration_since (deleted_at t) 0) / ns_per_ms).

Definition encode (m : TombstoneSyncMessage) : bytes :=
  let t := tombstone m in
  to_be 2 (zlen (collection t)) ++ collection t
  ++ to_be 2 (zlen (document_id t)) ++ document_id t
  ++ to_be 8 (deleted_at_millis t)
  ++ to_be 8 (lamport t)
  ++ to_be 2 (zlen (deleted_by t)) ++ deleted_by t
  ++ match reason t with
     | Some r => to_be 2 (zlen r) ++ r
     | None => to_be 2 0
     end
  ++ [Direction.to_byte (direction m)].

Definition decode_reason (data : bytes) (pos reason_len : nat)
    : outcome TombstoneDecodeError (option bytes * nat) :=
  if decide (0 < reason_len) then
    bail! decide (length data < pos + reason_len) with TooShort;
    reason_str ← slice data pos (pos + reason_len);
    reason_str ← ok_or (from_utf8 reason_str) InvalidUtf8;
    Ok (Some reason_str, pos + reason_len)
  else Ok (None, pos).

Definition decode (data : bytes) : outcome TombstoneDecodeError TombstoneSyncMessage :=
  let pos := 0 in
  bail! decide (length data < pos + 2) with TooShort;
  collection_len ← indices data pos 2;
  let collection_len := Z.to_nat (from_be collection_len) in
  let pos := pos + 2 in
  bail! decide (length data < pos + collection_len) with TooShort;
  coll ← slice data pos (pos + collection_len);
  coll ← ok_or (from_utf8 coll) InvalidUtf8;
  let pos := pos + collection_len in
  bail! decide (length data < pos + 2) with TooShort;
  doc_id_len ← indices data pos 2;
  let doc_id_len := Z.to_nat (from_be doc_id_len) in
  let pos := pos + 2 in
  bail! decide (length data < pos + doc_id_len) with TooShort;
  doc ← slice data pos (pos + doc_id_len);
  doc ← ok_or (from_utf8 doc) InvalidUtf8;
  let pos := pos + doc_id_len in
  bail! decide (length data < pos + 8) with TooShort;
  deleted_at_millis ← indices data pos 8;
  let deleted := (from_be deleted_at_millis * ns_per_ms)%Z in
  let pos := pos + 8 in
  bail! decide (length data < pos + 8) with TooShort;
  lam ← indices data pos 8;
  let pos := pos + 8 in
  bail! decide (length data < pos + 2) with TooShort;
  deleted_by_len ← indices data pos 2;
  let deleted_by_len := Z.to_nat (from_be deleted_by_len) in
  let pos := pos + 2 in
  bail! decide (length data < pos + deleted_by_len) with TooShort;
  by_ ← slice data pos (pos + deleted_by_len);
  by_ ← ok_or (from_utf8 by_) InvalidUtf8;
  let pos := pos + deleted_by_len in
  bail! decide (length data < pos + 2) with TooShort;
  reason_len ← indices data pos 2;
  let reason_len := Z.to_nat (from_be reason_len) in
  let pos := pos + 2 in
  '(r, pos) ← decode_reason data pos reason_len;
  bail! decide (length data < pos + 1) with TooShort;
  d ← index data pos;
  d ← ok_or (Direction.from_byte d) InvalidDirection;
  Ok {|
    tombstone := {|
      document_id := doc;
      collection := coll;
      deleted_at := deleted;
      deleted_by := by_;
      lamport := from_be lam;
      reason := r
    |};
    direction := d
  |}.

(** What the Rust types and the two-byte lengths allow. *)
Record message_wf (m : TombstoneSyncMessage) : Prop := {
  mwf_coll : utf8_valid (collection (tombstone m)) = true;
  mwf_coll_len : (zlen (collection (tombstone m)) < 65536)%Z;
  mwf_doc : utf8_valid (document_id (tombstone m)) = true;
  mwf_doc_len : (zlen (document_id (tombstone m)) < 65536)%Z;
  mwf_by : utf8_valid (deleted_by (tombstone m)) = true;
  mwf_by_len : (zlen (deleted_by (tombstone m)) < 65536)%Z;
  mwf_lamport : in_u 64 (lamport (tombstone m));
  mwf_reason : ∀ r, reason (tombstone m) = Some r →
                    utf8_valid r = true ∧ (zlen r < 65536)%Z
}.

(** What the format keeps of a message: whole milliseconds since the epoch, and
    no difference between an empty and a missing reason. *)
Definition on_wire (m : TombstoneSyncMessage) : TombstoneSyncMessage :=
  let t := tombstone m in {|
  tombstone := {|
    document_id := document_id t;
    collection := collection t;
    deleted_at := deleted_at_millis t * ns_per_ms;
    deleted_by := deleted_by t;
    lamport := lamport t;
    reason := match reason t with Some [] => None | r => r end
  |};
  direction := direction m
|}.

Lemma decode_reason_no_panic data pos n : no_panic (decode_reason data pos n).
Proof. unfold decode_reason. panic_free. Qed.
#[local] Hint Resolve decode_reason_no_panic : wire.

Lemma tombstone_decode_no_panic data : no_panic (decode data).
Proof. unfold decode. panic_free. Qed.

Lemma deleted_at_millis_range t : in_u 64 (deleted_at_millis t).
Proof. apply Z.mod_pos_bound. lia. Qed.

Lemma deleted_at_millis_id t ms :
  in_u 64 ms → deleted_at t = (ms * ns_per_ms)%Z → deleted_at_millis t = ms.
Proof.
  intros Hms Ht. unfold deleted_at_millis, Tomb.duration_since, in_u, wrap in *.
  rewrite Ht, decide_True by (unfold ns_per_ms; lia). cbn [from_option id].
  rewrite Z.sub_0_r, Z.div_mul by done. by apply Z.mod_small.
Qed.

Lemma encode_reason (o : option bytes) :
  match o with Some r => to_be 2 (zlen r) ++ r | None => to_be 2 0 end =
  to_be 2 (zlen (default [] o)) ++ default [] o.
Proof. by destruct o. Qed.

(** An empty reason is read as no reason. *)
Definition nonempty (r : bytes) : option bytes := match r with [] => None | _ => Some r end.

Lemma decode_reason_run data pos r rest :
  cursor data pos (r ++ rest) → utf8_valid r = true →
  decode_reason data pos (length r) = Ok (nonempty r, pos + length r).
Proof.
  intros C Hu. unfold decode_reason. case_decide as Hpos.
  - decode_run C. by destruct r; [cbn in Hpos; lia|].
  - destruct r; [|cbn in Hpos; lia]. cbn. by rewrite Nat.add_0_r.
Qed.

Lemma decode_reason_inv data pos n r pos' rest :
  cursor data pos rest → decode_reason data pos n = Ok (r, pos') →
  ∃ w rest', rest = w ++ rest' ∧ r = nonempty w ∧ length w = n ∧ utf8_valid w = true ∧
             cursor data pos' rest'.
Proof.
  intros C H. unfold decode_reason in H. destruct (decide (0 < n)) as [Hn|Hn].
  - decode_inv H. simplify_eq. exists v, rest0. split_and!; try done.
    by destruct v; [cbn in Hn; lia|].
  - simplify_eq. exists [], rest. split_and!; try done. cbn. lia.
Qed.

Lemma tombstone_decode_cursor m data rest :
  message_wf m → cursor data 0 (encode m ++ rest) → decode data = Ok (on_wire m).
Proof.
  intros [] C. unfold decode, encode in *. cbv zeta in C. rewrite encode_reason in C.
  rewrite <- !(assoc_L (++)) in C. cbn [app] in C.
  set (w := default [] (reason (tombstone m))) in *.
  assert (utf8_valid w = true ∧ zlen w < 65536)%Z as [Hu Hw].
  { unfold w. destruct (reason _) as [r|] eqn:E; [by apply mwf_reason0|done]. }
  decode_run C. rewrite (decode_reason_run _ _ _ _ C Hu). cbn [mbind outcome_bind].
  eapply cursor_skip in C; [|reflexivity]. decode_run C.
  rewrite Direction.direction_from_to_byte. cbn [ok_or mbind outcome_bind].
  unfold on_wire. rewrite !(be_roundtrip 8 64) by (done || apply deleted_at_millis_range).
  unfold w. by destruct (reason (tombstone m)) as [[|]|].
Qed.

Lemma tombstone_decode_inv data m :
  decode data = Ok m → message_wf m ∧ on_wire m = m ∧ ∃ rest, data = encode m ++ rest.
Proof.
  intros H. unfold decode in H. pose proof (cursor_start data) as C.
  decode_inv H. destruct v8 as [r pos].
  match goal with C : cursor _ _ _ |- _ =>
    apply (decode_reason_inv _ _ _ _ _ _ C) in Hv as (w & rest' & -> & -> & Hw & Hu & ?); clear C
  end.
  decode_inv H. simplify_eq.
  match goal with Hd : Direction.from_byte _ = Some _ |- _ =>
    apply Direction.direction_to_from_byte in Hd as <- end.
  assert (in_u 64 (from_be v3)) as Hms by eauto with wire.
  split_and!.
  - split; cbn; eauto with wire; try (eapply (len_be_bound 2); eassumption).
    intros r Hr. assert (r = w) as -> by (destruct w; naive_solver).
    split; [done|]. by eapply (len_be_bound 2).
  - unfold on_wire. cbn. erewrite deleted_at_millis_id by done.
    by destruct w.
  - eexists. unfold encode. cbn [tombstone collection document_id lamport deleted_by reason
      direction]. erewrite deleted_at_millis_id by done. rewrite encode_reason.
    replace (default [] (nonempty w)) with w by by destruct w. wire_eq.
Qed.

(** Tombstone messages on the wire: the decoder accepts exactly the encodings
    of the messages the format can represent (times in whole milliseconds from
    the epoch on, no empty reason, strings that fit their two-byte lengths), with
    anything after them, and returns the message that was encoded. *)
Theorem tombstone_decode_exact data m :
  decode data = Ok m ↔ message_wf m ∧ on_wire m = m ∧ ∃ rest, data = encode m ++ rest.
Proof.
  split; [apply tombstone_decode_inv|]. intros (Hwf & Hw & rest & ->).
  rewrite <- Hw at 2. eapply tombstone_decode_cursor; eauto using cursor_start.
Qed.
End SyncMessage.
#[export] Hint Resolve SyncMessage.tombstone_decode_no_panic : wire.

(** * [TombstoneBatch] *)
Module Batch.
Record TombstoneBatch := { tombstones : list TombstoneSyncMessage }.

Definition new : TombstoneBatch := {| tombstones := [] |}.
Definition from_tombstones (ts : list Tombstone) : TombstoneBatch :=
  {| tombstones := SyncMessage.from_tombstone <$> ts |}.
Definition with_messages (ms : list TombstoneSyncMessage) : TombstoneBatch :=
  {| tombstones := ms |}.
Definition push (b : TombstoneBatch) (m : TombstoneSyncMessage) : TombstoneBatch :=
  {| tombstones := tombstones b ++ [m] |}.
Definition len (b : TombstoneBatch) : nat := length (tombstones b).

(** One message with its four-byte length. *)
Definition encode_one (m : TombstoneSyncMessage) : bytes :=
  let encoded := SyncMessage.encode m in to_be 4 (zlen encoded) ++ encoded.
Definition encode (b : TombstoneBatch) : bytes :=
  to_be 4 (zlen (tombstones b)) ++ (tombstones b ≫= encode_one).

(** The loop [for _ in 0..count]. *)
Fixpoint decode_loop (count : nat) (data : bytes) (pos : nat) (acc : list TombstoneSyncMessage)
    : outcome TombstoneDecodeError TombstoneBatch :=
  match count with
  | O => Ok {| tombstones := acc |}
  | S count =>
      bail! decide (length data < pos + 4) with TooShort;
      len ← indices data pos 4;
      let len := Z.to_nat (from_be len) in
      let pos := pos + 4 in
      bail! decide (length data < pos + len) with TooShort;
      chunk ← slice data pos (pos + len);
      m ← SyncMessage.decode chunk;
      decode_loop count data (pos + len) (acc ++ [m])
  end.
Definition decode (data : bytes) : outcome TombstoneDecodeError TombstoneBatch :=
  bail! decide (length data < 4) with TooShort;
  count ← indices data 0 4;
  decode_loop (Z.to_nat (from_be count)) data 4 [].

Lemma decode_loop_no_panic n data pos acc : no_panic (decode_loop n data pos acc).
Proof.
  revert pos acc. induction n as [|n IH]; intros pos acc; cbn [decode_loop]; [done|].
  panic_free.
Qed.
Lemma batch_decode_no_panic data : no_panic (decode data).
Proof. unfold decode. panic_free. apply decode_loop_no_panic. Qed.

Lemma message_zlen m :
  SyncMessage.message_wf m → (zlen (SyncMessage.encode m) < 256 ^ Z.of_nat 4)%Z.
Proof.
  intros []. unfold SyncMessage.encode. cbv zeta. rewrite SyncMessage.encode_reason.
  assert (zlen (default [] (reason (tombstone m))) < 65536)%Z as Hr.
  { destruct (reason _) as [r|] eqn:E; [by apply mwf_reason|done]. }
  unfold zlen in *. autorewrite with lens. lia.
Qed.

Lemma decode_loop_run ms data pos acc rest :
  Forall SyncMessage.message_wf ms → cursor data pos ((ms ≫= encode_one) ++ rest) →
  decode_loop (length ms) data pos acc =
    Ok {| tombstones := acc ++ (SyncMessage.on_wire <$> ms) |}.
Proof.
  intros Hms. revert pos acc. induction Hms as [|m ms Hm _ IH]; intros pos acc C.
  - cbn. by rewrite app_nil_r.
  - cbn [length decode_loop]. pose proof (message_zlen m Hm) as Hl.
    cbn [mbind list_bind] in C. unfold encode_one at 1 in C. cbv zeta in C.
    rewrite <- !(assoc_L (++)) in C. decode_run C.
    rewrite (SyncMessage.tombstone_decode_cursor m _ []); [|done|rewrite app_nil_r; apply cursor_start].
    cbn [mbind outcome_bind]. rewrite (IH _ _ C). by rewrite <- (assoc_L (++)).
Qed.

Lemma batch_decode_cursor b data rest :
  Forall SyncMessage.message_wf (tombstones b) → (zlen (tombstones b) < 2 ^ 32)%Z →
  cursor data 0 (encode b ++ rest) →
  decode data = Ok {| tombstones := SyncMessage.on_wire <$> tombstones b |}.
Proof.
  intros Hms Hn C. unfold decode, encode in *. rewrite <- !(assoc_L (++)) in C.
  assert (zlen (tombstones b) < 256 ^ Z.of_nat 4)%Z by done.
  decode_run C. by apply decode_loop_run with rest.
Qed.

(** A tombstone batch survives the wire: decoding the encoding of any batch
    of fewer than 2^32 representable messages, with anything after it, returns the
    same messages in the same order, each as the format keeps it. *)
Theorem batch_roundtrip b rest :
  Forall SyncMessage.message_wf (tombstones b) → (zlen (tombstones b) < 2 ^ 32)%Z →
  decode (encode b ++ rest) = Ok {| tombstones := SyncMessage.on_wire <$> tombstones b |}.
Proof.
  intros Hms Hn. eapply batch_decode_cursor; eauto using cursor_start.
Qed.

Lemma batch_roundtrip_witness :
  let t := Tomb.with_reason (str "doc-1") (str "tracks") (str "node-1") 7 (str "") 1500000 in
  decode (encode (from_tombstones [t]) ++ [Byte.x00]) =
    Ok {| tombstones := [SyncMessage.on_wire (SyncMessage.from_tombstone t)] |}.
Proof.
  intros t. apply batch_roundtrip; [|done]. apply Forall_singleton. split; try done.
  intros r [= <-]. done.
Defined.
End Batch.
#[export] Hint Resolve Batch.batch_decode_no_panic : wire.

(** * Deletion policies *)
Inductive DeletionPolicy :=
| ImplicitTTL (ttl : Z) (supersession_key : option bytes)
| TombstonePolicy (tombstone_ttl : Z) (delete_wins : bool)
| SoftDelete (include_deleted_default : bool)
| Immutable.

Module Policies.
Definition is_implicit_ttl (p : DeletionPolicy) : bool :=
  match p with ImplicitTTL _ _ => true | _ => false end.
Definition is_tombstone (p : DeletionPolicy) : bool :=
  match p with TombstonePolicy _ _ => true | _ => false end.
Definition is_soft_delete (p : DeletionPolicy) : bool :=
  match p with SoftDelete _ => true | _ => false end.
Definition is_immutable (p : DeletionPolicy) : bool :=
  match p with Immutable => true | _ => false end.
Definition implicit_ttl (p : DeletionPolicy) : option Z :=
  match p with ImplicitTTL ttl _ => Some ttl | _ => None end.
Definition tombstone_ttl (p : DeletionPolicy) : option Z :=
  match p with TombstonePolicy ttl _ => Some ttl | _ => None end.
Definition delete_wins (p : DeletionPolicy) : option bool :=
  match p with TombstonePolicy _ w => Some w | _ => None end.
Definition default_policy : DeletionPolicy := SoftDelete false.

Definition default_for_collection (c : bytes) : DeletionPolicy :=
  if decide (c = str "beacons" ∨ c = str "platforms") then
    ImplicitTTL (from_secs 3600) (Some (str "node_id"))
  else if decide (c = str "tracks") then TombstonePolicy (from_secs 3600) true
  else if decide (c = str "nodes" ∨ c = str "cells") then TombstonePolicy (from_secs 86400) true
  else if decide (c = str "alerts") then TombstonePolicy (from_secs 14400) false
  else if decide (c = str "contact_reports" ∨ c = str "commands" ∨ c = str "audit_logs") then
    SoftDelete false
  else SoftDelete false.
End Policies.

(** [DeleteResult] and its constructors. *)
Record DeleteResult := {
  deleted : bool;
  tombstone_id : option bytes;
  expires_at : option Z;
  policy : DeletionPolicy
}.
Definition tombstoned (id : bytes) (expires : Z) (p : DeletionPolicy) : DeleteResult :=
  {| deleted := true; tombstone_id := Some id; expires_at := Some expires; policy := p |}.
Definition soft_deleted (p : DeletionPolicy) : DeleteResult :=
  {| deleted := true; tombstone_id := None; expires_at := None; policy := p |}.
Definition immutable : DeleteResult :=
  {| deleted := false; tombstone_id := None; expires_at := None; policy := Immutable |}.
Definition not_found (p : DeletionPolicy) : DeleteResult :=
  {| deleted := false; tombstone_id := None; expires_at := None; policy := p |}.

Module Registry.
Record DeletionPolicyRegistry := { overrides : gmap bytes DeletionPolicy }.

Definition new : DeletionPolicyRegistry := {| overrides := ∅ |}.
Definition get (r : DeletionPolicyRegistry) (c : bytes) : DeletionPolicy :=
  default (Policies.default_for_collection c) (overrides r !! c).
Definition set (r : DeletionPolicyRegistry) (c : bytes) (p : DeletionPolicy)
    : DeletionPolicyRegistry := {| overrides := <[c := p]> (overrides r) |}.
Definition remove (r : DeletionPolicyRegistry) (c : bytes)
    : DeletionPolicyRegistry * option DeletionPolicy :=
  ({| overrides := delete c (overrides r) |}, overrides r !! c).
Definition allows_delete (r : DeletionPolicyRegistry) (c : bytes) : bool :=
  negb (Policies.is_immutable (get r c)).
Definition uses_tombstones (r : DeletionPolicyRegistry) (c : bytes) : bool :=
  Policies.is_tombstone (get r c).
Definition uses_soft_delete (r : DeletionPolicyRegistry) (c : bytes) : bool :=
  Policies.is_soft_delete (get r c).

Definition defaults : list (bytes * DeletionPolicy) := [
  (str "beacons", ImplicitTTL (from_secs 3600) (Some (str "node_id")));
  (str "platforms", ImplicitTTL (from_secs 3600) (Some (str "node_id")));
  (str "tracks", TombstonePolicy (from_secs 3600) true);
  (str "nodes", TombstonePolicy (from_secs 86400) true);
  (str "cells", TombstonePolicy (from_secs 86400) true);
  (str "alerts", TombstonePolicy (from_secs 14400) false);
  (str "contact_reports", SoftDelete false);
  (str "commands", SoftDelete false);
  (str "audit_logs", SoftDelete false)
].
Definition with_defaults : DeletionPolicyRegistry :=
  foldl (λ r cp, set r cp.1 cp.2) new defaults.

Lemma get_set r c p c' : get (set r c p) c' = if decide (c = c') then p else get r c'.
Proof.
  unfold get, set. cbn. case_decide as H.
  - subst. by rewrite lookup_insert_eq.
  - by rewrite lookup_insert_ne.
Qed.

Lemma foldl_set_agree l r c :
  Forall (λ cp, cp.2 = Policies.default_for_collection cp.1) l →
  get r c = Policies.default_for_collection c →
  get (foldl (λ r cp, set r cp.1 cp.2) r l) c = Policies.default_for_collection c.
Proof.
  intros Hl. revert r. induction Hl as [|[c' p] l Hp _ IH]; intros r Hr; [done|].
  cbn. apply IH. rewrite get_set. cbn in *. case_decide; naive_solver.
Qed.

(** The registry with pre-configured defaults and the empty registry are the
    same to every caller, for every collection name: the table in [with_defaults]
    and the match in [default_for_collection] agree, before and after any number
    of equal overrides and removals. *)
Theorem with_defaults_agrees c (ops : list (bytes * option DeletionPolicy)) :
  let apply r op := match op with
                    | (c, Some p) => set r c p
                    | (c, None) => (remove r c).1
                    end in
  get (foldl apply with_defaults ops) c = get (foldl apply new ops) c.
Proof.
  intros apply.
  assert (∀ ops r r', (∀ c, get r c = get r' c) →
            get (foldl apply r ops) c = get (foldl apply r' ops) c) as Hcong.
  { clear ops. intros ops. induction ops as [|[c1 [p|]] ops IH]; intros r r' Hr; cbn; auto; apply IH;
      intros c2.
    - by rewrite !get_set, Hr.
    - specialize (Hr c2). unfold get in *. cbn.
      destruct (decide (c1 = c2)) as [->|]; [by rewrite !lookup_delete_eq|].
      by rewrite !lookup_delete_ne. }
  apply Hcong. intros c'. change (get new c') with (Policies.default_for_collection c').
  apply foldl_set_agree; [|done]. repeat constructor.
Qed.
End Registry.
