(* ===== verification/Store.v ===== *)
(** The document store ([src/storage/automerge_store.rs]): an LRU cache in front of
    a redb database, documents and tombstones under [collection:document_id] keys,
    change notifications, prefix scans, compaction, and the byte-valued collections
    on top.  Automerge, redb, the LRU cache and the JSON form of tombstones are
    interfaces; the store is shown to implement a map from keys to documents.

    An operation that takes several locks one after the other is the composition of
    its locked phases, so that interleavings of two operations can be stated. *)
From Stdlib Require Import ZArith Lia Strings.Byte Strings.String.
From stdpp Require Import prelude gmap sorting.
From S2P Require Import Prelude Wire Text Iteration Float Deletion.

Set Default Proof Using "Type".

(** * Interfaces *)

(** ** Automerge documents *)
Inductive ScalarValue :=
| SBytes (b : bytes) | SStr (s : bytes) | SInt (z : Z) | SUint (z : Z) | SF64 (f : float)
| SCounter (z : Z) | STimestamp (z : Z) | SBoolean (b : bool) | SUnknown | SNull.
Inductive ObjType := MapObject | ListObject | TextObject | TableObject.
Inductive AmValue := Scalar (s : ScalarValue) | Object (t : ObjType).

Class Automerge := {
  doc : Type;
  am_new : doc;
  am_save : doc → bytes;
  am_load : bytes → option doc;
  am_fork : doc → doc;
  (** what can be read from the objects of a document *)
  content : Type;
  am_content : doc → content;
  (** [doc.get(ROOT, key)]; the outer [None] is an error *)
  am_read : content → bytes → option (option AmValue);
  (** a transaction with one [put(ROOT, key, value)] *)
  am_put : doc → bytes → ScalarValue → option doc
}.

Definition am_get `{!Automerge} (d : doc) (key : bytes) : option (option AmValue) :=
  am_read (am_content d) key.

(** Documents are equivalent when the same can be read from them. *)
Global Instance doc_equiv `{!Automerge} : Equiv doc := λ d1 d2, am_content d1 = am_content d2.
Global Instance doc_equivalence `{!Automerge} : Equivalence (≡@{doc}).
Proof. split; unfold equiv, doc_equiv; [done|by intros ?? ->|by intros ??? -> ->]. Qed.
Lemma am_get_equiv `{!Automerge} (d1 d2 : doc) f : d1 ≡ d2 → am_get d1 f = am_get d2 f.
Proof. unfold am_get. by intros ->. Qed.

Class AutomergeLaws `{!Automerge} : Prop := {
  am_load_save d : am_load (am_save d) ≡ Some d;
  am_fork_equiv d : am_fork d ≡ d;
  am_get_new f : am_get am_new f = Some None;
  am_get_put d f s d' f' : am_put d f s = Some d' →
    am_get d' f' = if decide (f = f') then Some (Some (Scalar s)) else am_get d f'
}.

(** ** The database: ordered tables of byte strings, changed by transactions *)
Inductive table := DOCUMENTS_TABLE | TOMBSTONES_TABLE.
Global Instance table_eq_dec : EqDecision table.
Proof. solve_decision. Defined.

Class Redb := {
  database : Type;
  (** write transactions; [None] is an error, the transaction is aborted *)
  db_insert : database → table → bytes → bytes → option database;
  db_remove : database → table → bytes → option (database * bool);
  db_get : database → table → bytes → option (option bytes);
  (** iteration in key order; an item [None] is an error of the iterator *)
  db_iter : database → table → option (list (option (bytes * bytes)));
  db_range : database → table → bytes → option (list (option (bytes * bytes)));
  db_len : database → table → option nat
}.

Definition item_of (i : option (bytes * bytes)) (e : bytes * bytes) : Prop :=
  i = None ∨ i = Some e.

Class RedbLaws `{!Redb} := {
  db_entries : database → table → list (bytes * bytes);
  db_view (d : database) (t : table) : gmap bytes bytes := list_to_map (db_entries d t);
  db_entries_sorted d t : StronglySorted bytes_le (db_entries d t).*1;
  db_entries_nodup d t : NoDup (db_entries d t).*1;
  db_insert_view d t k v d' : db_insert d t k v = Some d' →
    ∀ t', db_view d' t' = if decide (t = t') then <[k := v]> (db_view d t') else db_view d t';
  db_remove_view d t k d' b : db_remove d t k = Some (d', b) →
    (b = true ↔ is_Some (db_view d t !! k)) ∧
    ∀ t', db_view d' t' = if decide (t = t') then delete k (db_view d t') else db_view d t';
  db_get_view d t k r : db_get d t k = Some r → r = db_view d t !! k;
  db_iter_items d t l : db_iter d t = Some l → Forall2 item_of l (db_entries d t);
  db_range_items d t k l : db_range d t k = Some l →
    Forall2 item_of l (filter (λ e, bytes_leb k e.1 = true) (db_entries d t));
  db_len_view d t n : db_len d t = Some n → n = size (db_view d t)
}.

(** ** The cache: least recently used entries are evicted at capacity *)
Class Lru (V : Type) := {
  lru : Type;
  lru_new : nat → lru;
  lru_get : lru → bytes → option V * lru;
  lru_put : lru → bytes → V → lru;
  lru_pop : lru → bytes → lru;
  lru_iter : lru → list (bytes * V);
  lru_len : lru → nat
}.
Arguments lru V {_}.

Class LruLaws (V : Type) `{!Lru V} := {
  lru_view : lru V → gmap bytes V;
  lru_cap : lru V → nat;
  lru_new_view n : lru_view (lru_new n) = ∅ ∧ lru_cap (lru_new n) = n;
  lru_get_view c k : (lru_get c k).1 = lru_view c !! k ∧ lru_view (lru_get c k).2 = lru_view c
    ∧ lru_cap (lru_get c k).2 = lru_cap c;
  lru_put_room c k v : is_Some (lru_view c !! k) ∨ size (lru_view c) < lru_cap c →
    lru_view (lru_put c k v) = <[k := v]> (lru_view c);
  lru_put_full c k v : lru_view c !! k = None → lru_cap c ≤ size (lru_view c) → 0 < lru_cap c →
    ∃ k0, is_Some (lru_view c !! k0) ∧
      lru_view (lru_put c k v) = <[k := v]> (delete k0 (lru_view c));
  lru_put_cap c k v : lru_cap (lru_put c k v) = lru_cap c;
  lru_pop_view c k : lru_view (lru_pop c k) = delete k (lru_view c)
    ∧ lru_cap (lru_pop c k) = lru_cap c;
  lru_iter_view c : lru_iter c ≡ₚ map_to_list (lru_view c);
  lru_len_view c : lru_len c = size (lru_view c)
}.

(** ** The JSON form of tombstones, and the order of hash sets *)
Class TombstoneJson := {
  to_json : Tombstone → option bytes;
  from_json : bytes → option Tombstone
}.
Class TombstoneJsonLaws `{!TombstoneJson} : Prop :=
  from_to_json t b : to_json t = Some b → from_json b = Some t.

(** * The store *)
Inductive StoreError := DatabaseError | LoadError | JsonError | Utf8Error | TransactError.

Section Store.
Context {AM : Automerge} {RD : Redb} {LR : Lru doc} {TJ : TombstoneJson} {SO : SetOrder}.

(** The broadcast channels are the lists of the keys sent on them. *)
Record AutomergeStore := {
  db : option database;
  cache : lru doc;
  change_tx : list bytes;
  observer_tx : list bytes
}.
Implicit Types s : AutomergeStore.

Definition set_db s (d : option database) : AutomergeStore :=
  {| db := d; cache := cache s; change_tx := change_tx s; observer_tx := observer_tx s |}.
Definition set_cache s (c : lru doc) : AutomergeStore :=
  {| db := db s; cache := c; change_tx := change_tx s; observer_tx := observer_tx s |}.

Abbreviation action := (stm AutomergeStore StoreError).

Definition in_memory : AutomergeStore :=
  {| db := None; cache := lru_new (Z.to_nat 10000); change_tx := []; observer_tx := [] |}.
Definition opened (d : database) : AutomergeStore :=
  {| db := Some d; cache := lru_new (Z.to_nat 1000); change_tx := []; observer_tx := [] |}.
Definition is_in_memory s : bool := match db s with None => true | Some _ => false end.

(** ** Documents *)

(** A write transaction, when there is a database. *)
Definition write_doc (key : bytes) (d : doc) : action unit := λ s,
  match db s with
  | None => (Ok tt, s)
  | Some db =>
      match db_insert db DOCUMENTS_TABLE key (am_save d) with
      | Some db' => (Ok tt, set_db s (Some db'))
      | None => (Err DatabaseError, s)
      end
  end.
Definition cache_put (key : bytes) (d : doc) : action unit :=
  modify (λ s, set_cache s (lru_put (cache s) key d)).
Definition notify_observers (key : bytes) : action unit :=
  modify (λ s, {| db := db s; cache := cache s; change_tx := change_tx s;
                  observer_tx := observer_tx s ++ [key] |}).
Definition notify_changes (key : bytes) : action unit :=
  modify (λ s, {| db := db s; cache := cache s; change_tx := change_tx s ++ [key];
                  observer_tx := observer_tx s |}).

Definition put_inner (key : bytes) (d : doc) (notify : bool) : action unit :=
  _ ← write_doc key d;
  _ ← cache_put key d;
  _ ← notify_observers key;
  if notify then notify_changes key else mret tt.
Definition put (key : bytes) (d : doc) : action unit := put_inner key d true.
Definition put_without_notify (key : bytes) (d : doc) : action unit := put_inner key d false.

Definition cache_get (key : bytes) : action (option doc) := λ s,
  let '(r, c) := lru_get (cache s) key in (Ok r, set_cache s c).
(** The read transaction of a cache miss. *)
Definition read_doc (key : bytes) : action (option doc) := λ s,
  (match db s with
   | None => Ok None
   | Some db =>
       match db_get db DOCUMENTS_TABLE key with
       | None => Err DatabaseError
       | Some None => Ok None
       | Some (Some v) => d ← ok_or (am_load v) LoadError; Ok (Some d)
       end
   end, s).
Definition get (key : bytes) : action (option doc) :=
  hit ← cache_get key;
  match hit with
  | Some d => mret (Some d)
  | None =>
      found ← read_doc key;
      match found with
      | Some d => _ ← cache_put key d; mret (Some d)
      | None => mret None
      end
  end.

Definition remove_doc (key : bytes) : action unit := λ s,
  match db s with
  | None => (Ok tt, s)
  | Some db =>
      match db_remove db DOCUMENTS_TABLE key with
      | Some (db', _) => (Ok tt, set_db s (Some db'))
      | None => (Err DatabaseError, s)
      end
  end.
Definition cache_pop (key : bytes) : action unit :=
  modify (λ s, set_cache s (lru_pop (cache s) key)).
Definition delete_doc (key : bytes) : action unit := _ ← remove_doc key; cache_pop key.

(** The loop over the range that starts at the prefix. *)
Fixpoint scan_loop (prefix : bytes) (items : list (option (bytes * bytes)))
    : outcome StoreError (list (bytes * doc)) :=
  match items with
  | [] => Ok []
  | None :: _ => Err DatabaseError
  | Some (k, v) :: items =>
      if negb (starts_with prefix k) then Ok []
      else
        d ← ok_or (am_load v) LoadError;
        r ← scan_loop prefix items;
        Ok ((from_utf8_lossy k, d) :: r)
  end.
Definition scan_prefix (prefix : bytes) : action (list (bytes * doc)) := λ s,
  (match db s with
   | None => Ok (filter (λ e, starts_with prefix e.1 = true) (lru_iter (cache s)))
   | Some db =>
       items ← ok_or (db_range db DOCUMENTS_TABLE prefix) DatabaseError;
       scan_loop prefix items
   end, s).

Definition count s : nat :=
  match db s with
  | None => lru_len (cache s)
  | Some db => default 0 (db_len db DOCUMENTS_TABLE)
  end.

(** ** Compaction; [lock_doc] makes [compact] atomic with respect to itself. *)
Definition compact (key : bytes) : action (option (nat * nat)) :=
  found ← get key;
  match found with
  | None => mret None
  | Some d =>
      let old_size := length (am_save d) in
      let compacted := am_fork d in
      let new_size := length (am_save compacted) in
      _ ← put_without_notify key compacted;
      mret (Some (old_size, new_size))
  end.

Definition document_size (key : bytes) : action (option nat) :=
  found ← get key;
  mret ((λ d, length (am_save d)) <$> found).

(** The loops over keys: all of them, or those above a threshold. *)
Fixpoint compact_keys (threshold : option nat) (keys : list bytes) (acc : nat * nat * nat)
    : action (nat * nat * nat) :=
  match keys with
  | [] => mret acc
  | key :: keys =>
      large ← match threshold with
              | None => mret true
              | Some t => size ← document_size key; mret (bool_decide (t ≤ default 0 size))
              end;
      if large : bool then
        r ← compact key;
        match r with
        | Some (before, after) =>
            let '(count, total_before, total_after) := acc in
            compact_keys threshold keys (S count, total_before + before, total_after + after)
        | None => compact_keys threshold keys acc
        end
      else compact_keys threshold keys acc
  end.

Definition compact_prefix (prefix : bytes) : action (nat * nat * nat) :=
  docs ← scan_prefix prefix;
  compact_keys None docs.*1 (0, 0, 0).

Definition keys_of (items : list (option (bytes * bytes))) : list bytes :=
  omap (λ i : option (bytes * bytes), (λ e, from_utf8_lossy e.1) <$> i) items.
Definition all_keys : action (list bytes) := λ s,
  (match db s with
   | None => Ok (lru_iter (cache s)).*1
   | Some db =>
       items ← ok_or (db_iter db DOCUMENTS_TABLE) DatabaseError;
       Ok (keys_of items)
   end, s).
Definition compact_all : action (nat * nat * nat) :=
  keys ← all_keys;
  compact_keys None keys (0, 0, 0).
Definition compact_above_threshold (threshold : nat) : action (nat * nat * nat) :=
  keys ← all_keys;
  compact_keys (Some threshold) keys (0, 0, 0).

Fixpoint compact_collections_loop (collections : list bytes) (threshold : nat)
    (acc : nat * nat * nat) : action (nat * nat * nat) :=
  match collections with
  | [] => mret acc
  | c :: collections =>
      docs ← scan_prefix (c ++ str ":");
      acc ← compact_keys (Some threshold) docs.*1 acc;
      compact_collections_loop collections threshold acc
  end.
Definition compact_collections_above_threshold (collections : list bytes) (threshold : nat)
    : action (nat * nat * nat) := compact_collections_loop collections threshold (0, 0, 0).

(** ** Tombstones *)
Definition doc_key (collection id : bytes) : bytes := collection ++ str ":" ++ id.

Definition put_tombstone (t : Tombstone) : action unit := λ s,
  match db s with
  | None => (Ok tt, s)
  | Some db =>
      match to_json t with
      | None => (Err JsonError, s)
      | Some b =>
          match db_insert db TOMBSTONES_TABLE (doc_key (collection t) (document_id t)) b with
          | Some db' => (Ok tt, set_db s (Some db'))
          | None => (Err DatabaseError, s)
          end
      end
  end.
Definition get_tombstone (coll id : bytes) : action (option Tombstone) := λ s,
  (match db s with
   | None => Ok None
   | Some db =>
       match db_get db TOMBSTONES_TABLE (doc_key coll id) with
       | None => Err DatabaseError
       | Some None => Ok None
       | Some (Some v) => t ← ok_or (from_json v) JsonError; Ok (Some t)
       end
   end, s).
Fixpoint tombstones_loop (keep : bytes → bool) (items : list (option (bytes * bytes)))
    : outcome StoreError (list Tombstone) :=
  match items with
  | [] => Ok []
  | None :: _ => Err DatabaseError
  | Some (k, v) :: items =>
      if keep k then
        t ← ok_or (from_json v) JsonError;
        r ← tombstones_loop keep items;
        Ok (t :: r)
      else tombstones_loop keep items
  end.
Definition iter_tombstones (keep : bytes → bool) : action (list Tombstone) := λ s,
  (match db s with
   | None => Ok []
   | Some db =>
       items ← ok_or (db_iter db TOMBSTONES_TABLE) DatabaseError;
       tombstones_loop keep items
   end, s).
Definition get_tombstones_for_collection (coll : bytes) : action (list Tombstone) :=
  iter_tombstones (λ k, starts_with (coll ++ str ":") (from_utf8_lossy k)).
Definition get_all_tombstones : action (list Tombstone) := iter_tombstones (λ _, true).
Definition remove_tombstone (coll id : bytes) : action bool := λ s,
  match db s with
  | None => (Ok false, s)
  | Some db =>
      match db_remove db TOMBSTONES_TABLE (doc_key coll id) with
      | Some (db', existed) => (Ok existed, set_db s (Some db'))
      | None => (Err DatabaseError, s)
      end
  end.
Definition has_tombstone (coll id : bytes) : action bool :=
  t ← get_tombstone coll id; mret (bool_decide (is_Some t)).

(** ** Garbage collection support *)
Definition collection_of (key : bytes) : option bytes :=
  (λ pos, take pos key) <$> find_byte is_colon key.

Fixpoint collections_loop (items : list (option (bytes * bytes))) (acc : gset bytes)
    : outcome StoreError (gset bytes) :=
  match items with
  | [] => Ok acc
  | None :: _ => Err DatabaseError
  | Some (k, _) :: items =>
      key_str ← ok_or (from_utf8 k) Utf8Error;
      collections_loop items
        (match collection_of key_str with Some c => {[ c ]} ∪ acc | None => acc end)
  end.
Definition list_collections : action (list bytes) := λ s,
  (match db s with
   | None => Ok (set_iter (list_to_set (omap (collection_of ∘ fst) (lru_iter (cache s)))))
   | Some db =>
       items ← ok_or (db_iter db DOCUMENTS_TABLE) DatabaseError;
       cs ← collections_loop items ∅;
       Ok (set_iter cs)
   end, s).

(** [_created_at], when it is an unsigned integer. *)
Definition created_at (d : doc) : option Z :=
  match am_get d (str "_created_at") with
  | Some (Some (Scalar (SUint z))) => Some z
  | _ => None
  end.
Definition cutoff_ms (cutoff : Z) : Z := wrap 64 (as_millis (default 0%Z (Tomb.duration_since cutoff 0))).
Definition get_expired_documents (coll : bytes) (cutoff : Z) : action (list bytes) :=
  let prefix := coll ++ str ":" in
  docs ← scan_prefix prefix;
  mret (omap (λ e, t ← created_at e.2;
                   if (t <? cutoff_ms cutoff)%Z then strip_prefix prefix e.1 else None) docs).
Definition hard_delete (coll id : bytes) : action unit := delete_doc (doc_key coll id).

(** ** Collections of byte strings: [AutomergeCollection] *)
Record AutomergeCollection := { coll_prefix : bytes }.
Definition collection_named (name : bytes) : AutomergeCollection := {| coll_prefix := name ++ str ":" |}.
Definition prefixed_key (c : AutomergeCollection) (id : bytes) : bytes := coll_prefix c ++ id.

Definition data_of (d : doc) : option bytes :=
  match am_get d (str "data") with
  | Some (Some (Scalar (SBytes b))) => Some b
  | _ => None
  end.

Definition coll_upsert (c : AutomergeCollection) (id data : bytes) : action unit :=
  let key := prefixed_key c id in
  found ← get key;
  let d := match found with Some existing => am_fork existing | None => am_new end in
  match am_put d (str "data") (SBytes data) with
  | Some d => put key d
  | None => lift (Err TransactError)
  end.
Definition coll_get (c : AutomergeCollection) (id : bytes) : action (option bytes) :=
  found ← get (prefixed_key c id);
  mret (found ≫= data_of).
Definition coll_delete (c : AutomergeCollection) (id : bytes) : action unit :=
  delete_doc (prefixed_key c id).
Definition coll_scan (c : AutomergeCollection) : action (list (bytes * bytes)) :=
  docs ← scan_prefix (coll_prefix c);
  mret (omap (λ e, id ← strip_prefix (coll_prefix c) e.1; b ← data_of e.2; Some (id, b)) docs).
Definition coll_find (c : AutomergeCollection) (predicate : bytes → bool)
    : action (list (bytes * bytes)) :=
  all_docs ← coll_scan c; mret (filter (λ e, predicate e.2 = true) all_docs).
Definition coll_query_geohash_prefix (c : AutomergeCollection) (geohash_prefix : bytes)
    : action (list (bytes * bytes)) :=
  all_docs ← coll_scan c; mret (filter (λ e, starts_with geohash_prefix e.1 = true) all_docs).
Definition coll_count (c : AutomergeCollection) : action nat :=
  all_docs ← coll_scan c; mret (length all_docs).
End Store.

(** * The store implements a map *)
Section Map.
Context {AM : Automerge} {AML : AutomergeLaws} {RD : Redb} {RDL : RedbLaws}
  {LR : Lru doc} {LRL : LruLaws doc}.
Implicit Types s : AutomergeStore.

(** The documents of the store: those of the database, or of the cache without one. *)
Definition contents s : gmap bytes doc :=
  match db s with
  | Some d => omap am_load (db_view d DOCUMENTS_TABLE)
  | None => lru_view (cache s)
  end.

(** Keys are strings, stored documents load, and cached documents are current. *)
Record store_ok s : Prop := {
  ok_keys : map_Forall (λ k _, utf8_valid k = true) (contents s);
  ok_docs d : db s = Some d → ∀ k v, db_view d DOCUMENTS_TABLE !! k = Some v →
    is_Some (am_load v);
  ok_cap : 0 < lru_cap (cache s);
  ok_cache k d : lru_view (cache s) !! k = Some d → contents s !! k ≡ Some d
}.

(** Writing the key evicts nothing from a cache without a database behind it. *)
Definition room s (k : bytes) : Prop :=
  db s = None → is_Some (lru_view (cache s) !! k) ∨ size (lru_view (cache s)) < lru_cap (cache s).

Lemma lru_put_sub c k v k' v' :
  0 < lru_cap c → lru_view (lru_put c k v) !! k' = Some v' →
  (k' = k ∧ v' = v) ∨ (k' ≠ k ∧ lru_view c !! k' = Some v').
Proof using LRL.
  intros Hcap Hl.
  destruct (decide (is_Some (lru_view c !! k) ∨ size (lru_view c) < lru_cap c)) as [Hr|Hr].
  - rewrite lru_put_room in Hl by done. apply lookup_insert_Some in Hl. naive_solver.
  - destruct (lru_put_full c k v) as (k0 & _ & Hv); [|lia..|].
    { apply eq_None_not_Some. naive_solver. }
    rewrite Hv in Hl. apply lookup_insert_Some in Hl as [|[_ Hl]]; [naive_solver|].
    apply lookup_delete_Some in Hl. naive_solver.
Qed.

Lemma am_load_saved d : ∃ d', am_load (am_save d) = Some d' ∧ d' ≡ d.
Proof using AML.
  pose proof (am_load_save d) as Hl. destruct (am_load (am_save d)) as [d'|].
  - apply Some_equiv_inj in Hl. eauto.
  - by inversion Hl.
Qed.

Lemma put_inner_state k d n s r s' :
  put_inner k d n s = (r, s') →
  (r = Err DatabaseError ∧ s' = s) ∨
  (r = Ok tt ∧ cache s' = lru_put (cache s) k d
   ∧ observer_tx s' = observer_tx s ++ [k]
   ∧ change_tx s' = change_tx s ++ (if n then [k] else [])
   ∧ match db s, db s' with
     | None, None => True
     | Some d0, Some d1 => db_insert d0 DOCUMENTS_TABLE k (am_save d) = Some d1
     | _, _ => False
     end).
Proof.
  unfold put_inner, mbind, stm_bind, write_doc. destruct (db s) as [d0|] eqn:Hdb.
  - destruct (db_insert d0 DOCUMENTS_TABLE k (am_save d)) as [d1|] eqn:Hi.
    + destruct n; cbn; intros [= <- <-]; cbn; rewrite ?app_nil_r; naive_solver.
    + intros [= <- <-]. by left.
  - destruct n; cbn; intros [= <- <-]; cbn; rewrite ?app_nil_r, Hdb; naive_solver.
Qed.

(** What remains of [store_ok] once the contents are known. *)
Lemma store_ok_put s s' k d :
  store_ok s → contents s' ≡ <[k := d]> (contents s) → cache s' = lru_put (cache s) k d →
  utf8_valid k = true →
  (∀ d1, db s' = Some d1 → ∀ k' v, db_view d1 DOCUMENTS_TABLE !! k' = Some v → is_Some (am_load v)) →
  store_ok s'.
Proof using Type*.
  intros [Hkeys Hdocs Hcap Hcache] Hc Hca Hk Hd. split; [|done|by rewrite Hca, lru_put_cap|].
  - intros k' d' Hd'. specialize (Hc k'). rewrite Hd' in Hc.
    destruct (decide (k' = k)) as [->|Hne]; [done|]. rewrite lookup_insert_ne in Hc by done.
    symmetry in Hc. apply Some_equiv_eq in Hc as (d'' & Hd'' & _). by eapply (Hkeys k').
  - intros k' d'. rewrite Hca, (Hc k').
    intros [[-> ->]|[Hne Hl]]%lru_put_sub; [by rewrite lookup_insert_eq| |done].
    rewrite lookup_insert_ne by done. by apply Hcache.
Qed.

Lemma put_inner_ok k d n s r s' :
  put_inner k d n s = (r, s') → store_ok s → room s k → utf8_valid k = true →
  (r = Ok tt ∧ store_ok s' ∧ contents s' ≡ <[k := d]> (contents s)
   ∧ observer_tx s' = observer_tx s ++ [k]
   ∧ change_tx s' = change_tx s ++ (if n then [k] else [])
   ∧ (db s' = None ↔ db s = None))
  ∨ (r = Err DatabaseError ∧ s' = s).
Proof using AML.
  intros [?|(-> & Hca & Ho & Hn & Hdb)]%put_inner_state Hok Hroom Hk; [by right|left].
  destruct (db s) as [d0|] eqn:H0, (db s') as [d1|] eqn:H1; try done.
  - pose proof (db_insert_view _ _ _ _ _ Hdb DOCUMENTS_TABLE) as Hv. rewrite decide_True in Hv by done.
    destruct (am_load_saved d) as (d' & Hl & Hd).
    assert (contents s' ≡ <[k := d]> (contents s)) as Hc.
    { unfold contents. rewrite H0, H1, Hv, (omap_insert_Some _ _ _ _ d') by done. by rewrite Hd. }
    split_and!; [done| |done..].
    apply (store_ok_put s s' k d); [done..|]. intros d2. rewrite H1. intros [= <-] k' v. rewrite Hv.
    intros [[<- <-]|[_ Hv']]%lookup_insert_Some; [eauto|by eapply ok_docs].
  - assert (contents s' = <[k := d]> (contents s)) as Hc.
    { unfold contents. rewrite H0, H1, Hca. by apply lru_put_room, Hroom. }
    split_and!; [done| |by rewrite Hc|done..].
    apply (store_ok_put s s' k d); [done|by rewrite Hc|done|done|]. by rewrite H1.
Qed.

(** A reading operation: it may only change the cache. *)
Record reads s s' : Prop := {
  reads_contents : contents s' = contents s;
  reads_db : db s' = db s;
  reads_ok : store_ok s';
  reads_room k : room s k → room s' k;
  reads_change : change_tx s' = change_tx s;
  reads_observer : observer_tx s' = observer_tx s
}.
Lemma reads_refl s : store_ok s → reads s s.
Proof. done. Qed.

Lemma reads_cache s c :
  store_ok s → lru_cap c = lru_cap (cache s) →
  (∀ k d, lru_view c !! k = Some d → contents s !! k ≡ Some d) →
  (db s = None → lru_view c = lru_view (cache s)) → reads s (set_cache s c).
Proof.
  intros [Hk Hd Hcap Hc] Hcap' Hall Hnone.
  assert (contents (set_cache s c) = contents s) as Hcs.
  { unfold contents. cbn. destruct (db s); [done|]. by apply Hnone. }
  split; [done|done| | |done|done].
  - split; [by rewrite Hcs|done|cbn; lia|]. cbn. intros k d. rewrite Hcs. apply Hall.
  - unfold room. cbn. intros k Hr Hn. rewrite Hcap', Hnone by done. by apply Hr.
Qed.

Lemma get_ok k s r s' :
  get k s = (r, s') → store_ok s →
  reads s s' ∧ ((∃ o, r = Ok o ∧ o ≡ contents s !! k) ∨ r = Err DatabaseError).
Proof.
  intros Hg Hok. unfold get, mbind, stm_bind, cache_get in Hg.
  destruct (lru_get_view (cache s) k) as (Hr & Hv & Hcap).
  destruct (lru_get (cache s) k) as [o c] eqn:Hl. cbn [fst snd] in *.
  assert (reads s (set_cache s c)) as Hreads.
  { apply reads_cache; [done|done| |done]. intros k' d'. rewrite Hv. by apply (ok_cache s Hok). }
  destruct o as [d|].
  { injection Hg as <- <-. split; [done|]. left. eexists. split; [done|].
    symmetry. by apply (ok_cache s Hok). }
  unfold read_doc in Hg. cbn [db set_cache] in Hg. destruct (db s) as [d0|] eqn:Hdb.
  2: { injection Hg as <- <-. split; [done|]. left. eexists. split; [done|].
       unfold contents. by rewrite Hdb, <- Hr. }
  destruct (db_get d0 DOCUMENTS_TABLE k) as [o|] eqn:Hget.
  2: { injection Hg as <- <-. auto. }
  apply db_get_view in Hget. destruct o as [v|].
  2: { injection Hg as <- <-. split; [done|]. left. eexists. split; [done|].
       unfold contents. by rewrite Hdb, lookup_omap, <- Hget. }
  destruct (ok_docs s Hok d0 Hdb k v) as [d Hd]; [done|]. rewrite Hd in Hg. cbn in Hg.
  injection Hg as <- <-.
  assert (contents s !! k = Some d) as Hk by (unfold contents; by rewrite Hdb, lookup_omap, <- Hget).
  split; [|left; eexists; split; [done|by rewrite Hk]].
  apply (reads_cache s (lru_put c k d)); [done|by rewrite lru_put_cap| |by rewrite Hdb].
  intros k' d' [[-> ->]|[_ Hl']]%lru_put_sub; [by rewrite Hk| |].
  - rewrite Hv in Hl'. by apply (ok_cache s Hok).
  - rewrite Hcap. apply Hok.
Qed.

Lemma delete_doc_state k s r s' :
  delete_doc k s = (r, s') →
  (r = Err DatabaseError ∧ s' = s) ∨
  (r = Ok tt ∧ cache s' = lru_pop (cache s) k ∧ observer_tx s' = observer_tx s
   ∧ change_tx s' = change_tx s
   ∧ match db s, db s' with
     | None, None => True
     | Some d0, Some d1 => ∃ b, db_remove d0 DOCUMENTS_TABLE k = Some (d1, b)
     | _, _ => False
     end).
Proof.
  unfold delete_doc, mbind, stm_bind, remove_doc. destruct (db s) as [d0|] eqn:Hdb.
  - destruct (db_remove d0 DOCUMENTS_TABLE k) as [[d1 b]|] eqn:Hr; intros [= <- <-]; cbn; eauto 10.
  - intros [= <- <-]. cbn. rewrite Hdb. eauto 10.
Qed.

Lemma delete_doc_ok k s r s' :
  delete_doc k s = (r, s') → store_ok s →
  (r = Ok tt ∧ store_ok s' ∧ contents s' = delete k (contents s) ∧ change_tx s' = change_tx s
   ∧ observer_tx s' = observer_tx s ∧ (db s' = None ↔ db s = None))
  ∨ (r = Err DatabaseError ∧ s' = s).
Proof.
  intros [?|(-> & Hca & Ho & Hn & Hdb)]%delete_doc_state [Hkeys Hdocs Hcap Hcache]; [by right|left].
  destruct (lru_pop_view (cache s) k) as [Hpv Hpc].
  assert (contents s' = delete k (contents s)
    ∧ ∀ d1, db s' = Some d1 → ∀ k' v, db_view d1 DOCUMENTS_TABLE !! k' = Some v → is_Some (am_load v))
    as [Hcs Hd'].
  { unfold contents. destruct (db s) as [d0|] eqn:H0, (db s') as [d1|] eqn:H1; try done.
    - destruct Hdb as [b Hr]. apply db_remove_view in Hr as [_ Hv]. specialize (Hv DOCUMENTS_TABLE).
      rewrite decide_True in Hv by done. rewrite Hv. split; [apply omap_delete|].
      intros d [= <-] k' v. rewrite Hv. intros [_ Hl]%lookup_delete_Some. by eapply Hdocs.
    - by rewrite Hca. }
  split_and!; [done| |done|done|done|].
  - split; [|done|by rewrite Hca, Hpc|].
    + rewrite Hcs. by apply map_Forall_delete.
    + intros k' d. rewrite Hca, Hpv, Hcs. intros [Hne Hl]%lookup_delete_Some.
      rewrite lookup_delete_ne by done. by apply Hcache.
  - destruct (db s), (db s'); done.
Qed.

(** ** Scans *)
Lemma scan_loop_ok p items entries :
  Forall2 item_of items entries →
  Forall (λ e, utf8_valid e.1 = true ∧ is_Some (am_load e.2)) entries →
  scan_loop p items = Err DatabaseError
  ∨ scan_loop p items = Ok (omap (keyed am_load) (take_prefixed p entries)).
Proof.
  induction 1 as [|i [k v] items entries Hi _ IH]; intros Hall; [by right|].
  apply Forall_cons in Hall as [[Hk [d Hd]] Hall]. specialize (IH Hall). cbn in Hk, Hd.
  destruct Hi as [->| ->]; [by left|]. cbn. destruct (starts_with p k); cbn; [|by right].
  rewrite Hd. cbn. destruct IH as [->| ->]; [by left|right]. cbn.
  unfold keyed at 2. cbn. by rewrite Hd, from_utf8_lossy_valid.
Qed.

Lemma elem_of_entries d t k v : (k, v) ∈ db_entries d t ↔ db_view d t !! k = Some v.
Proof. apply elem_of_list_to_map, db_entries_nodup. Qed.

Lemma range_prefixed p (l : list (bytes * bytes)) :
  filter (λ e : bytes * bytes, starts_with p e.1 = true) (filter (λ e, bytes_leb p e.1 = true) l)
  = filter (λ e, starts_with p e.1 = true) l.
Proof.
  induction l as [|[k v] l IH]; [done|]. rewrite !(filter_cons _ (k, v)). cbn [fst].
  destruct (decide (starts_with p k = true)) as [Hp|Hp].
  - rewrite decide_True; [by rewrite filter_cons, decide_True, IH|].
    apply starts_with_spec in Hp as [r ->]. apply prefix_le.
  - case_decide; [by rewrite filter_cons, decide_False|done].
Qed.

Lemma scan_prefix_ok p s r s' :
  scan_prefix p s = (r, s') → store_ok s →
  s' = s ∧ ((∃ l, r = Ok l ∧ l ≡ₚ filter (λ e, starts_with p e.1 = true) (map_to_list (contents s)))
            ∨ r = Err DatabaseError).
Proof.
  unfold scan_prefix. intros [= <- <-] Hok. split; [done|].
  destruct (db s) as [d|] eqn:Hdb.
  2: { left. eexists. split; [done|]. unfold contents. rewrite Hdb. f_equiv. apply lru_iter_view. }
  destruct (db_range d DOCUMENTS_TABLE p) as [items|] eqn:Hr; [|by right].
  cbn [ok_or mbind outcome_bind]. apply db_range_items in Hr.
  destruct (scan_loop_ok p items _ Hr) as [->| ->]; [|by right|].
  - apply Forall_forall. intros [k v] [_ Hin%elem_of_entries]%list_elem_of_filter. cbn.
    pose proof (ok_docs s Hok d Hdb k v Hin) as [x Hx]. split; [|by eexists].
    eapply (ok_keys s Hok k x). unfold contents. by rewrite Hdb, lookup_omap, Hin.
  - left. eexists. split; [done|]. rewrite take_prefixed_filter, range_prefixed.
    + rewrite keyed_filter. unfold contents. rewrite Hdb. f_equiv.
      apply keyed_entries, db_entries_nodup.
    + eapply StronglySorted_sublist; [|exact (db_entries_sorted d DOCUMENTS_TABLE)].
      apply fmap_sublist, sublist_filter.
    + apply Forall_fmap, Forall_forall. by intros e [? _]%list_elem_of_filter.
Qed.

(** ** Compaction keeps the documents *)
Record compacts s s' : Prop := {
  comp_ok : store_ok s';
  comp_contents : contents s' ≡ contents s;
  comp_change : change_tx s' = change_tx s;
  comp_db : db s' = None ↔ db s = None
}.
Lemma compacts_refl s : store_ok s → compacts s s.
Proof. done. Qed.
Lemma compacts_trans s1 s2 s3 : compacts s1 s2 → compacts s2 s3 → compacts s1 s3.
Proof.
  intros [Hok1 Hc1 Hn1 Hd1] [Hok2 Hc2 Hn2 Hd2].
  split; [done|by rewrite Hc2|congruence|by rewrite Hd2].
Qed.
Lemma reads_compacts s s' : reads s s' → compacts s s'.
Proof. intros [Hc Hd Hok _ Hn _]. split; [done|by rewrite Hc|done|by rewrite Hd]. Qed.

Lemma compact_ok k s r s' :
  compact k s = (r, s') → store_ok s →
  compacts s s' ∧ ((∃ o, r = Ok o) ∨ r = Err DatabaseError).
Proof using AML.
  intros Hc Hok. unfold compact in Hc.
  apply stm_bind_inv in Hc as [(o & s1 & Hg & Hc)|[(e & s1 & Hg & [= -> ->])|(s1 & Hg & [= -> ->])]];
    apply get_ok in Hg as [Hr Hres]; try done; pose proof (reads_compacts _ _ Hr) as Hrc.
  2: { split; [done|]. destruct Hres as [(? & ? & ?)|[= ->]]; [done|by right]. }
  2: { destruct Hres as [(? & ? & ?)|?]; done. }
  destruct Hres as [(? & [= <-] & Ho)|?]; [|done].
  destruct o as [d|]; [|injection Hc as <- <-; eauto].
  symmetry in Ho. apply Some_equiv_eq in Ho as (d' & Hd' & Heq).
  assert (utf8_valid k = true) as Hk by by eapply (ok_keys s Hok k d').
  assert (room s1 k) as Hroom.
  { intros Hn. left. rewrite <- (reads_contents _ _ Hr) in Hd'. unfold contents in Hd'.
    rewrite Hn in Hd'. eauto. }
  apply stm_bind_inv in Hc as [([] & s2 & Hp & [= <- <-])|[(e & s2 & Hp & [= -> ->])|(s2 & Hp & [= -> ->])]];
    apply put_inner_ok in Hp as [(Heq' & Hok2 & Hc2 & _ & Hch & Hdb)|[Heq' ->]];
    try done; try apply Hr; simplify_eq; [|split; [done|by right]].
  split; [|eauto]. eapply compacts_trans; [done|]. split; [done| |by rewrite app_nil_r in Hch|done].
  rewrite Hc2, am_fork_equiv, <- Heq, (reads_contents _ _ Hr). by rewrite insert_id.
Qed.

(** Programs that keep the documents and fail only with a database error. *)
Definition keeps {A} (m : stm AutomergeStore StoreError A) : Prop := ∀ s r s',
  m s = (r, s') → store_ok s → compacts s s' ∧ ((∃ o, r = Ok o) ∨ r = Err DatabaseError).

Lemma keeps_ret {A} (a : A) : keeps (mret a).
Proof. intros s r s' [= <- <-] Hok. eauto using compacts_refl. Qed.
Lemma keeps_bind {A B} (m : stm AutomergeStore StoreError A) (k : A → stm AutomergeStore StoreError B) :
  keeps m → (∀ a, keeps (k a)) → keeps (a ← m; k a).
Proof.
  intros Hm Hk s r s' Hb Hok.
  apply stm_bind_inv in Hb as [(a & s1 & Hr & Hb)|[(e & s1 & Hr & [= -> ->])|(s1 & Hr & [= -> ->])]];
    apply Hm in Hr as [Hc Hres]; try done; [|split; [done|naive_solver]..].
  destruct (Hk a s1 r s' Hb (comp_ok _ _ Hc)) as [Hc' Hres']. eauto using compacts_trans.
Qed.
Lemma keeps_get k : keeps (get k).
Proof. intros s r s' Hg Hok. apply get_ok in Hg as [Hr Hres]; [|done]. split; [by apply reads_compacts|naive_solver]. Qed.
Lemma keeps_scan p : keeps (scan_prefix p).
Proof. intros s r s' Hg Hok. apply scan_prefix_ok in Hg as [-> Hres]; [|done]. split; [done|naive_solver]. Qed.

Lemma keeps_compact_keys t keys acc : keeps (compact_keys t keys acc).
Proof using AML.
  revert acc. induction keys as [|k keys IH]; intros acc; cbn [compact_keys]; [apply keeps_ret|].
  apply keeps_bind.
  - destruct t; [|apply keeps_ret]. apply keeps_bind; [|intros; apply keeps_ret].
    apply keeps_bind; [apply keeps_get|intros; apply keeps_ret].
  - intros [|]; [|apply IH]. apply keeps_bind; [by intros s r s'; apply compact_ok|].
    intros [[before after]|]; [destruct acc as [[? ?] ?]|]; apply IH.
Qed.
Lemma keeps_compact_prefix p : keeps (compact_prefix p).
Proof using AML. apply keeps_bind; [apply keeps_scan|]. intros. apply keeps_compact_keys. Qed.

Lemma opened_ok d :
  map_Forall (λ k v, utf8_valid k = true ∧ is_Some (am_load v)) (db_view d DOCUMENTS_TABLE) →
  store_ok (opened d).
Proof.
  intros Hd. destruct (lru_new_view (V := doc) (Z.to_nat 1000)) as [Hv Hc].
  split; unfold contents; cbn [opened db cache].
  - intros k x. rewrite lookup_omap. intros (v & Hv' & _)%bind_Some. by eapply Hd.
  - intros d' [= <-] k v Hl. by eapply Hd.
  - rewrite Hc. lia.
  - intros k x. by rewrite Hv, lookup_empty.
Qed.

(** ** The abstract map *)
Inductive store_op :=
| OpPut (k : bytes) (d : doc) (notify : bool)
| OpGet (k : bytes)
| OpDelete (k : bytes)
| OpScan (p : bytes)
| OpCompact (k : bytes)
| OpCompactPrefix (p : bytes).
Inductive op_result := RUnit | RDoc (o : option doc) | RDocs (l : list (bytes * doc)).

Definition run_op (o : store_op) : stm AutomergeStore StoreError op_result :=
  match o with
  | OpPut k d n => _ ← put_inner k d n; mret RUnit
  | OpGet k => r ← get k; mret (RDoc r)
  | OpDelete k => _ ← delete_doc k; mret RUnit
  | OpScan p => l ← scan_prefix p; mret (RDocs l)
  | OpCompact k => _ ← compact k; mret RUnit
  | OpCompactPrefix p => _ ← compact_prefix p; mret RUnit
  end.

Definition spec_op (m : gmap bytes doc) (o : store_op) : gmap bytes doc :=
  match o with
  | OpPut k d _ => <[k := d]> m
  | OpDelete k => delete k m
  | _ => m
  end.
Definition spec_result (m : gmap bytes doc) (o : store_op) (r : op_result) : Prop :=
  match o, r with
  | OpGet k, RDoc d => d ≡ m !! k
  | OpScan p, RDocs l => ∃ m', m' ≡ m
      ∧ l ≡ₚ filter (λ e, starts_with p e.1 = true) (map_to_list m')
  | OpGet _, _ | OpScan _, _ => False
  | _, r => r = RUnit
  end.
Definition key_ok (o : store_op) : Prop :=
  match o with OpPut k _ _ => utf8_valid k = true | _ => True end.

(** A history of the abstract map: failed operations change nothing. *)
Fixpoint spec_run (m : gmap bytes doc) (ops : list store_op)
    (rs : list (outcome StoreError op_result)) (m' : gmap bytes doc) : Prop :=
  match ops, rs with
  | [], [] => m' ≡ m
  | o :: ops, r :: rs =>
      (∃ x, r = Ok x ∧ spec_result m o x ∧ spec_run (spec_op m o) ops rs m')
      ∨ (r = Err DatabaseError ∧ spec_run m ops rs m')
  | _, _ => False
  end.
Fixpoint run_ops (ops : list store_op) s : list (outcome StoreError op_result) * AutomergeStore :=
  match ops with
  | [] => ([], s)
  | o :: ops => let '(r, s1) := run_op o s in let '(rs, s2) := run_ops ops s1 in (r :: rs, s2)
  end.

Lemma bind_unit {A} (m : stm AutomergeStore StoreError A) (f : A → op_result) s r s' :
  (a ← m; mret (f a)) s = (r, s') →
  ∃ r0, m s = (r0, s') ∧ r = match r0 with Ok a => Ok (f a) | Err e => Err e | Panic => Panic end.
Proof. unfold mbind, stm_bind. destruct (m s) as [[a|e|] s1]; intros [= <- <-]; eauto. Qed.

Lemma run_op_ok o s m r s' :
  run_op o s = (r, s') → store_ok s → contents s ≡ m → key_ok o → is_Some (db s) →
  store_ok s' ∧ is_Some (db s') ∧
  ((∃ x, r = Ok x ∧ spec_result m o x ∧ contents s' ≡ spec_op m o)
   ∨ (r = Err DatabaseError ∧ contents s' ≡ m)).
Proof using AML.
  intros Hr Hok Hm Hk [d0 Hdb].
  assert (∀ s1, (db s1 = None ↔ db s = None) → is_Some (db s1)) as Hsome.
  { intros s1 Hs1. destruct (db s1); [done|]. rewrite Hdb in Hs1. naive_solver. }
  destruct o as [k d n|k|k|p|k|p]; cbn [run_op] in Hr; apply bind_unit in Hr as (r0 & Hr & ->).
  - assert (room s k) as Hroom by (unfold room; by rewrite Hdb).
    destruct (put_inner_ok k d n s r0 s' Hr Hok Hroom Hk)
      as [(-> & Hok' & Hc & _ & _ & Hd)|[-> ->]]; [|by eauto 10].
    split_and!; [done|by apply Hsome|]. left. eexists. split_and!; [done|done|]. cbn. by rewrite Hc, Hm.
  - destruct (get_ok k s r0 s' Hr Hok) as [Hrd Hres].
    split_and!; [apply Hrd|rewrite (reads_db _ _ Hrd); eauto|]. rewrite (reads_contents _ _ Hrd).
    destruct Hres as [(x & -> & Hx)| ->]; [left|by right]. eexists. split_and!; [done| |done].
    cbn. rewrite Hx. apply Hm.
  - destruct (delete_doc_ok k s r0 s' Hr Hok) as [(-> & Hok' & Hc & _ & _ & Hd)|[-> ->]];
      [|by eauto 10].
    split_and!; [done|by apply Hsome|]. left. eexists. split_and!; [done|done|]. cbn. by rewrite Hc, Hm.
  - destruct (scan_prefix_ok p s r0 s' Hr Hok) as [-> Hres]. split_and!; [done|by eauto|].
    destruct Hres as [(l & -> & Hl)| ->]; [left|by right]. eexists. split_and!; [done| |done]. cbn. eauto.
  - destruct (compact_ok k s r0 s' Hr Hok) as [Hc Hres]. split_and!; [apply Hc|apply Hsome, Hc|].
    assert (contents s' ≡ m) as Hm' by (by rewrite (comp_contents _ _ Hc)).
    destruct Hres as [(x & ->)| ->]; [left|by right]. by exists RUnit.
  - destruct (keeps_compact_prefix p s r0 s' Hr Hok) as [Hc Hres]. split_and!; [apply Hc|apply Hsome, Hc|].
    assert (contents s' ≡ m) as Hm' by (by rewrite (comp_contents _ _ Hc)).
    destruct Hres as [(x & ->)| ->]; [left|by right]. by exists RUnit.
Qed.

Lemma run_ops_ok ops : ∀ s m rs s',
  run_ops ops s = (rs, s') → store_ok s → contents s ≡ m → Forall key_ok ops → is_Some (db s) →
  store_ok s' ∧ spec_run m ops rs (contents s').
Proof using AML.
  induction ops as [|o ops IH]; intros s m rs s' Hr Hok Hm Hk Hdb; [by injection Hr as <- <-|].
  cbn [run_ops] in Hr. destruct (run_op o s) as [r s1] eqn:H1.
  destruct (run_ops ops s1) as [rs1 s2] eqn:H2. injection Hr as <- <-.
  apply Forall_cons in Hk as [Hk Hks].
  destruct (run_op_ok o s m r s1 H1 Hok Hm Hk Hdb) as (Hok1 & Hdb1 & [(x & -> & Hx & Hc)|[-> Hc]]);
    destruct (IH s1 _ rs1 s2 H2 Hok1 Hc Hks Hdb1) as [Hok2 Hs]; split; [done| |done|];
    cbn; [left|right]; eauto.
Qed.

(** C3.  The persistent store refines a map from keys to documents: for any sequence
    of puts, gets, deletes, prefix scans and compactions, from a consistent state,
    every operation either fails with a database error and changes no document, or
    has the result and effect of the corresponding map operation, whatever the cache
    holds or evicts in between; a scan returns exactly the documents whose key has
    the prefix, and compaction changes no field of any document. *)
Theorem store_refines_map s ops rs s' :
  store_ok s → is_Some (db s) → Forall key_ok ops → run_ops ops s = (rs, s') →
  spec_run (contents s) ops rs (contents s') ∧ store_ok s'.
Proof using AML.
  intros Hok Hdb Hk Hr. apply and_comm. by eapply run_ops_ok.
Qed.

(** ** Collections of byte strings *)
Global Instance data_of_proper : Proper ((≡) ==> (=)) data_of.
Proof. intros d1 d2 Hd. unfold data_of. by rewrite (am_get_equiv _ _ _ Hd). Qed.
Global Instance created_at_proper : Proper ((≡) ==> (=)) created_at.
Proof. intros d1 d2 Hd. unfold created_at. by rewrite (am_get_equiv _ _ _ Hd). Qed.

Lemma coll_get_ok c id s r s' :
  coll_get c id s = (Ok r, s') → store_ok s → r = contents s !! prefixed_key c id ≫= data_of.
Proof.
  intros (o & s1 & Hg & [= <- <-])%stm_bind_Ok_inv Hok.
  destruct (get_ok _ _ _ _ Hg Hok) as [_ [(? & [= <-] & Ho)|?]]; [|done].
  inversion Ho as [d1 d2 Hd|]; [|done]. cbn. by apply data_of_proper.
Qed.

(** Collections of byte strings: after a successful upsert, reading the same id
    returns the written bytes, reading any other id of the collection returns what
    it returned before, the other root fields of the document keep their values, and
    the change is announced once to the sync coordinator. *)
Theorem collection_roundtrip c id data s s1 :
  store_ok s → is_Some (db s) → utf8_valid (prefixed_key c id) = true →
  coll_upsert c id data s = (Ok tt, s1) →
  store_ok s1 ∧ change_tx s1 = change_tx s ++ [prefixed_key c id]
  ∧ (∀ id' r s2, coll_get c id' s1 = (Ok r, s2) →
       r = if decide (id' = id) then Some data else contents s !! prefixed_key c id' ≫= data_of)
  ∧ (∀ d f, contents s !! prefixed_key c id = Some d → f ≠ str "data" →
       (λ d', am_get d' f) <$> contents s1 !! prefixed_key c id = Some (am_get d f)).
Proof using AML.
  intros Hok [d0 Hdb] Hk (o & s0 & Hg & Hp)%stm_bind_Ok_inv.
  destruct (get_ok _ _ _ _ Hg Hok) as [Hr [(? & [= <-] & Ho)|?]]; [|done]. cbv zeta in Hp.
  destruct (am_put _ _ _) as [d1|] eqn:Hput; [|done].
  assert (room s0 (prefixed_key c id)) as Hroom by (unfold room; by rewrite (reads_db _ _ Hr), Hdb).
  destruct (put_inner_ok _ _ true _ _ _ Hp (reads_ok _ _ Hr) Hroom Hk)
    as [(_ & Hok1 & Hc1 & _ & Hch & _)|[? _]]; [|done].
  rewrite (reads_contents _ _ Hr) in Hc1. rewrite (reads_change _ _ Hr) in Hch.
  split_and!; [done|done| |].
  - intros id' r s2 Hget. rewrite (coll_get_ok _ _ _ _ _ Hget Hok1).
    specialize (Hc1 (prefixed_key c id')). case_decide as Hid.
    + subst. rewrite lookup_insert_eq in Hc1. apply Some_equiv_eq in Hc1 as (d' & -> & Hd'). cbn.
      rewrite (data_of_proper _ _ Hd'). unfold data_of.
      by rewrite (am_get_put _ _ _ _ _ Hput), decide_True.
    + rewrite lookup_insert_ne in Hc1 by (intros ?%(inj (app _)); done).
      inversion Hc1 as [x y Hxy|]; [|done]. cbn. by apply data_of_proper.
  - intros d f Hd Hf. specialize (Hc1 (prefixed_key c id)). rewrite lookup_insert_eq in Hc1.
    apply Some_equiv_eq in Hc1 as (d' & -> & Hd'). cbn. f_equal. rewrite (am_get_equiv _ _ f Hd').
    rewrite (am_get_put _ _ _ _ _ Hput), decide_False by done.
    rewrite Hd in Ho. apply Some_equiv_eq in Ho as (x & -> & Hx). by rewrite (am_get_equiv _ _ f (am_fork_equiv x)), (am_get_equiv _ _ f Hx).
Qed.

(** ** Interleavings *)
Lemma lru_put_same c k v : 0 < lru_cap c → lru_view (lru_put c k v) !! k = Some v.
Proof using LRL.
  intros Hcap.
  destruct (decide (is_Some (lru_view c !! k) ∨ size (lru_view c) < lru_cap c)) as [Hr|Hr].
  - by rewrite lru_put_room, lookup_insert_eq.
  - destruct (lru_put_full c k v) as (k0 & _ & ->); [|lia..|by rewrite lookup_insert_eq].
    apply eq_None_not_Some. naive_solver.
Qed.

Lemma get_cached k d s : lru_view (cache s) !! k = Some d → ∃ s', get k s = (Ok (Some d), s').
Proof.
  intros Hl. unfold get, mbind, stm_bind, cache_get.
  destruct (lru_get_view (cache s) k) as (Hr & _). destruct (lru_get (cache s) k) as [o c].
  cbn in Hr. rewrite Hl in Hr. subst. eauto.
Qed.

(** The phases of [get] and [put] are not one critical section.  A [get] that
    read the database before a concurrent [delete] and fills the cache after it
    brings the deleted document back for readers, and two concurrent [put]s of the
    same key can leave the first document in the cache and the second in the
    database, so that readers see one and a restart the other. *)
Theorem cache_races k d1 d2 s :
  0 < lru_cap (cache s) → is_Some (db s) →
  (∀ s1 s2 s3 s4, cache_get k s = (Ok None, s1) → read_doc k s1 = (Ok (Some d1), s2) →
     delete_doc k s2 = (Ok tt, s3) → cache_put k d1 s3 = (Ok tt, s4) →
     contents s4 !! k = None ∧ ∃ s5, get k s4 = (Ok (Some d1), s5))
  ∧ (∀ s1 s2 s3 s4, write_doc k d1 s = (Ok tt, s1) → write_doc k d2 s1 = (Ok tt, s2) →
       cache_put k d2 s2 = (Ok tt, s3) → cache_put k d1 s3 = (Ok tt, s4) →
       contents s4 !! k ≡ Some d2 ∧ ∃ s5, get k s4 = (Ok (Some d1), s5)).
Proof using AML.
  intros Hcap [d0 Hdb]. split.
  - intros s1 s2 s3 s4 Hcg [= _ <-] Hdel [= <-].
    assert (db s1 = Some d0 ∧ lru_cap (cache s1) = lru_cap (cache s)) as [Hdb1 Hcap1].
    { unfold cache_get in Hcg. destruct (lru_get_view (cache s) k) as (_ & _ & Hc).
      destruct (lru_get (cache s) k) as [o c]. injection Hcg as -> <-. done. }
    apply delete_doc_state in Hdel as [[? _]|(_ & Hca & _ & _ & Hd)]; [done|].
    rewrite Hdb1 in Hd. destruct (db s3) as [d3|] eqn:Hdb3; [|done]. destruct Hd as [b Hrem].
    destruct (lru_pop_view (cache s1) k) as [_ Hpc]. split.
    + unfold contents. cbn. rewrite Hdb3. apply db_remove_view in Hrem as [_ Hv].
      by rewrite Hv, decide_True, lookup_omap, lookup_delete_eq.
    + apply get_cached. cbn. apply lru_put_same. rewrite Hca, Hpc. lia.
  - intros s1 s2 s3 s4 Hw1 Hw2 [= <-] [= <-]. unfold write_doc in Hw1, Hw2. rewrite Hdb in Hw1.
    destruct (db_insert d0 _ _ _) as [e1|]; [|done]. injection Hw1 as <-. cbn in Hw2.
    destruct (db_insert e1 _ _ _) as [e2|] eqn:Hi; [|done]. injection Hw2 as <-. split.
    + unfold contents. cbn. rewrite (db_insert_view _ _ _ _ _ Hi), decide_True by done.
      rewrite lookup_omap, lookup_insert_eq. cbn. apply am_load_save.
    + apply get_cached. cbn. apply lru_put_same. by rewrite lru_put_cap.
Qed.
End Map.

(** * Tombstones and the collector's view of the store *)
Lemma collections_loop_ok items entries acc :
  Forall2 item_of items entries → Forall (λ e, utf8_valid e.1 = true) entries →
  collections_loop items acc = Err DatabaseError
  ∨ ∃ cs, collections_loop items acc = Ok cs ∧
      ∀ c, c ∈ cs ↔ c ∈ acc ∨ ∃ e, e ∈ entries ∧ collection_of e.1 = Some c.
Proof.
  intros Hi. revert acc. induction Hi as [|i [k v] items entries Hi _ IH]; intros acc Hall.
  { right. eexists. split; [done|]. set_solver. }
  apply Forall_cons in Hall as [Hk Hall]. cbn in Hk.
  destruct Hi as [->| ->]; [by left|]. cbn [collections_loop].
  rewrite from_utf8_valid by done. cbn [ok_or mbind outcome_bind].
  destruct (IH (match collection_of k with Some c => {[ c ]} ∪ acc | None => acc end) Hall)
    as [->|(cs & -> & Hcs)]; [by left|right]. eexists. split; [done|].
  intros c. rewrite Hcs. destruct (collection_of k) as [c'|] eqn:Hc.
  - set_solver.
  - split; [set_solver|]. intros [?|(e & [->|?]%elem_of_cons & He)]; [by left|cbn [fst] in He; by rewrite Hc in He|eauto].
Qed.

Section Tombstones.
Context {AM : Automerge} {AML : AutomergeLaws} {RD : Redb} {RDL : RedbLaws}
  {LR : Lru doc} {LRL : LruLaws doc} {TJ : TombstoneJson} {TJL : TombstoneJsonLaws}
  {SO : SetOrder}.
Implicit Types s : AutomergeStore.

Definition tombs s : gmap bytes Tombstone :=
  match db s with
  | Some d => omap from_json (db_view d TOMBSTONES_TABLE)
  | None => ∅
  end.

(** Every stored tombstone parses and lies under its own key. *)
Definition tombs_ok s : Prop := ∀ d k v,
  db s = Some d → db_view d TOMBSTONES_TABLE !! k = Some v →
  ∃ t, from_json v = Some t ∧ Tomb.key t = k.

Lemma tombs_key s k t : tombs_ok s → tombs s !! k = Some t → Tomb.key t = k.
Proof.
  intros Hok. unfold tombs. destruct (db s) as [d|] eqn:Hdb; [|by rewrite lookup_empty].
  rewrite lookup_omap. intros (v & Hv & Ht)%bind_Some.
  destruct (Hok d k v Hdb Hv) as (t' & Ht' & <-). congruence.
Qed.

(** The collector's invariant is independent of the tombstone table's other side. *)
Lemma put_tombstone_ok t s r s' :
  put_tombstone t s = (r, s') → store_ok s → tombs_ok s → is_Some (db s) →
  (r = Ok tt ∧ store_ok s' ∧ tombs_ok s' ∧ contents s' = contents s
   ∧ tombs s' = <[Tomb.key t := t]> (tombs s))
  ∨ ((r = Err DatabaseError ∨ r = Err JsonError) ∧ s' = s).
Proof using TJL.
  unfold put_tombstone. intros Hp Hok Hto [d0 Hdb]. rewrite Hdb in Hp.
  destruct (to_json t) as [b|] eqn:Hj; [|injection Hp as <- <-; auto].
  destruct (db_insert d0 TOMBSTONES_TABLE _ b) as [d1|] eqn:Hi; [|injection Hp as <- <-; auto].
  left. injection Hp as <- <-. apply from_to_json in Hj.
  pose proof (db_insert_view _ _ _ _ _ Hi) as Hv.
  pose proof (Hv DOCUMENTS_TABLE) as Hvd. pose proof (Hv TOMBSTONES_TABLE) as Hvt.
  rewrite decide_False in Hvd by done. rewrite decide_True in Hvt by done.
  assert (contents (set_db s (Some d1)) = contents s) as Hc by (unfold contents; cbn; by rewrite Hvd, Hdb).
  split_and!; [done| | |done|].
  - destruct Hok as [Hk Hd Hcap Hca]. split; [by rewrite Hc| |done|by intros k d; rewrite Hc; apply Hca].
    cbn. intros d [= <-] k v. rewrite Hvd. by apply Hd.
  - intros d k v. cbn. intros [= <-]. rewrite Hvt.
    intros [[<- <-]|[_ Hl]]%lookup_insert_Some; [eauto|by eapply Hto].
  - unfold tombs. cbn. by rewrite Hvt, Hdb, (omap_insert_Some _ _ _ _ t).
Qed.

Lemma remove_tombstone_ok coll id s r s' :
  remove_tombstone coll id s = (r, s') → store_ok s → tombs_ok s →
  store_ok s' ∧ tombs_ok s' ∧ contents s' = contents s ∧ (db s' = None ↔ db s = None) ∧
  ((∃ b, r = Ok b ∧ tombs s' = delete (doc_key coll id) (tombs s)
      ∧ (b = true ↔ is_Some (tombs s !! doc_key coll id)))
   ∨ (r = Err DatabaseError ∧ s' = s)).
Proof.
  unfold remove_tombstone. intros Hr Hok Hto. destruct (db s) as [d0|] eqn:Hdb.
  2: { injection Hr as <- <-. split_and!; try done. left. exists false. unfold tombs.
       rewrite Hdb, delete_empty, lookup_empty. split_and!; [done|done|].
       by split; [|intros []]. }
  destruct (db_remove d0 TOMBSTONES_TABLE _) as [[d1 b]|] eqn:Hi;
    [|injection Hr as <- <-; rewrite Hdb; split_and!; [done..|by right]].
  injection Hr as <- <-. apply db_remove_view in Hi as [Hb Hv].
  pose proof (Hv DOCUMENTS_TABLE) as Hvd. pose proof (Hv TOMBSTONES_TABLE) as Hvt.
  rewrite decide_False in Hvd by done. rewrite decide_True in Hvt by done.
  assert (contents (set_db s (Some d1)) = contents s) as Hc by (unfold contents; cbn; by rewrite Hvd, Hdb).
  split_and!; [| |done|by cbn|].
  - destruct Hok as [Hk Hd Hcap Hca]. split; [by rewrite Hc| |done|by intros k d; rewrite Hc; apply Hca].
    cbn. intros d [= <-] k v. rewrite Hvd. by apply Hd.
  - intros d k v. cbn. intros [= <-]. rewrite Hvt. intros [_ Hl]%lookup_delete_Some. by eapply Hto.
  - left. eexists. split_and!; [done| |].
    + unfold tombs. cbn. rewrite Hvt, Hdb. apply omap_delete.
    + rewrite Hb. unfold tombs. rewrite Hdb, lookup_omap. split; intros [v Hl].
      * destruct (Hto _ _ _ Hdb Hl) as (t & Ht & _). rewrite Hl. cbn. by rewrite Ht.
      * apply bind_Some in Hl as (v' & Hl & _). eauto.
Qed.

Lemma delete_doc_tombs k s r s' :
  delete_doc k s = (r, s') → tombs s' = tombs s ∧ (tombs_ok s → tombs_ok s').
Proof.
  intros [[_ ->]|(_ & _ & _ & _ & Hdb)]%delete_doc_state; [done|]. unfold tombs, tombs_ok.
  destruct (db s) as [d0|], (db s') as [d1|]; try done. destruct Hdb as [b [_ Hv]%db_remove_view].
  specialize (Hv TOMBSTONES_TABLE). rewrite decide_False in Hv by done. rewrite Hv. split; [done|].
  intros Hto d k' v [= <-]. rewrite Hv. by apply Hto.
Qed.

Lemma put_inner_tombs k d n s r s' :
  put_inner k d n s = (r, s') → tombs s' = tombs s ∧ (tombs_ok s → tombs_ok s').
Proof.
  intros [[_ ->]|(_ & _ & _ & _ & Hdb)]%put_inner_state; [done|]. unfold tombs, tombs_ok.
  destruct (db s) as [d0|], (db s') as [d1|]; try done.
  pose proof (db_insert_view _ _ _ _ _ Hdb TOMBSTONES_TABLE) as Hv.
  rewrite decide_False in Hv by done. rewrite Hv. split; [done|].
  intros Hto d' k' v [= <-]. rewrite Hv. by apply Hto.
Qed.
Lemma reads_tombs s s' : reads s s' → tombs s' = tombs s ∧ (tombs_ok s → tombs_ok s').
Proof.
  intros Hr. unfold tombs, tombs_ok. by rewrite (reads_db _ _ Hr).
Qed.

Lemma get_tombstone_ok coll id s r s' :
  get_tombstone coll id s = (r, s') → tombs_ok s →
  s' = s ∧ (r = Ok (tombs s !! doc_key coll id) ∨ r = Err DatabaseError).
Proof.
  unfold get_tombstone. intros [= <- <-] Hto. split; [done|]. unfold tombs.
  destruct (db s) as [d0|] eqn:Hdb; [|left; by rewrite lookup_empty].
  destruct (db_get d0 TOMBSTONES_TABLE (doc_key coll id)) as [o|] eqn:Hg; [|by right].
  apply db_get_view in Hg. left. rewrite lookup_omap, <- Hg. destruct o as [v|]; [|done].
  destruct (Hto d0 (doc_key coll id) v Hdb) as (t & Ht & _); [done|]. cbn. by rewrite Ht.
Qed.

Lemma tombstones_loop_ok keep items entries :
  Forall2 item_of items entries → Forall (λ e, is_Some (from_json e.2)) entries →
  tombstones_loop keep items = Err DatabaseError
  ∨ tombstones_loop keep items
    = Ok (omap (keyed from_json) (filter (λ e, keep e.1 = true) entries)).*2.
Proof.
  induction 1 as [|i [k v] items entries Hi _ IH]; intros Hall; [by right|].
  apply Forall_cons in Hall as [[t Ht] Hall]. specialize (IH Hall). cbn in Ht.
  destruct Hi as [->| ->]; [by left|]. cbn [tombstones_loop]. rewrite filter_cons. cbn [fst].
  destruct (keep k) eqn:Hk; [|by rewrite decide_False]. rewrite decide_True, Ht by done.
  cbn [ok_or mbind outcome_bind]. destruct IH as [->| ->]; [by left|right].
  cbn. unfold keyed at 2. cbn. by rewrite Ht.
Qed.

Lemma iter_tombstones_ok keep s r s' :
  iter_tombstones keep s = (r, s') → tombs_ok s →
  s' = s ∧ ((∃ l, r = Ok l ∧ l ≡ₚ (filter (λ e, keep e.1 = true) (map_to_list (tombs s))).*2)
            ∨ r = Err DatabaseError).
Proof.
  unfold iter_tombstones. intros [= <- <-] Hto. split; [done|]. unfold tombs.
  destruct (db s) as [d|] eqn:Hdb; [|left; by eexists].
  destruct (db_iter d TOMBSTONES_TABLE) as [items|] eqn:Hi; [|by right].
  cbn [ok_or mbind outcome_bind]. apply db_iter_items in Hi.
  destruct (tombstones_loop_ok keep items _ Hi) as [->| ->]; [|by right|].
  - apply Forall_forall. intros [k v] Hin%elem_of_entries. cbn.
    destruct (Hto d k v Hdb Hin) as (t & -> & _). done.
  - left. eexists. split; [done|]. rewrite keyed_filter. do 2 f_equiv.
    apply keyed_entries, db_entries_nodup.
Qed.

Lemma list_collections_ok s r s' :
  list_collections s = (r, s') → store_ok s →
  s' = s ∧ ((∃ l, r = Ok l ∧ NoDup l
              ∧ ∀ c, c ∈ l ↔ ∃ k, is_Some (contents s !! k) ∧ collection_of k = Some c)
            ∨ r = Err DatabaseError).
Proof.
  unfold list_collections. intros [= <- <-] Hok. split; [done|].
  assert (∀ cs : gset bytes, NoDup (set_iter cs) ∧ ∀ c, c ∈ set_iter cs ↔ c ∈ cs) as Hset.
  { intros cs. split; [rewrite set_iter_perm; apply NoDup_elements|].
    intros c. by rewrite set_iter_perm, elem_of_elements. }
  destruct (db s) as [d|] eqn:Hdb.
  2: { left. eexists. split_and!; [done|apply Hset|]. intros c.
       rewrite (proj2 (Hset _)), elem_of_list_to_set, list_elem_of_omap. unfold contents. rewrite Hdb.
       split.
       - intros ([k x] & Hin & Hc). rewrite lru_iter_view in Hin. apply elem_of_map_to_list in Hin.
         eauto.
       - intros (k & [x Hx] & Hc). exists (k, x). rewrite lru_iter_view, elem_of_map_to_list. done. }
  destruct (db_iter d DOCUMENTS_TABLE) as [items|] eqn:Hi; [|by right].
  cbn [ok_or mbind outcome_bind]. apply db_iter_items in Hi.
  assert (∀ k, is_Some (contents s !! k) ↔ ∃ v, (k, v) ∈ db_entries d DOCUMENTS_TABLE) as Hdom.
  { intros k. unfold contents. rewrite Hdb, lookup_omap. setoid_rewrite elem_of_entries. split.
    - intros (x & (v & Hv & _)%bind_Some). eauto.
    - intros [v Hv]. destruct (ok_docs s Hok d Hdb k v Hv) as [x Hx]. exists x. by rewrite Hv. }
  destruct (collections_loop_ok items _ ∅ Hi) as [->|(cs & -> & Hcs)]; [|by right|].
  - apply Forall_forall. intros [k v] Hin. cbn.
    destruct (proj2 (Hdom k)) as [x Hx]; [by exists v|]. by eapply (ok_keys s Hok k x).
  - left. eexists. split_and!; [done|apply Hset|]. intros c. rewrite (proj2 (Hset _)), Hcs.
    setoid_rewrite Hdom. split.
    + intros [[]%elem_of_empty|([k v] & Hin & Hc)]. eauto.
    + intros (k & [v Hin] & Hc). right. by exists (k, v).
Qed.

Lemma NoDup_stripped {V} p (f : bytes * V → option bytes) (l : list (bytes * V)) :
  NoDup l.*1 → (∀ e id, f e = Some id → e.1 = p ++ id) → NoDup (omap f l).
Proof.
  intros Hnd Hf. induction l as [|e l IH]; [constructor|].
  apply NoDup_cons in Hnd as [He Hnd]. cbn. destruct (f e) as [id|] eqn:Hid; [|by apply IH].
  apply NoDup_cons. split; [|by apply IH]. intros (e' & Hin & He')%list_elem_of_omap.
  apply He. rewrite (Hf _ _ Hid), <- (Hf _ _ He'). by apply list_elem_of_fmap_2.
Qed.

Lemma expired_documents_ok coll cutoff s r s' :
  get_expired_documents coll cutoff s = (r, s') → store_ok s →
  s' = s ∧ ((∃ ids, r = Ok ids ∧ NoDup ids
              ∧ ∀ id, id ∈ ids ↔ ∃ d t, contents s !! doc_key coll id = Some d
                  ∧ created_at d = Some t ∧ (t < cutoff_ms cutoff)%Z)
            ∨ r = Err DatabaseError).
Proof.
  intros Hg Hok. unfold get_expired_documents in Hg. cbv zeta in Hg.
  apply stm_bind_inv in Hg as [(l & s1 & Hs & [= <- <-])|[(e & s1 & Hs & [= -> ->])|(s1 & Hs & [= -> ->])]];
    apply scan_prefix_ok in Hs as [-> Hres]; try done; (split; [done|]);
    destruct Hres as [(l' & Heq & Hl)|Heq]; simplify_eq; [|by right].
  left. eexists. split_and!; [done| |].
  - apply (NoDup_stripped (coll ++ str ":")).
    + rewrite Hl. eapply sublist_NoDup; [apply (NoDup_fst_map_to_list (contents s))|]. apply fmap_sublist, sublist_filter.
    + intros [k d] id Hid. cbn in Hid. apply bind_Some in Hid as (t & _ & Hid).
      destruct (t <? cutoff_ms cutoff)%Z; [|done]. by apply strip_prefix_Some in Hid.
  - intros id. rewrite list_elem_of_omap. unfold doc_key. rewrite (assoc_L (++)). split.
    + intros ([k d] & Hin & (t & Ht & Hid)%bind_Some). cbn in *.
      destruct (t <? cutoff_ms cutoff)%Z eqn:Hlt; [|done]. apply strip_prefix_Some in Hid as ->.
      rewrite Hl in Hin. apply list_elem_of_filter in Hin as [_ Hin%elem_of_map_to_list].
      apply Z.ltb_lt in Hlt. eauto.
    + intros (d & t & Hd & Ht & Hlt). exists ((coll ++ str ":") ++ id, d). rewrite Hl. split.
      * apply list_elem_of_filter. split; [apply starts_with_app|by apply elem_of_map_to_list].
      * cbn. rewrite Ht. cbn. rewrite (proj2 (Z.ltb_lt _ _) Hlt). by apply strip_prefix_Some.
Qed.

(** Keys determine collections without a colon. *)
Definition plain (coll : bytes) : Prop := Forall (λ b, is_colon b = false) coll.

Lemma collection_of_key coll id : plain coll → collection_of (doc_key coll id) = Some coll.
Proof.
  intros Hp. unfold collection_of, doc_key. change (str ":" ++ id) with (Byte.x3a :: id).
  rewrite (find_byte_sep is_colon coll _ id Hp) by done. cbn. by rewrite take_app_length.
Qed.
Lemma doc_key_inj c1 i1 c2 i2 :
  plain c1 → plain c2 → doc_key c1 i1 = doc_key c2 i2 → c1 = c2 ∧ i1 = i2.
Proof.
  intros H1 H2 Hk. pose proof (collection_of_key c1 i1 H1) as Hc. rewrite Hk in Hc.
  rewrite collection_of_key in Hc by done. injection Hc as ->.
  unfold doc_key in Hk. by apply (inj (app _)), (inj (app _)) in Hk.
Qed.
Lemma collection_of_plain k c : collection_of k = Some c → plain c ∧ ∃ id, k = doc_key c id.
Proof.
  intros (n & Hn & ->)%fmap_Some. apply find_byte_inv in Hn as (b & r & Hk & Hb & Hall).
  split; [done|]. exists r. rewrite Hk at 1. unfold doc_key, is_colon in *.
  change (str ":" ++ r) with (Byte.x3a :: r). apply bool_decide_eq_true in Hb.
  do 2 f_equal. by apply u8_inj.
Qed.

Lemma has_tombstone_ok coll id s b s' :
  has_tombstone coll id s = (Ok b, s') → tombs_ok s →
  b = bool_decide (is_Some (tombs s !! doc_key coll id)).
Proof.
  intros (o & s1 & Hg & [= <- _])%stm_bind_Ok_inv Hto.
  destruct (get_tombstone_ok _ _ _ _ _ Hg Hto) as [-> [[= ->]|?]]; done.
Qed.

(** Tombstones in the store: a stored tombstone is found again under its
    collection and document, is among all tombstones, and leaves the documents and
    the other tombstones as they were.  Keys are [collection:document_id] strings:
    for collections without a colon they identify the pair, and for a collection
    [c1:c2] the tombstone also marks the document [c2:id] of collection [c1] as
    deleted. *)
Theorem tombstone_lookup t s s' :
  store_ok s → tombs_ok s → is_Some (db s) → put_tombstone t s = (Ok tt, s') →
  contents s' = contents s
  ∧ (∀ l s'', get_all_tombstones s' = (Ok l, s'') → t ∈ l)
  ∧ (∀ coll id b s'', has_tombstone coll id s' = (Ok b, s'') →
       b = bool_decide (doc_key coll id = Tomb.key t ∨ is_Some (tombs s !! doc_key coll id)))
  ∧ (∀ coll id, plain coll → plain (collection t) →
       doc_key coll id = Tomb.key t ↔ coll = collection t ∧ id = document_id t)
  ∧ (∀ c1 c2 b s'', collection t = c1 ++ str ":" ++ c2 →
       has_tombstone c1 (c2 ++ str ":" ++ document_id t) s' = (Ok b, s'') → b = true).
Proof using TJL.
  intros Hok Hto Hdb Hp.
  destruct (put_tombstone_ok t s (Ok tt) s' Hp Hok Hto Hdb)
    as [(_ & _ & Hto' & Hc & Ht)|[[?|?] _]]; [|done..].
  split_and!; [done| | | |].
  - intros l s'' Hg. destruct (iter_tombstones_ok _ _ _ _ Hg Hto') as [_ [(? & [= <-] & Hl)|?]]; [|done].
    rewrite Hl. apply list_elem_of_fmap. exists (Tomb.key t, t). split; [done|].
    apply list_elem_of_filter. split; [done|]. apply elem_of_map_to_list.
    by rewrite Ht, lookup_insert_eq.
  - intros coll id b s'' Hh. rewrite (has_tombstone_ok _ _ _ _ _ Hh Hto'), Ht.
    apply bool_decide_ext. rewrite lookup_insert_is_Some'. naive_solver.
  - intros coll id H1 H2. split; [|by intros [-> ->]]. by apply doc_key_inj.
  - intros c1 c2 b s'' Hcoll Hh. rewrite (has_tombstone_ok _ _ _ _ _ Hh Hto'), Ht.
    apply bool_decide_eq_true. rewrite lookup_insert_is_Some'. left.
    unfold Tomb.key, doc_key. rewrite Hcoll. by rewrite <- !(assoc_L (++)).
Qed.
End Tombstones.

(** * Concrete instances *)

(** Documents with a data field and a creation time below 256. *)
Record toy_doc := { toy_created : option byte; toy_data : option bytes }.
Definition toy_save (d : toy_doc) : bytes :=
  match toy_created d with None => [Byte.x00] | Some b => [Byte.x01; b] end
  ++ match toy_data d with None => [] | Some b => Byte.x01 :: b end.
Definition toy_tail (l : bytes) : option bytes := match l with [] => None | _ :: b => Some b end.
Definition toy_load (l : bytes) : option toy_doc :=
  match l with
  | Byte.x00 :: l => Some {| toy_created := None; toy_data := toy_tail l |}
  | Byte.x01 :: b :: l => Some {| toy_created := Some b; toy_data := toy_tail l |}
  | _ => None
  end.
#[export] Instance toy_automerge : Automerge := {|
  doc := toy_doc;
  am_new := {| toy_created := None; toy_data := None |};
  am_save := toy_save;
  am_load := toy_load;
  am_fork := id;
  content := toy_doc;
  am_content := id;
  am_read d f := Some (
    if decide (f = str "data") then Scalar ∘ SBytes <$> toy_data d
    else if decide (f = str "_created_at") then Scalar ∘ SUint ∘ u8 <$> toy_created d
    else None);
  am_put d f s :=
    match s with
    | SBytes b => if decide (f = str "data")
                  then Some {| toy_created := toy_created d; toy_data := Some b |} else None
    | SUint z => if decide (f = str "_created_at" ∧ (0 ≤ z < 256)%Z)
                 then Some {| toy_created := Some (as_u8 z); toy_data := toy_data d |} else None
    | _ => None
    end
|}.
#[export] Instance toy_automerge_laws : AutomergeLaws.
Proof.
  split.
  - intros [[c|] [b|]]; cbn; by constructor.
  - done.
  - intros f. cbn. repeat case_decide; done.
  - intros d f s d' f' Hp. cbn in *. destruct s as [b|s|z|z|z|z|z|b| |]; try done;
      case_decide as Hf; try done; injection Hp as <-; [|destruct Hf as [Hf Hz]]; subst; cbn.
    + repeat case_decide; naive_solver.
    + repeat case_decide; subst; try done. by rewrite u8_as_u8_small.
Defined.

(** Two tables, and the keys for which writes fail. *)
Record toy_db := { toy_docs : gmap bytes bytes; toy_tombs : gmap bytes bytes; toy_bad : gset bytes }.
Definition toy_view (d : toy_db) (t : table) : gmap bytes bytes :=
  match t with DOCUMENTS_TABLE => toy_docs d | TOMBSTONES_TABLE => toy_tombs d end.
Definition toy_set (d : toy_db) (t : table) (m : gmap bytes bytes) : toy_db :=
  match t with
  | DOCUMENTS_TABLE => {| toy_docs := m; toy_tombs := toy_tombs d; toy_bad := toy_bad d |}
  | TOMBSTONES_TABLE => {| toy_docs := toy_docs d; toy_tombs := m; toy_bad := toy_bad d |}
  end.
Definition entry_le (a b : bytes * bytes) : Prop := bytes_le a.1 b.1.
Global Instance entry_le_dec : RelDecision entry_le.
Proof. intros a b. unfold entry_le, bytes_le. apply _. Defined.
Definition toy_entries (d : toy_db) (t : table) : list (bytes * bytes) :=
  merge_sort entry_le (map_to_list (toy_view d t)).
#[export] Instance toy_redb : Redb := {|
  database := toy_db;
  db_insert d t k v :=
    if decide (k ∈ toy_bad d) then None else Some (toy_set d t (<[k := v]> (toy_view d t)));
  db_remove d t k :=
    if decide (k ∈ toy_bad d) then None
    else Some (toy_set d t (delete k (toy_view d t)), bool_decide (is_Some (toy_view d t !! k)));
  db_get d t k := Some (toy_view d t !! k);
  db_iter d t := Some (Some <$> toy_entries d t);
  db_range d t k := Some (Some <$> filter (λ e, bytes_leb k e.1 = true) (toy_entries d t));
  db_len d t := Some (size (toy_view d t))
|}.
Lemma toy_entries_nodup d t : NoDup (toy_entries d t).*1.
Proof. unfold toy_entries. rewrite merge_sort_Permutation. apply NoDup_fst_map_to_list. Qed.
Lemma toy_entries_view d t : list_to_map (toy_entries d t) = toy_view d t.
Proof.
  trans (list_to_map (map_to_list (toy_view d t)) : gmap bytes bytes);
    [|apply list_to_map_to_list].
  apply list_to_map_proper; [apply toy_entries_nodup|apply merge_sort_Permutation].
Qed.
Lemma toy_set_view d t m t' :
  toy_view (toy_set d t m) t' = if decide (t = t') then m else toy_view d t'.
Proof. by destruct t, t'. Qed.
Lemma toy_items l : Forall2 item_of (Some <$> l) l.
Proof. induction l; constructor; [by right|done]. Qed.

#[export] Instance toy_redb_laws : RedbLaws.
Proof.
  refine {| db_entries := toy_entries : @database toy_redb → table → list (bytes * bytes) |}.
  - intros d t. unfold toy_entries.
    assert (StronglySorted entry_le (merge_sort entry_le (map_to_list (toy_view d t)))) as Hs.
    { apply StronglySorted_merge_sort; [by intros ????; eapply bytes_le_trans|].
      intros x y. apply bytes_le_total. }
    induction Hs as [|e l Hs IH He]; [constructor|]. constructor; [done|]. by apply Forall_fmap.
  - apply toy_entries_nodup.
  - intros d t k v d' Hi t'. rewrite !toy_entries_view. cbn in Hi. case_decide; [done|].
    injection Hi as <-. rewrite toy_set_view. by repeat case_decide; subst.
  - intros d t k d' b Hr. cbn in Hr. case_decide; [done|]. injection Hr as <- <-. split.
    + by rewrite toy_entries_view, bool_decide_eq_true.
    + intros t'. rewrite !toy_entries_view, toy_set_view. by repeat case_decide; subst.
  - intros d t k r [= <-]. by rewrite toy_entries_view.
  - intros d t l [= <-]. apply toy_items.
  - intros d t k l [= <-]. apply toy_items.
  - intros d t n [= <-]. by rewrite toy_entries_view.
Defined.

(** A cache that evicts some entry at capacity. *)
Record toy_cache (V : Type) := { toy_capacity : nat; toy_map : gmap bytes V }.
Arguments toy_capacity {V}. Arguments toy_map {V}.
Definition toy_put {V} (c : toy_cache V) (k : bytes) (v : V) : gmap bytes V :=
  if decide (is_Some (toy_map c !! k) ∨ size (toy_map c) < toy_capacity c)
  then <[k := v]> (toy_map c)
  else match map_to_list (toy_map c) with
       | e :: _ => <[k := v]> (delete e.1 (toy_map c))
       | [] => <[k := v]> (toy_map c)
       end.
#[export] Instance toy_lru V : Lru V := {|
  lru := toy_cache V;
  lru_new n := {| toy_capacity := n; toy_map := ∅ |};
  lru_get c k := (toy_map c !! k, c);
  lru_put c k v := {| toy_capacity := toy_capacity c; toy_map := toy_put c k v |};
  lru_pop c k := {| toy_capacity := toy_capacity c; toy_map := delete k (toy_map c) |};
  lru_iter c := map_to_list (toy_map c);
  lru_len c := size (toy_map c)
|}.
#[export] Instance toy_lru_laws V : LruLaws V.
Proof.
  refine {| lru_view := toy_map : @lru V (toy_lru V) → gmap bytes V;
            lru_cap := toy_capacity : @lru V (toy_lru V) → nat |}; cbn; try done.
  - intros c k v Hr. unfold toy_put. by rewrite decide_True.
  - intros c k v Hk Hfull Hpos. unfold toy_put. rewrite decide_False; [|rewrite Hk; intros [[]|]; [done|lia]].
    destruct (map_to_list (toy_map c)) as [|[k0 v0] l] eqn:Hl.
    + rewrite <- length_map_to_list, Hl in Hfull. cbn in Hfull. lia.
    + exists k0. split; [|done]. exists v0. apply elem_of_map_to_list. rewrite Hl. constructor.
Defined.

#[export] Instance toy_tombstone_json : TombstoneJson := {|
  to_json t :=
    let b := SyncMessage.encode (SyncMessage.from_tombstone t) in
    match SyncMessage.decode b with
    | Ok m => if decide (tombstone m = t) then Some b else None
    | _ => None
    end;
  from_json b := match SyncMessage.decode b with Ok m => Some (tombstone m) | _ => None end
|}.
#[export] Instance toy_tombstone_json_laws : TombstoneJsonLaws.
Proof.
  intros t b. cbn. destruct (SyncMessage.decode _) as [m| |] eqn:Hd; [|done..].
  case_decide as Ht; [|done]. intros [= <-]. by rewrite Hd, Ht.
Defined.
#[export] Instance toy_set_order : SetOrder := {| set_iter := elements; set_iter_perm s := reflexivity _ |}.

Definition toy_empty : toy_db := {| toy_docs := ∅; toy_tombs := ∅; toy_bad := ∅ |}.
Definition toy_note : @doc toy_automerge := {| toy_created := Some Byte.x05; toy_data := Some (str "hello") |}.
Definition toy_one : toy_db :=
  {| toy_docs := {[ str "notes:1" := toy_save toy_note ]}; toy_tombs := ∅; toy_bad := ∅ |}.

Definition empty_store : AutomergeStore := opened (toy_empty : @database toy_redb).
Definition note_store : AutomergeStore := opened (toy_one : @database toy_redb).
Lemma toy_db_view (d : @database toy_redb) t : db_view d t = toy_view d t.
Proof. apply toy_entries_view. Qed.

Lemma toy_empty_ok : store_ok empty_store.
Proof.
  apply opened_ok. rewrite toy_db_view. apply map_Forall_empty.
 Qed.
Lemma toy_one_ok : store_ok note_store.
Proof.
  apply opened_ok. rewrite toy_db_view. by apply map_Forall_singleton.
Qed.
Lemma toy_empty_tombs : tombs_ok empty_store.
Proof.
  intros d k v [= <-]. by rewrite toy_db_view.
Qed.

Definition toy_ops : list store_op :=
  [OpPut (str "notes:2") toy_note true; OpGet (str "notes:2"); OpScan (str "notes:");
   OpDelete (str "notes:1"); OpCompactPrefix (str "notes:"); OpGet (str "notes:1")].
Lemma store_refines_map_witness :
  (run_ops toy_ops note_store).1
  = [Ok RUnit; Ok (RDoc (Some toy_note));
     Ok (RDocs [(str "notes:1", toy_note); (str "notes:2", toy_note)]);
     Ok RUnit; Ok RUnit; Ok (RDoc None)]
  ∧ spec_run (contents note_store) toy_ops (run_ops toy_ops note_store).1
      (contents (run_ops toy_ops note_store).2).
Proof.
  split; [vm_eq|].
  apply (store_refines_map note_store toy_ops _ (run_ops toy_ops note_store).2).
  - apply toy_one_ok.
  - done.
  - repeat constructor.
  - apply surjective_pairing.
Defined.

Definition notes : AutomergeCollection := collection_named (str "notes").
Lemma collection_roundtrip_witness :
  coll_upsert notes (str "1") (str "bye") note_store
    = (Ok tt, (coll_upsert notes (str "1") (str "bye") note_store).2)
  ∧ (∀ r s2, coll_get notes (str "1") (coll_upsert notes (str "1") (str "bye") note_store).2
             = (Ok r, s2) → r = Some (str "bye")).
Proof.
  split; [vm_eq|].
  apply (collection_roundtrip notes (str "1") (str "bye") note_store).
  - apply toy_one_ok.
  - done.
  - done.
  - vm_eq.
Defined.

Lemma cache_races_witness :
  ∃ s4 s5, contents s4 !! str "notes:1" = None ∧ get (str "notes:1") s4 = (Ok (Some toy_note), s5).
Proof.
  destruct (cache_races (str "notes:1") toy_note toy_note note_store) as [Hrace _];
    [cbn; lia|done|].
  destruct (Hrace note_store note_store
              (delete_doc (str "notes:1") note_store).2
              (cache_put (str "notes:1") toy_note (delete_doc (str "notes:1") note_store).2).2)
    as [Hc [s5 Hg]]; [vm_eq..|].
  eauto.
Defined.

Definition toy_tombstone : Tombstone := Tomb.new (str "c") (str "a:b") (str "node") 1 0.
Lemma tombstone_lookup_witness :
  has_tombstone (str "a") (str "b:c") (put_tombstone toy_tombstone empty_store).2
    = (Ok true, (put_tombstone toy_tombstone empty_store).2)
  ∧ contents (put_tombstone toy_tombstone empty_store).2 = contents empty_store.
Proof.
  split; [vm_eq|].
  apply (tombstone_lookup toy_tombstone empty_store).
  - apply toy_empty_ok.
  - apply toy_empty_tombs.
  - done.
  - vm_eq.
Defined.
