(* ===== verification/GarbageCollection.v ===== *)
(** Garbage collection ([src/qos/garbage_collection.rs]): expired tombstones, the
    documents of collections with an implicit TTL, resurrection policies and the
    periodic task.  The collector works on the [GcStore] trait; its theorems are
    proved from the laws of that interface, which the document store of [Store]
    satisfies. *)
From Stdlib Require Import ZArith Lia Strings.Byte Strings.String.
From stdpp Require Import prelude gmap.
From S2P Require Import Prelude Wire Text Iteration Deletion Store.

Set Default Proof Using "Type".

(** * Policies, configuration, results *)
Inductive ResurrectionPolicy := Allow | ReDelete | Reject.

Definition default_for_collection (c : bytes) : ResurrectionPolicy :=
  if decide (c = str "beacons" ∨ c = str "platforms" ∨ c = str "tracks") then Allow
  else if decide (c = str "nodes" ∨ c = str "cells" ∨ c = str "commands"
                  ∨ c = str "contact_reports") then ReDelete
  else if decide (c = str "alerts") then Reject
  else ReDelete.

Record GcConfig := {
  gc_interval : Z;
  tombstone_batch_size : nat;
  document_batch_size : nat;
  debug_logging : bool;
  resurrection_policies : gmap bytes ResurrectionPolicy
}.
Definition default_gc_config : GcConfig := {|
  gc_interval := from_secs 300; tombstone_batch_size := 1000; document_batch_size := 500;
  debug_logging := true; resurrection_policies := ∅
|}.
Definition with_interval (interval : Z) : GcConfig := {|
  gc_interval := interval; tombstone_batch_size := 1000; document_batch_size := 500;
  debug_logging := true; resurrection_policies := ∅
|}.
Definition set_resurrection_policy (c : GcConfig) (coll : bytes) (p : ResurrectionPolicy)
    : GcConfig := {|
  gc_interval := gc_interval c; tombstone_batch_size := tombstone_batch_size c;
  document_batch_size := document_batch_size c; debug_logging := debug_logging c;
  resurrection_policies := <[coll := p]> (resurrection_policies c)
|}.
Definition resurrection_policy (c : GcConfig) (coll : bytes) : ResurrectionPolicy :=
  default (default_for_collection coll) (resurrection_policies c !! coll).

(** The non-fatal errors of a run; the messages are their source and the error. *)
Inductive GcError (E : Type) := TombstoneGcError (e : E) | DocumentGcError (e : E).
Arguments TombstoneGcError {E}. Arguments DocumentGcError {E}.

Record GcResult (E : Type) := {
  tombstones_collected : nat;
  documents_collected : nat;
  resurrections_detected : nat;
  resurrections_redeleted : nat;
  resurrections_allowed : nat;
  resurrections_rejected : nat;
  duration : Z;
  errors : list (GcError E)
}.
Arguments tombstones_collected {E}. Arguments documents_collected {E}.
Arguments resurrections_detected {E}. Arguments errors {E}.
Definition had_work {E} (r : GcResult E) : bool :=
  bool_decide (0 < tombstones_collected r ∨ 0 < documents_collected r
               ∨ 0 < resurrections_detected r).

Record GcStats := {
  total_runs : Z;
  total_tombstones_collected : Z;
  total_documents_collected : Z;
  total_resurrections : Z;
  last_run : option Z;
  last_duration : option Z
}.

(** The store is shared with the rest of the system and passed separately. *)
Record GarbageCollector := {
  policy_registry : Registry.DeletionPolicyRegistry;
  gc_config : GcConfig;
  running : bool;
  stats_tombstones : Z;
  stats_documents : Z;
  stats_resurrections : Z;
  stats_runs : Z
}.

(** * The stores that can be collected *)
Class GcStore (S E : Type) := {
  gc_get_all_tombstones : stm S E (list Tombstone);
  gc_remove_tombstone : bytes → bytes → stm S E bool;
  gc_has_tombstone : bytes → bytes → stm S E bool;
  gc_get_expired_documents : bytes → Z → stm S E (list bytes);
  gc_hard_delete : bytes → bytes → stm S E unit;
  gc_list_collections : stm S E (list bytes)
}.

Module Gc.
Definition new (c : GcConfig) : GarbageCollector := {|
  policy_registry := Registry.new; gc_config := c; running := false;
  stats_tombstones := 0; stats_documents := 0; stats_resurrections := 0; stats_runs := 0
|}.
Definition with_policy_registry (r : Registry.DeletionPolicyRegistry) (c : GcConfig)
    : GarbageCollector := {|
  policy_registry := r; gc_config := c; running := false;
  stats_tombstones := 0; stats_documents := 0; stats_resurrections := 0; stats_runs := 0
|}.

Section collector.
Context {S E : Type} {GS : GcStore S E}.

Fixpoint tombstone_loop (reg : Registry.DeletionPolicyRegistry) (now : Z)
    (ts : list Tombstone) (collected : nat) : stm S E nat :=
  match ts with
  | [] => mret collected
  | t :: ts =>
      match Registry.get reg (collection t) with
      | TombstonePolicy tombstone_ttl _ =>
          match Tomb.duration_since now (deleted_at t) with
          | Some age =>
              if decide (tombstone_ttl < age)%Z then
                removed ← gc_remove_tombstone (collection t) (document_id t);
                tombstone_loop reg now ts (if removed : bool then 1 + collected else collected)
              else tombstone_loop reg now ts collected
          | None => tombstone_loop reg now ts collected
          end
      | _ => tombstone_loop reg now ts collected
      end
  end.
Definition collect_tombstones (gc : GarbageCollector) (now : Z) : stm S E nat :=
  ts ← gc_get_all_tombstones;
  tombstone_loop (policy_registry gc) now (take (tombstone_batch_size (gc_config gc)) ts) 0.

(** A failed deletion is logged and skipped. *)
Fixpoint delete_loop (coll : bytes) (ids : list bytes) (collected : nat) : stm S E nat :=
  match ids with
  | [] => mret collected
  | id :: ids => λ s,
      match gc_hard_delete coll id s with
      | (Ok tt, s) => delete_loop coll ids (1 + collected) s
      | (Err _, s) => delete_loop coll ids collected s
      | (Panic, s) => (Panic, s)
      end
  end.
(** [SystemTime - Duration]: seconds are an [i64]. *)
Definition system_time_sub (now d : Z) : outcome E Z :=
  if decide (- 2 ^ 63 ≤ (now - d) / 1000000000)%Z then Ok (now - d)%Z else Panic.
Fixpoint collection_loop (gc : GarbageCollector) (now : Z) (collections : list bytes)
    (collected : nat) : stm S E nat :=
  match collections with
  | [] => mret collected
  | coll :: collections =>
      match Registry.get (policy_registry gc) coll with
      | ImplicitTTL ttl _ =>
          cutoff ← lift (system_time_sub now ttl);
          expired_ids ← gc_get_expired_documents coll cutoff;
          collected ← delete_loop coll (take (document_batch_size (gc_config gc)) expired_ids)
                        collected;
          collection_loop gc now collections collected
      | _ => collection_loop gc now collections collected
      end
  end.
Definition collect_expired_documents (gc : GarbageCollector) (now : Z) : stm S E nat :=
  collections ← gc_list_collections;
  collection_loop gc now collections 0.

(** The statistics are atomic counters, which wrap. *)
Definition add_stats (gc : GarbageCollector) (tombstones documents resurrections runs : Z)
    : GarbageCollector := {|
  policy_registry := policy_registry gc; gc_config := gc_config gc; running := running gc;
  stats_tombstones := wrap 64 (stats_tombstones gc + tombstones);
  stats_documents := wrap 64 (stats_documents gc + documents);
  stats_resurrections := wrap 64 (stats_resurrections gc + resurrections);
  stats_runs := wrap 64 (stats_runs gc + runs)
|}.

(** The three clock readings of a run are arguments; [None] is a panic. *)
Definition run_gc (gc : GarbageCollector) (now1 now2 elapsed : Z) (s : S)
    : option (GcResult E * GarbageCollector) * S :=
  let '(r1, s) := collect_tombstones gc now1 s in
  match r1 with
  | Panic => (None, s)
  | _ =>
      let n1 := match r1 with Ok n => n | _ => 0 end in
      let e1 := match r1 with Err e => [TombstoneGcError e] | _ => [] end in
      let '(r2, s) := collect_expired_documents gc now2 s in
      match r2 with
      | Panic => (None, s)
      | _ =>
          let n2 := match r2 with Ok n => n | _ => 0 end in
          let e2 := match r2 with Err e => [DocumentGcError e] | _ => [] end in
          (Some ({| tombstones_collected := n1; documents_collected := n2;
                    resurrections_detected := 0; resurrections_redeleted := 0;
                    resurrections_allowed := 0; resurrections_rejected := 0;
                    duration := elapsed; errors := e1 ++ e2 |},
                 add_stats gc (Z.of_nat n1) (Z.of_nat n2) 0 1), s)
      end
  end.

Definition check_resurrection (coll id : bytes) (document_timestamp : Z)
    : stm S E (option ResurrectionPolicy) :=
  b ← gc_has_tombstone coll id;
  if b : bool then mret None else mret None.
Definition handle_resurrection (gc : GarbageCollector) (coll id : bytes)
    : ResurrectionPolicy * GarbageCollector :=
  (resurrection_policy (gc_config gc) coll, add_stats gc 0 0 1 0).

Definition stats (gc : GarbageCollector) : GcStats := {|
  total_runs := stats_runs gc; total_tombstones_collected := stats_tombstones gc;
  total_documents_collected := stats_documents gc; total_resurrections := stats_resurrections gc;
  last_run := None; last_duration := None
|}.
Definition set_running (gc : GarbageCollector) (b : bool) : GarbageCollector := {|
  policy_registry := policy_registry gc; gc_config := gc_config gc; running := b;
  stats_tombstones := stats_tombstones gc; stats_documents := stats_documents gc;
  stats_resurrections := stats_resurrections gc; stats_runs := stats_runs gc
|}.
Definition stop (gc : GarbageCollector) : GarbageCollector := set_running gc false.
(** One turn of the task of [start_periodic_gc]; [None] ends it. *)
Definition periodic_tick (gc : GarbageCollector) (now1 now2 elapsed : Z) (s : S)
    : option GarbageCollector * S :=
  if running gc then
    let '(r, s) := run_gc gc now1 now2 elapsed s in (snd <$> r, s)
  else (None, s).
End collector.
End Gc.

(** What the collector relies on: the tombstones under their keys, and for every
    document its creation time, if it has one. *)
Class GcStoreLaws (S E : Type) `{!GcStore S E} := {
  gc_ok : S → Prop;
  gc_tombs : S → gmap bytes Tombstone;
  gc_docs : S → gmap bytes (option Z);
  gc_tombs_key s k t : gc_ok s → gc_tombs s !! k = Some t → Tomb.key t = k;
  gc_all_law s r s' : gc_get_all_tombstones s = (r, s') → gc_ok s →
    s' = s ∧ ((∃ l, r = Ok l ∧ l ≡ₚ (map_to_list (gc_tombs s)).*2) ∨ ∃ e, r = Err e);
  gc_remove_law c id s r s' : gc_remove_tombstone c id s = (r, s') → gc_ok s →
    gc_ok s' ∧ gc_docs s' = gc_docs s ∧
    ((∃ b, r = Ok b ∧ gc_tombs s' = delete (doc_key c id) (gc_tombs s)
        ∧ (b = true ↔ is_Some (gc_tombs s !! doc_key c id)))
     ∨ (∃ e, r = Err e ∧ gc_tombs s' = gc_tombs s));
  gc_collections_law s r s' : gc_list_collections s = (r, s') → gc_ok s →
    s' = s ∧ ((∃ l, r = Ok l ∧ NoDup l
                 ∧ ∀ c, c ∈ l ↔ ∃ k, is_Some (gc_docs s !! k) ∧ collection_of k = Some c)
              ∨ ∃ e, r = Err e);
  gc_expired_law c cutoff s r s' : gc_get_expired_documents c cutoff s = (r, s') → gc_ok s →
    s' = s ∧ ((∃ l, r = Ok l ∧ NoDup l
                 ∧ ∀ id, id ∈ l ↔ ∃ t, gc_docs s !! doc_key c id = Some (Some t)
                                       ∧ (t < cutoff_ms cutoff)%Z)
              ∨ ∃ e, r = Err e);
  gc_delete_law c id s r s' : gc_hard_delete c id s = (r, s') → gc_ok s →
    gc_ok s' ∧ gc_tombs s' = gc_tombs s ∧
    ((r = Ok tt ∧ gc_docs s' = delete (doc_key c id) (gc_docs s))
     ∨ (∃ e, r = Err e ∧ gc_docs s' = gc_docs s))
}.

(** * What a run removes *)
Section Sound.
Context {S E : Type} {GS : GcStore S E} {GSL : GcStoreLaws S E}.
Implicit Types s : S.

(** A tombstone past its collection's TTL. *)
Definition tomb_expired (reg : Registry.DeletionPolicyRegistry) (now : Z) (t : Tombstone) : bool :=
  match Registry.get reg (collection t), Tomb.duration_since now (deleted_at t) with
  | TombstonePolicy ttl _, Some age => bool_decide (ttl < age)%Z
  | _, _ => false
  end.

Lemma tombstone_loop_cons reg now t ts n :
  Gc.tombstone_loop reg now (t :: ts) n =
  if tomb_expired reg now t then
    removed ← gc_remove_tombstone (collection t) (document_id t);
    Gc.tombstone_loop reg now ts (if removed : bool then 1 + n else n)
  else Gc.tombstone_loop reg now ts n.
Proof.
  cbn [Gc.tombstone_loop]. unfold tomb_expired. destruct (Registry.get reg (collection t)); try done.
  destruct (Tomb.duration_since now (deleted_at t)); [|done].
  case_decide; [by rewrite bool_decide_eq_true_2|by rewrite bool_decide_eq_false_2].
Qed.

Lemma tombstone_loop_ok reg now ts : ∀ n s r s',
  Gc.tombstone_loop reg now ts n s = (r, s') → gc_ok s →
  gc_ok s' ∧ gc_docs s' = gc_docs s ∧ ∃ some,
    some `prefix_of` ts
    ∧ gc_tombs s' = remove_keys (Tomb.key <$> filter (λ t, tomb_expired reg now t = true) some) (gc_tombs s)
    ∧ ((∃ m, r = Ok m ∧ some = ts ∧ m + size (gc_tombs s') = n + size (gc_tombs s)) ∨ ∃ e, r = Err e).
Proof.
  induction ts as [|t ts IH]; intros n s r s' Hr Hok.
  { injection Hr as <- <-. split_and!; [done|done|]. exists []. rewrite remove_keys_nil. eauto 10. }
  rewrite tombstone_loop_cons in Hr. destruct (tomb_expired reg now t) eqn:He.
  2: { destruct (IH n s r s' Hr Hok) as (Hok' & Hd & some & Hp & Ht & Hres).
       split_and!; [done|done|]. exists (t :: some). rewrite filter_cons, decide_False by by rewrite He.
       split_and!; [by apply prefix_cons|done|]. naive_solver. }
  apply stm_bind_inv in Hr as [(b & s1 & Hg & Hr)|[(e & s1 & Hg & [= -> ->])|(s1 & Hg & [= -> ->])]];
    destruct (gc_remove_law _ _ _ _ _ Hg Hok) as (Hok1 & Hd1 & Hres); [| |naive_solver].
  - destruct Hres as [(? & [= <-] & Ht1 & Hb)|(? & ? & ?)]; [|done].
    destruct (IH _ s1 r s' Hr Hok1) as (Hok' & Hd & some & Hp & Ht & Hres).
    split_and!; [done|congruence|]. exists (t :: some). rewrite filter_cons, decide_True by done.
    rewrite fmap_cons, remove_keys_cons. split_and!; [by apply prefix_cons|by rewrite Ht, Ht1|].
    destruct Hres as [(m & -> & -> & Hm)|?]; [left|by right]. exists m. split_and!; [done|done|].
    pose proof (size_delete (doc_key (collection t) (document_id t)) (gc_tombs s)) as Hsz.
    rewrite <- Ht1 in Hsz. destruct b; [rewrite bool_decide_eq_true_2 in Hsz by (by apply Hb)|
      rewrite bool_decide_eq_false_2 in Hsz by (rewrite <- Hb; done)]; lia.
  - destruct Hres as [(? & ? & _)|(? & ? & Ht1)]; [done|]. split_and!; [done|done|].
    exists []. rewrite remove_keys_nil. split_and!; [apply prefix_nil|done|eauto].
Qed.

(** C31.  Collection of tombstones, on any store with the interface's laws and whatever
    errors occur: no document changes, no tombstone is added, and only tombstones
    older than their collection's TTL are removed.  A run that succeeds returns the
    number of tombstones removed, and when there are no more tombstones than the
    batch size, no expired one remains. *)
Theorem gc_tombstones_sound gc now s r s' :
  Gc.collect_tombstones gc now s = (r, s') → gc_ok s →
  gc_docs s' = gc_docs s ∧ gc_tombs s' ⊆ gc_tombs s
  ∧ (∀ k t, gc_tombs s !! k = Some t → gc_tombs s' !! k = None →
       tomb_expired (policy_registry gc) now t = true)
  ∧ (∀ n, r = Ok n → n + size (gc_tombs s') = size (gc_tombs s)
       ∧ (size (gc_tombs s) ≤ tombstone_batch_size (gc_config gc) →
          ∀ k t, gc_tombs s' !! k = Some t → tomb_expired (policy_registry gc) now t = false)).
Proof.
  intros Hr Hok.
  apply stm_bind_inv in Hr as [(l & s1 & Hg & Hr)|[(e & s1 & Hg & [= -> ->])|(s1 & Hg & [= -> ->])]];
    destruct (gc_all_law _ _ _ Hg Hok) as [-> Hres]; [| |naive_solver].
  2: { split_and!; [done|done|by intros ?? ->|done]. }
  destruct Hres as [(? & [= <-] & Hl)|(? & ?)]; [|done].
  destruct (tombstone_loop_ok _ _ _ _ _ _ _ Hr Hok) as (Hok' & Hd & some & Hp & Ht & Hres).
  assert (∀ t, t ∈ l ↔ gc_tombs s !! Tomb.key t = Some t) as Hin.
  { intros t. rewrite Hl, list_elem_of_fmap. split.
    - intros ([k t'] & -> & Hk%elem_of_map_to_list). cbn. by rewrite (gc_tombs_key _ _ _ Hok Hk).
    - intros Hk. exists (Tomb.key t, t). by rewrite elem_of_map_to_list. }
  split_and!; [done| | |].
  - rewrite Ht. apply map_filter_subseteq.
  - intros k t Hk. rewrite Ht, lookup_remove_keys. case_decide as Hrem; [|by rewrite Hk]. intros _.
    apply list_elem_of_fmap in Hrem as (t' & -> & [He Ht']%list_elem_of_filter).
    assert (t' ∈ l) as Hl'%Hin.
    { eapply elem_of_prefix in Hp; [|done]. by eapply elem_of_take in Hp as (? & ?%list_elem_of_lookup_2 & _). }
    congruence.
  - intros n ->. destruct Hres as [(m & [= <-] & -> & Hm)|(? & ?)]; [|done]. split; [done|].
    intros Hsz k t. rewrite Ht, lookup_remove_keys. case_decide as Hrem; [done|]. intros Hk.
    apply not_true_is_false. intros He. apply Hrem.
    rewrite take_ge by (rewrite Hl, length_fmap, length_map_to_list; done).
    pose proof (gc_tombs_key _ _ _ Hok Hk) as <-. apply list_elem_of_fmap_2, list_elem_of_filter.
    split; [done|]. by apply Hin.
Qed.

(** ** Documents *)
Definition doc_expired (gc : GarbageCollector) (now : Z) (docs : gmap bytes (option Z)) (k : bytes)
    : Prop :=
  ∃ c ttl key t, collection_of k = Some c
    ∧ Registry.get (policy_registry gc) c = ImplicitTTL ttl key
    ∧ docs !! k = Some (Some t) ∧ (t < cutoff_ms (now - ttl))%Z.

Definition never_fails : Prop := ∀ c id s, gc_ok s → ∃ s', gc_hard_delete c id s = (Ok tt, s').

Lemma delete_loop_ok c ids : ∀ n s,
  gc_ok s → NoDup ids → Forall (λ id, is_Some (gc_docs s !! doc_key c id)) ids →
  ∃ m s' some, Gc.delete_loop c ids n s = (Ok m, s') ∧ gc_ok s' ∧ gc_tombs s' = gc_tombs s
    ∧ some ⊆ ids ∧ gc_docs s' = remove_keys (doc_key c <$> some) (gc_docs s)
    ∧ m + size (gc_docs s') = n + size (gc_docs s) ∧ (never_fails → ids ⊆ some).
Proof.
  induction ids as [|id ids IH]; intros n s Hok Hnd Hin.
  { exists n, s, []. rewrite remove_keys_nil. by split_and!. }
  apply NoDup_cons in Hnd as [Hid Hnd]. apply Forall_cons in Hin as [Hk Hin]. cbn [Gc.delete_loop].
  destruct (gc_hard_delete c id s) as [r s1] eqn:Hd.
  destruct (gc_delete_law _ _ _ _ _ Hd Hok) as (Hok1 & Ht1 & [[-> Hd1]|(e & -> & Hd1)]).
  - destruct (IH (1 + n) s1 Hok1 Hnd) as (m & s' & some & -> & Hok' & Ht & Hsub & Hdocs & Hm & Hall).
    { rewrite Hd1, Forall_forall in *. intros id' Hid'. rewrite lookup_delete_ne; [by apply Hin|].
      intros Heq%(inj (app _))%(inj (app _)). by subst. }
    exists m, s', (id :: some). rewrite fmap_cons, remove_keys_cons, <- Hd1.
    pose proof (size_delete (doc_key c id) (gc_docs s)) as Hsz.
    rewrite bool_decide_eq_true_2, <- Hd1 in Hsz by done.
    split_and!; [done|done|congruence|set_solver|done|lia|set_solver].
  - rewrite <- Hd1 in Hin.
    destruct (IH n s1 Hok1 Hnd Hin) as (m & s' & some & -> & Hok' & Ht & Hsub & Hdocs & Hm & Hall).
    exists m, s', some. rewrite <- Hd1.
    split_and!; [done|done|congruence|set_solver|done|done|].
    intros Hnf. destruct (Hnf c id s Hok) as [s2 Hs2]. congruence.
Qed.

(** What remains to be collected in the collections [cs]. *)
Definition clean (gc : GarbageCollector) (now : Z) (cs : list bytes) (docs : gmap bytes (option Z)) : Prop :=
  ∀ k c, collection_of k = Some c → c ∈ cs → ¬ doc_expired gc now docs k.
Lemma clean_mono (gc : GarbageCollector) (now : Z) (cs : list bytes) (docs docs' : gmap bytes (option Z)) :
  docs' ⊆ docs → clean gc now cs docs → clean gc now cs docs'.
Proof.
  intros Hsub Hc k c Hk Hin (c' & ttl & key & t & Hk' & Hreg & Hd & Ht).
  apply (Hc k c Hk Hin). exists c', ttl, key, t. split_and!; [done|done| |done].
  by eapply lookup_weaken.
Qed.

(** The state after some collections: a part of the expired documents is gone. *)
Record collected (gc : GarbageCollector) (now : Z) (n m : nat) (s s' : S) : Prop := {
  col_ok : gc_ok s';
  col_tombs : gc_tombs s' = gc_tombs s;
  col_sub : gc_docs s' ⊆ gc_docs s;
  col_expired k : is_Some (gc_docs s !! k) → gc_docs s' !! k = None → doc_expired gc now (gc_docs s) k;
  col_count : m + size (gc_docs s') = n + size (gc_docs s)
}.
Lemma collected_refl gc now n s : gc_ok s → collected gc now n n s s.
Proof. intros Hok. split; [done|done|done| |done]. by intros k [x ->]. Qed.
Lemma collected_trans gc now n1 n2 n3 s1 s2 s3 :
  collected gc now n1 n2 s1 s2 → collected gc now n2 n3 s2 s3 → collected gc now n1 n3 s1 s3.
Proof.
  intros [Ho1 Ht1 Hs1 He1 Hc1] [Ho2 Ht2 Hs2 He2 Hc2].
  split; [done|congruence|by etrans| |lia].
  intros k Hk1 Hk3. destruct (gc_docs s2 !! k) as [x|] eqn:Hk2; [|by apply He1].
  destruct (He2 k) as (c & ttl & key & t & ? & ? & Hd & ?); [by rewrite Hk2|done|].
  exists c, ttl, key, t. split_and!; [done|done| |done]. by eapply lookup_weaken.
Qed.

Lemma collect_one gc now c ttl key ids n s s1 :
  gc_ok s → plain c → Registry.get (policy_registry gc) c = ImplicitTTL ttl key →
  gc_get_expired_documents c (now - ttl) s = (Ok ids, s1) →
  ∃ m s', Gc.delete_loop c (take (document_batch_size (gc_config gc)) ids) n s1 = (Ok m, s')
    ∧ collected gc now n m s s'
    ∧ (never_fails → size (gc_docs s) ≤ document_batch_size (gc_config gc) →
       clean gc now [c] (gc_docs s')).
Proof.
  intros Hok Hc Hreg Hexp. destruct (gc_expired_law _ _ _ _ _ Hexp Hok) as [-> [(? & [= <-] & Hnd & Hids)|(? & ?)]];
    [|done].
  set (batch := document_batch_size (gc_config gc)).
  assert (∀ id, id ∈ ids → is_Some (gc_docs s !! doc_key c id)) as Hsome.
  { intros id (t & -> & _)%Hids. done. }
  destruct (delete_loop_ok c (take batch ids) n s Hok)
    as (m & s' & some & Hrun & Hok' & Ht & Hsub & Hdocs & Hm & Hall).
  { eapply sublist_NoDup; [exact Hnd|apply sublist_take]. }
  { apply Forall_forall. intros id Hid. apply Hsome. by eapply elem_of_sublist; [|apply sublist_take]. }
  assert (∀ id, id ∈ some → id ∈ ids) as Hsub'.
  { intros id Hid%Hsub. by eapply elem_of_sublist; [|apply sublist_take]. }
  exists m, s'. split_and!; [done| |].
  - split; [done|done|rewrite Hdocs; apply remove_keys_sub| |done].
    intros k [x Hk]. rewrite Hdocs, lookup_remove_keys. case_decide as Hrem; [|by rewrite Hk]. intros _.
    apply list_elem_of_fmap in Hrem as (id & -> & (t & Ht' & Hlt)%Hsub'%Hids).
    exists c, ttl, key, t. by rewrite collection_of_key.
  - intros Hnf Hsz k c' Hk ->%list_elem_of_singleton (c2 & ttl' & key' & t & Hk' & Hreg' & Hd & Hlt).
    assert (c2 = c) as -> by congruence. assert (ttl' = ttl) as -> by congruence.
    destruct (collection_of_plain _ _ Hk) as [_ [id ->]].
    rewrite Hdocs, lookup_remove_keys in Hd. case_decide as Hrem; [done|]. apply Hrem.
    apply list_elem_of_fmap_2, (Hall Hnf). rewrite take_ge; [apply Hids; eauto|].
    unfold batch. etrans; [|exact Hsz]. rewrite <- (length_map_to_list (gc_docs s)), <- (length_fmap fst).
    rewrite <- (length_fmap (doc_key c) ids). apply submseteq_length, NoDup_submseteq.
    + apply NoDup_fmap_2_strong; [|done]. by intros ?? _ _ ?%(inj (app _))%(inj (app _)).
    + intros k (id' & -> & [x Hx]%Hsome)%list_elem_of_fmap. apply list_elem_of_fmap.
      exists (doc_key c id', x). by rewrite elem_of_map_to_list.
Qed.

Lemma clean_cons (gc : GarbageCollector) (now : Z) (c : bytes) (cs : list bytes) (docs : gmap bytes (option Z)) :
  clean gc now [c] docs → clean gc now cs docs → clean gc now (c :: cs) docs.
Proof.
  intros H1 H2 k c' Hk [->|Hin]%elem_of_cons; [apply (H1 k c Hk); constructor|by apply (H2 k c')].
Qed.

Lemma collection_loop_ok gc now cs : ∀ n s r s',
  Forall plain cs → Gc.collection_loop gc now cs n s = (r, s') → gc_ok s →
  ∃ m, collected gc now n m s s' ∧
    ∀ m', r = Ok m' → m' = m
      ∧ (never_fails → size (gc_docs s) ≤ document_batch_size (gc_config gc) →
         clean gc now cs (gc_docs s')).
Proof.
  induction cs as [|c cs IH]; intros n s r s' Hp Hr Hok.
  { injection Hr as <- <-. exists n. split; [by apply collected_refl|].
    intros m' [= <-]. split; [done|]. intros _ _ k c _ []%not_elem_of_nil. }
  apply Forall_cons in Hp as [Hc Hp]. cbn [Gc.collection_loop] in Hr.
  destruct (Registry.get (policy_registry gc) c) as [ttl key| | |] eqn:Hreg.
  2-4: destruct (IH n s r s' Hp Hr Hok) as (m & Hcol & Hres); exists m; split; [done|];
    intros m' Hm'; destruct (Hres m' Hm') as [-> Hcl]; split; [done|]; intros Hnf Hsz;
    apply clean_cons; [|by apply Hcl];
    intros k c' Hk ->%list_elem_of_singleton (c2 & ttl2 & key2 & t2 & Hk2 & Hreg2 & _); congruence.
  unfold Gc.system_time_sub in Hr. case_decide as Hsub.
  2: { injection Hr as <- <-. exists n. split; [by apply collected_refl|done]. }
  cbn [lift] in Hr. unfold mbind at 1, stm_bind at 1 in Hr. cbn [lift] in Hr.
  apply stm_bind_inv in Hr as [(ids & s1 & Hg & Hr)|[(e & s1 & Hg & [= -> ->])|(s1 & Hg & [= -> ->])]].
  2-3: destruct (gc_expired_law _ _ _ _ _ Hg Hok) as [-> _]; exists n;
    split; [by apply collected_refl|done].
  destruct (collect_one gc now c ttl key ids n s s1 Hok Hc Hreg Hg) as (m1 & s2 & Hdel & Hcol1 & Hcl1).
  unfold mbind, stm_bind in Hr. rewrite Hdel in Hr.
  destruct (IH m1 s2 r s' Hp Hr (col_ok _ _ _ _ _ _ Hcol1)) as (m & Hcol2 & Hres).
  exists m. split; [by eapply collected_trans|]. intros m' Hm'.
  destruct (Hres m' Hm') as [-> Hcl2]. split; [done|]. intros Hnf Hsz. apply clean_cons.
  - eapply clean_mono; [apply Hcol2|by apply Hcl1].
  - apply Hcl2; [done|]. etrans; [|exact Hsz]. apply map_subseteq_size, Hcol1.
Qed.

(** Collection of documents, on any store with the interface's laws and whatever
    errors occur: no tombstone changes, no document is added, and a document is only
    removed when the text before the first colon of its key names a collection with
    an implicit TTL and its creation time is an unsigned integer before the cutoff.
    A run that succeeds returns the number of documents removed; when deletions do
    not fail and no more documents are stored than the batch size, no expired
    document remains. *)
Theorem gc_documents_sound gc now s r s' :
  Gc.collect_expired_documents gc now s = (r, s') → gc_ok s →
  gc_tombs s' = gc_tombs s ∧ gc_docs s' ⊆ gc_docs s
  ∧ (∀ k, is_Some (gc_docs s !! k) → gc_docs s' !! k = None → doc_expired gc now (gc_docs s) k)
  ∧ (∀ n, r = Ok n → n + size (gc_docs s') = size (gc_docs s)
       ∧ (never_fails → size (gc_docs s) ≤ document_batch_size (gc_config gc) →
          ∀ k, ¬ doc_expired gc now (gc_docs s') k)).
Proof.
  intros Hr Hok.
  apply stm_bind_inv in Hr as [(cs & s1 & Hg & Hr)|[(e & s1 & Hg & [= -> ->])|(s1 & Hg & [= -> ->])]];
    destruct (gc_collections_law _ _ _ Hg Hok) as [-> Hres]; [| |naive_solver].
  2: { split_and!; [done|done|by intros ? [? ->]|done]. }
  destruct Hres as [(? & [= <-] & _ & Hcs)|(? & ?)]; [|done].
  destruct (collection_loop_ok gc now cs 0 s r s') as (m & [_ Ht Hsub Hexp Hm] & Hres); [|done|done|].
  { apply Forall_forall. intros c (k & _ & Hk)%Hcs. by apply (collection_of_plain k). }
  split_and!; [done|done|done|]. intros n Hn. destruct (Hres n Hn) as [-> Hcl]. split; [done|].
  intros Hnf Hsz k Hk. pose proof Hk as (c & ttl & key & t & Hkc & _ & Hd & _).
  apply (Hcl Hnf Hsz k c Hkc); [|done]. apply Hcs. exists k. split; [|done].
  exists (Some t). by eapply lookup_weaken.
Qed.

(** The batch limit is applied to the tombstones in the store's order before
    expiry is looked at: when the first [tombstone_batch_size] of them belong to
    collections whose policy is not a tombstone policy, no run ever collects
    anything, at any time, however many expired tombstones follow. *)
Theorem gc_batch_starves gc s l :
  gc_get_all_tombstones s = (Ok l, s) →
  Forall (λ t, Policies.is_tombstone (Registry.get (policy_registry gc) (collection t)) = false)
    (take (tombstone_batch_size (gc_config gc)) l) →
  ∀ now, Gc.collect_tombstones gc now s = (Ok 0, s).
Proof.
  intros Hg Hall now. unfold Gc.collect_tombstones, mbind, stm_bind. rewrite Hg.
  induction Hall as [|t ts Ht _ IH]; [done|]. rewrite tombstone_loop_cons. unfold tomb_expired.
  by destruct (Registry.get (policy_registry gc) (collection t)).
Qed.
End Sound.

(** * The document store can be collected *)
Section Instance_.
Context {AM : Automerge} {AML : AutomergeLaws} {RD : Redb} {RDL : RedbLaws}
  {LR : Lru doc} {LRL : LruLaws doc} {TJ : TombstoneJson} {TJL : TombstoneJsonLaws}
  {SO : SetOrder}.

#[export] Instance automerge_gc_store : GcStore AutomergeStore StoreError := {|
  gc_get_all_tombstones := get_all_tombstones;
  gc_remove_tombstone := remove_tombstone;
  gc_has_tombstone := has_tombstone;
  gc_get_expired_documents := get_expired_documents;
  gc_hard_delete := hard_delete;
  gc_list_collections := list_collections
|}.

#[export] Instance automerge_gc_store_laws : GcStoreLaws AutomergeStore StoreError.
Proof using RDL LRL.
  refine {| gc_ok s := store_ok s ∧ tombs_ok s; gc_tombs := tombs;
            gc_docs s := created_at <$> contents s |}; cbn.
  - intros s k t [_ Hto]. by apply tombs_key.
  - intros s r s' Hg [_ Hto]. destruct (iter_tombstones_ok _ _ _ _ Hg Hto) as [-> Hres].
    split; [done|]. destruct Hres as [(l & -> & Hl)| ->]; [left|by eauto]. exists l. split; [done|].
    rewrite Hl. clear. induction (map_to_list (tombs s)) as [|e l IH]; [done|].
    rewrite filter_cons, decide_True by done. cbn. by rewrite IH.
  - intros c id s r s' Hg [Hok Hto].
    destruct (remove_tombstone_ok _ _ _ _ _ Hg Hok Hto) as (Hok' & Hto' & Hc & _ & Hres).
    split_and!; [done|done|by rewrite Hc|].
    destruct Hres as [(b & -> & Ht & Hb)|[-> ->]]; [left|right]; eauto.
  - intros s r s' Hg [Hok _]. destruct (list_collections_ok _ _ _ Hg Hok) as [-> Hres]. split; [done|].
    destruct Hres as [(l & -> & Hnd & Hl)| ->]; [left|by eauto]. exists l. split_and!; [done|done|].
    intros c. rewrite Hl. by setoid_rewrite lookup_fmap; setoid_rewrite fmap_is_Some.
  - intros c cutoff s r s' Hg [Hok _].
    destruct (expired_documents_ok _ _ _ _ _ Hg Hok) as [-> Hres]. split; [done|].
    destruct Hres as [(l & -> & Hnd & Hl)| ->]; [left|by eauto]. exists l. split_and!; [done|done|].
    intros id. rewrite Hl. setoid_rewrite lookup_fmap. setoid_rewrite fmap_Some. naive_solver.
  - intros c id s r s' Hg [Hok Hto].
    destruct (delete_doc_tombs _ _ _ _ Hg) as [Ht Hto'].
    destruct (delete_doc_ok _ _ _ _ Hg Hok) as [(-> & Hok' & Hc & _)|[-> ->]]; [|by eauto 10].
    split_and!; [done|by apply Hto'|done|]. left. split; [done|]. by rewrite Hc, fmap_delete.
Defined.
End Instance_.

(** * Concrete runs *)
Definition old_report : Tombstone := Tomb.new (str "r") (str "contact_reports") (str "n") 1 0.
Definition old_node : Tombstone := Tomb.new (str "x") (str "nodes") (str "n") 1 0.
Definition tombstone_bytes (t : Tombstone) : bytes := default [] (to_json t).
Definition gc_toy_store : AutomergeStore := opened ({|
  toy_docs := {[ str "beacons:1" := toy_save toy_note ]};
  toy_tombs := <[Tomb.key old_report := tombstone_bytes old_report]>
    {[ Tomb.key old_node := tombstone_bytes old_node ]};
  toy_bad := ∅
|} : @database toy_redb).

Lemma gc_toy_ok : gc_ok gc_toy_store.
Proof.
  split.
  - apply opened_ok. rewrite toy_db_view. by apply map_Forall_singleton.
  - intros d k v [= <-]. rewrite toy_db_view. cbn [toy_view toy_tombs].
    intros [[<- <-]|[_ [<- <-]%lookup_singleton_Some]]%lookup_insert_Some;
      eexists; split; [vm_compute; reflexivity|done|vm_compute; reflexivity|done].
Qed.

Definition small_batch : GarbageCollector := Gc.new {|
  gc_interval := from_secs 300; tombstone_batch_size := 1; document_batch_size := 500;
  debug_logging := true; resurrection_policies := ∅
|}.
Definition day : Z := from_secs 100000.

Lemma gc_tombstones_sound_witness :
  ∃ s', Gc.collect_tombstones (Gc.new default_gc_config) day gc_toy_store = (Ok 1, s')
    ∧ 1 + size (gc_tombs s') = size (gc_tombs gc_toy_store).
Proof.
  assert (fst (Gc.collect_tombstones (Gc.new default_gc_config) day gc_toy_store) = Ok 1) as Hr
    by vm_eq.
  destruct (Gc.collect_tombstones (Gc.new default_gc_config) day gc_toy_store) as [r s'] eqn:Hrun.
  cbn [fst] in Hr. subst r. exists s'. split; [reflexivity|].
  destruct (gc_tombstones_sound _ _ _ _ _ Hrun gc_toy_ok) as (_ & _ & _ & Hn).
  apply (Hn 1 eq_refl).
Defined.

Lemma gc_documents_sound_witness :
  ∃ s', Gc.collect_expired_documents (Gc.new default_gc_config) day gc_toy_store = (Ok 1, s')
    ∧ gc_tombs s' = gc_tombs gc_toy_store.
Proof.
  assert (fst (Gc.collect_expired_documents (Gc.new default_gc_config) day gc_toy_store) = Ok 1) as Hr
    by vm_eq.
  destruct (Gc.collect_expired_documents (Gc.new default_gc_config) day gc_toy_store)
    as [r s'] eqn:Hrun.
  cbn [fst] in Hr. subst r. exists s'. split; [reflexivity|].
  destruct (gc_documents_sound _ _ _ _ _ Hrun gc_toy_ok) as (Ht & _). exact Ht.
Defined.

Lemma gc_batch_starves_witness :
  tomb_expired Registry.new day old_node = true
  ∧ ∀ now, Gc.collect_tombstones small_batch now gc_toy_store = (Ok 0, gc_toy_store).
Proof.
  split; [vm_eq|].
  apply (gc_batch_starves small_batch gc_toy_store [old_report; old_node]).
  - vm_eq.
  - repeat constructor.
Defined.
