(* ===== verification/SyncWire.v ===== *)
(** The sync protocol on the wire ([src/storage/automerge_sync.rs]): message types,
    sync directions, batch entries and batches, and the frame that carries one
    payload per stream. *)
From Stdlib Require Import ZArith Lia Strings.Byte Strings.String.
From stdpp Require Import prelude gmap.
From S2P Require Import Prelude Wire Text Deletion.

Set Default Proof Using "Type".

Inductive SyncMessageType :=
| DeltaSync | StateSnapshot | WindowedHistory | TombstoneMsg | TombstoneBatchMsg | TombstoneAck
| SyncBatchMsg | NegentropyInit | NegentropyResponse | NegentropyRequest.
Global Instance SyncMessageType_eq_dec : EqDecision SyncMessageType.
Proof. solve_decision. Defined.

Definition type_byte (t : SyncMessageType) : byte :=
  match t with
  | DeltaSync => Byte.x00 | StateSnapshot => Byte.x01 | WindowedHistory => Byte.x02
  | TombstoneMsg => Byte.x04 | TombstoneBatchMsg => Byte.x05 | TombstoneAck => Byte.x06
  | SyncBatchMsg => Byte.x07 | NegentropyInit => Byte.x08 | NegentropyResponse => Byte.x09
  | NegentropyRequest => Byte.x0a
  end.

Inductive SyncDirection := Upward | Downward | Lateral | Broadcast.
Global Instance SyncDirection_eq_dec : EqDecision SyncDirection.
Proof. solve_decision. Defined.

(** [doc_key.split(':').next().unwrap_or(doc_key)] *)
Definition collection_from_doc_key (doc_key : bytes) : bytes :=
  match find_byte is_colon doc_key with Some pos => take pos doc_key | None => doc_key end.

Definition from_doc_key (doc_key : bytes) : SyncDirection :=
  let collection := collection_from_doc_key doc_key in
  if decide (collection = str "nodes" ∨ collection = str "beacons" ∨ collection = str "platforms"
             ∨ collection = str "summaries") then Upward
  else if decide (collection = str "commands") then Downward
  else if decide (collection = str "cells") then Lateral
  else Broadcast.

Inductive SyncWireError := TooShort | Truncated | InvalidUtf8 | UnknownSyncType | BadPayload.

(** * Entries *)
Record SyncEntry := {
  doc_key : bytes;
  sync_type : SyncMessageType;
  payload : bytes
}.
Global Instance SyncEntry_eq_dec : EqDecision SyncEntry.
Proof. solve_decision. Defined.

Module Entry.
Definition encode (e : SyncEntry) : bytes :=
  to_be 2 (zlen (doc_key e)) ++ doc_key e ++ [type_byte (sync_type e)]
  ++ to_be 4 (zlen (payload e)) ++ payload e.

(** The types an entry can have. *)
Definition from_byte (b : byte) : option SyncMessageType :=
  match b with
  | Byte.x00 => Some DeltaSync | Byte.x01 => Some StateSnapshot | Byte.x02 => Some WindowedHistory
  | Byte.x04 => Some TombstoneMsg | Byte.x05 => Some TombstoneBatchMsg
  | Byte.x06 => Some TombstoneAck | Byte.x07 => Some SyncBatchMsg
  | _ => None
  end.

Definition decode (data : bytes) : outcome SyncWireError (SyncEntry * nat) :=
  bail! decide (length data < 7) with TooShort;
  doc_key_len ← indices data 0 2;
  let doc_key_len := Z.to_nat (from_be doc_key_len) in
  let offset := 2 in
  bail! decide (length data < offset + doc_key_len + 1 + 4) with Truncated;
  key ← slice data offset (offset + doc_key_len);
  key ← ok_or (from_utf8 key) InvalidUtf8;
  let offset := offset + doc_key_len in
  t ← index data offset;
  t ← ok_or (from_byte t) UnknownSyncType;
  let offset := offset + 1 in
  payload_len ← indices data offset 4;
  let payload_len := Z.to_nat (from_be payload_len) in
  let offset := offset + 4 in
  bail! decide (length data < offset + payload_len) with Truncated;
  p ← slice data offset (offset + payload_len);
  let offset := offset + payload_len in
  Ok ({| doc_key := key; sync_type := t; payload := p |}, offset).

Record entry_wf (e : SyncEntry) : Prop := {
  ewf_key : utf8_valid (doc_key e) = true;
  ewf_key_len : (zlen (doc_key e) < 65536)%Z;
  ewf_type : from_byte (type_byte (sync_type e)) = Some (sync_type e);
  ewf_payload_len : (zlen (payload e) < 256 ^ Z.of_nat 4)%Z
}.

Lemma entry_decode_no_panic data : no_panic (decode data).
Proof. unfold decode. panic_free. Qed.

Lemma from_byte_inv b t : from_byte b = Some t → type_byte t = b.
Proof. unfold from_byte. destruct b; try done; by intros [= <-]. Qed.

Lemma entry_decode_cursor e data rest :
  entry_wf e → cursor data 0 (encode e ++ rest) →
  decode data = Ok (e, length (encode e)).
Proof.
  intros [Hk Hkl Ht Hpl] C. unfold decode, encode in *. rewrite <- !(assoc_L (++)) in C. cbn [app] in C.
  decode_run C. rewrite Ht. cbn [ok_or mbind outcome_bind]. decode_run C.
  destruct e. cbn. do 2 f_equal. autorewrite with lens. cbn. lia.
Qed.

Lemma entry_decode_inv data e n :
  decode data = Ok (e, n) → entry_wf e ∧ n = length (encode e) ∧ ∃ rest, data = encode e ++ rest.
Proof.
  intros H. unfold decode in H. pose proof (cursor_start data) as C. decode_inv H.
  match goal with Hd : from_byte _ = Some _ |- _ =>
    pose proof Hd as Hd'; apply from_byte_inv in Hd' as <- end.
  simplify_eq. split_and!.
  - split; cbn; eauto with wire; eapply (len_be_bound 2); eassumption.
  - unfold encode. cbn [doc_key sync_type payload]. autorewrite with lens. cbn. lia.
  - eexists. unfold encode. cbn [doc_key sync_type payload]. wire_eq.
Qed.
End Entry.
#[export] Hint Resolve Entry.entry_decode_no_panic : wire.

(** * Batches *)
Record SyncBatch := {
  batch_id : Z;
  created_at : Z;
  ttl : Z;
  entries : list SyncEntry
}.
Definition DEFAULT_SYNC_BATCH_TTL : Z := 5.

Module SyncBatches.
(** [duration_since(UNIX_EPOCH).unwrap().as_millis() as u64]: a clock before the
    epoch panics. *)
Definition millis_now (now : Z) : outcome SyncWireError Z :=
  if decide (0 ≤ now)%Z then Ok (wrap 64 (as_millis now)) else Panic.
Definition with_id (id now : Z) : outcome SyncWireError SyncBatch :=
  ms ← millis_now now;
  Ok {| batch_id := id; created_at := ms; ttl := DEFAULT_SYNC_BATCH_TTL; entries := [] |}.
Definition new (now : Z) : outcome SyncWireError SyncBatch := with_id 0 now.
Definition with_entries (es : list SyncEntry) (now : Z) : outcome SyncWireError SyncBatch :=
  ms ← millis_now now;
  Ok {| batch_id := 0; created_at := ms; ttl := DEFAULT_SYNC_BATCH_TTL; entries := es |}.
Definition with_ttl (b : SyncBatch) (t : Z) : SyncBatch :=
  {| batch_id := batch_id b; created_at := created_at b; ttl := t; entries := entries b |}.
Definition decrement_ttl (b : SyncBatch) : SyncBatch * bool :=
  if decide (0 < ttl b)%Z then (with_ttl b (ttl b - 1), true) else (b, false).

Definition push (b : SyncBatch) (e : SyncEntry) : SyncBatch :=
  {| batch_id := batch_id b; created_at := created_at b; ttl := ttl b; entries := entries b ++ [e] |}.
Definition add_delta (b : SyncBatch) (key message : bytes) : SyncBatch :=
  push b {| doc_key := key; sync_type := DeltaSync; payload := message |}.
Definition add_snapshot (b : SyncBatch) (key state_bytes : bytes) : SyncBatch :=
  push b {| doc_key := key; sync_type := StateSnapshot; payload := state_bytes |}.
(** [format!("tombstones:{}:{}", collection, document_id)] *)
Definition tombstone_key (t : Tombstone) : bytes :=
  str "tombstones:" ++ collection t ++ str ":" ++ document_id t.
Definition add_tombstone (b : SyncBatch) (m : TombstoneSyncMessage) : SyncBatch :=
  push b {| doc_key := tombstone_key (tombstone m); sync_type := TombstoneMsg;
            payload := SyncMessage.encode m |}.

Definition payload_size (b : SyncBatch) : nat := sum_list_with (length ∘ payload) (entries b).

Definition encode (b : SyncBatch) : bytes :=
  to_be 8 (batch_id b) ++ to_be 8 (created_at b) ++ [as_u8 (ttl b)]
  ++ to_be 4 (zlen (entries b)) ++ (entries b ≫= Entry.encode).

(** The loop [for _ in 0..entry_count]. *)
Fixpoint decode_loop (count : nat) (data : bytes) (offset : nat)
    : outcome SyncWireError (list SyncEntry) :=
  match count with
  | O => Ok []
  | S count =>
      chunk ← slice data offset (length data);
      '(entry, consumed) ← Entry.decode chunk;
      rest ← decode_loop count data (offset + consumed);
      Ok (entry :: rest)
  end.
Definition decode (data : bytes) : outcome SyncWireError SyncBatch :=
  bail! decide (length data < 21) with TooShort;
  id ← indices data 0 8;
  created ← indices data 8 8;
  t ← index data 16;
  entry_count ← indices data 17 4;
  es ← decode_loop (Z.to_nat (from_be entry_count)) data 21;
  Ok {| batch_id := from_be id; created_at := from_be created; ttl := u8 t; entries := es |}.

Record batch_wf (b : SyncBatch) : Prop := {
  bwf_id : in_u 64 (batch_id b);
  bwf_created : in_u 64 (created_at b);
  bwf_ttl : in_u 8 (ttl b);
  bwf_count : (zlen (entries b) < 256 ^ Z.of_nat 4)%Z;
  bwf_entries : Forall Entry.entry_wf (entries b)
}.

(** The loop reads exactly what was written, from any position inside the data. *)
Lemma decode_loop_cursor es : ∀ data offset rest,
  Forall Entry.entry_wf es → cursor data offset ((es ≫= Entry.encode) ++ rest) →
  decode_loop (length es) data offset = Ok es.
Proof.
  induction es as [|e es IH]; intros data offset rest Hes C; [done|].
  apply Forall_cons in Hes as [He Hes]. cbn [length decode_loop].
  cbn [mbind list_bind] in C. rewrite <- (assoc_L (++)) in C.
  rewrite (slice_to_end _ _ _ _ C eq_refl). cbn [mbind outcome_bind].
  rewrite (Entry.entry_decode_cursor e _ _ He (cursor_start _)). cbn [mbind outcome_bind].
  eapply cursor_skip in C; [|reflexivity]. by rewrite (IH _ _ _ Hes C).
Qed.

Lemma decode_loop_inv n : ∀ data offset es rest,
  cursor data offset rest → decode_loop n data offset = Ok es →
  length es = n ∧ Forall Entry.entry_wf es ∧ ∃ rest', rest = (es ≫= Entry.encode) ++ rest'.
Proof.
  induction n as [|n IH]; intros data offset es rest C H; cbn [decode_loop] in H.
  { injection H as <-. split_and!; [done|done|by eexists]. }
  rewrite (slice_to_end _ _ _ _ C eq_refl) in H. cbn [mbind outcome_bind] in H.
  apply bind_Ok_inv in H as ([e k] & He & H). apply Entry.entry_decode_inv in He as (Hwf & -> & rest1 & ->).
  apply bind_Ok_inv in H as (es' & Hl & [= <-]). eapply cursor_skip in C; [|reflexivity].
  destruct (IH _ _ _ _ C Hl) as (<- & Hes & rest2 & ->).
  split_and!; [done|by constructor|]. exists rest2. cbn. by rewrite (assoc_L (++)).
Qed.

Lemma sync_loop_no_panic n : ∀ data offset rest,
  cursor data offset rest → no_panic (decode_loop n data offset).
Proof.
  induction n as [|n IH]; intros data offset rest C; cbn [decode_loop]; [done|].
  rewrite (slice_to_end _ _ _ _ C eq_refl). cbn [mbind outcome_bind].
  destruct (Entry.decode rest) as [[e k]| |] eqn:He; [|done|].
  - apply Entry.entry_decode_inv in He as (_ & -> & rest1 & ->).
    eapply cursor_skip in C; [|reflexivity]. specialize (IH _ _ _ C). cbn [mbind outcome_bind].
    by destruct (decode_loop n data _).
  - by apply Entry.entry_decode_no_panic in He.
Qed.

Lemma sync_batch_decode_no_panic data : no_panic (decode data).
Proof.
  unfold decode. destruct (decide (length data < 21)) as [|Hl]; [done|].
  assert (cursor data 21 (drop 21 data)) as C by (split; [lia|done]).
  panic_free. by eapply sync_loop_no_panic.
Qed.

Lemma sync_batch_decode_cursor b data rest :
  batch_wf b → cursor data 0 (encode b ++ rest) → decode data = Ok b.
Proof.
  intros [Hid Hcr Httl Hn Hes] C. unfold decode, encode in *. rewrite <- !(assoc_L (++)) in C.
  cbn [app] in C. decode_run C. rewrite (decode_loop_cursor _ _ _ rest Hes); [|exact C].
  cbn. rewrite !(be_roundtrip 8 64), u8_as_u8_small by done. by destruct b.
Qed.

Lemma sync_batch_decode_inv data b :
  decode data = Ok b → batch_wf b ∧ ∃ rest, data = encode b ++ rest.
Proof.
  intros H. unfold decode in H. pose proof (cursor_start data) as C. decode_inv H.
  match goal with C : cursor _ _ _ |- _ =>
    apply (decode_loop_inv _ _ _ _ _ C) in Hv as (Hn & Hes & rest' & ->) end.
  simplify_eq. split.
  - split; cbn; eauto with wire; try (eapply (len_be_bound 4); eassumption). apply u8_range.
  - exists rest'. unfold encode. cbn [batch_id created_at ttl entries]. rewrite as_u8_u8. wire_eq.
Qed.

(** Sync batches on the wire: decoding never panics, and it accepts exactly the
    encodings of the batches whose keys, payloads and entry count fit their length
    fields and whose entries have a type below 8, with anything after them, and
    returns the batch that was encoded. *)
Theorem sync_batch_decode_exact data b :
  no_panic (decode data) ∧ (decode data = Ok b ↔ batch_wf b ∧ ∃ rest, data = encode b ++ rest).
Proof.
  split; [apply sync_batch_decode_no_panic|]. split; [apply sync_batch_decode_inv|].
  intros (Hwf & rest & ->). eapply sync_batch_decode_cursor; eauto using cursor_start.
Qed.
End SyncBatches.

(** * Frames *)

(** Automerge's sync messages. *)
Class SyncMessages := {
  sync_msg : Type;
  msg_encode : sync_msg → bytes;
  msg_decode : bytes → option sync_msg
}.
Class SyncMessagesLaws `{!SyncMessages} : Prop :=
  msg_decode_encode m : msg_decode (msg_encode m) = Some m.

Section Frames.
Context {SM : SyncMessages}.

Inductive ReceivedSyncPayload :=
| RDelta (m : sync_msg)
| RStateSnapshot (state : bytes)
| RTombstone (t : TombstoneSyncMessage)
| RTombstoneBatch (b : Batch.TombstoneBatch)
| RBatch (b : SyncBatch)
| RNegentropyInit (m : bytes)
| RNegentropyResponse (m : bytes).

(** What the senders write to their stream. *)
Definition write_frame (key : bytes) (t : SyncMessageType) (body : bytes) : bytes :=
  to_be 2 (zlen key) ++ key ++ [type_byte t] ++ to_be 4 (zlen body) ++ body.
Definition send_sync_message_for_doc (key : bytes) (m : sync_msg) : bytes :=
  write_frame key DeltaSync (msg_encode m).
Definition send_state_snapshot (key state : bytes) : bytes := write_frame key StateSnapshot state.
Definition send_single_tombstone_to_peer (m : TombstoneSyncMessage) : bytes :=
  write_frame (SyncBatches.tombstone_key (tombstone m)) TombstoneMsg (SyncMessage.encode m).
Definition send_tombstones_to_peer (ts : list Tombstone) : option bytes :=
  if decide (ts = []) then None
  else Some (write_frame (str "tombstones:batch") TombstoneBatchMsg
               (Batch.encode (Batch.from_tombstones ts))).
Definition send_batch_message (b : SyncBatch) : option bytes :=
  if decide (entries b = []) then None
  else Some (write_frame (str "batch") SyncBatchMsg (SyncBatches.encode b)).

(** [read_exact]: the stream is what remains to be read. *)
Definition read_exact (n : nat) (stream : bytes) : outcome SyncWireError (bytes * bytes) :=
  if decide (n ≤ length stream) then Ok (take n stream, drop n stream) else Err Truncated.

Definition parse_payload (t : byte) (buffer : bytes) : outcome SyncWireError ReceivedSyncPayload :=
  match t with
  | Byte.x00 => m ← ok_or (msg_decode buffer) BadPayload; Ok (RDelta m)
  | Byte.x01 => Ok (RStateSnapshot buffer)
  | Byte.x04 => m ← map_err (λ _, BadPayload) (SyncMessage.decode buffer); Ok (RTombstone m)
  | Byte.x05 => b ← map_err (λ _, BadPayload) (Batch.decode buffer); Ok (RTombstoneBatch b)
  | Byte.x06 => Ok (RTombstoneBatch Batch.new)
  | Byte.x07 => b ← SyncBatches.decode buffer; Ok (RBatch b)
  | Byte.x08 => Ok (RNegentropyInit buffer)
  | Byte.x09 => Ok (RNegentropyResponse buffer)
  | _ => Err UnknownSyncType
  end.

Definition receive_sync_payload_from_stream (stream : bytes)
    : outcome SyncWireError (bytes * ReceivedSyncPayload * nat) :=
  '(l, stream) ← read_exact 2 stream;
  let doc_key_len := Z.to_nat (from_be l) in
  '(key, stream) ← read_exact doc_key_len stream;
  key ← ok_or (from_utf8 key) InvalidUtf8;
  '(t, stream) ← read_exact 1 stream;
  '(l, stream) ← read_exact 4 stream;
  let payload_len := Z.to_nat (from_be l) in
  '(buffer, stream) ← read_exact payload_len stream;
  let total_bytes := 2 + doc_key_len + 1 + 4 + payload_len in
  p ← parse_payload (default Byte.x00 (head t)) buffer;
  Ok (key, p, total_bytes).

(** The stream receiver that only takes delta messages. *)
Definition receive_sync_message_from_stream (stream : bytes)
    : outcome SyncWireError (bytes * sync_msg * nat) :=
  '(key, p, n) ← receive_sync_payload_from_stream stream;
  match p with RDelta m => Ok (key, m, n) | _ => Err BadPayload end.
End Frames.

Lemma no_panic_map_err {E E' A} (f : E → E') (m : outcome E A) : no_panic m → no_panic (map_err f m).
Proof. by destruct m. Qed.
Lemma parse_payload_no_panic {SM : SyncMessages} t buffer : no_panic (parse_payload t buffer).
Proof.
  unfold parse_payload. repeat case_match; try done;
    (apply no_panic_bind; [|done]); auto using no_panic_ok_or, no_panic_map_err with wire.
  apply SyncBatches.sync_batch_decode_no_panic.
Qed.
Lemma read_exact_no_panic n s : no_panic (read_exact n s).
Proof. unfold read_exact. by case_decide. Qed.
Lemma stream_no_panic {SM : SyncMessages} stream : no_panic (receive_sync_payload_from_stream stream).
Proof.
  unfold receive_sync_payload_from_stream.
  repeat (apply no_panic_bind; [auto using read_exact_no_panic, parse_payload_no_panic, no_panic_ok_or|];
          try intros [? ?] ?; try intros ? ?; cbv zeta); done.
Qed.

(** ** Frames arrive *)
Lemma read_exact_app n (a b : bytes) : length a = n → read_exact n (a ++ b) = Ok (a, b).
Proof.
  intros <-. unfold read_exact. rewrite decide_True by (rewrite length_app; lia).
  by rewrite take_app_length, drop_app_length.
Qed.

Section Arrive.
Context {SM : SyncMessages} {SML : SyncMessagesLaws}.

Lemma receive_sync_frame key t body rest :
  utf8_valid key = true → (zlen key < 65536)%Z → (zlen body < 256 ^ Z.of_nat 4)%Z →
  receive_sync_payload_from_stream (write_frame key t body ++ rest) =
  (p ← parse_payload (type_byte t) body; Ok (key, p, length (write_frame key t body))).
Proof.
  intros Hk Hkl Hbl. unfold receive_sync_payload_from_stream, write_frame.
  rewrite <- !(assoc_L (++)).
  rewrite (read_exact_app 2) by apply length_to_be. cbn [mbind outcome_bind]. cbv zeta.
  rewrite (len_be 2 key) by done. rewrite (read_exact_app (length key)) by done.
  cbn [mbind outcome_bind]. rewrite from_utf8_valid by done. cbn [ok_or mbind outcome_bind].
  rewrite (read_exact_app 1) by done. cbn [mbind outcome_bind].
  rewrite (read_exact_app 4) by apply length_to_be. cbn [mbind outcome_bind].
  rewrite (len_be 4 body) by done. rewrite (read_exact_app (length body)) by done.
  cbn [mbind outcome_bind head from_option]. destruct (parse_payload _ body); [|done..].
  cbn [mbind outcome_bind]. do 2 f_equal. rewrite !length_app, !length_to_be. cbn [length]. lia.
Qed.

Lemma batch_length ms : length ms ≤ length (ms ≫= Batch.encode_one).
Proof.
  induction ms as [|m ms IH]; [done|]. rewrite bind_cons, length_app. cbn [length].
  unfold Batch.encode_one at 1. cbv zeta. rewrite length_app, length_to_be. lia.
Qed.

(** What the coordinator sends, and what arrives of it. *)
Inductive outgoing :=
| ODelta (key : bytes) (m : sync_msg)
| OSnapshot (key state : bytes)
| OTombstone (m : TombstoneSyncMessage)
| OTombstones (ts : list Tombstone)
| OBatch (b : SyncBatch).

Definition send (o : outgoing) : option bytes :=
  match o with
  | ODelta key m => Some (send_sync_message_for_doc key m)
  | OSnapshot key state => Some (send_state_snapshot key state)
  | OTombstone m => Some (send_single_tombstone_to_peer m)
  | OTombstones ts => send_tombstones_to_peer ts
  | OBatch b => send_batch_message b
  end.
Definition delivered (o : outgoing) : bytes * ReceivedSyncPayload :=
  match o with
  | ODelta key m => (key, RDelta m)
  | OSnapshot key state => (key, RStateSnapshot state)
  | OTombstone m =>
      (SyncBatches.tombstone_key (tombstone m), RTombstone (SyncMessage.on_wire m))
  | OTombstones ts =>
      (str "tombstones:batch",
       RTombstoneBatch (Batch.with_messages (SyncMessage.on_wire ∘ SyncMessage.from_tombstone <$> ts)))
  | OBatch b => (str "batch", RBatch b)
  end.

Definition fits (body : bytes) : Prop := (zlen body < 256 ^ Z.of_nat 4)%Z.
Definition key_fits (key : bytes) : Prop := utf8_valid key = true ∧ (zlen key < 65536)%Z.
Definition outgoing_wf (o : outgoing) : Prop :=
  match o with
  | ODelta key m => key_fits key ∧ fits (msg_encode m)
  | OSnapshot key state => key_fits key ∧ fits state
  | OTombstone m => SyncMessage.message_wf m ∧ key_fits (SyncBatches.tombstone_key (tombstone m))
  | OTombstones ts =>
      Forall (SyncMessage.message_wf ∘ SyncMessage.from_tombstone) ts
      ∧ fits (Batch.encode (Batch.from_tombstones ts))
  | OBatch b => SyncBatches.batch_wf b ∧ fits (SyncBatches.encode b)
  end.

Lemma tombstone_frame_arrives m rest :
  SyncMessage.message_wf m → key_fits (SyncBatches.tombstone_key (tombstone m)) →
  receive_sync_payload_from_stream (send_single_tombstone_to_peer m ++ rest)
  = Ok (SyncBatches.tombstone_key (tombstone m), RTombstone (SyncMessage.on_wire m),
        length (send_single_tombstone_to_peer m)).
Proof.
  intros Hwf [Hk Hkl]. unfold send_single_tombstone_to_peer.
  rewrite receive_sync_frame by (done || by apply Batch.message_zlen). cbn [type_byte parse_payload].
  rewrite <- (app_nil_r (SyncMessage.encode m)).
  rewrite (SyncMessage.tombstone_decode_cursor m _ [] Hwf (cursor_start _)). by rewrite app_nil_r.
Qed.

(** C33.  Sync frames: whatever the coordinator sends, a delta, a snapshot, a tombstone,
    all its tombstones or a batch, with a key below 64 KiB and a payload below 4 GiB,
    arrives as the same key and payload (a tombstone's time in whole milliseconds),
    with the number of bytes that were sent. *)
Theorem sync_frames_arrive o frame rest :
  outgoing_wf o → send o = Some frame →
  receive_sync_payload_from_stream (frame ++ rest)
  = Ok ((delivered o).1, (delivered o).2, length frame).
Proof using SML.
  destruct o as [key m|key state|m|ts|b]; cbn [send outgoing_wf delivered fst snd].
  - intros [[Hk Hkl] Hf] [= <-]. unfold send_sync_message_for_doc. rewrite receive_sync_frame by done.
    cbn. by rewrite msg_decode_encode.
  - intros [[Hk Hkl] Hf] [= <-]. unfold send_state_snapshot. by rewrite receive_sync_frame.
  - intros [Hwf Hk] [= <-]. by apply tombstone_frame_arrives.
  - intros [Hwf Hf]. unfold send_tombstones_to_peer. case_decide; [done|]. intros [= <-].
    rewrite receive_sync_frame by done. cbn [type_byte parse_payload].
    rewrite <- (app_nil_r (Batch.encode (Batch.from_tombstones ts))).
    rewrite (Batch.batch_decode_cursor (Batch.from_tombstones ts) _ []); [|by apply Forall_fmap| |apply cursor_start].
    + cbn. rewrite app_nil_r. do 3 f_equal. by rewrite <- list_fmap_compose.
    + unfold fits, Batch.encode, zlen in *. rewrite length_app in Hf.
      pose proof (batch_length (Batch.tombstones (Batch.from_tombstones ts))). lia.
  - intros [Hwf Hf]. unfold send_batch_message. case_decide; [done|]. intros [= <-].
    rewrite receive_sync_frame by done. cbn [type_byte parse_payload].
    rewrite <- (app_nil_r (SyncBatches.encode b)).
    rewrite (SyncBatches.sync_batch_decode_cursor b _ [] Hwf (cursor_start _)). by rewrite app_nil_r.
Qed.
End Arrive.

(** * Concrete frames *)
#[export] Instance toy_sync_messages : SyncMessages :=
  {| sync_msg := bytes; msg_encode := id; msg_decode := Some |}.
#[export] Instance toy_sync_messages_laws : SyncMessagesLaws.
Proof. by intros m. Defined.

Definition toy_batch : SyncBatch := {|
  batch_id := 7; created_at := 1000; ttl := 5;
  entries := [{| doc_key := str "nodes:1"; sync_type := StateSnapshot; payload := str "state" |}]
|}.
Lemma toy_batch_wf : SyncBatches.batch_wf toy_batch.
Proof. split; try done. apply Forall_singleton. by split. Qed.

Lemma sync_frames_arrive_witness :
  ∃ frame, send (OBatch toy_batch) = Some frame
    ∧ receive_sync_payload_from_stream (frame ++ str "more")
      = Ok (str "batch", RBatch toy_batch, length frame).
Proof.
  eexists. split; [reflexivity|].
  apply (sync_frames_arrive (OBatch toy_batch)); [|reflexivity].
  split; [exact toy_batch_wf|vm_compute; reflexivity].
Defined.
