(* ===== verification/Replay.v ===== *)
(** Replay protection of the bypass channel ([ReplayWindow] and [ReplayTracker] of
    [src/transport/bypass.rs]): an 8-bit highest sequence number with a 64-bit
    bitmap per source.  The specification numbers packets without wrap-around and
    remembers every packet it accepted; the refinement theorem says that the code
    decides as the specification does, and where it does not. *)
From Stdlib Require Import ZArith Lia Strings.Byte Strings.String.
From stdpp Require Import prelude gmap.
From S2P Require Import Prelude Wire.

Set Default Proof Using "Type".
#[local] Open Scope Z_scope.

(** [IpAddr]: the four or sixteen octets. *)
Inductive IpAddr := V4 (octets : bytes) | V6 (octets : bytes).
Global Instance IpAddr_eq_dec : EqDecision IpAddr.
Proof. solve_decision. Defined.
Global Instance IpAddr_countable : Countable IpAddr.
Proof.
  apply (inj_countable' (λ a, match a with V4 o => inl o | V6 o => inr o end)
           (λ s, match s with inl o => V4 o | inr o => V6 o end)).
  by intros [].
Defined.

(** * The code *)
Record ReplayWindow := {
  highest_seq : Z;  (* u8 *)
  seen : Z          (* u64 *)
}.

Module Window.
Definition new : ReplayWindow := {| highest_seq := 0; seen := 0 |}.

Definition wrapping_sub_u8 (a b : Z) : Z := (a - b) mod 256.
(** [x << s] on [u64], for [s < 64]. *)
Definition shl_u64 (x s : Z) : Z := wrap 64 (Z.shiftl x s).

Definition check_and_update (w : ReplayWindow) (seq : Z) (window_size : nat)
    : bool * ReplayWindow :=
  let window_size := Z.min (Z.of_nat window_size) 64 in
  let diff := wrapping_sub_u8 (highest_seq w) seq in
  if decide (diff = 0 ∧ seen w = 0) then
    (true, {| highest_seq := seq; seen := 1 |})
  else if decide (seq = highest_seq w) then (false, w)
  else
    let ahead := wrapping_sub_u8 seq (highest_seq w) in
    if decide (ahead > 0 ∧ ahead < 128) then
      let shift := ahead in
      (true, {| highest_seq := seq;
                seen := if decide (shift < 64) then Z.lor (shl_u64 (seen w) shift) 1 else 1 |})
    else if decide (diff < window_size ∧ diff < 64) then
      let bit := shl_u64 1 diff in
      if decide (Z.land (seen w) bit ≠ 0) then (false, w)
      else (true, {| highest_seq := highest_seq w; seen := Z.lor (seen w) bit |})
    else (false, w).
End Window.

Record ReplayTracker := {
  windows : gmap IpAddr ReplayWindow;
  window_size : nat
}.

Module Tracker.
Definition new (size : nat) : ReplayTracker :=
  {| windows := ∅; window_size := Nat.min size 64 |}.

(** [true] is [Ok(())], [false] is [Err(ReplayDetected)]. *)
Definition check (t : ReplayTracker) (source : IpAddr) (sequence : Z) : bool * ReplayTracker :=
  let window := default Window.new (windows t !! source) in
  let '(ok, window') := Window.check_and_update window sequence (window_size t) in
  (ok, {| windows := <[source := window']> (windows t); window_size := window_size t |}).

Definition clear_source (t : ReplayTracker) (source : IpAddr) : ReplayTracker :=
  {| windows := delete source (windows t); window_size := window_size t |}.
Definition clear_all (t : ReplayTracker) : ReplayTracker :=
  {| windows := ∅; window_size := window_size t |}.
End Tracker.

(** * The specification

    Packets of a source carry numbers 0, 1, 2, ...; the wire has the number modulo
    256.  A packet is fresh when it was not accepted before and is newer than
    everything accepted or at most [size - 1] behind the newest. *)
Record SeqState := { newest : Z; accepted : gset Z }.

Definition spec_check (size : nat) (st : option SeqState) (n : Z) : bool * option SeqState :=
  match st with
  | None => (true, Some {| newest := n; accepted := {[ n ]} |})
  | Some s =>
      if decide ((n ∉ accepted s) ∧ (newest s < n ∨ newest s - n < Z.of_nat size)) then
        (true, Some {| newest := Z.max (newest s) n; accepted := {[ n ]} ∪ accepted s |})
      else (false, st)
  end.

(** When 8 bits tell the number: within half the sequence space of the newest,
    and the first packet of a source in the first half. *)
Definition in_step (st : option SeqState) (n : Z) : Prop :=
  match st with
  | None => n mod 256 < 128
  | Some s => newest s - 128 ≤ n < newest s + 128
  end.

(** A window that stands for a specification state. *)
Record represents (w : ReplayWindow) (s : SeqState) : Prop := {
  rep_highest : highest_seq w = newest s mod 256;
  rep_seen_range : in_u 64 (seen w);
  rep_seen k : 0 ≤ k < 64 → Z.testbit (seen w) k = bool_decide (newest s - k ∈ accepted s);
  rep_newest : newest s ∈ accepted s;
  rep_bound n : n ∈ accepted s → n ≤ newest s
}.

Definition represents_opt (w : option ReplayWindow) (s : option SeqState) : Prop :=
  match w, s with
  | None, None => True
  | Some w, Some s => represents w s
  | _, _ => False
  end.

(** * Bits *)
Lemma shl_testbit x s k :
  0 ≤ s → 0 ≤ k < 64 → Z.testbit (Window.shl_u64 x s) k = Z.testbit x (k - s).
Proof.
  intros Hs Hk. unfold Window.shl_u64, wrap. rewrite Z.mod_pow2_bits_low by lia.
  by rewrite Z.shiftl_spec by lia.
Qed.

Lemma one_testbit k : 0 ≤ k → Z.testbit 1 k = bool_decide (k = 0).
Proof.
  intros Hk. destruct (decide (k = 0)) as [->|Hk']; [done|].
  rewrite bool_decide_eq_false_2 by done. apply (Z.bits_above_log2 1); [lia|]. simpl. lia.
Qed.

Lemma in_u_mod w z : in_u w z → z mod 2 ^ w = z.
Proof. intros. by apply Z.mod_small. Qed.

Lemma lor_in_u w x y : 0 ≤ w → in_u w x → in_u w y → in_u w (Z.lor x y).
Proof.
  intros Hw Hx Hy. assert (Z.lor x y = Z.lor x y mod 2 ^ w) as ->.
  - apply in_u_mod in Hx, Hy. apply Z.bits_inj'. intros k Hk.
    destruct (decide (k < w)); [by rewrite Z.mod_pow2_bits_low by lia|].
    rewrite Z.mod_pow2_bits_high, Z.lor_spec by lia.
    by rewrite <- Hx, <- Hy, !Z.mod_pow2_bits_high by lia.
  - apply Z.mod_pos_bound. by apply Z.pow_pos_nonneg.
Qed.

Lemma shl_in_u x s : in_u 64 (Window.shl_u64 x s).
Proof. apply Z.mod_pos_bound. lia. Qed.

Lemma land_bit x d : 0 ≤ d < 64 → Z.land x (Window.shl_u64 1 d) ≠ 0 ↔ Z.testbit x d = true.
Proof.
  intros Hd. assert (Window.shl_u64 1 d = 2 ^ d) as ->.
  { unfold Window.shl_u64, wrap. rewrite Z.shiftl_1_l. apply Z.mod_small.
    split; [lia|]. apply Z.pow_lt_mono_r; lia. }
  destruct (Z.testbit x d) eqn:E.
  - split; [done|]. intros _ H. apply (f_equal (λ z, Z.testbit z d)) in H.
    rewrite Z.land_spec, Z.pow2_bits_true, E, Z.bits_0 in H by lia. done.
  - split; [|done]. intros H. exfalso. apply H. apply Z.bits_inj'. intros k Hk.
    rewrite Z.land_spec, Z.bits_0, Z.pow2_bits_eqb by lia.
    destruct (Z.eqb_spec d k) as [<-|]; [by rewrite E|by rewrite andb_false_r].
Qed.

(** * Refinement *)
Lemma sub_mod a b : Window.wrapping_sub_u8 (a mod 256) (b mod 256) = (a - b) mod 256.
Proof. unfold Window.wrapping_sub_u8. by rewrite <- Zminus_mod. Qed.

Lemma mod_256_neg d : 0 < d ≤ 256 → (- d) mod 256 = 256 - d.
Proof. intros. symmetry. apply (Z.mod_unique _ _ (-1)); lia. Qed.

Lemma represents_first n :
  represents {| highest_seq := n mod 256; seen := 1 |} {| newest := n; accepted := {[ n ]} |}.
Proof.
  split; cbn; [done|done| |set_solver|set_solver by lia].
  intros k Hk. rewrite one_testbit by lia. apply bool_decide_ext. set_solver by lia.
Qed.

Lemma represents_advance w s d :
  represents w s → 0 < d < 128 →
  represents {| highest_seq := (newest s + d) mod 256;
                seen := if decide (d < 64) then Z.lor (Window.shl_u64 (seen w) d) 1 else 1 |}
             {| newest := newest s + d; accepted := {[ newest s + d ]} ∪ accepted s |}.
Proof.
  intros [Hh Hr Hs Hn Hb] Hd. split; cbn; [done| | |set_solver|].
  - case_decide; [|done]. apply lor_in_u; [lia|apply shl_in_u|done].
  - intros k Hk.
    assert (newest s + d - k ∈ {[newest s + d]} ∪ accepted s ↔
            k = 0 ∨ (d ≤ k ∧ newest s - (k - d) ∈ accepted s)) as Hin.
    { rewrite elem_of_union, elem_of_singleton. split.
      - intros [?|Ha]; [lia|]. right. split; [apply Hb in Ha; lia|].
        by replace (newest s - (k - d)) with (newest s + d - k) by lia.
      - intros [->|[? Ha]]; [lia|].
        replace (newest s - (k - d)) with (newest s + d - k) in Ha by lia. auto. }
    rewrite (bool_decide_ext _ _ Hin). case_decide as Hd64.
    + rewrite Z.lor_spec, shl_testbit, one_testbit by lia.
      destruct (decide (d ≤ k)).
      * rewrite Hs by lia. repeat case_bool_decide; naive_solver lia.
      * rewrite Z.testbit_neg_r by lia. repeat case_bool_decide; naive_solver lia.
    + rewrite one_testbit by lia. repeat case_bool_decide; naive_solver lia.
  - intros n [->%elem_of_singleton|Ha%Hb]%elem_of_union; lia.
Qed.

Lemma represents_late w s d :
  represents w s → 0 < d < 64 →
  represents {| highest_seq := highest_seq w; seen := Z.lor (seen w) (Window.shl_u64 1 d) |}
             {| newest := newest s; accepted := {[ newest s - d ]} ∪ accepted s |}.
Proof.
  intros [Hh Hr Hs Hn Hb] Hd. split; cbn; [done| | |set_solver|].
  - apply lor_in_u; [lia|done|apply shl_in_u].
  - intros k Hk. rewrite Z.lor_spec, shl_testbit, Hs by lia.
    assert (Z.testbit 1 (k - d) = bool_decide (k = d)) as ->.
    { destruct (decide (d ≤ k)).
      - rewrite one_testbit by lia. apply bool_decide_ext. lia.
      - rewrite Z.testbit_neg_r by lia. rewrite bool_decide_eq_false_2; [done|lia]. }
    repeat case_bool_decide; set_solver by lia.
  - intros n [->%elem_of_singleton|Ha%Hb]%elem_of_union; lia.
Qed.

Lemma represents_seen_ne w s : represents w s → seen w ≠ 0.
Proof.
  intros [_ _ Hs Hn _] H0. specialize (Hs 0 ltac:(lia)).
  rewrite H0, Z.sub_0_r, bool_decide_eq_true_2 in Hs by done. done.
Qed.

Lemma same_residue a b : b - 128 ≤ a < b + 128 → a mod 256 = b mod 256 → a = b.
Proof.
  intros Hab Heq. assert ((a - b) mod 256 = 0) as Hm.
  { by rewrite Zminus_mod, Heq, Z.sub_diag. }
  destruct (decide (0 ≤ a - b)); [rewrite Z.mod_small in Hm; lia|].
  replace (a - b) with (- (b - a)) in Hm by lia. rewrite mod_256_neg in Hm; lia.
Qed.

(** One packet of a known source. *)
Lemma window_step w s n size w' ok :
  represents w s → in_step (Some s) n →
  Window.check_and_update w (n mod 256) size = (ok, w') →
  ∃ s', spec_check (Nat.min size 64) (Some s) n = (ok, Some s') ∧ represents w' s'.
Proof.
  intros Hrep Hstep H. pose proof (represents_seen_ne _ _ Hrep) as H0.
  pose proof Hrep as [Hh _ Hs Hn Hb]. cbn in Hstep.
  unfold Window.check_and_update in H. cbv zeta in H.
  rewrite Hh, !sub_mod in H. rewrite decide_False in H by naive_solver.
  set (d := n - newest s) in *. replace (newest s - n) with (- d) in H by (unfold d; lia).
  assert (n = newest s + d) as Hnd by (unfold d; lia). cbn [spec_check].
  destruct (decide (n mod 256 = newest s mod 256)) as [Heq|Hne].
  { apply same_residue in Heq; [|lia]. simplify_eq.
    rewrite decide_False by naive_solver. eauto. }
  assert (d ≠ 0) by (intros ?; apply Hne; f_equal; lia).
  destruct (decide (0 < d)) as [Hpos|Hneg].
  - rewrite (Z.mod_small d) in H by lia. rewrite decide_True in H by lia. simplify_eq.
    rewrite decide_True by (split; [intros Ha%Hb; lia|lia]).
    replace (Z.max (newest s) n) with n by lia. eexists. split; [done|].
    rewrite Hnd. by apply represents_advance; [|lia].
  - replace (d mod 256) with (256 - - d) in H by (rewrite <- mod_256_neg by lia; f_equal; lia).
    rewrite decide_False in H by lia. rewrite (Z.mod_small (- d)) in H by lia.
    replace n with (newest s - - d) by lia. set (e := - d) in *.
    destruct (decide (e < Z.min (Z.of_nat size) 64 ∧ e < 64)) as [Hin|Hout].
    + destruct (decide (newest s - e ∈ accepted s)) as [Ha|Ha].
      * rewrite decide_True in H by (apply land_bit; [lia|]; rewrite Hs by lia;
          by apply bool_decide_eq_true_2).
        simplify_eq. rewrite decide_False by naive_solver. eauto.
      * rewrite decide_False in H by (rewrite land_bit by lia; rewrite Hs by lia;
          by rewrite bool_decide_eq_false_2).
        simplify_eq. rewrite decide_True by (split; [done|lia]).
        replace (Z.max (newest s) (newest s - e)) with (newest s) by lia.
        eexists. split; [done|]. rewrite <- Hh. by apply represents_late; [|lia].
    + simplify_eq. rewrite decide_False by (intros [_ ?]; lia). eauto.
Qed.

(** The first packet of a source. *)
Lemma window_first n size :
  in_step None n →
  Window.check_and_update Window.new (n mod 256) size
    = (true, {| highest_seq := n mod 256; seen := 1 |}).
Proof.
  intros Hn. cbn in Hn. pose proof (Z.mod_pos_bound n 256 ltac:(lia)) as Hb.
  unfold Window.check_and_update, Window.wrapping_sub_u8. cbn [highest_seq seen Window.new].
  cbv zeta. destruct (decide (n mod 256 = 0)) as [->|Hne]; [done|].
  rewrite decide_False
    by (intros [Hd _]; rewrite Z.sub_0_l, mod_256_neg in Hd; lia).
  rewrite Z.sub_0_r, (Z.mod_small (n mod 256)) by lia.
  rewrite decide_True by lia. case_decide; [|done].
  unfold Window.shl_u64. by rewrite Z.shiftl_0_l.
Qed.

(** * Trackers *)

(** The specification of a tracker: one specification state per source. *)
Abbreviation spec_tracker := (gmap IpAddr SeqState).

Definition spec_track (size : nat) (t : spec_tracker) (source : IpAddr) (n : Z)
    : bool * spec_tracker :=
  let '(ok, st) := spec_check size (t !! source) n in
  (ok, partial_alter (λ _, st) source t).

Definition tracks (t : ReplayTracker) (st : spec_tracker) : Prop :=
  ∀ source, represents_opt (windows t !! source) (st !! source).

(** Packets (source and number) as they arrive, in the code and in the spec. *)
Fixpoint run (t : ReplayTracker) (packets : list (IpAddr * Z)) : list bool :=
  match packets with
  | [] => []
  | (source, n) :: packets =>
      let '(ok, t') := Tracker.check t source (n mod 256) in ok :: run t' packets
  end.
Fixpoint spec_run (size : nat) (st : spec_tracker) (packets : list (IpAddr * Z)) : list bool :=
  match packets with
  | [] => []
  | (source, n) :: packets =>
      let '(ok, st') := spec_track size st source n in ok :: spec_run size st' packets
  end.
Fixpoint run_in_step (size : nat) (st : spec_tracker) (packets : list (IpAddr * Z)) : Prop :=
  match packets with
  | [] => True
  | (source, n) :: packets =>
      in_step (st !! source) n ∧ run_in_step size (spec_track size st source n).2 packets
  end.

Lemma tracker_step t st source n ok t' :
  tracks t st → in_step (st !! source) n →
  Tracker.check t source (n mod 256) = (ok, t') →
  ∃ st', spec_track (Nat.min (window_size t) 64) st source n = (ok, st') ∧ tracks t' st' ∧
         window_size t' = window_size t.
Proof.
  intros Ht Hn H. unfold Tracker.check in H. unfold spec_track.
  pose proof (Ht source) as Hs. unfold represents_opt in Hs.
  destruct (windows t !! source) as [w|] eqn:Hw, (st !! source) as [s|] eqn:Hst; try done;
    cbn [from_option id] in H.
  - destruct (Window.check_and_update w _ _) as [ok' w'] eqn:Hc. simplify_eq.
    destruct (window_step _ _ _ _ _ _ Hs Hn Hc) as (s' & -> & Hrep).
    eexists. split_and!; [done| |done]. intros source'.
    destruct (decide (source = source')) as [<-|Hne]; cbn [windows].
    + by rewrite lookup_insert_eq, lookup_partial_alter_eq.
    + rewrite lookup_insert_ne, lookup_partial_alter_ne by done. apply Ht.
  - rewrite window_first in H by done. simplify_eq.
    eexists. split_and!; [done| |done]. intros source'.
    destruct (decide (source = source')) as [<-|Hne]; cbn [windows].
    + rewrite lookup_insert_eq, lookup_partial_alter_eq. apply represents_first.
    + rewrite lookup_insert_ne, lookup_partial_alter_ne by done. apply Ht.
Qed.

Lemma run_refines t st packets :
  tracks t st → run_in_step (Nat.min (window_size t) 64) st packets →
  run t packets = spec_run (Nat.min (window_size t) 64) st packets.
Proof.
  revert t st. induction packets as [|[source n] packets IH]; intros t st Ht Hs; [done|].
  destruct Hs as [Hn Hs]. cbn.
  destruct (Tracker.check t source (n mod 256)) as [ok t'] eqn:Hc.
  destruct (tracker_step _ _ _ _ _ _ Ht Hn Hc) as (st' & Hsp & Ht' & Hw).
  rewrite Hsp in *. cbn [snd] in Hs. rewrite <- Hw in *. f_equal. by apply IH.
Qed.

Lemma tracks_new size : tracks (Tracker.new size) ∅.
Proof. intros source. by rewrite !lookup_empty. Qed.

(** A number once accepted is refused in every continuation. *)
Lemma spec_run_replayed size st packets source s n j :
  st !! source = Some s → n ∈ accepted s → packets !! j = Some (source, n) →
  spec_run size st packets !! j = Some false.
Proof.
  revert st s j. induction packets as [|[source' n'] packets IH]; intros st s j Hs Hn Hj;
    [done|]. cbn. unfold spec_track.
  destruct (spec_check size (st !! source') n') as [ok st'] eqn:Hc.
  destruct j as [|j]; cbn in Hj |- *.
  - simplify_eq. rewrite Hs in Hc. cbn in Hc. rewrite decide_False in Hc by naive_solver.
    by simplify_eq.
  - destruct (decide (source' = source)) as [->|Hne].
    + rewrite Hs in Hc. cbn in Hc.
      assert (∃ s', st' = Some s' ∧ n ∈ accepted s') as (s' & -> & Hn').
      { case_decide; simplify_eq; eexists; (split; [done|]); set_solver. }
      eapply IH; [by rewrite lookup_partial_alter_eq|done|done].
    + eapply IH; [|done|done]. by rewrite lookup_partial_alter_ne.
Qed.

Lemma spec_check_accepts size st n st' :
  spec_check size st n = (true, st') → ∃ s', st' = Some s' ∧ n ∈ accepted s'.
Proof.
  destruct st as [s|]; cbn; [case_decide|]; intros; simplify_eq; eexists;
    (split; [done|]); set_solver.
Qed.

Lemma spec_run_once size st packets i j p :
  (i < j)%nat → packets !! i = Some p → packets !! j = Some p →
  spec_run size st packets !! i = Some true → spec_run size st packets !! j = Some false.
Proof.
  revert st i j. induction packets as [|[source n] packets IH]; intros st i j Hij Hi Hj Hr;
    [done|]. cbn in *.
  destruct (spec_track size st source n) as [ok st'] eqn:Ht.
  destruct j as [|j]; [lia|]. destruct i as [|i]; cbn in *; [|apply (IH _ i j); [lia|done..]].
  simplify_eq. unfold spec_track in Ht.
  destruct (spec_check size (st !! source) n) as [ok st''] eqn:Hc. simplify_eq.
  apply spec_check_accepts in Hc as (s' & -> & Hn).
  eapply spec_run_replayed; [by rewrite lookup_partial_alter_eq|done|done].
Qed.


(** No packet is accepted twice: in such a run, when a packet was accepted,
    every later packet with the same source and number is refused, however many
    other packets arrive in between and in whatever order. *)
Theorem replayed_packet_refused size packets i j p :
  run_in_step (Nat.min size 64) ∅ packets → (i < j)%nat →
  packets !! i = Some p → packets !! j = Some p →
  run (Tracker.new size) packets !! i = Some true →
  run (Tracker.new size) packets !! j = Some false.
Proof.
  intros Hs Hij Hi Hj. assert (Nat.min (window_size (Tracker.new size)) 64 = Nat.min size 64) as Hw
    by (cbn; lia).
  rewrite (run_refines (Tracker.new size) ∅) by (rewrite ?Hw; auto using tracks_new).
  by apply spec_run_once with p.
Qed.

Lemma window_gap seq size :
  128 ≤ seq ≤ 192 → Window.check_and_update Window.new seq size = (false, Window.new).
Proof.
  intros Hs. unfold Window.check_and_update, Window.wrapping_sub_u8, Window.new. cbn [highest_seq seen].
  cbv zeta. rewrite Z.sub_0_l, mod_256_neg, Z.sub_0_r, (Z.mod_small seq) by lia.
  repeat (rewrite decide_False by lia). done.
Qed.

Lemma window_tail seq size :
  256 - Z.min (Z.of_nat size) 64 < seq ≤ 255 →
  Window.check_and_update Window.new seq size =
    (true, {| highest_seq := 0; seen := Window.shl_u64 1 (256 - seq) |}).
Proof.
  intros Hs. unfold Window.check_and_update, Window.wrapping_sub_u8, Window.new.
  cbn [highest_seq seen]. cbv zeta.
  rewrite Z.sub_0_l, mod_256_neg, Z.sub_0_r, (Z.mod_small seq) by lia.
  rewrite (decide_False (P:=_ = _ ∧ _ = _)), (decide_False (P:=seq = 0)) by lia.
  rewrite decide_False by lia. rewrite decide_True by lia.
  rewrite decide_False by (rewrite land_bit by lia; by rewrite Z.testbit_0_l).
  by rewrite Z.lor_0_l.
Qed.

Lemma window_zero d size :
  0 ≤ d < 64 →
  let w := {| highest_seq := 0; seen := Window.shl_u64 1 d |} in
  Window.check_and_update w 0 size = (false, w).
Proof.
  intros Hd w. unfold Window.check_and_update. cbn [highest_seq seen w]. cbv zeta.
  rewrite decide_False; [done|]. intros [_ Hz].
  apply (f_equal (λ z, Z.testbit z d)) in Hz.
  rewrite shl_testbit, Z.sub_diag, Z.bits_0 in Hz by lia. done.
Qed.

(** Joining a stream late: the window starts as if number 0 had been the
    newest.  From a source not heard before, packets numbered 128 to 192 are all
    refused as replays although none was ever seen; and when the first packet is
    one of the window's last numbers before the wrap, it is accepted but packet 0,
    not seen either, is refused afterwards. *)
Theorem fresh_source_false_replays size source packets seq :
  (Forall (λ p, p.1 = source ∧ 128 ≤ p.2 ≤ 192) packets →
     run (Tracker.new size) packets = replicate (length packets) false) ∧
  (256 - Z.min (Z.of_nat size) 64 < seq ≤ 255 → 0 < Z.of_nat size →
     run (Tracker.new size) [(source, seq); (source, 0)] = [true; false]).
Proof.
  split.
  - assert (∀ t, default Window.new (windows t !! source) = Window.new →
      Forall (λ p, p.1 = source ∧ 128 ≤ p.2 ≤ 192) packets →
      run t packets = replicate (length packets) false) as Hrun; [|by apply Hrun].
    induction packets as [|[source' n] packets IH]; intros t Hw Hp; [done|].
    apply Forall_cons in Hp as [[Hs Hn] Hp]. cbn [fst snd] in *. subst source'.
    cbn [run replicate length]. unfold Tracker.check. rewrite Hw.
    rewrite Z.mod_small, window_gap by lia. f_equal. apply IH; [|done].
    cbn [windows]. by rewrite lookup_insert_eq.
  - intros Hs H0. cbn [run]. unfold Tracker.check. cbn [windows Tracker.new].
    rewrite lookup_empty. cbn [from_option id window_size].
    rewrite (Z.mod_small seq), Z.mod_0_l by lia.
    rewrite window_tail by (cbn [window_size Tracker.new]; lia). cbn [windows]. rewrite lookup_insert_eq. cbn [from_option id].
    by rewrite window_zero by lia.
Qed.


Lemma replayed_packet_refused_witness :
  let a := V4 (str "abcd") in
  run (Tracker.new 64) [(a, 1); (a, 300 - 200); (a, 1 + 49); (a, 100)] !! 3%nat = Some false.
Proof.
  intros a. apply (replayed_packet_refused 64 _ 1 3 (a, 100)); [|lia|done|done|vm_eq].
  vm_compute. repeat split; done.
Defined.

Lemma fresh_source_false_replays_witness :
  let a := V4 (str "abcd") in
  run (Tracker.new 64) [(a, 130); (a, 131)] = [false; false] ∧
  run (Tracker.new 64) [(a, 200); (a, 0)] = [true; false].
Proof.
  intros a. destruct (fresh_source_false_replays 64 a [(a, 130); (a, 131)] 200) as [H1 H2].
  split; [apply H1; repeat constructor; done|apply H2; lia].
Defined.
