(* ===== verification/Bypass.v ===== *)
(** The UDP bypass channel ([src/transport/bypass.rs]): header format and
    collection hash, configuration, security credentials, and the channel itself
    with its send path and the body of its receive loop.  Sockets and the clock
    are arguments; replay protection is in [Replay]. *)
From Stdlib Require Import ZArith Lia Strings.Byte Strings.String.
From stdpp Require Import prelude gmap.
From S2P Require Import Prelude Wire Crypto Replay.

Set Default Proof Using "Type".

Inductive MessagePriority := Background | Normal | High | Critical.

(** A socket address: IP address and port. *)
Abbreviation SocketAddr := (IpAddr * Z)%type.

Inductive BypassError :=
| Io (msg : string)
| EncodeError (msg : string)
| DecodeError (msg : string)
| Config (msg : string)
| NotStarted
| MessageTooLarge (size max : nat)
| InvalidHeader
| StaleMessage
| BadSignature
| DecryptionFailed
| UnauthorizedSource (ip : IpAddr)
| ReplayDetected (sequence : Z)
| MissingCredential (what : string).

(** * FNV-1a *)
Module fnv.
Definition FNV_OFFSET_BASIS : Z := 14695981039346656037.
Definition FNV_PRIME : Z := 1099511628211.
Definition step (h : Z) (b : byte) : Z := wrap 64 (Z.lxor h (u8 b) * FNV_PRIME).
Definition write (h : Z) (l : bytes) : Z := foldl step h l.
End fnv.

(** * [BypassHeader] *)
Record BypassHeader := {
  magic : bytes;
  collection_hash : Z;  (* u32 *)
  ttl_ms : Z;           (* u16 *)
  flags : byte;
  sequence : byte
}.

Module Header.
Definition MAGIC : bytes := [Byte.x45; Byte.x43; Byte.x48; Byte.x45].
Definition SIZE : nat := 12.
Definition FLAG_COMPRESSED : byte := as_u8 0x01.
Definition FLAG_ENCRYPTED : byte := as_u8 0x02.
Definition FLAG_SIGNED : byte := as_u8 0x04.

(** [str::hash] writes the bytes and then [0xff]. *)
Definition hash_collection (name : bytes) : Z :=
  wrap 32 (fnv.write (fnv.write fnv.FNV_OFFSET_BASIS name) [Byte.xff]).

(** [ttl] in nanoseconds. *)
Definition new (collection : bytes) (ttl : Z) (seq : byte) : BypassHeader := {|
  magic := MAGIC;
  collection_hash := hash_collection collection;
  ttl_ms := Z.min (ttl / 1000000) (umax 16);
  flags := Byte.x00;
  sequence := seq
|}.

Definition is_valid (h : BypassHeader) : bool := bool_decide (magic h = MAGIC).

Definition encode (h : BypassHeader) : bytes :=
  magic h ++ to_be 4 (collection_hash h) ++ to_be 2 (ttl_ms h) ++ [flags h] ++ [sequence h].

Definition decode (buf : bytes) : outcome BypassError BypassHeader :=
  bail! decide (length buf < SIZE) with InvalidHeader;
  m ← slice buf 0 4;
  m ← array 4 m;
  bail! decide (m ≠ MAGIC) with InvalidHeader;
  h ← indices buf 4 4;
  t ← indices buf 8 2;
  f ← index buf 10;
  s ← index buf 11;
  Ok {| magic := m; collection_hash := from_be h; ttl_ms := from_be t; flags := f; sequence := s |}.

(** Times in nanoseconds; [Instant::duration_since] saturates at zero. *)
Definition is_stale (h : BypassHeader) (received_at sent_at : Z) : bool :=
  let elapsed := saturating_sub received_at sent_at in
  bool_decide (ttl_ms h * 1000000 < elapsed)%Z.

Record header_wf (h : BypassHeader) : Prop := {
  hwf_magic : magic h = MAGIC;
  hwf_hash : in_u 32 (collection_hash h);
  hwf_ttl : in_u 16 (ttl_ms h)
}.

Lemma header_decode_no_panic buf : no_panic (decode buf).
Proof. unfold decode, SIZE. panic_free. Qed.

Lemma header_decode_cursor h data rest :
  header_wf h → cursor data 0 (encode h ++ rest) → decode data = Ok h.
Proof.
  intros [Hm Hh Ht] C. assert (length (magic h) = 4) as Hl by by rewrite Hm.
  unfold decode, encode, SIZE in *. rewrite <- !(assoc_L (++)) in C. cbn [app] in C.
  decode_run C. rewrite decide_False by naive_solver. decode_run C.
  rewrite (be_roundtrip 4 32), (be_roundtrip 2 16) by done. by destruct h.
Qed.

Lemma header_decode_inv data h :
  decode data = Ok h → header_wf h ∧ ∃ rest, data = encode h ++ rest.
Proof.
  intros H. unfold decode, SIZE in H. pose proof (cursor_start data) as C.
  decode_inv H. simplify_eq. split; [split; cbn; [|eauto with wire..]|].
  - by apply dec_stable.
  - eexists. unfold encode. cbn. wire_eq.
Qed.

(** The bypass header: the decoder accepts exactly the 12-byte encodings of
    headers with the right magic and fields in range, followed by anything, and
    returns the header that was encoded. *)
Theorem header_decode_exact data h :
  decode data = Ok h ↔ header_wf h ∧ ∃ rest, data = encode h ++ rest.
Proof.
  split; [apply header_decode_inv|]. intros (Hwf & rest & ->).
  eapply header_decode_cursor; eauto using cursor_start.
Qed.

Lemma new_header_wf collection ttl seq : (0 ≤ ttl)%Z → header_wf (new collection ttl seq).
Proof.
  intros Ht. split; cbn; [done| |].
  - apply Z.mod_pos_bound. lia.
  - pose proof (Z.div_pos ttl 1000000 Ht ltac:(lia)). unfold in_u, umax. lia.
Qed.
End Header.
#[export] Hint Resolve Header.header_decode_no_panic : wire.

(** * Configuration *)
Inductive BypassTransport :=
| TransportUnicast
| TransportMulticast (group : IpAddr) (port : Z)
| TransportBroadcast.
Inductive MessageEncoding := Protobuf | Json | Raw | Cbor.

Record BypassCollectionConfig := {
  collection : bytes;
  transport : BypassTransport;
  encoding : MessageEncoding;
  config_ttl_ms : Z;  (* u64 *)
  priority : MessagePriority
}.
Record UdpConfig := { bind_port : Z; buffer_size : nat; multicast_ttl : Z }.
Record BypassChannelConfig := {
  udp : UdpConfig;
  collections : list BypassCollectionConfig;
  multicast_enabled : bool;
  max_message_size : nat
}.

Module ChannelConfig.
Definition default_udp : UdpConfig :=
  {| bind_port := 5150; buffer_size := Z.to_nat 65536; multicast_ttl := 32 |}.
Definition new : BypassChannelConfig :=
  {| udp := default_udp; collections := []; multicast_enabled := true;
     max_message_size := Z.to_nat 65000 |}.
Definition with_collection (c : BypassChannelConfig) (cc : BypassCollectionConfig)
    : BypassChannelConfig :=
  {| udp := udp c; collections := collections c ++ [cc];
     multicast_enabled := multicast_enabled c; max_message_size := max_message_size c |}.
Definition get_collection (c : BypassChannelConfig) (name : bytes)
    : option BypassCollectionConfig :=
  snd <$> list_find (λ cc, collection cc = name) (collections c).
Definition is_bypass_collection (c : BypassChannelConfig) (name : bytes) : bool :=
  bool_decide (Exists (λ cc, collection cc = name) (collections c)).
(** [Duration::from_millis], in nanoseconds. *)
Definition ttl (cc : BypassCollectionConfig) : Z := config_ttl_ms cc * 1000000.
End ChannelConfig.

(** * Security configuration and credentials *)
Record BypassSecurityConfig := {
  require_signature : bool;
  encrypt_payload : bool;
  source_allowlist : option (list IpAddr);
  replay_protection : bool;
  replay_window_size : nat
}.

Module SecurityConfig.
Definition none : BypassSecurityConfig :=
  {| require_signature := false; encrypt_payload := false; source_allowlist := None;
     replay_protection := false; replay_window_size := 0 |}.
Definition signed : BypassSecurityConfig :=
  {| require_signature := true; encrypt_payload := false; source_allowlist := None;
     replay_protection := false; replay_window_size := 0 |}.
Definition full_security : BypassSecurityConfig :=
  {| require_signature := true; encrypt_payload := true; source_allowlist := None;
     replay_protection := true; replay_window_size := 64 |}.
Definition is_enabled (c : BypassSecurityConfig) : bool :=
  require_signature c || encrypt_payload c || bool_decide (is_Some (source_allowlist c))
  || replay_protection c.
Definition is_source_allowed (c : BypassSecurityConfig) (ip : IpAddr) : bool :=
  match source_allowlist c with
  | Some l => bool_decide (ip ∈ l)
  | None => true
  end.
End SecurityConfig.

Module BypassCredentials.
Section with_crypto.
Context {Ed : Ed25519} {Cipher : Aead}.

Record BypassSecurityCredentials := {
  signing_key : option SigningKey;
  peer_keys : gmap bytes bytes;
  encryption_key : option bytes
}.

Definition new : BypassSecurityCredentials :=
  {| signing_key := None; peer_keys := ∅; encryption_key := None |}.
Definition with_signing_key (c : BypassSecurityCredentials) (k : SigningKey)
    : BypassSecurityCredentials :=
  {| signing_key := Some k; peer_keys := peer_keys c; encryption_key := encryption_key c |}.
Definition with_peer_key (c : BypassSecurityCredentials) (peer key : bytes)
    : BypassSecurityCredentials :=
  {| signing_key := signing_key c; peer_keys := <[peer := key]> (peer_keys c);
     encryption_key := encryption_key c |}.
Definition with_encryption_key (c : BypassSecurityCredentials) (key : bytes)
    : BypassSecurityCredentials :=
  {| signing_key := signing_key c; peer_keys := peer_keys c; encryption_key := Some key |}.
Definition verifying_key (c : BypassSecurityCredentials) : option bytes :=
  sk_public <$> signing_key c.

Definition sign (c : BypassSecurityCredentials) (message : bytes) : outcome BypassError bytes :=
  key ← ok_or (signing_key c) (MissingCredential "signing key");
  Ok (sk_sign key message).
Definition verify (c : BypassSecurityCredentials) (peer message sig : bytes)
    : outcome BypassError unit :=
  key ← ok_or (peer_keys c !! peer) (MissingCredential "peer key");
  if vk_verify key message sig then Ok tt else Err BadSignature.
Definition encrypt (c : BypassSecurityCredentials) (plaintext nonce : bytes)
    : outcome BypassError bytes :=
  key ← ok_or (encryption_key c) (MissingCredential "encryption key");
  ok_or (aead_encrypt key nonce plaintext) (EncodeError "Encryption failed").
Definition decrypt (c : BypassSecurityCredentials) (ciphertext nonce : bytes)
    : outcome BypassError bytes :=
  key ← ok_or (encryption_key c) (MissingCredential "encryption key");
  ok_or (aead_decrypt key nonce ciphertext) DecryptionFailed.
End with_crypto.
End BypassCredentials.

(** * The channel *)
Record BypassMessage := {
  source : SocketAddr;
  msg_collection_hash : Z;
  data : bytes;
  received_at : Z;
  msg_sequence : byte;
  msg_priority : MessagePriority
}.
Inductive BypassTarget :=
| Unicast (addr : SocketAddr)
| Multicast (group : IpAddr) (port : Z)
| Broadcast (port : Z).

(** The counters the channel updates ([AtomicU64]); the others stay at zero. *)
Record BypassMetrics := {
  messages_sent : Z;
  messages_received : Z;
  bytes_sent : Z;
  bytes_received : Z;
  invalid_dropped : Z;
  receive_errors : Z
}.
Definition fetch_add (x n : Z) : Z := wrap 64 (x + n).
Definition zero_metrics : BypassMetrics := {|
  messages_sent := 0; messages_received := 0; bytes_sent := 0; bytes_received := 0;
  invalid_dropped := 0; receive_errors := 0
|}.

Record UdpBypassChannel := {
  config : BypassChannelConfig;
  socket : bool;  (* a socket is bound *)
  multicast_sockets : gset IpAddr;
  collection_map : gmap Z BypassCollectionConfig;
  next_seq : byte;
  metrics : BypassMetrics;
  running : bool
}.

Module Channel.
(** The pairs (hash, config) collected into a map; a later pair replaces an
    earlier one with the same hash. *)
Definition collect (m : gmap Z BypassCollectionConfig) (l : list BypassCollectionConfig)
    : gmap Z BypassCollectionConfig :=
  foldl (λ m cc, <[Header.hash_collection (collection cc) := cc]> m) m l.

Definition new (c : BypassChannelConfig) : UdpBypassChannel := {|
  config := c;
  socket := false;
  multicast_sockets := ∅;
  collection_map := collect ∅ (collections c);
  next_seq := Byte.x00;
  metrics := zero_metrics;
  running := false
|}.

(** [bound] is what binding and configuring the socket returned. *)
Definition start (ch : UdpBypassChannel) (bound : outcome BypassError unit)
    : outcome BypassError UdpBypassChannel :=
  if running ch then Ok ch
  else
    _ ← bound;
    Ok {| config := config ch; socket := true; multicast_sockets := multicast_sockets ch;
          collection_map := collection_map ch; next_seq := next_seq ch;
          metrics := metrics ch; running := true |}.

Definition stop (ch : UdpBypassChannel) : UdpBypassChannel := {|
  config := config ch; socket := false; multicast_sockets := ∅;
  collection_map := collection_map ch; next_seq := next_seq ch;
  metrics := metrics ch; running := false
|}.

Definition bump_sequence (ch : UdpBypassChannel) : UdpBypassChannel := {|
  config := config ch; socket := socket ch; multicast_sockets := multicast_sockets ch;
  collection_map := collection_map ch; next_seq := as_u8 (u8 (next_seq ch) + 1);
  metrics := metrics ch; running := running ch
|}.
Definition next_sequence (ch : UdpBypassChannel) : byte * UdpBypassChannel :=
  (next_seq ch, bump_sequence ch).

Definition count_sent (ch : UdpBypassChannel) (n : Z) : UdpBypassChannel := {|
  config := config ch; socket := socket ch; multicast_sockets := multicast_sockets ch;
  collection_map := collection_map ch; next_seq := next_seq ch;
  metrics := {|
    messages_sent := fetch_add (messages_sent (metrics ch)) 1;
    messages_received := messages_received (metrics ch);
    bytes_sent := fetch_add (bytes_sent (metrics ch)) n;
    bytes_received := bytes_received (metrics ch);
    invalid_dropped := invalid_dropped (metrics ch);
    receive_errors := receive_errors (metrics ch)
  |};
  running := running ch
|}.

Definition join (ch : UdpBypassChannel) (group : IpAddr) : UdpBypassChannel := {|
  config := config ch; socket := socket ch;
  multicast_sockets := {[ group ]} ∪ multicast_sockets ch;
  collection_map := collection_map ch; next_seq := next_seq ch;
  metrics := metrics ch; running := running ch
|}.

(** [joined] is what creating a socket for a new group returned. *)
Definition get_or_create_multicast (ch : UdpBypassChannel) (group : IpAddr)
    (joined : outcome BypassError unit) : UdpBypassChannel * outcome BypassError unit :=
  if decide (group ∈ multicast_sockets ch) then (ch, Ok tt)
  else match joined with
  | Ok _ => (join ch group, Ok tt)
  | Err e => (ch, Err e)
  | Panic => (ch, Panic)
  end.

Definition leave_multicast (ch : UdpBypassChannel) (group : IpAddr) : UdpBypassChannel := {|
  config := config ch; socket := socket ch;
  multicast_sockets := multicast_sockets ch ∖ {[ group ]};
  collection_map := collection_map ch; next_seq := next_seq ch;
  metrics := metrics ch; running := running ch
|}.

(** [send_to] is the socket: it gets the destination and the frame and returns the
    number of bytes sent or an error.  The sequence number is used up even when
    the socket fails. *)
Definition send (ch : UdpBypassChannel) (target : BypassTarget) (coll payload : bytes)
    (joined : outcome BypassError unit)
    (send_to : BypassTarget → bytes → outcome BypassError Z)
    : UdpBypassChannel * outcome BypassError unit :=
  if negb (socket ch) then (ch, Err NotStarted)
  else if decide (0 < max_message_size (config ch) ∧ max_message_size (config ch) < length payload)
  then (ch, Err (MessageTooLarge (length payload) (max_message_size (config ch))))
  else
    let ttl := match ChannelConfig.get_collection (config ch) coll with
               | Some cc => ChannelConfig.ttl cc
               | None => 5000000000%Z
               end in
    let '(seq, ch) := next_sequence ch in
    let frame := Header.encode (Header.new coll ttl seq) ++ payload in
    let '(ch, ready) := match target with
                        | Multicast group _ => get_or_create_multicast ch group joined
                        | _ => (ch, Ok tt)
                        end in
    match (_ ← ready; send_to target frame) with
    | Ok n => (count_sent ch n, Ok tt)
    | Err e => (ch, Err e)
    | Panic => (ch, Panic)
    end.

Definition send_to_collection (ch : UdpBypassChannel) (coll : bytes)
    (target_addr : option SocketAddr) (payload : bytes) (joined : outcome BypassError unit)
    (send_to : BypassTarget → bytes → outcome BypassError Z)
    : UdpBypassChannel * outcome BypassError unit :=
  match ChannelConfig.get_collection (config ch) coll with
  | None => (ch, Err (Config "Unknown collection"))
  | Some cc =>
      match transport cc, target_addr with
      | TransportUnicast, None => (ch, Err (Config "Unicast requires target address"))
      | TransportUnicast, Some addr => send ch (Unicast addr) coll payload joined send_to
      | TransportMulticast group port, _ =>
          send ch (Multicast group port) coll payload joined send_to
      | TransportBroadcast, _ =>
          send ch (Broadcast (bind_port (udp (config ch)))) coll payload joined send_to
      end
  end.

Definition set_metrics (ch : UdpBypassChannel) (m : BypassMetrics) : UdpBypassChannel := {|
  config := config ch; socket := socket ch; multicast_sockets := multicast_sockets ch;
  collection_map := collection_map ch; next_seq := next_seq ch; metrics := m;
  running := running ch
|}.
Definition count_invalid (m : BypassMetrics) : BypassMetrics := {|
  messages_sent := messages_sent m; messages_received := messages_received m;
  bytes_sent := bytes_sent m; bytes_received := bytes_received m;
  invalid_dropped := fetch_add (invalid_dropped m) 1; receive_errors := receive_errors m
|}.
Definition count_received (m : BypassMetrics) (len : Z) : BypassMetrics := {|
  messages_sent := messages_sent m; messages_received := fetch_add (messages_received m) 1;
  bytes_sent := bytes_sent m; bytes_received := fetch_add (bytes_received m) len;
  invalid_dropped := invalid_dropped m; receive_errors := receive_errors m
|}.
Definition count_error (m : BypassMetrics) : BypassMetrics := {|
  messages_sent := messages_sent m; messages_received := messages_received m;
  bytes_sent := bytes_sent m; bytes_received := bytes_received m;
  invalid_dropped := invalid_dropped m; receive_errors := fetch_add (receive_errors m) 1
|}.

(** One datagram: [buf] is the receive buffer, [len] the length received; the
    result is what is broadcast to subscribers. *)
Definition receive (ch : UdpBypassChannel) (buf : bytes) (len : nat) (src : SocketAddr)
    (now : Z) : UdpBypassChannel * outcome BypassError (option BypassMessage) :=
  let drop_invalid := (set_metrics ch (count_invalid (metrics ch)), Ok None) in
  if decide (len < Header.SIZE) then drop_invalid
  else match (head ← slice buf 0 Header.SIZE; Header.decode head) with
  | Panic => (ch, Panic)
  | Err _ => drop_invalid
  | Ok h =>
      match slice (E:=BypassError) buf Header.SIZE len with
      | Ok payload =>
          (set_metrics ch (count_received (metrics ch) (Z.of_nat len)),
           Ok (Some {|
             source := src;
             msg_collection_hash := collection_hash h;
             data := payload;
             received_at := now;
             msg_sequence := sequence h;
             msg_priority :=
               from_option priority Normal (collection_map ch !! collection_hash h)
           |}))
      | _ => (ch, Panic)
      end
  end.

(** One turn of the receive loop: a datagram, a socket error or a timeout. *)
Inductive recv_result :=
| Datagram (buf : bytes) (len : nat) (src : SocketAddr)
| SocketError
| Timeout.
Definition receive_loop_body (ch : UdpBypassChannel) (r : recv_result) (now : Z)
    : UdpBypassChannel * outcome BypassError (option BypassMessage) :=
  match r with
  | Datagram buf len src => receive ch buf len src now
  | SocketError => (set_metrics ch (count_error (metrics ch)), Ok None)
  | Timeout => (ch, Ok None)
  end.

Definition get_collection_by_hash (ch : UdpBypassChannel) (hash : Z)
    : option BypassCollectionConfig := collection_map ch !! hash.

Lemma receive_no_panic ch buf len src now :
  len ≤ length buf → no_panic (receive ch buf len src now).2.
Proof.
  intros Hl. unfold receive. case_decide as Hs; [done|]. unfold Header.SIZE in *.
  rewrite !slice_in by lia. cbn [mbind outcome_bind].
  pose proof (Header.header_decode_no_panic (take (12 - 0) (drop 0 buf))).
  by destruct (Header.decode _).
Qed.

(** What [send] does when its guards pass, in terms of the frame. *)
Definition collection_ttl (ch : UdpBypassChannel) (coll : bytes) : Z :=
  from_option ChannelConfig.ttl 5000000000%Z (ChannelConfig.get_collection (config ch) coll).
Definition frame_of (ch : UdpBypassChannel) (coll payload : bytes) : bytes :=
  Header.encode (Header.new coll (collection_ttl ch coll) (next_seq ch)) ++ payload.

Definition sends_within_limit (ch : UdpBypassChannel) (payload : bytes) : Prop :=
  max_message_size (config ch) = 0 ∨ length payload ≤ max_message_size (config ch).

Lemma send_frame ch target coll payload joined send_to :
  socket ch = true → sends_within_limit ch payload →
  send ch target coll payload joined send_to =
    let '(ch', ready) := match target with
                         | Multicast group _ =>
                             get_or_create_multicast (bump_sequence ch) group joined
                         | _ => (bump_sequence ch, Ok tt)
                         end in
    match (_ ← ready; send_to target (frame_of ch coll payload)) with
    | Ok n => (count_sent ch' n, Ok tt)
    | Err e => (ch', Err e)
    | Panic => (ch', Panic)
    end.
Proof.
  intros Hs Hl. unfold send. rewrite Hs. cbn [negb].
  rewrite decide_False by (unfold sends_within_limit in Hl; lia).
  unfold frame_of, collection_ttl, next_sequence.
  by destruct (ChannelConfig.get_collection (config ch) coll).
Qed.

Lemma receive_frame ch ttl coll seq payload tail src now :
  (0 ≤ ttl)%Z →
  let frame := Header.encode (Header.new coll ttl seq) ++ payload in
  receive ch (frame ++ tail) (length frame) src now =
    (set_metrics ch (count_received (metrics ch) (zlen frame)),
     Ok (Some {|
       source := src;
       msg_collection_hash := Header.hash_collection coll;
       data := payload;
       received_at := now;
       msg_sequence := seq;
       msg_priority :=
         from_option priority Normal (collection_map ch !! Header.hash_collection coll)
     |})).
Proof.
  intros Ht frame. set (h := Header.new coll ttl seq) in *.
  assert (length (Header.encode h) = 12) as Hh.
  { unfold Header.encode. autorewrite with lens. done. }
  assert (length frame = 12 + length payload) as Hf.
  { unfold frame. autorewrite with lens. lia. }
  pose proof (cursor_start (frame ++ tail)) as C.
  unfold frame in C at 2. rewrite <- !(assoc_L (++)) in C.
  unfold receive. unfold Header.SIZE. rewrite decide_False by lia.
  rewrite (cursor_slice_at _ _ _ _ 0 12 C) by lia. cbn [mbind outcome_bind].
  rewrite (Header.header_decode_cursor h (Header.encode h) []); cycle 1.
  { by apply Header.new_header_wf. }
  { rewrite app_nil_r. apply cursor_start. }
  eapply cursor_skip in C; [|reflexivity].
  by rewrite (cursor_slice_at _ _ _ _ 12 (length frame) C) by lia.
Qed.

Definition ttls_ok (ch : UdpBypassChannel) : Prop :=
  Forall (λ cc, 0 ≤ config_ttl_ms cc)%Z (collections (config ch)).

Lemma collection_ttl_nonneg ch coll : ttls_ok ch → (0 ≤ collection_ttl ch coll)%Z.
Proof.
  intros Ht. unfold collection_ttl, ChannelConfig.get_collection.
  destruct (list_find _ _) as [[i cc]|] eqn:Hf; cbn; [|lia].
  apply list_find_Some in Hf as (Hi & _ & _).
  pose proof (Forall_lookup_1 _ _ _ _ Ht Hi) as Hcc. unfold ChannelConfig.ttl. cbn in Hcc. lia.
Qed.

(** Delivery over the bypass channel: a started channel hands the socket one
    frame for a payload within the size limit, and a channel that receives this
    frame, in a buffer with anything behind it, delivers the payload unchanged with
    the collection's hash, the sender's sequence number and the priority its own
    table has for the hash; the sender moves to the next sequence number and
    counts the message only if the socket took it. *)
Theorem bypass_delivery tx rx target coll payload joined src now :
  socket tx = true → sends_within_limit tx payload → ttls_ok tx →
  (∀ group port, target = Multicast group port → joined = Ok tt) →
  ∃ frame,
    (∀ send_to, ∃ tx',
       send tx target coll payload joined send_to =
         match send_to target frame with
         | Ok n => (count_sent tx' n, Ok tt)
         | Err e => (tx', Err e)
         | Panic => (tx', Panic)
         end ∧ next_seq tx' = as_u8 (u8 (next_seq tx) + 1) ∧ metrics tx' = metrics tx) ∧
    (∀ tail, (receive rx (frame ++ tail) (length frame) src now).2 = Ok (Some {|
       source := src;
       msg_collection_hash := Header.hash_collection coll;
       data := payload;
       received_at := now;
       msg_sequence := next_seq tx;
       msg_priority :=
         from_option priority Normal (collection_map rx !! Header.hash_collection coll)
     |})).
Proof.
  intros Hs Hl Ht Hj. exists (frame_of tx coll payload). split.
  - intros send_to. rewrite send_frame by done. destruct target as [addr|group port|port].
    + exists (bump_sequence tx). done.
    + unfold get_or_create_multicast. case_decide; [by exists (bump_sequence tx)|].
      rewrite (Hj _ _ eq_refl). by exists (join (bump_sequence tx) group).
    + exists (bump_sequence tx). done.
  - intros tail. unfold frame_of. rewrite receive_frame; [done|].
    by apply collection_ttl_nonneg.
Qed.

(** * The collection table *)
Lemma collect_notin (l : list BypassCollectionConfig) m h :
  h ∉ (λ cc, Header.hash_collection (collection cc)) <$> l →
  collect m l !! h = m !! h.
Proof.
  revert m. induction l as [|cc l IH]; intros m Hh; [done|]. cbn in *.
  apply not_elem_of_cons in Hh as [Hne Hh]. etrans; [by apply IH|]. by rewrite lookup_insert_ne.
Qed.

Lemma collect_lookup (l : list BypassCollectionConfig) m cc :
  NoDup ((λ cc, Header.hash_collection (collection cc)) <$> l) → cc ∈ l →
  collect m l !! Header.hash_collection (collection cc) = Some cc.
Proof.
  revert m. induction l as [|cc' l IH]; intros m Hnd Hin; [by apply not_elem_of_nil in Hin|].
  cbn in *. apply NoDup_cons in Hnd as [Hni Hnd].
  apply elem_of_cons in Hin as [->|Hin]; [|by apply IH].
  change (collect (<[Header.hash_collection (collection cc') := cc']> m) l
    !! Header.hash_collection (collection cc') = Some cc').
  rewrite collect_notin by done. apply lookup_insert_eq.
Qed.

(** The table of a channel by hash is its list by name: when the configured
    collections have different hashes, looking up the hash of a configured name
    in the receiver's table gives the entry [get_collection] gives for the name. *)
Theorem collection_table_by_name c name cc :
  NoDup ((λ cc, Header.hash_collection (collection cc)) <$> collections c) →
  ChannelConfig.get_collection c name = Some cc →
  get_collection_by_hash (new c) (Header.hash_collection name) = Some cc.
Proof.
  intros Hnd Hg. unfold ChannelConfig.get_collection in Hg.
  destruct (list_find _ _) as [[i cc']|] eqn:Hf; [|done]. cbn in Hg. simplify_eq.
  apply list_find_Some in Hf as (Hi & <- & _). apply list_elem_of_lookup_2 in Hi.
  by apply collect_lookup.
Qed.
End Channel.

(** * Witnesses *)
Definition ex_collection (name : string) (p : MessagePriority) : BypassCollectionConfig :=
  {| collection := str name; transport := TransportUnicast; encoding := Raw;
     config_ttl_ms := 5000; priority := p |}.
Definition ex_config : BypassChannelConfig :=
  ChannelConfig.with_collection
    (ChannelConfig.with_collection ChannelConfig.new (ex_collection "positions" High))
    (ex_collection "commands" Critical).
Definition ex_channel : UdpBypassChannel :=
  match Channel.start (Channel.new ex_config) (Ok tt) with
  | Ok ch => ch
  | _ => Channel.new ex_config
  end.

Lemma bypass_delivery_witness :
  ∃ frame, (Channel.receive ex_channel frame (length frame) (V4 [], 5150%Z) 7).2 = Ok (Some {|
    source := (V4 [], 5150%Z); msg_collection_hash := Header.hash_collection (str "commands");
    data := str "go"; received_at := 7; msg_sequence := Byte.x00; msg_priority := Critical |}).
Proof.
  destruct (Channel.bypass_delivery ex_channel ex_channel (Broadcast 5150) (str "commands")
              (str "go") (Ok tt) (V4 [], 5150%Z) 7) as (frame & _ & Hr).
  - done.
  - right. apply Nat.leb_le. vm_eq.
  - repeat constructor; done.
  - done.
  - exists frame. specialize (Hr []). rewrite app_nil_r in Hr. rewrite Hr. vm_eq.
Defined.

Lemma collection_table_by_name_witness :
  Channel.get_collection_by_hash (Channel.new ex_config) (Header.hash_collection (str "positions"))
  = Some (ex_collection "positions" High).
Proof.
  apply Channel.collection_table_by_name; [|vm_eq].
  apply (bool_decide_unpack _). vm_compute. done.
Defined.
