(* ===== verification/FlowControl.v ===== *)
(** Flow control of document sync ([src/storage/flow_control.rs]): the token
    bucket, the bounded queue, the per-document cooldown, the per-peer resource
    tracker and the controller that combines them.  The locks and the
    compare-and-swap loops make each operation atomic, so an execution is a
    sequence of operations.  Event counters are unbounded. *)
From Stdlib Require Import ZArith Lia Sorting.Sorted Strings.Byte Strings.String.
From stdpp Require Import prelude gmap.
From S2P Require Import Prelude Wire.

Set Default Proof Using "Type".
#[local] Open Scope Z_scope.

Inductive FlowControlError :=
| RateLimitExceeded
| QueueFull (max_size : nat)
| CooldownActive (remaining_ms : Z).

Record FlowControlConfig := {
  max_messages_per_second : Z;
  config_tokens_per_refill : Z;
  config_refill_interval : Z;
  max_queue_size : nat;
  sync_cooldown : Z;
  max_memory_per_peer : Z
}.
Definition default_config : FlowControlConfig := {|
  max_messages_per_second := 100;
  config_tokens_per_refill := 10;
  config_refill_interval := from_millis 100;
  max_queue_size := 1000;
  sync_cooldown := from_millis 100;
  max_memory_per_peer := 10 * 1024 * 1024
|}.

(** * [TokenBucket] *)
Record TokenBucket := {
  capacity : Z;           (* u32 *)
  tokens : Z;             (* u32 *)
  tokens_per_refill : Z;  (* u32 *)
  refill_interval : Z;
  last_refill : Z
}.

Module Bucket.
Definition new (cap tpr interval now : Z) : TokenBucket :=
  {| capacity := cap; tokens := cap; tokens_per_refill := tpr; refill_interval := interval;
     last_refill := now |}.

Definition set_tokens (b : TokenBucket) (n last : Z) : TokenBucket :=
  {| capacity := capacity b; tokens := n; tokens_per_refill := tokens_per_refill b;
     refill_interval := refill_interval b; last_refill := last |}.

(** The division panics for an interval below one millisecond, and the addition
    overflows when the tokens to add saturated. *)
Definition refill (p : profile) (b : TokenBucket) (now : Z)
    : outcome FlowControlError TokenBucket :=
  let elapsed := saturating_sub now (last_refill b) in
  if decide (elapsed < refill_interval b) then Ok b
  else if decide (as_millis (refill_interval b) = 0) then Panic
  else
    let periods := wrap 32 (as_millis elapsed / as_millis (refill_interval b)) in
    if decide (periods = 0) then Ok b
    else
      let tokens_to_add := saturating_mul 32 periods (tokens_per_refill b) in
      sum ← checked p 32 (tokens b + tokens_to_add);
      Ok (set_tokens b (Z.min sum (capacity b)) now).

Definition try_acquire (p : profile) (b : TokenBucket) (now : Z)
    : outcome FlowControlError (bool * TokenBucket) :=
  b ← refill p b now;
  if decide (tokens b = 0) then Ok (false, b)
  else Ok (true, set_tokens b (tokens b - 1) (last_refill b)).

Definition available_tokens (p : profile) (b : TokenBucket) (now : Z)
    : outcome FlowControlError (Z * TokenBucket) :=
  b ← refill p b now;
  Ok (tokens b, b).










(** Outside these bounds the bucket fails.  With a refill interval below one
    millisecond the first refill divides by zero and panics.  When the tokens to
    add saturate at [u32::MAX] and the bucket is not empty, the sum overflows: a
    debug build panics, a release build takes a token away instead of filling up. *)
Theorem token_bucket_failures b now p :
  in_u 32 (tokens b) → 0 ≤ refill_interval b → refill_interval b ≤ now - last_refill b →
  (refill_interval b < ns_per_ms → refill p b now = Panic) ∧
  (ns_per_ms ≤ refill_interval b → 0 < tokens b →
   2 ^ 32 - 1 ≤ wrap 32 (as_millis (now - last_refill b) / as_millis (refill_interval b))
                * tokens_per_refill b →
   refill Debug b now = Panic ∧
   refill Release b now = Ok (set_tokens b (Z.min (tokens b - 1) (capacity b)) now)).
Proof.
  intros Htok Hi He. unfold refill, saturating_sub. rewrite Z.max_r by lia.
  rewrite !(decide_False (P:=now - last_refill b < refill_interval b)) by lia. split.
  - intros Hs. rewrite decide_True; [done|]. unfold as_millis. by apply Z.div_small.
  - intros Hms Hpos Hsat.
    assert (0 < as_millis (refill_interval b)).
    { unfold as_millis. apply Z.div_str_pos. unfold ns_per_ms in *. lia. }
    cbv zeta. rewrite !(decide_False (P:=as_millis (refill_interval b) = 0)) by lia.
    set (n := wrap 32 _) in *.
    rewrite !(decide_False (P:=n = 0)) by (intros E; rewrite E in Hsat; lia).
    unfold saturating_mul, umax. rewrite Z.min_r by lia. unfold checked, in_u in *.
    rewrite (proj2 (Z.ltb_ge (tokens b + (2 ^ 32 - 1)) (2 ^ 32))) by lia. rewrite andb_false_r.
    split; [done|]. cbn [mbind outcome_bind]. unfold wrap.
    replace (tokens b + (2 ^ 32 - 1)) with (tokens b - 1 + 1 * 2 ^ 32) by lia.
    rewrite Z.mod_add, Z.mod_small by lia. done.
Qed.
End Bucket.

(** * [BoundedQueue] *)
Record BoundedQueue (T : Type) := {
  queue : list T;
  max_size : nat;
  total_enqueued : Z;
  total_dropped : Z
}.
Arguments queue {T}.
Arguments max_size {T}.
Arguments total_enqueued {T}.
Arguments total_dropped {T}.

Module Queue.
Section queue.
Context {T : Type}.

Definition new (max : nat) : BoundedQueue T :=
  {| queue := []; max_size := max; total_enqueued := 0; total_dropped := 0 |}.

Definition enqueue (q : BoundedQueue T) (item : T) : BoundedQueue T * option T :=
  let total := total_enqueued q + 1 in
  if decide (max_size q ≤ length (queue q))%nat then
    ({| queue := tail (queue q) ++ [item]; max_size := max_size q;
        total_enqueued := total; total_dropped := total_dropped q + 1 |}, head (queue q))
  else
    ({| queue := queue q ++ [item]; max_size := max_size q;
        total_enqueued := total; total_dropped := total_dropped q |}, None).

Definition try_enqueue (q : BoundedQueue T) (item : T) : BoundedQueue T * (unit + T) :=
  if decide (max_size q ≤ length (queue q))%nat then (q, inr item)
  else ({| queue := queue q ++ [item]; max_size := max_size q;
           total_enqueued := total_enqueued q + 1; total_dropped := total_dropped q |}, inl tt).

Definition dequeue (q : BoundedQueue T) : BoundedQueue T * option T :=
  ({| queue := tail (queue q); max_size := max_size q;
      total_enqueued := total_enqueued q; total_dropped := total_dropped q |}, head (queue q)).

Definition peek (q : BoundedQueue T) : option T := head (queue q).
Definition len (q : BoundedQueue T) : nat := length (queue q).
Definition is_empty (q : BoundedQueue T) : bool :=
  match queue q with [] => true | _ => false end.
Definition clear (q : BoundedQueue T) : BoundedQueue T :=
  {| queue := []; max_size := max_size q;
     total_enqueued := total_enqueued q; total_dropped := total_dropped q |}.

(** Enqueueing a list, with what each call dropped. *)
Fixpoint enqueue_all (q : BoundedQueue T) (items : list T) : BoundedQueue T * list T :=
  match items with
  | [] => (q, [])
  | x :: items =>
      let '(q, d) := enqueue q x in
      let '(q, ds) := enqueue_all q items in (q, option_list d ++ ds)
  end.

(** The bounded queue keeps the latest: from a queue within a positive bound,
    enqueueing any items leaves the last [max_size] of what was there followed by
    the items, in order, gives back everything else, oldest first, and counts
    exactly the items given back as dropped. *)
Theorem queue_keeps_latest items q :
  (0 < max_size q)%nat → (length (queue q) ≤ max_size q)%nat →
  let '(q', dropped) := enqueue_all q items in
  dropped ++ queue q' = queue q ++ items ∧
  length (queue q') = Nat.min (max_size q) (length (queue q) + length items) ∧
  total_enqueued q' = total_enqueued q + zlen items ∧
  total_dropped q' = total_dropped q + zlen dropped.
Proof.
  unfold zlen. revert q. induction items as [|x items IH]; intros q Hm Hl; cbn [enqueue_all].
  { rewrite app_nil_r. split_and!; cbn; try done; lia. }
  destruct (enqueue q x) as [q1 d] eqn:He.
  assert (option_list d ++ queue q1 = queue q ++ [x] ∧ max_size q1 = max_size q ∧
    length (queue q1) = Nat.min (max_size q) (S (length (queue q))) ∧
    total_enqueued q1 = total_enqueued q + 1 ∧
    total_dropped q1 = total_dropped q + Z.of_nat (length (option_list d))) as (Hq & Hms & Hlen & Hte & Htd).
  { unfold enqueue in He. case_decide; simplify_eq; cbn.
    - destruct (queue q) as [|y ys]; cbn in *; [lia|].
      split_and!; try done; rewrite ?length_app; cbn; lia.
    - rewrite length_app. cbn. split_and!; done || lia. }
  specialize (IH q1). destruct (enqueue_all q1 items) as [q2 ds].
  destruct IH as (IH1 & IH2 & IH3 & IH4); [lia..|].
  rewrite <- (assoc_L (++)), IH1, (assoc_L (++)), Hq, <- (assoc_L (++)), length_app. cbn [length app].
  split_and!; done || lia.
Qed.
End queue.

Lemma queue_keeps_latest_witness :
  let '(q, dropped) := enqueue_all (new 2) [1; 2; 3; 4]%nat in
  dropped ++ queue q = [1; 2; 3; 4]%nat ∧ total_dropped q = 2.
Proof.
  pose proof (queue_keeps_latest [1; 2; 3; 4]%nat (new 2)) as H. cbn in H |- *.
  destruct H as (_ & _ & _ & H); [lia..|]. by split.
Defined.
End Queue.

(** * [SyncCooldownTracker] *)
Record SyncCooldownTracker := {
  last_sync : gmap (bytes * bytes) Z;
  cooldown : Z;
  blocked_count : Z
}.

Module Cooldown.
Definition new (c : Z) : SyncCooldownTracker :=
  {| last_sync := ∅; cooldown := c; blocked_count := 0 |}.

Definition check_cooldown (t : SyncCooldownTracker) (peer doc : bytes) (now : Z)
    : SyncCooldownTracker * outcome FlowControlError unit :=
  match last_sync t !! (peer, doc) with
  | Some last =>
      let elapsed := saturating_sub now last in
      if decide (elapsed < cooldown t) then
        let remaining := cooldown t - elapsed in
        ({| last_sync := last_sync t; cooldown := cooldown t;
            blocked_count := blocked_count t + 1 |},
         Err (CooldownActive (wrap 64 (as_millis remaining))))
      else (t, Ok tt)
  | None => (t, Ok tt)
  end.

Definition record_sync (t : SyncCooldownTracker) (peer doc : bytes) (now : Z)
    : SyncCooldownTracker :=
  {| last_sync := <[(peer, doc) := now]> (last_sync t); cooldown := cooldown t;
     blocked_count := blocked_count t |}.

(** [Duration * 10] panics beyond 2^64 seconds. *)
Definition cleanup (t : SyncCooldownTracker) (now : Z)
    : outcome FlowControlError SyncCooldownTracker :=
  let threshold := cooldown t * 10 in
  if decide (from_secs (2 ^ 64) ≤ threshold) then Panic
  else Ok {| last_sync := filter (λ kt, saturating_sub now kt.2 < threshold) (last_sync t);
             cooldown := cooldown t; blocked_count := blocked_count t |}.

(** Cleaning up the cooldown table loses nothing: every check made later, for
    any peer and document, is decided as it would have been without the cleanup. *)
Theorem cleanup_keeps_decisions t now t' peer doc later :
  0 ≤ cooldown t → cleanup t now = Ok t' → now ≤ later →
  (check_cooldown t' peer doc later).2 = (check_cooldown t peer doc later).2.
Proof.
  intros Hc Hcl Hl. unfold cleanup in Hcl. case_decide; [done|]. simplify_eq.
  unfold check_cooldown. cbn [last_sync cooldown]. rewrite map_lookup_filter.
  destruct (last_sync t !! (peer, doc)) as [last|]; cbn; [|done].
  case_guard as Hg; cbn; [by case_decide|].
  rewrite decide_False; [done|]. unfold saturating_sub in *. lia.
Qed.

Lemma cleanup_keeps_decisions_witness :
  let t := record_sync (new 100) (str "p") (str "d") 5 in
  ∃ t', cleanup t 10 = Ok t' ∧ (check_cooldown t' (str "p") (str "d") 50).2 =
                               (check_cooldown t (str "p") (str "d") 50).2.
Proof.
  intros t. eexists. split; [reflexivity|].
  apply (cleanup_keeps_decisions t 10); [done|reflexivity|lia].
Defined.
End Cooldown.

(** * [PeerResourceTracker] *)
Record PeerResourceTracker := {
  memory_usage : Z;  (* u64 *)
  max_memory : Z;    (* u64 *)
  messages_sent : Z;
  messages_received : Z;
  messages_dropped : Z
}.

Module Resources.
Definition new (max : Z) : PeerResourceTracker :=
  {| memory_usage := 0; max_memory := max; messages_sent := 0; messages_received := 0;
     messages_dropped := 0 |}.

Definition set_usage (r : PeerResourceTracker) (u : Z) : PeerResourceTracker :=
  {| memory_usage := u; max_memory := max_memory r; messages_sent := messages_sent r;
     messages_received := messages_received r; messages_dropped := messages_dropped r |}.

Definition try_allocate (p : profile) (r : PeerResourceTracker) (n : Z)
    : outcome FlowControlError (bool * PeerResourceTracker) :=
  new_usage ← checked p 64 (memory_usage r + n);
  if decide (max_memory r < new_usage) then Ok (false, r)
  else Ok (true, set_usage r new_usage).

(** [fetch_sub] wraps. *)
Definition free (r : PeerResourceTracker) (n : Z) : PeerResourceTracker :=
  set_usage r (wrap 64 (memory_usage r - n)).

Definition record_sent (r : PeerResourceTracker) : PeerResourceTracker :=
  {| memory_usage := memory_usage r; max_memory := max_memory r;
     messages_sent := wrap 64 (messages_sent r + 1);
     messages_received := messages_received r; messages_dropped := messages_dropped r |}.
Definition record_received (r : PeerResourceTracker) : PeerResourceTracker :=
  {| memory_usage := memory_usage r; max_memory := max_memory r;
     messages_sent := messages_sent r;
     messages_received := wrap 64 (messages_received r + 1);
     messages_dropped := messages_dropped r |}.
Definition record_dropped (r : PeerResourceTracker) : PeerResourceTracker :=
  {| memory_usage := memory_usage r; max_memory := max_memory r;
     messages_sent := messages_sent r; messages_received := messages_received r;
     messages_dropped := wrap 64 (messages_dropped r + 1) |}.

(** What the tracker says about the allocations outstanding on it; requests leave
    the top bit of 64 free. *)
Inductive holds (max : Z) : PeerResourceTracker → list Z → Prop :=
| holds_new : holds max (new max) []
| holds_alloc p r l n r' :
    holds max r l → in_u 63 n → try_allocate p r n = Ok (true, r') → holds max r' (n :: l)
| holds_free r l1 n l2 :
    holds max r (l1 ++ n :: l2) → holds max (free r n) (l1 ++ l2).

Definition total (l : list Z) : Z := foldr Z.add 0 l.

Lemma total_app l1 l2 : total (l1 ++ l2) = total l1 + total l2.
Proof. unfold total. induction l1 as [|n l1 IH]; cbn; lia. Qed.
Lemma total_nonneg l : Forall (in_u 63) l → 0 ≤ total l.
Proof. unfold total. induction 1 as [|n l [Hn _] _ IH]; cbn; lia. Qed.

Lemma holds_inv max r l :
  in_u 63 max → holds max r l →
  Forall (in_u 63) l ∧ memory_usage r = total l ∧ total l ≤ max ∧ max_memory r = max.
Proof.
  intros Hmax. induction 1 as [|p r l n r' Hh (Hl & Hu & Hb & Hm) Hn Ha
                              |r l1 n l2 Hh (Hl & Hu & Hb & Hm)].
  - unfold in_u in Hmax. split_and!; cbn; [constructor|done|lia|done].
  - unfold try_allocate in Ha. pose proof (total_nonneg l Hl).
    rewrite checked_in in Ha by (unfold in_u in *; lia).
    cbn [mbind outcome_bind] in Ha. case_decide; simplify_eq.
    split_and!; cbn; [by constructor|fold (total l); lia..].
  - apply Forall_app in Hl as [Hl1 [Hn Hl2]%Forall_cons].
    pose proof (total_nonneg l1 Hl1). pose proof (total_nonneg l2 Hl2).
    rewrite total_app in Hu, Hb. cbn in Hu, Hb. fold (total l2) in Hu, Hb.
    rewrite total_app. unfold free, set_usage, wrap, in_u in *. cbn.
    rewrite Z.mod_small by lia. split_and!; [by apply Forall_app|lia..].
Qed.

(** Memory accounting: as long as callers free what they allocated, once, the
    usage of a tracker is the sum of the outstanding allocations and stays within
    the limit, for limits and single requests below 2^63 bytes. *)
Theorem outstanding_memory_bounded max r l :
  in_u 63 max → holds max r l → memory_usage r = total l ∧ 0 ≤ memory_usage r ≤ max.
Proof.
  intros Hmax Hh. destruct (holds_inv max r l Hmax Hh) as (Hl & Hu & Hb & _).
  pose proof (total_nonneg l Hl). lia.
Qed.

Lemma outstanding_memory_bounded_witness :
  let r := set_usage (new 1000) 700 in memory_usage r = total [300; 400].
Proof.
  intros r. apply (outstanding_memory_bounded 1000 r [300; 400]); [done|].
  apply (holds_alloc 1000 Debug (set_usage (new 1000) 400)); [|done|done].
  by apply (holds_alloc 1000 Debug (new 1000)); [apply holds_new|..].
Defined.
End Resources.

(** * [FlowController] *)
Record FlowController := {
  config : FlowControlConfig;
  rate_limiters : gmap bytes TokenBucket;
  cooldowns : SyncCooldownTracker;
  resources : gmap bytes PeerResourceTracker;
  rate_limited_count : Z
}.
Record FlowControlStats := {
  rate_limited : Z;
  queue_dropped : Z;
  cooldown_blocked : Z;
  total_memory_usage : Z;
  active_peers : nat
}.

Module Controller.
Definition with_config (c : FlowControlConfig) : FlowController :=
  {| config := c; rate_limiters := ∅; cooldowns := Cooldown.new (sync_cooldown c);
     resources := ∅; rate_limited_count := 0 |}.

Definition set_limiters (f : FlowController) (l : gmap bytes TokenBucket) (n : Z)
    : FlowController :=
  {| config := config f; rate_limiters := l; cooldowns := cooldowns f;
     resources := resources f; rate_limited_count := n |}.
Definition set_cooldowns (f : FlowController) (c : SyncCooldownTracker) : FlowController :=
  {| config := config f; rate_limiters := rate_limiters f; cooldowns := c;
     resources := resources f; rate_limited_count := rate_limited_count f |}.

(** The peer's limiter, or a new one, full. *)
Definition limiter (f : FlowController) (peer : bytes) (now : Z) : TokenBucket :=
  default (Bucket.new (max_messages_per_second (config f)) (config_tokens_per_refill (config f))
             (config_refill_interval (config f)) now) (rate_limiters f !! peer).

Definition check_sync_allowed (p : profile) (f : FlowController) (peer doc : bytes) (now : Z)
    : FlowController * outcome FlowControlError unit :=
  let b := limiter f peer now in
  match Bucket.try_acquire p b now with
  | Ok (true, b') =>
      let f := set_limiters f (<[peer := b']> (rate_limiters f)) (rate_limited_count f) in
      let '(c, r) := Cooldown.check_cooldown (cooldowns f) peer doc now in
      (set_cooldowns f c, r)
  | Ok (false, b') =>
      (set_limiters f (<[peer := b']> (rate_limiters f)) (wrap 64 (rate_limited_count f + 1)),
       Err RateLimitExceeded)
  | Err e => (f, Err e)
  | Panic => (set_limiters f (<[peer := b]> (rate_limiters f)) (rate_limited_count f), Panic)
  end.

Definition record_sync (f : FlowController) (peer doc : bytes) (now : Z) : FlowController :=
  set_cooldowns f (Cooldown.record_sync (cooldowns f) peer doc now).

(** The tracker in the table, created if missing, and a new object with the same
    contents: what is returned is not the one in the table. *)
Definition get_resource_tracker (f : FlowController) (peer : bytes)
    : FlowController * PeerResourceTracker :=
  let r := default (Resources.new (max_memory_per_peer (config f))) (resources f !! peer) in
  ({| config := config f; rate_limiters := rate_limiters f; cooldowns := cooldowns f;
      resources := <[peer := r]> (resources f); rate_limited_count := rate_limited_count f |}, r).

Definition stats (f : FlowController) : FlowControlStats := {|
  rate_limited := rate_limited_count f;
  queue_dropped := map_fold (λ _ r n, messages_dropped r + n) 0 (resources f);
  cooldown_blocked := blocked_count (cooldowns f);
  total_memory_usage := map_fold (λ _ r n, memory_usage r + n) 0 (resources f);
  active_peers := size (resources f)
|}.

Definition cleanup (f : FlowController) (now : Z) : outcome FlowControlError FlowController :=
  c ← Cooldown.cleanup (cooldowns f) now;
  Ok (set_cooldowns f c).

(** [available_tokens] refills the peer's limiter. *)
Definition available_tokens (p : profile) (f : FlowController) (peer : bytes) (now : Z)
    : outcome FlowControlError (Z * FlowController) :=
  match rate_limiters f !! peer with
  | Some b =>
      '(n, b') ← Bucket.available_tokens p b now;
      Ok (n, set_limiters f (<[peer := b']> (rate_limiters f)) (rate_limited_count f))
  | None => Ok (max_messages_per_second (config f), f)
  end.

(** A sync the controller allows took a token from the peer's own bucket and
    is outside the cooldown of its document: the last recorded sync of the same
    peer and document is at least [cooldown] ago.  Buckets of other peers, the
    cooldown table and the resource trackers are as before. *)
Theorem allowed_sync_within_limits p f peer doc now f' :
  check_sync_allowed p f peer doc now = (f', Ok tt) →
  (∃ b', Bucket.try_acquire p (limiter f peer now) now = Ok (true, b') ∧
         rate_limiters f' = <[peer := b']> (rate_limiters f)) ∧
  (∀ last, last_sync (cooldowns f) !! (peer, doc) = Some last →
           0 < cooldown (cooldowns f) → last + cooldown (cooldowns f) ≤ now) ∧
  cooldowns f' = cooldowns f ∧ resources f' = resources f.
Proof.
  unfold check_sync_allowed. cbv zeta.
  destruct (Bucket.try_acquire p (limiter f peer now) now) as [[[] b']| |]; try done.
  unfold Cooldown.check_cooldown. cbn [cooldowns set_limiters].
  destruct (last_sync (cooldowns f) !! (peer, doc)) as [last|].
  - case_decide as Hd; intros; simplify_eq. split_and!; [by exists b'| |done|done].
    intros ? [= <-] Hc. unfold saturating_sub in Hd. lia.
  - intros. simplify_eq. split_and!; [by exists b'|done|done|done].
Qed.

(** * Trackers in the hands of callers

    The world is the controller and the trackers it returned; callers act on the
    trackers they hold. *)
Inductive reachable : FlowController → list PeerResourceTracker → Prop :=
| reach_start c : reachable (with_config c) []
| reach_check p f hs peer doc now :
    reachable f hs → reachable (check_sync_allowed p f peer doc now).1 hs
| reach_record f hs peer doc now :
    reachable f hs → reachable (record_sync f peer doc now) hs
| reach_get f hs peer f' h :
    reachable f hs → get_resource_tracker f peer = (f', h) → reachable f' (h :: hs)
| reach_cleanup f hs now f' :
    reachable f hs → cleanup f now = Ok f' → reachable f' hs
| reach_tokens p f hs peer now n f' :
    reachable f hs → available_tokens p f peer now = Ok (n, f') → reachable f' hs
| reach_alloc p f hs i h n ok h' :
    reachable f hs → hs !! i = Some h → Resources.try_allocate p h n = Ok (ok, h') →
    reachable f (<[i := h']> hs)
| reach_free f hs i h n :
    reachable f hs → hs !! i = Some h → reachable f (<[i := Resources.free h n]> hs)
| reach_count f hs i h h' :
    reachable f hs → hs !! i = Some h →
    h' ∈ [Resources.record_sent h; Resources.record_received h; Resources.record_dropped h] →
    reachable f (<[i := h']> hs).

Definition untouched (r : PeerResourceTracker) : Prop :=
  memory_usage r = 0 ∧ messages_dropped r = 0.

Lemma check_resources p f peer doc now :
  resources (check_sync_allowed p f peer doc now).1 = resources f.
Proof.
  unfold check_sync_allowed. cbv zeta. destruct (Bucket.try_acquire _ _ _) as [[[] b']| |]; try done.
  by destruct (Cooldown.check_cooldown _ _ _ _).
Qed.

Lemma reachable_untouched f hs :
  reachable f hs → map_Forall (λ _, untouched) (resources f).
Proof.
  induction 1 as [c|p f hs peer doc now _ IH|f hs peer doc now _ IH|f hs peer f' h _ IH Hg
    |f hs now f' _ IH Hc|p f hs peer now n f' _ IH Ht| | |]; try done.
  - by rewrite check_resources.
  - unfold get_resource_tracker in Hg. simplify_eq. apply map_Forall_insert_2; [|done].
    destruct (resources f !! peer) as [r|] eqn:Hr; [by apply (IH peer r)|done].
  - unfold cleanup in Hc. apply bind_Ok_inv in Hc as (c & _ & Hc). by simplify_eq.
  - unfold available_tokens in Ht. destruct (rate_limiters f !! peer); [|by simplify_eq].
    apply bind_Ok_inv in Ht as ([m b'] & _ & Ht). by simplify_eq.
Qed.

Lemma map_fold_zero (g : PeerResourceTracker → Z) (m : gmap bytes PeerResourceTracker) :
  map_Forall (λ _ r, g r = 0) m → map_fold (λ _ r n, g r + n) 0 m = 0.
Proof.
  apply (map_fold_weak_ind (λ n m, map_Forall (λ _ r, g r = 0) m → n = 0)); [done|].
  intros i r m' n Hi IH Hm. apply map_Forall_insert in Hm as [Hr Hm]; [|done].
  rewrite Hr, IH by done. done.
Qed.

(** The resource figures of the controller never move: whatever the callers
    allocate, free or drop through the trackers [get_resource_tracker] returned,
    the controller reports no memory in use and no message dropped, because it
    hands out copies and keeps the originals. *)
Theorem resource_stats_stay_zero f hs :
  reachable f hs → total_memory_usage (stats f) = 0 ∧ queue_dropped (stats f) = 0.
Proof.
  intros Hr%reachable_untouched. cbn. split; apply map_fold_zero; intros i r [? ?]%Hr; done.
Qed.

Lemma resource_stats_stay_zero_witness :
  let f := (get_resource_tracker (with_config default_config) (str "peer")).1 in
  let h := Resources.set_usage (Resources.new (10 * 1024 * 1024)) 4096 in
  memory_usage h = 4096 ∧ total_memory_usage (stats f) = 0.
Proof.
  intros f h. split; [done|]. apply (resource_stats_stay_zero f [h]).
  apply (reach_alloc Debug f [Resources.new (10 * 1024 * 1024)] 0
           (Resources.new (10 * 1024 * 1024)) 4096 true h); [|done|done].
  apply (reach_get (with_config default_config) [] (str "peer")); [apply reach_start|done].
Defined.

Lemma allowed_sync_within_limits_witness :
  ∃ b', rate_limiters (check_sync_allowed Debug (with_config default_config) (str "p")
                         (str "d") 0).1 = {[ str "p" := b' ]}.
Proof.
  destruct (allowed_sync_within_limits Debug (with_config default_config) (str "p") (str "d") 0
    (check_sync_allowed Debug (with_config default_config) (str "p") (str "d") 0).1)
    as ((b' & _ & Hb) & _); [done|]. by exists b'.
Defined.
End Controller.


Lemma token_bucket_failures_witness :
  Bucket.refill Debug (Bucket.new 10 (2 ^ 32 - 1) (from_millis 1) 0) (from_millis 5) = Panic.
Proof.
  destruct (Bucket.token_bucket_failures (Bucket.new 10 (2 ^ 32 - 1) (from_millis 1) 0)
              (from_millis 5) Debug) as [_ H]; [done..|]. apply H; done.
Defined.
