(* ===== verification/SyncErrors.v ===== *)
(** Sync error handling ([src/storage/sync_errors.rs]): error severities, retry
    policies and the per-peer circuit breaker.  The retry delay (floating point with
    random jitter) is a parameter, and so is the environment that configures the
    breaker.  Event counters are unbounded. *)
From Stdlib Require Import ZArith Lia Strings.Byte Strings.String.
From stdpp Require Import prelude gmap.
From S2P Require Import Prelude Wire FlowControl.

Set Default Proof Using "Type".
#[local] Open Scope Z_scope.

Inductive SyncError :=
| Network (msg : bytes)
| Document (msg : bytes)
| PeerNotFound (msg : bytes)
| Protocol (msg : bytes)
| State (msg : bytes)
| ResourceExhaustion (msg : bytes)
| CircuitBreakerOpen
| BandwidthExhausted (class : bytes).

Inductive ErrorSeverity := Transient | Recoverable | Severe | Fatal.

Definition severity (e : SyncError) : ErrorSeverity :=
  match e with
  | Network _ => Recoverable
  | PeerNotFound _ => Transient
  | Protocol _ => Severe
  | Document _ => Fatal
  | State _ => Severe
  | ResourceExhaustion _ => Severe
  | CircuitBreakerOpen => Transient
  | BandwidthExhausted _ => Transient
  end.
Definition is_retryable (e : SyncError) : bool :=
  match severity e with Transient | Recoverable => true | _ => false end.

(** * Retry policies

    The multiplier and the jitter only enter the delay; they are kept as the
    decimal fractions of the source, in hundredths. *)
Record RetryPolicy := {
  initial_delay : Z;
  max_delay : Z;
  max_attempts : Z;
  backoff_multiplier_pct : Z;
  jitter_factor_pct : Z
}.
Module Policy.
Definition default_policy : RetryPolicy :=
  {| initial_delay := from_millis 100; max_delay := from_secs 30; max_attempts := 5;
     backoff_multiplier_pct := 200; jitter_factor_pct := 10 |}.
Definition transient : RetryPolicy :=
  {| initial_delay := from_millis 50; max_delay := from_secs 5; max_attempts := 10;
     backoff_multiplier_pct := 150; jitter_factor_pct := 10 |}.
Definition severe : RetryPolicy :=
  {| initial_delay := from_secs 1; max_delay := from_secs 60; max_attempts := 3;
     backoff_multiplier_pct := 300; jitter_factor_pct := 20 |}.
Definition should_retry (p : RetryPolicy) (attempt : Z) : bool :=
  bool_decide (attempt < max_attempts p).
End Policy.

(** * The circuit breaker *)
Inductive CircuitState := Closed | Open | HalfOpen.
Global Instance CircuitState_eq_dec : EqDecision CircuitState.
Proof. solve_decision. Defined.

Record CircuitBreakerConfig := {
  failure_threshold : Z;
  failure_window : Z;
  open_timeout : Z;
  success_threshold : Z
}.
(** [str::parse] at an unsigned type of width [w]: an optional sign and at least one
    decimal digit, with the value in range. *)
Fixpoint parse_digits (acc : Z) (s : bytes) : option Z :=
  match s with
  | [] => Some acc
  | b :: s =>
      if decide (48 ≤ u8 b ≤ 57) then parse_digits (10 * acc + (u8 b - 48)) s else None
  end.
Definition parse_uint (w : Z) (s : bytes) : option Z :=
  let digits := match s with x2b :: rest => rest | _ => s end in
  if decide (digits = []) then None
  else n ← parse_digits 0 digits; if decide (in_u w n) then Some n else None.

(** [env] is the value of each environment variable, where it is set. *)
Definition from_env (env : bytes → option bytes) : CircuitBreakerConfig :=
  let get w var d := default d (env (str var) ≫= parse_uint w) in
  {| failure_threshold := get 32 "CIRCUIT_FAILURE_THRESHOLD"%string 5;
     failure_window := from_secs (get 64 "CIRCUIT_FAILURE_WINDOW_SECS"%string 5);
     open_timeout := from_secs (get 64 "CIRCUIT_OPEN_TIMEOUT_SECS"%string 5);
     success_threshold := get 32 "CIRCUIT_SUCCESS_THRESHOLD"%string 2 |}.
(** The configuration of an empty environment. *)
Definition default_circuit : CircuitBreakerConfig := from_env (λ _, None).

Record PeerHealthTracker := {
  circuit_state : CircuitState;
  consecutive_failures : Z;
  consecutive_successes : Z;
  last_failure_time : option Z;
  circuit_opened_at : option Z;
  total_failures : Z;
  last_error : option SyncError;
  retry_attempt : Z
}.

Module Health.
Definition default_health : PeerHealthTracker := {|
  circuit_state := Closed; consecutive_failures := 0; consecutive_successes := 0;
  last_failure_time := None; circuit_opened_at := None; total_failures := 0;
  last_error := None; retry_attempt := 0
|}.

Definition record_success (h : PeerHealthTracker) : PeerHealthTracker := {|
  circuit_state := circuit_state h; consecutive_failures := 0;
  consecutive_successes := consecutive_successes h + 1;
  last_failure_time := last_failure_time h; circuit_opened_at := circuit_opened_at h;
  total_failures := total_failures h; last_error := last_error h; retry_attempt := 0
|}.

Definition record_failure (h : PeerHealthTracker) (e : SyncError) (now : Z)
    : PeerHealthTracker := {|
  circuit_state := circuit_state h; consecutive_failures := consecutive_failures h + 1;
  consecutive_successes := 0; last_failure_time := Some now;
  circuit_opened_at := circuit_opened_at h; total_failures := total_failures h + 1;
  last_error := Some e; retry_attempt := retry_attempt h + 1
|}.

Definition reset (h : PeerHealthTracker) : PeerHealthTracker := default_health.

(** Assignments to the fields the handler changes. *)
Definition set_circuit (h : PeerHealthTracker) (s : CircuitState) (opened : option Z)
    (attempt : Z) : PeerHealthTracker := {|
  circuit_state := s; consecutive_failures := consecutive_failures h;
  consecutive_successes := consecutive_successes h; last_failure_time := last_failure_time h;
  circuit_opened_at := opened; total_failures := total_failures h; last_error := last_error h;
  retry_attempt := attempt
|}.
End Health.

Record SyncErrorHandler := {
  retry_policy : RetryPolicy;
  circuit_config : CircuitBreakerConfig;
  peer_health : gmap bytes PeerHealthTracker
}.

Module Handler.
Section handler.
(** [RetryPolicy::delay_for_attempt], as computed in one call. *)
Context (delay_for_attempt : RetryPolicy → Z → Z).

Definition with_policies (p : RetryPolicy) (c : CircuitBreakerConfig) : SyncErrorHandler :=
  {| retry_policy := p; circuit_config := c; peer_health := ∅ |}.

Definition health_of (s : SyncErrorHandler) (peer : bytes) : PeerHealthTracker :=
  default Health.default_health (peer_health s !! peer).
Definition set_health (s : SyncErrorHandler) (peer : bytes) (h : PeerHealthTracker)
    : SyncErrorHandler :=
  {| retry_policy := retry_policy s; circuit_config := circuit_config s;
     peer_health := <[peer := h]> (peer_health s) |}.

(** [handle_error] on one tracker: the new tracker and the answer,
    [Ok (Some delay)], [Ok None] or [Err]. *)
Definition on_error (s : SyncErrorHandler) (h : PeerHealthTracker) (e : SyncError) (now : Z)
    : PeerHealthTracker * outcome SyncError (option Z) :=
  let h := Health.record_failure h e now in
  let retry :=
    if negb (is_retryable e) then Ok None
    else
      let policy := match severity e with
                    | Transient => Policy.transient
                    | Severe => Policy.severe
                    | _ => retry_policy s
                    end in
      if negb (Policy.should_retry policy (retry_attempt h)) then Ok None
      else Ok (Some (delay_for_attempt policy (retry_attempt h))) in
  match circuit_state h with
  | Open =>
      match circuit_opened_at h with
      | Some opened_at =>
          if decide (open_timeout (circuit_config s) ≤ saturating_sub now opened_at) then
            (Health.set_circuit h HalfOpen (circuit_opened_at h) 0, Ok (Some 0))
          else (h, Err CircuitBreakerOpen)
      | None => (h, Err CircuitBreakerOpen)
      end
  | HalfOpen =>
      if decide (1 ≤ consecutive_failures h) then
        (Health.set_circuit h Open (Some now) (retry_attempt h), Err CircuitBreakerOpen)
      else (h, retry)
  | Closed =>
      if decide (failure_threshold (circuit_config s) ≤ consecutive_failures h) then
        (Health.set_circuit h Open (Some now) (retry_attempt h), Err CircuitBreakerOpen)
      else (h, retry)
  end.

Definition handle_error (s : SyncErrorHandler) (peer : bytes) (e : SyncError) (now : Z)
    : SyncErrorHandler * outcome SyncError (option Z) :=
  let '(h, r) := on_error s (health_of s peer) e now in (set_health s peer h, r).

Definition on_success (s : SyncErrorHandler) (h : PeerHealthTracker) : PeerHealthTracker :=
  let h := Health.record_success h in
  if decide (circuit_state h = HalfOpen ∧
             success_threshold (circuit_config s) ≤ consecutive_successes h) then
    Health.set_circuit h Closed None (retry_attempt h)
  else h.
Definition record_success (s : SyncErrorHandler) (peer : bytes) : SyncErrorHandler :=
  set_health s peer (on_success s (health_of s peer)).

Definition reset_peer (s : SyncErrorHandler) (peer : bytes) : SyncErrorHandler :=
  match peer_health s !! peer with
  | Some h => set_health s peer (Health.reset h)
  | None => s
  end.

Definition is_circuit_open (s : SyncErrorHandler) (peer : bytes) : bool :=
  match peer_health s !! peer with
  | Some h => bool_decide (circuit_state h = Open)
  | None => false
  end.

(** * Invariant of the trackers *)
Record health_ok (c : CircuitBreakerConfig) (h : PeerHealthTracker) : Prop := {
  hok_failures : 0 ≤ consecutive_failures h;
  hok_successes : 0 ≤ consecutive_successes h;
  hok_closed : circuit_state h = Closed →
    consecutive_failures h < failure_threshold c ∧ circuit_opened_at h = None;
  hok_opened : circuit_state h ≠ Closed → is_Some (circuit_opened_at h);
  hok_half : circuit_state h = HalfOpen → consecutive_successes h < success_threshold c
}.

Lemma default_health_ok c : 0 < failure_threshold c → health_ok c Health.default_health.
Proof. intros. by split. Qed.

Lemma on_error_ok s h e now :
  0 < success_threshold (circuit_config s) → health_ok (circuit_config s) h →
  health_ok (circuit_config s) (on_error s h e now).1.
Proof.
  intros Hs [Hf Hsu Hc Ho Hh]. unfold on_error. cbv zeta.
  cbn [circuit_state circuit_opened_at consecutive_failures Health.record_failure].
  destruct (circuit_state h) eqn:Hst.
  - destruct (Hc eq_refl) as [_ Hop]. case_decide; split; cbn; rewrite ?Hst; try done; try lia. split; [lia|done].
  - destruct (Ho ltac:(done)) as [t Ht]. rewrite Ht.
    case_decide; split; cbn; rewrite ?Hst, ?Ht; done || lia || eauto.
  - rewrite decide_True by lia. split; cbn; done || lia || eauto.
Qed.

Lemma on_success_ok s h :
  0 < failure_threshold (circuit_config s) → health_ok (circuit_config s) h →
  health_ok (circuit_config s) (on_success s h).
Proof.
  intros Hs [Hf Hsu Hc Ho Hh]. unfold on_success. cbv zeta. cbn.
  case_decide as Hd; split; cbn; try done; try lia.
  - intros Hst. destruct (Hc Hst). done.
  - intros Hst. destruct (decide (success_threshold (circuit_config s) ≤ consecutive_successes h + 1));
      [naive_solver|lia].
Qed.

(** The answer of the handler and the state of the circuit agree. *)
Lemma on_error_answer s h e now :
  health_ok (circuit_config s) h →
  ((on_error s h e now).2 = Err CircuitBreakerOpen ↔ circuit_state (on_error s h e now).1 = Open).
Proof.
  intros [Hf Hsu Hc Ho Hh]. unfold on_error. cbv zeta.
  cbn [circuit_state circuit_opened_at consecutive_failures Health.record_failure].
  destruct (circuit_state h) eqn:Hst.
  - case_decide; cbn; [done|]. rewrite Hst. repeat case_match; naive_solver.
  - destruct (Ho ltac:(done)) as [t Ht]. rewrite Ht. case_decide; cbn; [done|]. by rewrite Hst.
  - rewrite decide_True by lia. done.
Qed.

(** * Handlers in use *)
Inductive handler_reachable (p : RetryPolicy) (c : CircuitBreakerConfig)
    : SyncErrorHandler → Prop :=
| hr_new : handler_reachable p c (with_policies p c)
| hr_error s peer e now :
    handler_reachable p c s → handler_reachable p c (handle_error s peer e now).1
| hr_success s peer : handler_reachable p c s → handler_reachable p c (record_success s peer)
| hr_reset s peer : handler_reachable p c s → handler_reachable p c (reset_peer s peer).

Definition handler_ok (s : SyncErrorHandler) : Prop :=
  map_Forall (λ _, health_ok (circuit_config s)) (peer_health s).

Lemma health_of_ok s peer :
  0 < failure_threshold (circuit_config s) → handler_ok s →
  health_ok (circuit_config s) (health_of s peer).
Proof.
  intros Hf Hs. unfold health_of. destruct (peer_health s !! peer) as [h|] eqn:Hl; cbn.
  - by apply (Hs peer).
  - by apply default_health_ok.
Qed.

Lemma handle_error_health s peer e now :
  (handle_error s peer e now) =
    (set_health s peer (on_error s (health_of s peer) e now).1,
     (on_error s (health_of s peer) e now).2).
Proof. unfold handle_error. by destruct (on_error _ _ _ _). Qed.

Lemma set_health_ok s peer h :
  handler_ok s → health_ok (circuit_config s) h → handler_ok (set_health s peer h).
Proof. intros Hs Hh. by apply map_Forall_insert_2. Qed.

Lemma handler_reachable_ok p c s :
  0 < failure_threshold c → 0 < success_threshold c → handler_reachable p c s →
  circuit_config s = c ∧ handler_ok s.
Proof.
  intros Hf Hsu. induction 1 as [|s peer e now _ [Hc IH]|s peer _ [Hc IH]|s peer _ [Hc IH]].
  - split; [done|apply map_Forall_empty].
  - rewrite handle_error_health. split; [done|]. apply set_health_ok; [done|].
    apply on_error_ok; [by rewrite Hc|]. apply health_of_ok; [by rewrite Hc|done].
  - split; [done|]. apply set_health_ok; [done|].
    apply on_success_ok; [by rewrite Hc|]. apply health_of_ok; [by rewrite Hc|done].
  - unfold reset_peer. destruct (peer_health s !! peer); [|done]. split; [done|].
    apply set_health_ok; [done|]. apply default_health_ok. by rewrite Hc.
Qed.

(** C34.  The circuit breaker of a peer: in every handler reached by errors,
    successes and resets, a closed circuit has fewer consecutive failures than the
    threshold, an open or half-open one carries the time it was opened, a half-open
    one has not yet seen enough successes to close, and the handler answers
    "circuit breaker open" to an error exactly when it leaves the circuit open. *)
Theorem circuit_breaker_invariant p c s :
  0 < failure_threshold c → 0 < success_threshold c → handler_reachable p c s →
  map_Forall (λ _, health_ok c) (peer_health s) ∧
  ∀ peer e now, (handle_error s peer e now).2 = Err CircuitBreakerOpen ↔
                is_circuit_open (handle_error s peer e now).1 peer = true.
Proof.
  intros Hf Hsu Hr. destruct (handler_reachable_ok p c s Hf Hsu Hr) as [Hc Hok].
  split; [by rewrite <- Hc|]. intros peer e now. rewrite handle_error_health.
  unfold is_circuit_open. cbn. rewrite lookup_insert_eq, bool_decide_eq_true.
  apply on_error_answer, health_of_ok; [by rewrite Hc|done].
Qed.

(** Consecutive failures of one tracker. *)
Definition fail_all (s : SyncErrorHandler) (h : PeerHealthTracker) (errs : list (SyncError * Z))
    : PeerHealthTracker := foldl (λ h et, (on_error s h et.1 et.2).1) h errs.

(** The circuit opens on exactly the failure that reaches the threshold:
    after [k] more consecutive failures of any kind a closed circuit is still
    closed when fewer than the threshold are on record and open when they reach it. *)
Theorem circuit_opens_at_threshold s h errs :
  circuit_state h = Closed → consecutive_failures h < failure_threshold (circuit_config s) →
  consecutive_failures h + zlen errs ≤ failure_threshold (circuit_config s) →
  circuit_state (fail_all s h errs) =
    if decide (consecutive_failures h + zlen errs = failure_threshold (circuit_config s))
    then Open else Closed.
Proof.
  unfold zlen. revert h. induction errs as [|[e now] errs IH]; intros h Hst Hlt Hle; cbn in *.
  { rewrite decide_False by lia. done. }
  destruct (decide (failure_threshold (circuit_config s) ≤ consecutive_failures h + 1)) as [Ht|Ht].
  - destruct errs; cbn in *; [|lia]. rewrite decide_True by lia.
    unfold on_error. cbn. rewrite Hst. by rewrite decide_True.
  - assert ((on_error s h e now).1 = Health.record_failure h e now) as ->.
    { unfold on_error. cbn. rewrite Hst. by rewrite decide_False. }
    etrans; [apply IH; cbn; done || lia|]. cbn. repeat case_decide; done || lia.
Qed.
End handler.
End Handler.

(** * Witnesses *)
Definition flat_delay (p : RetryPolicy) (attempt : Z) : Z := initial_delay p.
Definition ex_handler : SyncErrorHandler :=
  Handler.with_policies Policy.default_policy default_circuit.

Lemma circuit_breaker_invariant_witness :
  map_Forall (λ _, Handler.health_ok default_circuit)
    (peer_health (Handler.handle_error flat_delay ex_handler (str "p") (Network []) 7).1).
Proof.
  apply (Handler.circuit_breaker_invariant flat_delay Policy.default_policy default_circuit);
    [done|done|]. apply Handler.hr_error, Handler.hr_new.
Defined.

Lemma circuit_opens_at_threshold_witness :
  circuit_state (Handler.fail_all flat_delay ex_handler Health.default_health
    (replicate 5 (Protocol [], 3))) = Open ∧
  circuit_state (Handler.fail_all flat_delay ex_handler Health.default_health
    (replicate 4 (Network [], 3))) = Closed.
Proof.
  split.
  - by rewrite Handler.circuit_opens_at_threshold.
  - by rewrite Handler.circuit_opens_at_threshold.
Defined.
