(* ===== verification/SyncCoordinator.v ===== *)
(** How the sync coordinator uses the circuit breaker and flow control
    ([initiate_sync] and [sync_documents_batch] of [src/storage/automerge_sync.rs]).
    A sync is two steps, before and after its network operation, so that syncs of
    any peers interleave; the outcome of the operation is an input.  Documents,
    transport and the sync protocol itself are not part of the model. *)
From Stdlib Require Import ZArith Lia Strings.Byte Strings.String.
From stdpp Require Import prelude gmap relations.
From S2P Require Import Prelude Wire Text FlowControl SyncErrors.

Set Default Proof Using "Type".
#[local] Open Scope Z_scope.

Record SyncCoordinator := {
  error_handler : SyncErrorHandler;
  flow_controller : FlowController;
  in_flight : list bytes  (* peers of the syncs whose network operation is running *)
}.

Inductive SyncRefusal := RefusedByCircuit | RefusedByFlow (e : FlowControlError).

Module Coordinator.
Section coordinator.
Context (delay_for_attempt : RetryPolicy → Z → Z).

Definition set_handler (c : SyncCoordinator) (h : SyncErrorHandler) : SyncCoordinator :=
  {| error_handler := h; flow_controller := flow_controller c; in_flight := in_flight c |}.
Definition set_flow (c : SyncCoordinator) (f : FlowController) : SyncCoordinator :=
  {| error_handler := error_handler c; flow_controller := f; in_flight := in_flight c |}.
Definition set_in_flight (c : SyncCoordinator) (l : list bytes) : SyncCoordinator :=
  {| error_handler := error_handler c; flow_controller := flow_controller c; in_flight := l |}.

(** [initiate_sync] up to the call of [initiate_sync_inner]. *)
Definition begin_sync (p : profile) (c : SyncCoordinator) (peer doc : bytes) (now : Z)
    : SyncCoordinator * outcome SyncRefusal unit :=
  if Handler.is_circuit_open (error_handler c) peer then (c, Err RefusedByCircuit)
  else
    let '(f, r) := Controller.check_sync_allowed p (flow_controller c) peer doc now in
    let c := set_flow c f in
    match r with
    | Ok _ => (set_in_flight c (peer :: in_flight c), Ok tt)
    | Err e => (c, Err (RefusedByFlow e))
    | Panic => (c, Panic)
    end.

Definition classify_sync_error (e : bytes) : SyncError :=
  if contains e (str "connection") || contains e (str "network") then Network e
  else if contains e (str "document") || contains e (str "CRDT") then Document e
  else Protocol e.

(** [initiate_sync] after it; [None] is success, [Some e] an error message. *)
Definition end_sync (c : SyncCoordinator) (peer doc : bytes) (result : option bytes) (now : Z)
    : SyncCoordinator :=
  match result with
  | None =>
      let c := set_handler c (Handler.record_success (error_handler c) peer) in
      set_flow c (Controller.record_sync (flow_controller c) peer doc now)
  | Some e =>
      set_handler c
        (Handler.handle_error delay_for_attempt (error_handler c) peer (classify_sync_error e) now).1
  end.

(** [sync_documents_batch]: before, and after sending the batch. *)
Definition begin_batch (c : SyncCoordinator) (peer : bytes)
    : SyncCoordinator * outcome SyncRefusal unit :=
  if Handler.is_circuit_open (error_handler c) peer then (c, Err RefusedByCircuit)
  else (set_in_flight c (peer :: in_flight c), Ok tt).

Definition classify_batch_error (e : bytes) : SyncError :=
  if contains e (str "connection") || contains e (str "network") then Network e
  else Protocol e.

Definition end_batch (c : SyncCoordinator) (peer : bytes) (docs : list bytes)
    (result : option bytes) (now : Z) : SyncCoordinator :=
  match result with
  | None =>
      let c := set_handler c (Handler.record_success (error_handler c) peer) in
      set_flow c (foldl (λ f doc, Controller.record_sync f peer doc now) (flow_controller c) docs)
  | Some e =>
      set_handler c
        (Handler.handle_error delay_for_attempt (error_handler c) peer (classify_batch_error e) now).1
  end.

(** Interleavings of syncs with any peers. *)
Inductive step : SyncCoordinator → SyncCoordinator → Prop :=
| step_begin_sync p c peer doc now : step c (begin_sync p c peer doc now).1
| step_end_sync c peer doc result now l1 l2 :
    in_flight c = l1 ++ peer :: l2 →
    step c (end_sync (set_in_flight c (l1 ++ l2)) peer doc result now)
| step_begin_batch c peer : step c (begin_batch c peer).1
| step_end_batch c peer docs result now l1 l2 :
    in_flight c = l1 ++ peer :: l2 →
    step c (end_batch (set_in_flight c (l1 ++ l2)) peer docs result now)
| step_batch_nothing c peer l1 l2 :  (* no batch could be built, or it was empty *)
    in_flight c = l1 ++ peer :: l2 → step c (set_in_flight c (l1 ++ l2)).

(** The circuit of [peer] is open and no sync with it is under way. *)
Definition latched (peer : bytes) (c : SyncCoordinator) : Prop :=
  Handler.is_circuit_open (error_handler c) peer = true ∧ peer ∉ in_flight c.

Lemma set_health_other s peer peer' h :
  peer ≠ peer' →
  Handler.is_circuit_open (Handler.set_health s peer' h) peer = Handler.is_circuit_open s peer.
Proof. intros. unfold Handler.is_circuit_open. cbn. by rewrite lookup_insert_ne. Qed.

Lemma end_sync_other c peer peer' doc result now :
  peer ≠ peer' →
  Handler.is_circuit_open (error_handler (end_sync c peer' doc result now)) peer =
    Handler.is_circuit_open (error_handler c) peer.
Proof.
  intros. destruct result; cbn.
  - rewrite Handler.handle_error_health. by apply set_health_other.
  - by apply set_health_other.
Qed.

Lemma end_batch_other c peer peer' docs result now :
  peer ≠ peer' →
  Handler.is_circuit_open (error_handler (end_batch c peer' docs result now)) peer =
    Handler.is_circuit_open (error_handler c) peer.
Proof.
  intros. destruct result; cbn.
  - rewrite Handler.handle_error_health. by apply set_health_other.
  - by apply set_health_other.
Qed.

Lemma end_in_flight c peer doc docs result now :
  in_flight (end_sync c peer doc result now) = in_flight c ∧
  in_flight (end_batch c peer docs result now) = in_flight c.
Proof. by destruct result. Qed.

Lemma begin_sync_latched peer p c peer' doc now :
  latched peer c → latched peer (begin_sync p c peer' doc now).1.
Proof.
  intros [Ho Hf]. unfold begin_sync.
  destruct (Handler.is_circuit_open (error_handler c) peer') eqn:Ho'; [done|].
  destruct (Controller.check_sync_allowed p _ peer' doc now) as [f [[]|e|]]; split; cbn; try done.
  apply not_elem_of_cons. split; [congruence|done].
Qed.

Lemma begin_batch_latched peer c peer' : latched peer c → latched peer (begin_batch c peer').1.
Proof.
  intros [Ho Hf]. unfold begin_batch.
  destruct (Handler.is_circuit_open (error_handler c) peer') eqn:Ho'; [done|].
  split; [done|]. apply not_elem_of_cons. split; [congruence|done].
Qed.

Lemma step_latched peer c c' : latched peer c → step c c' → latched peer c'.
Proof.
  intros Hl Hs. destruct Hs as [p c peer' doc now|c peer' doc result now l1 l2 Hf|c peer'
    |c peer' docs result now l1 l2 Hf|c peer' l1 l2 Hf];
    [by apply begin_sync_latched| |by apply begin_batch_latched|..];
    destruct Hl as [Ho Hni]; rewrite Hf in Hni;
    apply not_elem_of_app in Hni as [H1 [Hne H2]%not_elem_of_cons]; split;
    rewrite ?end_sync_other, ?end_batch_other by done; try done;
    rewrite ?(proj1 (end_in_flight _ _ _ [] _ _)), ?(proj2 (end_in_flight _ _ [] _ _ _));
    apply not_elem_of_app; done.
Qed.

(** An open circuit does not recover: once the circuit of a peer is open and no
    sync with the peer is still under way, it stays open in every continuation,
    whatever happens with other peers and however much time passes, and every
    further sync or batch for the peer is refused.  The transition to half-open is
    made only by [handle_error], which is reached only after a sync was let through. *)
Theorem open_circuit_latches peer c c' p doc now :
  latched peer c → rtc step c c' →
  Handler.is_circuit_open (error_handler c') peer = true ∧
  begin_sync p c' peer doc now = (c', Err RefusedByCircuit) ∧
  begin_batch c' peer = (c', Err RefusedByCircuit).
Proof.
  intros Hl Hs. assert (latched peer c') as [Ho _].
  { induction Hs as [|c c1 c2 Hst _ IH]; [done|]. by apply IH, (step_latched peer c). }
  unfold begin_sync, begin_batch. by rewrite Ho.
Qed.
End coordinator.

(** Five failed syncs, the default threshold, and the circuit is latched, also an
    hour later. *)
Definition ex_delay (p : RetryPolicy) (attempt : Z) : Z := initial_delay p.
Definition ex_start : SyncCoordinator :=
  {| error_handler := Handler.with_policies Policy.default_policy default_circuit;
     flow_controller := Controller.with_config default_config; in_flight := [] |}.
Definition ex_fail (c : SyncCoordinator) (now : Z) : SyncCoordinator :=
  end_sync ex_delay (begin_sync Debug c (str "peer") (str "doc") now).1 (str "peer") (str "doc")
    (Some (str "connection lost")) now.
Definition ex_latched : SyncCoordinator :=
  set_in_flight (foldl ex_fail ex_start [1; 2; 3; 4; 5]) [].

Lemma open_circuit_latches_witness :
  begin_sync Debug ex_latched (str "peer") (str "doc") (from_secs 3600)
  = (ex_latched, Err RefusedByCircuit).
Proof.
  apply (open_circuit_latches ex_delay (str "peer") ex_latched ex_latched Debug (str "doc")
           (from_secs 3600)).
  - split; [vm_eq|]. intros H. by apply not_elem_of_nil in H.
  - apply rtc_refl.
Defined.
End Coordinator.
