(* ===== verification/Routing.v ===== *)
(** Hierarchical routing ([src/routing/packet.rs], [router.rs], [mesh_router.rs],
    [aggregator.rs]): packets with hop counts, the deduplication cache, the routing
    decision, and the aggregation buffer.  A [HashMap] is a finite map; the order
    its iterators use is a parameter, any permutation of the entries. *)
From Stdlib Require Import ZArith Lia Sorting.Sorted Strings.Byte Strings.String.
From stdpp Require Import prelude gmap.
From S2P Require Import Prelude Wire.

Set Default Proof Using "Type".

(** * Packets *)
Inductive DataDirection := Upward | Downward | Lateral.
Inductive DataType :=
| Telemetry | Status | Command | Configuration | Coordination | AggregatedTelemetry.
Global Instance DataType_eq_dec : EqDecision DataType.
Proof. solve_decision. Defined.

Definition typical_direction (t : DataType) : DataDirection :=
  match t with
  | Telemetry | Status | AggregatedTelemetry => Upward
  | Command | Configuration => Downward
  | Coordination => Lateral
  end.
Definition requires_aggregation (t : DataType) : bool :=
  match t with Telemetry | Status => true | _ => false end.

Record DataPacket := {
  packet_id : bytes;
  source_node_id : bytes;
  destination_node_id : option bytes;
  data_type : DataType;
  direction : DataDirection;
  hop_count : Z;  (* u16 *)
  max_hops : Z;   (* u16 *)
  payload : bytes
}.

Module Packet.
(** [id] is the fresh UUID. *)
Definition telemetry (id src data : bytes) : DataPacket :=
  {| packet_id := id; source_node_id := src; destination_node_id := None;
     data_type := Telemetry; direction := Upward; hop_count := 0; max_hops := 10;
     payload := data |}.
Definition command (id src dst data : bytes) : DataPacket :=
  {| packet_id := id; source_node_id := src; destination_node_id := Some dst;
     data_type := Command; direction := Downward; hop_count := 0; max_hops := 10;
     payload := data |}.
Definition status (id src data : bytes) : DataPacket :=
  {| packet_id := id; source_node_id := src; destination_node_id := None;
     data_type := Status; direction := Upward; hop_count := 0; max_hops := 10;
     payload := data |}.
Definition coordination (id src dst data : bytes) : DataPacket :=
  {| packet_id := id; source_node_id := src; destination_node_id := Some dst;
     data_type := Coordination; direction := Lateral; hop_count := 0; max_hops := 3;
     payload := data |}.
Definition aggregated_telemetry (id src data : bytes) : DataPacket :=
  {| packet_id := id; source_node_id := src; destination_node_id := None;
     data_type := AggregatedTelemetry; direction := Upward; hop_count := 0; max_hops := 10;
     payload := data |}.

Definition set_hop_count (p : DataPacket) (n : Z) : DataPacket :=
  {| packet_id := packet_id p; source_node_id := source_node_id p;
     destination_node_id := destination_node_id p; data_type := data_type p;
     direction := direction p; hop_count := n; max_hops := max_hops p; payload := payload p |}.
Definition increment_hop (pr : profile) (p : DataPacket) : outcome unit (bool * DataPacket) :=
  n ← checked pr 16 (hop_count p + 1);
  Ok (bool_decide (n < max_hops p)%Z, set_hop_count p n).
Definition at_max_hops (p : DataPacket) : bool := bool_decide (max_hops p ≤ hop_count p)%Z.
End Packet.

(** * Topology, as the router reads it *)
Inductive NodeRole := Leader | Member | Standalone.
Global Instance NodeRole_eq_dec : EqDecision NodeRole.
Proof. solve_decision. Defined.

Record TopologyState := {
  selected_peer : option bytes;      (* the node id of the [SelectedPeer] *)
  linked_peers : gmap bytes Z;
  lateral_peers : gmap bytes Z;
  role : NodeRole
}.

Inductive RoutingDecision :=
| Consume
| Forward (next_hop : bytes)
| ConsumeAndForward (next_hop : bytes)
| ForwardMulticast (next_hops : list bytes)
| ConsumeAndForwardMulticast (next_hops : list bytes)
| Drop.

Record DeduplicationConfig := { enabled : bool; ttl : Z; max_entries : nat }.
Record SelectiveRouter := {
  dedup_config : DeduplicationConfig;
  seen_packets : gmap bytes Z  (* packet id to [first_seen] *)
}.

(** The order in which a [HashMap] is iterated. *)
Class HashOrder := {
  iter : gmap bytes Z → list (bytes * Z);
  iter_perm m : iter m ≡ₚ map_to_list m
}.

Module Router.
Section router.
Context {Order : HashOrder}.

Definition default_dedup : DeduplicationConfig :=
  {| enabled := true; ttl := from_secs 300; max_entries := Z.to_nat 10000 |}.
Definition new : SelectiveRouter :=
  {| dedup_config := {| enabled := false; ttl := ttl default_dedup;
                        max_entries := max_entries default_dedup |};
     seen_packets := ∅ |}.
Definition new_with_deduplication (c : DeduplicationConfig) : SelectiveRouter :=
  {| dedup_config := c; seen_packets := ∅ |}.

(** [iter().min_by_key(first_seen)]: the first of the oldest entries. *)
Fixpoint oldest (l : list (bytes * Z)) : option (bytes * Z) :=
  match l with
  | [] => None
  | e :: l =>
      match oldest l with
      | Some e' => if decide (e'.2 < e.2)%Z then Some e' else Some e
      | None => Some e
      end
  end.

Definition fresh (c : DeduplicationConfig) (now first_seen : Z) : Prop :=
  (saturating_sub now first_seen < ttl c)%Z.
Global Instance fresh_dec c now t : Decision (fresh c now t).
Proof. unfold fresh. apply _. Defined.

Definition evict_expired (c : DeduplicationConfig) (cache : gmap bytes Z) (now : Z)
    : gmap bytes Z := filter (λ e, fresh c now e.2) cache.

(** The insertion of a new id, with the evictions before it. *)
Definition record_packet (c : DeduplicationConfig) (cache : gmap bytes Z) (id : bytes) (now : Z)
    : gmap bytes Z :=
  let cache :=
    if decide (max_entries c ≤ size cache) then
      let cache := evict_expired c cache now in
      if decide (max_entries c ≤ size cache) then
        match oldest (iter cache) with
        | Some (key, _) => delete key cache
        | None => cache
        end
      else cache
    else cache in
  <[id := now]> cache.

Definition is_duplicate (r : SelectiveRouter) (id : bytes) (now : Z)
    : bool * SelectiveRouter :=
  let c := dedup_config r in
  if negb (enabled c) then (false, r)
  else
    let recorded :=
      {| dedup_config := c; seen_packets := record_packet c (seen_packets r) id now |} in
    match seen_packets r !! id with
    | Some first_seen => if decide (fresh c now first_seen) then (true, r) else (false, recorded)
    | None => (false, recorded)
    end.

Definition clear_dedup_cache (r : SelectiveRouter) : SelectiveRouter :=
  {| dedup_config := dedup_config r; seen_packets := ∅ |}.
Definition dedup_cache_size (r : SelectiveRouter) : nat := size (seen_packets r).

Definition should_consume (p : DataPacket) (s : TopologyState) (this_node_id : bytes) : bool :=
  match direction p with
  | Upward => true
  | Downward =>
      bool_decide (destination_node_id p = Some this_node_id) || bool_decide (role s = Leader)
  | Lateral =>
      match destination_node_id p with
      | Some dest => bool_decide (dest = this_node_id)
      | None => bool_decide (role s = Leader)
      end
  end.

Definition should_forward (p : DataPacket) (s : TopologyState) : bool :=
  match direction p with
  | Upward => bool_decide (is_Some (selected_peer s))
  | Downward => bool_decide (linked_peers s ≠ ∅)
  | Lateral =>
      match destination_node_id p with
      | Some dest => bool_decide (is_Some (lateral_peers s !! dest))
      | None => bool_decide (role s = Leader) && bool_decide (lateral_peers s ≠ ∅)
      end
  end.

(** The addressed peer when it is in the table, and otherwise the whole table. *)
Definition targets (dest : option bytes) (peers : gmap bytes Z) : list bytes :=
  match dest with
  | Some d => if decide (is_Some (peers !! d)) then [d] else (iter peers).*1
  | None => (iter peers).*1
  end.
Definition next_hop (p : DataPacket) (s : TopologyState) : option bytes :=
  match direction p with
  | Upward => selected_peer s
  | Downward => head (targets (destination_node_id p) (linked_peers s))
  | Lateral => head (targets (destination_node_id p) (lateral_peers s))
  end.
Definition next_hops (p : DataPacket) (s : TopologyState) : list bytes :=
  match direction p with
  | Upward => option_list (selected_peer s)
  | Downward => targets (destination_node_id p) (linked_peers s)
  | Lateral => targets (destination_node_id p) (lateral_peers s)
  end.

Definition decide_route (p : DataPacket) (s : TopologyState) (this_node_id : bytes)
    : RoutingDecision :=
  if Packet.at_max_hops p then Drop
  else if decide (source_node_id p = this_node_id) then Drop
  else
    match should_consume p s this_node_id, should_forward p s with
    | true, true =>
        match next_hops p s with
        | [] => Consume
        | [n] => ConsumeAndForward n
        | ns => ConsumeAndForwardMulticast ns
        end
    | true, false => Consume
    | false, true =>
        match next_hops p s with
        | [] => Drop
        | [n] => Forward n
        | ns => ForwardMulticast ns
        end
    | false, false => Drop
    end.

Definition route (r : SelectiveRouter) (p : DataPacket) (s : TopologyState)
    (this_node_id : bytes) (now : Z) : RoutingDecision * SelectiveRouter :=
  let '(dup, r) := is_duplicate r (packet_id p) now in
  (if dup : bool then Drop else decide_route p s this_node_id, r).

Definition should_aggregate (p : DataPacket) (d : RoutingDecision) (s : TopologyState) : bool :=
  match d with
  | ConsumeAndForward _ => requires_aggregation (data_type p) && bool_decide (role s = Leader)
  | _ => false
  end.

(** What a decision does. *)
Definition forward_to (d : RoutingDecision) : list bytes :=
  match d with
  | Forward n | ConsumeAndForward n => [n]
  | ForwardMulticast ns | ConsumeAndForwardMulticast ns => ns
  | _ => []
  end.
Definition consumes (d : RoutingDecision) : bool :=
  match d with
  | Consume | ConsumeAndForward _ | ConsumeAndForwardMulticast _ => true
  | _ => false
  end.

(** * Decisions *)
Lemma elem_of_targets dest peers n :
  n ∈ targets dest peers ↔
  is_Some (peers !! n) ∧ (∀ d, dest = Some d → is_Some (peers !! d) → n = d).
Proof.
  assert (∀ n, n ∈ (iter peers).*1 ↔ is_Some (peers !! n)) as Hiter.
  { intros m. rewrite list_elem_of_fmap. split.
    - intros ([k t] & -> & Hin). rewrite iter_perm in Hin.
      apply elem_of_map_to_list in Hin. by exists t.
    - intros [t Ht]. exists (m, t). split; [done|]. by rewrite iter_perm, elem_of_map_to_list. }
  unfold targets. destruct dest as [d|]; [|rewrite Hiter; naive_solver].
  case_decide as Hd.
  - rewrite list_elem_of_singleton. naive_solver.
  - rewrite Hiter. naive_solver.
Qed.

Lemma decide_route_effects p s me :
  let routable := negb (Packet.at_max_hops p) && bool_decide (source_node_id p ≠ me) in
  consumes (decide_route p s me) = routable && should_consume p s me ∧
  forward_to (decide_route p s me) =
    (if routable && should_forward p s then next_hops p s else []).
Proof.
  cbv zeta. unfold decide_route. destruct (Packet.at_max_hops p); [done|].
  case_decide as Hs; [by rewrite bool_decide_eq_false_2 by naive_solver|].
  rewrite bool_decide_eq_true_2 by done. cbn [negb andb].
  destruct (should_consume p s me), (should_forward p s); cbn; try done;
    by destruct (next_hops p s) as [|? [|? ?]].
Qed.

(** A packet that is new, has hops left and comes from another node. *)
Definition routable (r : SelectiveRouter) (p : DataPacket) (me : bytes) (now : Z) : Prop :=
  (is_duplicate r (packet_id p) now).1 = false ∧ (hop_count p < max_hops p)%Z ∧
  source_node_id p ≠ me.

Lemma route_effects r p s me now :
  (consumes (route r p s me now).1 = true ↔ routable r p me now ∧ should_consume p s me = true) ∧
  (∀ n, n ∈ forward_to (route r p s me now).1 ↔
        routable r p me now ∧ should_forward p s = true ∧ n ∈ next_hops p s).
Proof.
  unfold route, routable. destruct (is_duplicate r (packet_id p) now) as [dup r'].
  destruct dup; cbn [fst].
  { split; [naive_solver|]. intros n. split; [|naive_solver]. by intros ?%not_elem_of_nil. }
  destruct (decide_route_effects p s me) as [-> ->].
  assert (negb (Packet.at_max_hops p) && bool_decide (source_node_id p ≠ me) = true ↔
          (hop_count p < max_hops p)%Z ∧ source_node_id p ≠ me) as Hr.
  { unfold Packet.at_max_hops. rewrite andb_true_iff, negb_true_iff, bool_decide_eq_true,
      bool_decide_eq_false. split; intros []; split; done || lia. }
  destruct (_ && _); cbn [andb].
  - split; [naive_solver|]. intros n. destruct (should_forward p s); [naive_solver|].
    split; [by intros ?%not_elem_of_nil|naive_solver].
  - split; [naive_solver|]. intros n. split; [by intros ?%not_elem_of_nil|naive_solver].
Qed.

(** Where packets go: a packet is forwarded only if it is not a duplicate, has
    hops left and was not sent by this node; then exactly to the parent (upward),
    to the addressed child or, failing that, every child (downward), to the
    addressed lateral peer or, from a leader without an address, every lateral
    peer (lateral); whatever order the tables are iterated in. *)
Theorem forwarded_exactly_to r p s me now n :
  n ∈ forward_to (route r p s me now).1 ↔
  routable r p me now ∧
  match direction p with
  | Upward => selected_peer s = Some n
  | Downward =>
      is_Some (linked_peers s !! n) ∧
      ∀ d, destination_node_id p = Some d → is_Some (linked_peers s !! d) → n = d
  | Lateral =>
      is_Some (lateral_peers s !! n) ∧
      match destination_node_id p with Some d => n = d | None => role s = Leader end
  end.
Proof.
  rewrite (proj2 (route_effects r p s me now)). unfold should_forward, next_hops.
  destruct (direction p).
  - rewrite bool_decide_eq_true. destruct (selected_peer s); cbn; [|naive_solver].
    rewrite list_elem_of_singleton. naive_solver.
  - rewrite elem_of_targets, bool_decide_eq_true. split; [naive_solver|].
    intros (Hr & Hn & Hd). split_and!; try done. intros E. rewrite E, lookup_empty in Hn.
    by destruct Hn.
  - rewrite elem_of_targets. destruct (destination_node_id p) as [d|].
    + rewrite bool_decide_eq_true. naive_solver.
    + rewrite andb_true_iff, !bool_decide_eq_true. split; [naive_solver|].
      intros (Hr & Hn & Hd). split_and!; try done.
      intros E. rewrite E, lookup_empty in Hn. by destruct Hn.
Qed.

(** * Deduplication *)
Lemma oldest_None l : oldest l = None ↔ l = [].
Proof. destruct l as [|e l]; cbn; [done|]. by destruct (oldest l); [case_decide|]. Qed.

Lemma oldest_Some l e : oldest l = Some e → e ∈ l ∧ Forall (λ e', e.2 ≤ e'.2)%Z l.
Proof.
  revert e. induction l as [|x l IH]; intros e He; cbn in He; [done|].
  destruct (oldest l) as [y|] eqn:Hy.
  - destruct (IH y eq_refl) as [Hin Hall]. case_decide; simplify_eq.
    + split; [by right|]. constructor; [lia|done].
    + split; [by left|]. constructor; [lia|]. eapply Forall_impl; [done|]. cbn. lia.
  - apply oldest_None in Hy as ->. simplify_eq. split; [by left|]. by repeat constructor.
Qed.

Lemma oldest_iter cache key t :
  oldest (iter cache) = Some (key, t) →
  cache !! key = Some t ∧ map_Forall (λ _ t', t ≤ t')%Z cache.
Proof.
  intros [Hin Hall]%oldest_Some. rewrite iter_perm in Hin. apply elem_of_map_to_list in Hin.
  split; [done|]. intros k t' Hk. rewrite Forall_forall in Hall.
  apply (Hall (k, t')). by rewrite iter_perm, elem_of_map_to_list.
Qed.


Lemma record_packet_size c cache id now :
  (size cache ≤ Nat.max 1 (max_entries c)) →
  size (record_packet c cache id now) ≤ Nat.max 1 (max_entries c).
Proof.
  intros Hs. unfold record_packet. cbv zeta.
  assert (∀ m : gmap bytes Z, size m < Nat.max 1 (max_entries c) →
            size (<[id := now]> m) ≤ Nat.max 1 (max_entries c)) as Hins.
  { intros m Hm. rewrite map_size_insert. destruct (m !! id); cbn; lia. }
  case_decide; [|apply Hins; lia]. case_decide as Hf; [|apply Hins; lia].
  set (m := evict_expired c cache now) in *.
  assert (size m ≤ size cache) as Hle.
  { apply map_subseteq_size, map_filter_subseteq. }
  destruct (oldest (iter m)) as [[key t]|] eqn:Ho.
  - apply oldest_iter in Ho as [Hk _]. apply Hins. rewrite map_size_delete, Hk.
    assert (size m ≠ 0) by (intros E%map_size_empty_inv; by rewrite E, lookup_empty in Hk). lia.
  - apply oldest_None in Ho. apply Hins.
    assert (map_to_list m = []) as E by (apply Permutation_nil_r; by rewrite <- iter_perm, Ho).
    apply map_to_list_empty_iff in E. rewrite E, map_size_empty. lia.
Qed.

(** A run of packets through the router: the reports of [is_duplicate], in order. *)
Fixpoint deliver (r : SelectiveRouter) (evs : list (bytes * Z)) : list bool * SelectiveRouter :=
  match evs with
  | [] => ([], r)
  | (id, now) :: evs =>
      let '(dup, r) := is_duplicate r id now in
      let '(dups, r) := deliver r evs in
      (dup :: dups, r)
  end.

Lemma is_duplicate_config r id now : dedup_config (is_duplicate r id now).2 = dedup_config r.
Proof. unfold is_duplicate. repeat case_match; done. Qed.


Lemma is_duplicate_size r id now :
  dedup_cache_size r ≤ Nat.max 1 (max_entries (dedup_config r)) →
  dedup_cache_size (is_duplicate r id now).2 ≤ Nat.max 1 (max_entries (dedup_config r)).
Proof.
  unfold is_duplicate, dedup_cache_size. intros Hs.
  destruct (negb _); [done|].
  destruct (seen_packets r !! id) as [t|]; [case_decide; [done|]|];
    cbn [snd seen_packets]; by apply record_packet_size.
Qed.

(** Bounded memory: however many packets arrive, with whatever ids and at
    whatever times, the deduplication cache of a new router never holds more than
    [max_entries] entries (one, when [max_entries] is zero). *)
Theorem dedup_cache_bounded c evs :
  dedup_cache_size (deliver (new_with_deduplication c) evs).2 ≤ Nat.max 1 (max_entries c).
Proof.
  change c with (dedup_config (new_with_deduplication c)) at 2.
  assert (dedup_cache_size (new_with_deduplication c) ≤
          Nat.max 1 (max_entries (dedup_config (new_with_deduplication c)))) as Hs.
  { unfold dedup_cache_size. cbn [seen_packets new_with_deduplication].
    rewrite map_size_empty. lia. }
  revert Hs. generalize (new_with_deduplication c) as r. clear c.
  induction evs as [|[id now] evs IH]; intros r Hs; cbn [deliver]; [done|].
  apply (is_duplicate_size r id now) in Hs. pose proof (is_duplicate_config r id now) as E.
  destruct (is_duplicate r id now) as [b r1]. cbn [snd] in *.
  rewrite <- E in *. specialize (IH r1 Hs). by destruct (deliver r1 evs).
Qed.








(** * Hops *)

(** One hop: some router at [me] forwards the packet to [n], and the sender counts
    the hop.  Routers, topologies and clocks differ from node to node. *)
Inductive hop (pr : profile) : bytes * DataPacket → bytes * DataPacket → Prop :=
| hop_forward r s now me p n more p' :
    n ∈ forward_to (route r p s me now).1 →
    Packet.increment_hop pr p = Ok (more, p') →
    hop pr (me, p) (n, p').

Lemma hop_counts pr me p n p' :
  in_u 16 (max_hops p) → (0 ≤ hop_count p)%Z → hop pr (me, p) (n, p') →
  p' = Packet.set_hop_count p (hop_count p + 1) ∧ (hop_count p < max_hops p)%Z.
Proof.
  intros Hm Hc Hh. inversion Hh as [r s now ? ? ? more ? Hn Hi]; subst.
  apply (proj2 (route_effects r p s me now)) in Hn as [(_ & Hlt & _) _].
  split; [|done]. unfold Packet.increment_hop in Hi.
  rewrite checked_in in Hi by (unfold in_u in *; lia). by simplify_eq/=.
Qed.

(** No packet circulates for ever: whatever the routers, topologies and clocks
    along the way, and with deduplication on or off, a packet makes at most
    [max_hops - hop_count] hops, each counted once and the rest of the packet
    unchanged; and counting the hop of a packet that may be forwarded never
    overflows. *)
Theorem hops_bounded pr n me p me' p' :
  in_u 16 (max_hops p) → (0 ≤ hop_count p ≤ max_hops p)%Z →
  nsteps (hop pr) n (me, p) (me', p') →
  p' = Packet.set_hop_count p (hop_count p + Z.of_nat n) ∧
  (Z.of_nat n ≤ max_hops p - hop_count p)%Z ∧
  (Packet.at_max_hops p' = false → Packet.increment_hop pr p' ≠ Panic).
Proof.
  revert me p. induction n as [|n IH]; intros me p Hm Hc Hs.
  - inversion Hs; subst. split_and!; [|lia|].
    + rewrite Z.add_0_r. by destruct p'.
    + unfold Packet.at_max_hops, Packet.increment_hop. intros Hlt%bool_decide_eq_false.
      by rewrite checked_in by (unfold in_u in *; lia).
  - inversion Hs as [|? ? [me1 p1] ? Hh Hs']; subst.
    destruct (hop_counts pr me p me1 p1 Hm ltac:(lia) Hh) as [-> Hlt].
    destruct (IH me1 (Packet.set_hop_count p (hop_count p + 1)) Hm ltac:(cbn; lia) Hs') as (-> & Hn & Hov). cbn in *.
    split_and!; [unfold Packet.set_hop_count; cbn; f_equal; lia|lia|done].
Qed.
End router.
End Router.

(** * The router facade *)
Inductive AggregationError :=
| DeserializationError (msg : string)
| AggregationFailed (msg : string)
| InvalidPacketType (expected : string) (actual : DataType)
| EmptyInput.

(** The [Aggregator] trait: group id, leader id and the packets. *)
Class Aggregator := {
  aggregate_telemetry : bytes → bytes → list DataPacket → DataPacket + AggregationError
}.
Definition extract_summary_bytes (p : DataPacket) : bytes + AggregationError :=
  if decide (data_type p = AggregatedTelemetry) then inl (payload p)
  else inr (InvalidPacketType "AggregatedTelemetry" (data_type p)).
Definition NoOpAggregator : Aggregator :=
  {| aggregate_telemetry _ _ _ := inr (AggregationFailed "No aggregator configured") |}.

Record MeshRouterConfig := {
  node_id : bytes;
  deduplication : DeduplicationConfig;
  auto_aggregate : bool;
  aggregation_threshold : nat
}.
Record RouteResult := {
  decision : RoutingDecision;
  result_should_aggregate : bool;
  result_forward_to : list bytes
}.
Record MeshRouter := {
  config : MeshRouterConfig;
  router : SelectiveRouter;
  pending_aggregation : list DataPacket
}.

Module Facade.
Section facade.
Context {Order : HashOrder} {Agg : Aggregator}.

Definition default_config : MeshRouterConfig :=
  {| node_id := []; deduplication := Router.default_dedup; auto_aggregate := true;
     aggregation_threshold := 3 |}.
Definition with_node_id (id : bytes) : MeshRouterConfig :=
  {| node_id := id; deduplication := deduplication default_config;
     auto_aggregate := auto_aggregate default_config;
     aggregation_threshold := aggregation_threshold default_config |}.

Definition with_aggregator (c : MeshRouterConfig) : MeshRouter :=
  {| config := c;
     router := if enabled (deduplication c)
               then Router.new_with_deduplication (deduplication c) else Router.new;
     pending_aggregation := [] |}.

Definition route (m : MeshRouter) (p : DataPacket) (s : TopologyState) (now : Z)
    : RouteResult * MeshRouter :=
  let '(d, r) := Router.route (router m) p s (node_id (config m)) now in
  ({| decision := d; result_should_aggregate := Router.should_aggregate p d s;
      result_forward_to := Router.forward_to d |},
   {| config := config m; router := r; pending_aggregation := pending_aggregation m |}).

Definition set_pending (m : MeshRouter) (ps : list DataPacket) : MeshRouter :=
  {| config := config m; router := router m; pending_aggregation := ps |}.
Definition ok {A E} (r : A + E) : option A := match r with inl a => Some a | inr _ => None end.

Definition add_for_aggregation (m : MeshRouter) (p : DataPacket) (squad_id : bytes)
    : option DataPacket * MeshRouter :=
  if negb (auto_aggregate (config m)) then (None, m)
  else
    let pending := pending_aggregation m ++ [p] in
    if decide (aggregation_threshold (config m) ≤ length pending) then
      (ok (aggregate_telemetry squad_id (node_id (config m)) pending), set_pending m [])
    else (None, set_pending m pending).

Definition pending_aggregation_count (m : MeshRouter) : nat := length (pending_aggregation m).

Definition flush_aggregation (m : MeshRouter) (squad_id : bytes)
    : option DataPacket * MeshRouter :=
  match pending_aggregation m with
  | [] => (None, m)
  | packets =>
      (ok (aggregate_telemetry squad_id (node_id (config m)) packets), set_pending m [])
  end.

(** Packets of several squads, added one after the other. *)
Fixpoint add_all (m : MeshRouter) (evs : list (DataPacket * bytes)) : MeshRouter :=
  match evs with
  | [] => m
  | (p, squad) :: evs => add_all (add_for_aggregation m p squad).2 evs
  end.

Lemma add_config m p squad : config (add_for_aggregation m p squad).2 = config m.
Proof. unfold add_for_aggregation. by repeat case_match. Qed.

Lemma add_pending m p squad :
  auto_aggregate (config m) = true →
  length (pending_aggregation m) < aggregation_threshold (config m) →
  pending_aggregation (add_for_aggregation m p squad).2 =
    (if decide (S (length (pending_aggregation m)) = aggregation_threshold (config m))
     then [] else pending_aggregation m ++ [p]).
Proof.
  intros Ha Hlt. unfold add_for_aggregation. rewrite Ha. cbn [negb]. cbv zeta.
  rewrite length_app. cbn [length]. repeat case_decide; try done; lia.
Qed.

(** The buffer holds the packets after the last complete batch. *)
Lemma add_all_pending m evs :
  auto_aggregate (config m) = true →
  length (pending_aggregation m) < aggregation_threshold (config m) →
  let T := aggregation_threshold (config m) in
  let ps := pending_aggregation m ++ evs.*1 in
  config (add_all m evs) = config m ∧
  pending_aggregation (add_all m evs) = drop (T * (length ps / T)) ps.
Proof.
  cbv zeta. intros Ha. revert m Ha.
  induction evs as [|[p squad] evs IH]; intros m Ha Hlt; cbn [add_all fmap list_fmap].
  - rewrite app_nil_r, Nat.div_small by done. by rewrite Nat.mul_0_r.
  - pose proof (add_config m p squad) as Ec. pose proof (add_pending m p squad Ha Hlt) as Ep.
    set (m1 := (add_for_aggregation m p squad).2) in *.
    assert (length (pending_aggregation m1) < aggregation_threshold (config m)) as Hlt1.
    { rewrite Ep. case_decide; cbn; [lia|]. rewrite length_app. cbn. lia. }
    specialize (IH m1). rewrite Ec in IH. destruct (IH Ha Hlt1) as [-> ->]. split; [done|].
    rewrite Ep. case_decide as HT.
    + rewrite (cons_middle p), (assoc_L (++)).
      set (T := aggregation_threshold (config m)) in *.
      assert (length (pending_aggregation m ++ [p]) = T) as Hl
        by (rewrite length_app; cbn; lia).
      rewrite (length_app (pending_aggregation m ++ [p])), Hl. cbn [app].
      replace ((T + length evs.*1) / T) with (1 + length evs.*1 / T)
        by (rewrite <- (Nat.mul_1_l T) at 2; rewrite Nat.div_add_l by lia; done).
      rewrite Nat.mul_add_distr_l, Nat.mul_1_r, <- drop_drop. f_equal.
      by rewrite <- Hl, drop_app_length.
    + by rewrite <- (assoc_L (++)).
Qed.

(** Aggregation: with a threshold of [T], of the packets added to a new router,
    whatever their squads, every [T]-th one makes a batch of the last [T] packets in
    order, given to the aggregator under the squad of that last packet; all other
    additions only wait in the buffer, which holds the packets since the last batch. *)
Theorem aggregation_batches c evs p squad :
  auto_aggregate c = true → 0 < aggregation_threshold c →
  let T := aggregation_threshold c in
  let m := add_all (with_aggregator c) evs in
  let all := evs.*1 ++ [p] in
  pending_aggregation m = drop (T * (length evs / T)) evs.*1 ∧
  add_for_aggregation m p squad =
    if decide (length all `mod` T = 0)
    then (ok (aggregate_telemetry squad (node_id c) (drop (length all - T) all)),
          set_pending m [])
    else (None, set_pending m (drop (T * (length all / T)) all)).
Proof.
  intros Ha HT. cbv zeta.
  destruct (add_all_pending (with_aggregator c) evs Ha HT) as [Ec Ep]. cbn in Ec, Ep.
  rewrite length_fmap in Ep. split; [done|].
  set (T := aggregation_threshold c) in *. set (n := length evs) in *.
  pose proof (Nat.div_mod n T ltac:(lia)) as Hn.
  pose proof (Nat.mod_upper_bound n T ltac:(lia)) as Hr.
  unfold add_for_aggregation. rewrite Ec, Ha. cbn [negb]. cbv zeta. rewrite Ep. fold T.
  assert (length (evs.*1 ++ [p]) = S n) as Hl by (rewrite length_app, length_fmap; cbn; lia).
  assert (drop (T * (n / T)) (evs.*1) ++ [p] = drop (T * (n / T)) (evs.*1 ++ [p])) as Hd.
  { rewrite drop_app_le; [done|]. rewrite length_fmap. fold n. lia. }
  rewrite Hd, length_drop, Hl. destruct (decide (S (n `mod` T) = T)) as [E|E].
  - assert (S n = (n / T + 1) * T) as Hs by lia.
    rewrite decide_True by lia. rewrite decide_True by (rewrite Hs; apply Nat.Div0.mod_mul).
    do 3 f_equal. f_equal. lia.
  - assert (S n / T = n / T) as Hq by (symmetry; apply (Nat.div_unique _ _ _ (S (n `mod` T))); lia).
    rewrite decide_False by lia. rewrite decide_False.
    + by rewrite Hq.
    + rewrite <- (Nat.mod_unique (S n) T (n / T) (S (n `mod` T))); lia.
Qed.

(** A leader cannot route its own aggregate: when the aggregator names the
    leader as source, as its interface says, the packet a router returns from its
    aggregation buffer is dropped by the same router, in every topology. *)
Theorem own_aggregate_dropped m p squad a m' s now :
  (∀ g l ps b, aggregate_telemetry g l ps = inl b → source_node_id b = l) →
  add_for_aggregation m p squad = (Some a, m') →
  decision (route m' a s now).1 = Drop ∧ result_forward_to (route m' a s now).1 = [].
Proof.
  intros Hsrc Hadd.
  assert (config m' = config m) as Ec by (by rewrite <- (add_config m p squad), Hadd).
  assert (source_node_id a = node_id (config m')) as Hs.
  { rewrite Ec. unfold add_for_aggregation in Hadd. destruct (negb _); [done|].
    cbv zeta in Hadd. case_decide; [|done]. simplify_eq.
    destruct (aggregate_telemetry squad _ _) eqn:E; [|done]. simplify_eq/=. by apply Hsrc in E. }
  unfold route, Router.route. destruct (Router.is_duplicate _ _ _) as [dup r].
  assert (Router.decide_route a s (node_id (config m')) = Drop) as ->.
  { unfold Router.decide_route. destruct (Packet.at_max_hops a); [done|]. by rewrite decide_True. }
  by destruct dup.
Qed.
End facade.
End Facade.

(** * Witnesses *)

(** Iteration in the map's own order. *)
#[local] Instance map_order : HashOrder :=
  {| iter := map_to_list; iter_perm m := reflexivity (map_to_list m) |}.

(** An aggregator that concatenates the payloads. *)
#[local] Instance concat_aggregator : Aggregator :=
  {| aggregate_telemetry group leader ps :=
       match ps with
       | [] => inr EmptyInput
       | _ => inl (Packet.aggregated_telemetry group leader (concat (payload <$> ps)))
       end |}.


(** One hop, from a node with a parent. *)
Lemma hops_bounded_witness :
  (Z.of_nat 1 ≤ max_hops (Packet.telemetry [x70] [x53] []) - 0)%Z.
Proof.
  assert (nsteps (Router.hop Debug) 1 ([x41], Packet.telemetry [x70] [x53] [])
            ([x42], Packet.set_hop_count (Packet.telemetry [x70] [x53] []) 1)) as Hs.
  { apply nsteps_once.
    apply (Router.hop_forward Debug Router.new
             {| selected_peer := Some [x42]; linked_peers := ∅; lateral_peers := ∅;
                role := Leader |} 0 [x41] _ _ true); [|reflexivity].
    cbn. by left. }
  apply (Router.hops_bounded Debug 1 [x41] (Packet.telemetry [x70] [x53] []) [x42]
           (Packet.set_hop_count (Packet.telemetry [x70] [x53] []) 1));
    [split; cbn; lia|cbn; lia|exact Hs].
Defined.

(** The third of three packets, of two squads, makes the batch. *)
Lemma aggregation_batches_witness :
  (Facade.add_for_aggregation
     (Facade.add_all (Facade.with_aggregator (Facade.with_node_id [x4c]))
        [(Packet.telemetry [x31] [x41] [x61], [x53]); (Packet.telemetry [x32] [x42] [x62], [x54])])
     (Packet.telemetry [x33] [x43] [x63]) [x53]).1 =
  Some (Packet.aggregated_telemetry [x53] [x4c] [x61; x62; x63]).
Proof.
  pose proof (Facade.aggregation_batches (Facade.with_node_id [x4c])
    [(Packet.telemetry [x31] [x41] [x61], [x53]); (Packet.telemetry [x32] [x42] [x62], [x54])]
    (Packet.telemetry [x33] [x43] [x63]) [x53]) as H.
  destruct H as [_ H]; [reflexivity|cbn; lia|]. rewrite H. reflexivity.
Defined.

(** The aggregate of the first packet, with a threshold of one. *)
Lemma own_aggregate_dropped_witness :
  decision
    (Facade.route
       (Facade.with_aggregator {| node_id := [x4c]; deduplication := Router.default_dedup;
                                  auto_aggregate := true; aggregation_threshold := 1 |})
       (Packet.aggregated_telemetry [x53] [x4c] [x61])
       {| selected_peer := Some [x42]; linked_peers := ∅; lateral_peers := ∅; role := Leader |} 0).1
  = Drop.
Proof.
  apply (Facade.own_aggregate_dropped
           (Facade.with_aggregator {| node_id := [x4c]; deduplication := Router.default_dedup;
                                      auto_aggregate := true; aggregation_threshold := 1 |})
           (Packet.telemetry [x31] [x41] [x61]) [x53]).
  - intros g l [|q ps] b Hb; cbn in Hb; [discriminate|]. by simplify_eq/=.
  - reflexivity.
Defined.
