(* ===== verification/Encryption.v ===== *)
(** Encryption of data in transit and at rest ([src/security/encryption.rs]): the
    X25519 keypair, symmetric keys, peer channels, cell group keys with their
    generations, the wire forms of encrypted data, and the encryption manager.
    X25519 is third-party code, the class [X25519] with [X25519Laws]; random keys
    and nonces are arguments, and so is the clock. *)
From Stdlib Require Import ZArith Lia Strings.Byte Strings.String.
From stdpp Require Import prelude gmap.
From S2P Require Import Prelude Wire Crypto Device.

Set Default Proof Using "Type".

(** [StaticSecret], [PublicKey] and [SharedSecret] are 32 bytes each. *)
Class X25519 := {
  (** [PublicKey::from(&secret)] *)
  x25519_public : bytes → bytes;
  (** [secret.diffie_hellman(public)] *)
  x25519_dh : bytes → bytes → bytes
}.
Class X25519Laws `{!X25519} := {
  x25519_public_length s : length (x25519_public s) = 32;
  x25519_dh_comm a b : x25519_dh a (x25519_public b) = x25519_dh b (x25519_public a)
}.

Definition NONCE_SIZE : nat := 12.
Definition SYMMETRIC_KEY_SIZE : nat := 32.
Definition HKDF_INFO_PEER : bytes := str "peat-protocol-v1-peer".
Definition HKDF_INFO_DEVICE : bytes := str "peat-protocol-v1-device".

(** * [EncryptedData]: nonce and ciphertext *)
Record EncryptedData := { nonce : bytes; ciphertext : bytes }.

Module Data.
Definition to_bytes (e : EncryptedData) : bytes := nonce e ++ ciphertext e.

Definition from_bytes (b : bytes) : outcome SecurityError EncryptedData :=
  bail! decide (length b < NONCE_SIZE) with DecryptionError "ciphertext too short for nonce";
  n ← slice b 0 NONCE_SIZE;
  n ← array NONCE_SIZE n;
  c ← slice b NONCE_SIZE (length b);
  Ok {| nonce := n; ciphertext := c |}.

Lemma data_from_to e : length (nonce e) = 12 → from_bytes (to_bytes e) = Ok e.
Proof.
  intros Hn. pose proof (cursor_start (to_bytes e)) as C.
  assert (length (to_bytes e) = 12 + length (ciphertext e)) as HL.
  { unfold to_bytes. rewrite length_app. lia. }
  unfold from_bytes, NONCE_SIZE in *. rewrite decide_False by lia.
  unfold to_bytes in C at 2. decode_run C.
  rewrite (slice_to_end _ _ _ _ C) by lia. by destruct e.
Qed.

Lemma data_to_from b e : from_bytes b = Ok e → b = to_bytes e ∧ length (nonce e) = 12.
Proof.
  intros H. unfold from_bytes, NONCE_SIZE in H. pose proof (cursor_start b) as C.
  decode_inv H.
  match goal with C : cursor _ (length _) _ |- _ => apply cursor_end in C as -> end.
  injection H as <-.
  unfold to_bytes. cbn. by rewrite app_nil_r.
Qed.

Lemma data_from_no_panic b : no_panic (from_bytes b).
Proof. unfold from_bytes, NONCE_SIZE. panic_free. Qed.
End Data.

(** * [SymmetricKey] *)
Record SymmetricKey := { key : bytes }.

Module Sym.
Section with_crypto.
Context {Kdf : Hkdf} {Ae : Aead}.

Definition from_bytes (b : bytes) : SymmetricKey := {| key := b |}.

Definition derive_from_shared_secret (shared info : bytes) : SymmetricKey :=
  from_bytes (hkdf None shared info SYMMETRIC_KEY_SIZE).
Definition derive_for_peer (shared : bytes) : SymmetricKey :=
  derive_from_shared_secret shared HKDF_INFO_PEER.

(** [rnd] is the nonce drawn from the operating system. *)
Definition encrypt (k : SymmetricKey) (rnd plaintext : bytes) : outcome SecurityError EncryptedData :=
  c ← ok_or (aead_encrypt (key k) rnd plaintext) (EncryptionError "aead");
  Ok {| nonce := rnd; ciphertext := c |}.

Definition decrypt (k : SymmetricKey) (e : EncryptedData) : outcome SecurityError bytes :=
  ok_or (aead_decrypt (key k) (nonce e) (ciphertext e)) (DecryptionError "aead").

Lemma decrypt_encrypt `{!AeadLaws} k rnd plaintext :
  length (key k) = 32 → length rnd = 12 →
  ∃ e, encrypt k rnd plaintext = Ok e ∧ nonce e = rnd ∧ decrypt k e = Ok plaintext.
Proof.
  intros Hk Hr. destruct (aead_encrypt_some (key k) rnd plaintext Hk Hr) as [c Hc].
  exists {| nonce := rnd; ciphertext := c |}. unfold encrypt, decrypt. rewrite Hc. cbn.
  split_and!; [done..|]. by rewrite (aead_decrypt_encrypt _ _ _ _ Hc).
Qed.

Lemma derive_for_peer_length `{!HkdfLaws} s : length (key (derive_for_peer s)) = 32.
Proof. apply hkdf_length. Qed.
End with_crypto.
End Sym.

(** * Keypairs and channels *)
Record EncryptionKeypair := { secret : bytes; public : bytes }.
Record SecureChannel := {
  peer_id : DeviceId;
  channel_key : SymmetricKey;
  established_at : Z
}.

Section Keypair.
Context {X : X25519}.
Definition keypair_from_secret_bytes (b : bytes) : EncryptionKeypair :=
  {| secret := b; public := x25519_public b |}.
Definition dh_exchange (k : EncryptionKeypair) (peer_public : bytes) : bytes :=
  x25519_dh (secret k) peer_public.
End Keypair.

Module Channel.
Section with_crypto.
Context {Ae : Aead}.
Definition new (peer : DeviceId) (k : SymmetricKey) (now : Z) : SecureChannel :=
  {| peer_id := peer; channel_key := k; established_at := now |}.
Definition encrypt (c : SecureChannel) (rnd plaintext : bytes) :=
  Sym.encrypt (channel_key c) rnd plaintext.
Definition decrypt (c : SecureChannel) (e : EncryptedData) := Sym.decrypt (channel_key c) e.
(** [elapsed()] is an error when the clock went back. *)
Definition age_secs (c : SecureChannel) (now : Z) : Z :=
  if decide (established_at c ≤ now)%Z then (now - established_at c) / from_secs 1 else 0.
End with_crypto.
End Channel.

(** * Group keys *)
Record GroupKey := {
  cell_id : bytes;
  group_key : SymmetricKey;
  generation : Z;
  created_at : Z
}.
Record EncryptedCellMessage := {
  msg_cell_id : bytes;
  msg_generation : Z;
  encrypted : EncryptedData
}.

Module Group.
Section with_crypto.
Context {Ae : Aead}.

(** [key_bytes] is the random key, [now] the clock. *)
Definition generate (cell : bytes) (key_bytes : bytes) (now : Z) : GroupKey :=
  {| cell_id := cell; group_key := Sym.from_bytes key_bytes; generation := 1;
     created_at := now |}.

Definition from_bytes (cell key_bytes : bytes) (gen now : Z) : GroupKey :=
  {| cell_id := cell; group_key := Sym.from_bytes key_bytes; generation := gen;
     created_at := now |}.

Definition encrypt (k : GroupKey) (rnd plaintext : bytes)
    : outcome SecurityError EncryptedCellMessage :=
  e ← Sym.encrypt (group_key k) rnd plaintext;
  Ok {| msg_cell_id := cell_id k; msg_generation := generation k; encrypted := e |}.

Definition decrypt (k : GroupKey) (m : EncryptedCellMessage) : outcome SecurityError bytes :=
  bail! decide (msg_cell_id m ≠ cell_id k) with DecryptionError "cell ID mismatch";
  bail! decide (msg_generation m ≠ generation k)
    with DecryptionError "key generation mismatch";
  Sym.decrypt (group_key k) (encrypted m).

(** [generation + 1] is a [u64] addition. *)
Definition rotate (p : profile) (k : GroupKey) (key_bytes : bytes) (now : Z)
    : outcome SecurityError GroupKey :=
  g ← checked p 64 (generation k + 1);
  Ok {| cell_id := cell_id k; group_key := Sym.from_bytes key_bytes; generation := g;
        created_at := now |}.

Definition key_bytes (k : GroupKey) : bytes := key (group_key k).
End with_crypto.
End Group.

(** * [EncryptedCellMessage] on the wire *)
Module CellMessage.

Definition to_bytes (m : EncryptedCellMessage) : bytes :=
  to_le 4 (zlen (msg_cell_id m))
  ++ msg_cell_id m
  ++ to_le 8 (msg_generation m)
  ++ Data.to_bytes (encrypted m).

Definition from_bytes (b : bytes) : outcome SecurityError EncryptedCellMessage :=
  bail! decide (length b < 12) with DecryptionError "message too short";
  l ← slice b 0 4;
  l ← array 4 l;
  let cell_id_len := Z.to_nat (from_le l) in
  bail! decide (length b < 4 + cell_id_len + 8) with DecryptionError "message truncated";
  cell ← slice b 4 (4 + cell_id_len);
  cell ← ok_or (from_utf8 cell) (DecryptionError "utf8");
  g ← slice b (4 + cell_id_len) (4 + cell_id_len + 8);
  g ← array 8 g;
  e ← slice b (4 + cell_id_len + 8) (length b);
  e ← Data.from_bytes e;
  Ok {| msg_cell_id := cell; msg_generation := from_le g; encrypted := e |}.

Record message_wf (m : EncryptedCellMessage) : Prop := {
  mwf_cell : utf8_valid (msg_cell_id m) = true;
  mwf_cell_len : (zlen (msg_cell_id m) < 256 ^ 4)%Z;
  mwf_generation : in_u 64 (msg_generation m);
  mwf_nonce : length (nonce (encrypted m)) = 12
}.

Lemma cell_message_no_panic b : no_panic (from_bytes b).
Proof. unfold from_bytes. panic_free; apply Data.data_from_no_panic. Qed.

Lemma cell_message_from_to m : message_wf m → from_bytes (to_bytes m) = Ok m.
Proof.
  intros []. pose proof (cursor_start (to_bytes m)) as C. unfold from_bytes.
  unfold to_bytes in C at 2. decode_run C.
  rewrite (slice_to_end _ _ _ _ C) by (autorewrite with lens; lia). cbn [mbind outcome_bind].
  rewrite Data.data_from_to by done. cbn. rewrite (le_roundtrip 8 64) by done. by destruct m.
Qed.

Lemma cell_message_to_from b m : from_bytes b = Ok m → b = to_bytes m ∧ message_wf m.
Proof.
  intros H. unfold from_bytes in H. pose proof (cursor_start b) as C.
  decode_inv H.
  match goal with C : cursor _ (length _) _ |- _ => apply cursor_end in C as -> end.
  match goal with He : Data.from_bytes _ = Ok _ |- _ =>
    apply Data.data_to_from in He as [-> ?] end.
  injection H as <-. split.
  - unfold to_bytes. cbn [msg_cell_id msg_generation encrypted].
    rewrite !app_nil_r. wire_eq.
  - split; cbn [msg_cell_id msg_generation encrypted]; eauto with wire.
    eapply (len_le_bound 4); eauto.
Qed.
End CellMessage.

(** * [EncryptionManager] *)
Record EncryptedDocument := {
  doc_encrypted : EncryptedData;
  encrypted_by : DeviceId;
  encrypted_at : Z
}.
Record EncryptionManager := {
  keypair : EncryptionKeypair;
  device_id : DeviceId;
  peer_channels : gmap bytes SecureChannel;
  cell_keys : gmap bytes GroupKey;
  device_key : SymmetricKey
}.

Module Manager.
Section with_crypto.
Context {X : X25519} {Kdf : Hkdf} {Ae : Aead}.

Definition set_channels (m : EncryptionManager) (c : gmap bytes SecureChannel) :=
  {| keypair := keypair m; device_id := device_id m; peer_channels := c;
     cell_keys := cell_keys m; device_key := device_key m |}.
Definition set_keys (m : EncryptionManager) (k : gmap bytes GroupKey) :=
  {| keypair := keypair m; device_id := device_id m; peer_channels := peer_channels m;
     cell_keys := k; device_key := device_key m |}.

Definition new (kp : EncryptionKeypair) (id : DeviceId) : EncryptionManager := {|
  keypair := kp;
  device_id := id;
  peer_channels := ∅;
  cell_keys := ∅;
  device_key := Sym.from_bytes (hkdf None (public kp) HKDF_INFO_DEVICE SYMMETRIC_KEY_SIZE)
|}.

Definition public_key_bytes (m : EncryptionManager) : bytes := public (keypair m).

(** ** Peer channels *)
Definition establish_channel (m : EncryptionManager) (peer : DeviceId)
    (peer_public_key : bytes) (now : Z) : EncryptionManager :=
  let shared_secret := dh_exchange (keypair m) peer_public_key in
  let symmetric_key := Sym.derive_for_peer shared_secret in
  set_channels m (<[peer := Channel.new peer symmetric_key now]> (peer_channels m)).

Definition get_channel (m : EncryptionManager) (peer : DeviceId) : option SecureChannel :=
  peer_channels m !! peer.
Definition has_channel (m : EncryptionManager) (peer : DeviceId) : bool :=
  bool_decide (is_Some (peer_channels m !! peer)).
Definition remove_channel (m : EncryptionManager) (peer : DeviceId) : EncryptionManager :=
  set_channels m (delete peer (peer_channels m)).

Definition encrypt_for_peer (m : EncryptionManager) (peer : DeviceId) (rnd plaintext : bytes)
    : outcome SecurityError EncryptedData :=
  c ← ok_or (peer_channels m !! peer) (EncryptionError "no channel for peer");
  Channel.encrypt c rnd plaintext.
Definition decrypt_from_peer (m : EncryptionManager) (peer : DeviceId) (e : EncryptedData)
    : outcome SecurityError bytes :=
  c ← ok_or (peer_channels m !! peer) (DecryptionError "no channel for peer");
  Channel.decrypt c e.

(** ** Cell keys: [key_bytes] is the fresh random key *)
Definition get_or_create_cell_key (m : EncryptionManager) (cell key_bytes : bytes) (now : Z)
    : GroupKey * EncryptionManager :=
  match cell_keys m !! cell with
  | Some k => (k, m)
  | None =>
      let k := Group.generate cell key_bytes now in
      (k, set_keys m (<[cell := k]> (cell_keys m)))
  end.

Definition set_cell_key (m : EncryptionManager) (k : GroupKey) : EncryptionManager :=
  set_keys m (<[cell_id k := k]> (cell_keys m)).
Definition get_cell_key (m : EncryptionManager) (cell : bytes) : option GroupKey :=
  cell_keys m !! cell.

Definition rotate_cell_key (p : profile) (m : EncryptionManager) (cell key_bytes : bytes)
    (now : Z) : outcome SecurityError (GroupKey * EncryptionManager) :=
  old_key ← ok_or (cell_keys m !! cell) (EncryptionError "no key for cell");
  new_key ← Group.rotate p old_key key_bytes now;
  Ok (new_key, set_keys m (<[cell := new_key]> (cell_keys m))).

Definition remove_cell_key (m : EncryptionManager) (cell : bytes) : EncryptionManager :=
  set_keys m (delete cell (cell_keys m)).

Definition encrypt_for_cell (m : EncryptionManager) (cell rnd plaintext : bytes)
    : outcome SecurityError EncryptedCellMessage :=
  k ← ok_or (cell_keys m !! cell) (EncryptionError "no key for cell");
  Group.encrypt k rnd plaintext.
Definition decrypt_cell_message (m : EncryptionManager) (msg : EncryptedCellMessage)
    : outcome SecurityError bytes :=
  k ← ok_or (cell_keys m !! msg_cell_id msg) (DecryptionError "no key for cell");
  Group.decrypt k msg.

(** ** Documents at rest; [now] in seconds *)
Definition encrypt_document (m : EncryptionManager) (rnd plaintext : bytes) (now : Z)
    : outcome SecurityError EncryptedDocument :=
  e ← Sym.encrypt (device_key m) rnd plaintext;
  Ok {| doc_encrypted := e; encrypted_by := device_id m; encrypted_at := now |}.
Definition decrypt_document (m : EncryptionManager) (d : EncryptedDocument)
    : outcome SecurityError bytes :=
  bail! decide (encrypted_by d ≠ device_id m)
    with DecryptionError "document encrypted by different device";
  Sym.decrypt (device_key m) (doc_encrypted d).

Definition peer_channel_count (m : EncryptionManager) : nat := size (peer_channels m).
Definition cell_key_count (m : EncryptionManager) : nat := size (cell_keys m).

(** ** The states a manager reaches *)
Inductive step (p : profile) : EncryptionManager → EncryptionManager → Prop :=
| step_establish m peer pk now : step p m (establish_channel m peer pk now)
| step_remove_channel m peer : step p m (remove_channel m peer)
| step_create m cell kb now :
    length kb = 32 → step p m (get_or_create_cell_key m cell kb now).2
| step_set m k :
    length (Group.key_bytes k) = 32 → in_u 64 (generation k) → step p m (set_cell_key m k)
| step_rotate m cell kb now k m' :
    length kb = 32 → rotate_cell_key p m cell kb now = Ok (k, m') → step p m m'
| step_remove_key m cell : step p m (remove_cell_key m cell).

Inductive reachable (p : profile) : EncryptionManager → Prop :=
| reach_new s id :
    length s = 32 → reachable p (new (keypair_from_secret_bytes s) id)
| reach_step m m' : reachable p m → step p m m' → reachable p m'.

(** The public key belongs to the secret, the device key comes from the public
    key, and each map is keyed by the identifier its entries carry. *)
Record manager_wf (m : EncryptionManager) : Prop := {
  nwf_public : public (keypair m) = x25519_public (secret (keypair m));
  nwf_device : device_key m
    = Sym.from_bytes (hkdf None (public (keypair m)) HKDF_INFO_DEVICE SYMMETRIC_KEY_SIZE);
  nwf_channels peer c : peer_channels m !! peer = Some c →
    peer_id c = peer ∧ length (key (channel_key c)) = 32;
  nwf_keys cell k : cell_keys m !! cell = Some k →
    cell_id k = cell ∧ length (Group.key_bytes k) = 32 ∧ in_u 64 (generation k)
}.

Lemma checked_Ok_in {E} p z z' : checked (E:=E) p 64 z = Ok z' → in_u 64 z'.
Proof.
  unfold checked, in_u. case_match eqn:Hc.
  - intros [= <-]. apply andb_true_iff in Hc as [H1 H2]. lia.
  - destruct p; [discriminate|]. intros [= <-]. apply Z.mod_pos_bound. lia.
Qed.

Lemma set_channels_wf m c :
  manager_wf m →
  (∀ peer ch, c !! peer = Some ch → peer_id ch = peer ∧ length (key (channel_key ch)) = 32) →
  manager_wf (set_channels m c).
Proof. intros [] Hc. by split. Qed.
Lemma set_keys_wf m ks :
  manager_wf m →
  (∀ cell k, ks !! cell = Some k →
     cell_id k = cell ∧ length (Group.key_bytes k) = 32 ∧ in_u 64 (generation k)) →
  manager_wf (set_keys m ks).
Proof. intros [] Hk. by split. Qed.
Lemma insert_key_wf m cell k :
  manager_wf m → cell_id k = cell → length (Group.key_bytes k) = 32 → in_u 64 (generation k) →
  manager_wf (set_keys m (<[cell := k]> (cell_keys m))).
Proof.
  intros Hm Hc Hl Hg. apply set_keys_wf; [done|]. intros cell' k' Hk'.
  apply lookup_insert_Some in Hk' as [[<- <-]|[_ Hk']]; [done|]. by apply (nwf_keys _ Hm).
Qed.

Lemma step_wf `{!HkdfLaws} p m m' : step p m m' → manager_wf m → manager_wf m'.
Proof.
  intros Hs Hm. destruct Hs as [m peer pk now|m peer|m cell kb now Hl|m k Hl Hg
    |m cell kb now k m' Hl Hr|m cell].
  - apply set_channels_wf; [done|]. intros peer' c Hc.
    apply lookup_insert_Some in Hc as [[<- <-]|[_ Hc]]; [|by apply (nwf_channels _ Hm)].
    split; [done|]. apply Sym.derive_for_peer_length.
  - apply set_channels_wf; [done|]. intros peer' c [_ Hc]%lookup_delete_Some.
    by apply (nwf_channels _ Hm).
  - unfold get_or_create_cell_key. case_match; [done|]. by apply insert_key_wf.
  - by apply insert_key_wf.
  - unfold rotate_cell_key in Hr. apply bind_Ok_inv in Hr as (old & Ho%ok_or_inv & Hr).
    apply bind_Ok_inv in Hr as (new & Hn & [= -> <-]).
    unfold Group.rotate in Hn. apply bind_Ok_inv in Hn as (g & Hg & [= <-]).
    apply insert_key_wf; [done| |done|by eapply checked_Ok_in].
    cbn. by apply (nwf_keys _ Hm).
  - apply set_keys_wf; [done|]. intros c k [_ Hk]%lookup_delete_Some.
    by apply (nwf_keys _ Hm).
Qed.

Lemma reachable_wf `{!HkdfLaws} p m : reachable p m → manager_wf m.
Proof.
  induction 1 as [s id Hs|m m' _ IH Hs]; [|by eapply step_wf].
  split; cbn; try done; intros ? ?; by rewrite lookup_empty.
Qed.

(** ** Channels *)

Lemma established_roundtrip `{!AeadLaws} `{!HkdfLaws} m1 m2 id1 id2 pk1 pk2 t1 t2 rnd plaintext :
  dh_exchange (keypair m1) pk2 = dh_exchange (keypair m2) pk1 → length rnd = 12 →
  ∃ e, encrypt_for_peer (establish_channel m1 id2 pk2 t1) id2 rnd plaintext = Ok e
    ∧ Data.from_bytes (Data.to_bytes e) = Ok e
    ∧ decrypt_from_peer (establish_channel m2 id1 pk1 t2) id1 e = Ok plaintext.
Proof.
  intros Hdh Hr. set (k := Sym.derive_for_peer (dh_exchange (keypair m1) pk2)).
  destruct (Sym.decrypt_encrypt k rnd plaintext) as (e & He & Hn & Hd);
    [apply Sym.derive_for_peer_length|done|].
  exists e. unfold encrypt_for_peer, decrypt_from_peer, establish_channel. cbn.
  rewrite !lookup_insert_eq. cbn. rewrite <- Hdh. split_and!; [done| |done].
  apply Data.data_from_to. by rewrite Hn.
Qed.

(** Peer channels: when two devices establish a channel with each other's
    identifier and public key, in whatever states their managers have reached, both
    derive the same key: a message encrypted by either one, sent in its wire form,
    is decrypted by the other to the plaintext. *)
Theorem channel_agreement `{!X25519Laws} `{!AeadLaws} `{!HkdfLaws} p m1 m2 t1 t2 rnd plaintext :
  reachable p m1 → reachable p m2 → length rnd = 12 →
  let m1' := establish_channel m1 (device_id m2) (public_key_bytes m2) t1 in
  let m2' := establish_channel m2 (device_id m1) (public_key_bytes m1) t2 in
  (∃ e, encrypt_for_peer m1' (device_id m2) rnd plaintext = Ok e
     ∧ Data.from_bytes (Data.to_bytes e) = Ok e
     ∧ decrypt_from_peer m2' (device_id m1) e = Ok plaintext)
  ∧ (∃ e, encrypt_for_peer m2' (device_id m1) rnd plaintext = Ok e
     ∧ Data.from_bytes (Data.to_bytes e) = Ok e
     ∧ decrypt_from_peer m1' (device_id m2) e = Ok plaintext).
Proof.
  intros Hm1%reachable_wf Hm2%reachable_wf Hr.
  assert (dh_exchange (keypair m1) (public_key_bytes m2)
          = dh_exchange (keypair m2) (public_key_bytes m1)) as Hdh.
  { unfold dh_exchange, public_key_bytes. rewrite (nwf_public _ Hm1), (nwf_public _ Hm2).
    apply x25519_dh_comm. }
  split; by apply established_roundtrip.
Qed.

(** ** Cell broadcast *)

Lemma cell_roundtrip `{!AeadLaws} m1 m2 cell k rnd plaintext :
  cell_keys m1 !! cell = Some k → cell_keys m2 !! cell = Some k →
  cell_id k = cell → length (Group.key_bytes k) = 32 → length rnd = 12 →
  ∃ msg, encrypt_for_cell m1 cell rnd plaintext = Ok msg
    ∧ msg_cell_id msg = cell ∧ msg_generation msg = generation k
    ∧ length (nonce (encrypted msg)) = 12
    ∧ decrypt_cell_message m2 msg = Ok plaintext.
Proof.
  intros Hk1 Hk2 Hc Hk Hr. unfold encrypt_for_cell, decrypt_cell_message.
  destruct (Sym.decrypt_encrypt (group_key k) rnd plaintext Hk Hr) as (e & He & Hn & Hd).
  rewrite Hk1. cbn [ok_or mbind outcome_bind]. unfold Group.encrypt. rewrite He.
  eexists. split_and!; [done|by cbn..|by cbn; rewrite Hn|].
  cbn. rewrite Hc, Hk2. cbn. unfold Group.decrypt. cbn.
  by rewrite !decide_False by auto.
Qed.

Lemma wrong_generation_refused m cell k msg :
  cell_keys m !! cell = Some k → cell_id k = cell → msg_cell_id msg = cell →
  msg_generation msg ≠ generation k →
  decrypt_cell_message m msg = Err (DecryptionError "key generation mismatch").
Proof.
  intros Hk Hc Hm Hg. unfold decrypt_cell_message, Group.decrypt. rewrite Hm, Hk. cbn.
  rewrite decide_False by (rewrite Hc; auto). by rewrite decide_True.
Qed.

(** C14.  Rotation of a cell key (below the last generation): the new key has the
    next generation; a member that receives it ([set_cell_key]) decrypts, through the
    wire format, what the rotating device broadcasts, both refuse every message of
    the previous generation, and a device that still holds the old key refuses the
    new messages. *)
Theorem rotation_separates_generations `{!AeadLaws} `{!HkdfLaws} p m member outsider
    cell old kb now rnd plaintext :
  reachable p m → reachable p outsider →
  cell_keys m !! cell = Some old → cell_keys outsider !! cell = Some old →
  (generation old < umax 64)%Z → utf8_valid cell = true → (zlen cell < 256 ^ 4)%Z →
  length kb = 32 → length rnd = 12 →
  ∃ k m', rotate_cell_key p m cell kb now = Ok (k, m')
    ∧ generation k = (generation old + 1)%Z
    ∧ (∃ msg, encrypt_for_cell m' cell rnd plaintext = Ok msg
       ∧ CellMessage.from_bytes (CellMessage.to_bytes msg) = Ok msg
       ∧ decrypt_cell_message (set_cell_key member k) msg = Ok plaintext
       ∧ decrypt_cell_message outsider msg
         = Err (DecryptionError "key generation mismatch"))
    ∧ (∀ stale, msg_cell_id stale = cell → msg_generation stale = generation old →
       decrypt_cell_message m' stale = Err (DecryptionError "key generation mismatch")
       ∧ decrypt_cell_message (set_cell_key member k) stale
         = Err (DecryptionError "key generation mismatch")).
Proof.
  intros Hm%reachable_wf Ho%reachable_wf Hold Hout Hg Hu Hl Hkb Hr.
  destruct (nwf_keys _ Hm _ _ Hold) as (Hid & _ & Hin).
  set (k := {| cell_id := cell_id old; group_key := Sym.from_bytes kb;
               generation := generation old + 1; created_at := now |}).
  set (m' := set_keys m (<[cell := k]> (cell_keys m))).
  assert (in_u 64 (generation old + 1)) as Hin' by (unfold in_u, umax in *; lia).
  assert (cell_keys m' !! cell = Some k) as Hk by apply lookup_insert_eq.
  assert (cell_keys (set_cell_key member k) !! cell = Some k) as Hk2.
  { cbn. rewrite Hid. apply lookup_insert_eq. }
  exists k, m'. split_and!; [|done| |].
  - unfold rotate_cell_key, Group.rotate. rewrite Hold. cbn [ok_or mbind outcome_bind].
    by rewrite checked_in.
  - destruct (cell_roundtrip m' (set_cell_key member k) cell k rnd plaintext)
      as (msg & He & Hc & Hgm & Hn & Hd); [done..|].
    exists msg. split_and!; [done| |done|].
    + apply CellMessage.cell_message_from_to. split; [by rewrite Hc..| |done].
      by rewrite Hgm.
    + eapply wrong_generation_refused; [done|done|done|]. rewrite Hgm. cbn. lia.
  - intros stale Hc Hs. split; (eapply wrong_generation_refused; [done|done|done|]);
      rewrite Hs; cbn; lia.
Qed.

(** ** Documents *)

Lemma device_key_length `{!HkdfLaws} m : manager_wf m → length (key (device_key m)) = 32.
Proof. intros Hm. rewrite (nwf_device _ Hm). apply hkdf_length. Qed.

(** What anyone can compute from a device's public key alone. *)
Definition document_key_of_public_key (pk : bytes) : SymmetricKey :=
  Sym.from_bytes (hkdf None pk HKDF_INFO_DEVICE SYMMETRIC_KEY_SIZE).

(** Documents at rest: the device that encrypted a document decrypts it, another
    device's manager refuses it; but the key is derived from the device's public
    key alone, which it hands to every peer, so that whoever has the document
    and the public key computes the plaintext. *)
Theorem document_key_is_public `{!AeadLaws} `{!HkdfLaws} p m rnd plaintext now :
  reachable p m → length rnd = 12 →
  ∃ d, encrypt_document m rnd plaintext now = Ok d
    ∧ decrypt_document m d = Ok plaintext
    ∧ (∀ m', device_id m' ≠ device_id m →
        decrypt_document m' d
        = Err (DecryptionError "document encrypted by different device"))
    ∧ Sym.decrypt (document_key_of_public_key (public_key_bytes m)) (doc_encrypted d)
      = Ok plaintext.
Proof.
  intros Hm%reachable_wf Hr.
  destruct (Sym.decrypt_encrypt (device_key m) rnd plaintext) as (e & He & _ & Hd);
    [by apply device_key_length|done|].
  eexists. unfold encrypt_document, decrypt_document. rewrite He. cbn.
  split_and!; [done| | |].
  - by rewrite decide_False by auto.
  - intros m' Hne. by rewrite decide_True by auto.
  - unfold document_key_of_public_key, public_key_bytes. by rewrite <- (nwf_device _ Hm).
Qed.
End with_crypto.
End Manager.

(** * A lawful key exchange for witnesses

    The public key is the padded secret, the shared secret the bytewise sum. *)
#[local] Instance toy_x25519 : X25519 := {
  x25519_public s := pad 32 s;
  x25519_dh s pk := zip_with (λ a b, as_u8 (u8 a + u8 b)) (pad 32 s) pk
}.
Lemma toy_x25519_laws : X25519Laws.
Proof.
  split; cbn; [intros; apply length_pad|]. intros a b.
  generalize (pad 32 a), (pad 32 b). intros l k. revert k.
  induction l as [|x l IH]; intros [|y k]; cbn; [done..|]. f_equal; [|done].
  by rewrite Z.add_comm.
Qed.

#[local] Existing Instances toy_hkdf toy_aead.

Definition example_manager (b : byte) : EncryptionManager :=
  Manager.new (keypair_from_secret_bytes (replicate 32 b)) (replicate 16 b).
Definition example_member (b : byte) : EncryptionManager :=
  (Manager.get_or_create_cell_key (example_manager b) (str "alpha")
     (replicate 32 Byte.x07) 5).2.

Lemma example_reachable b : Manager.reachable Release (example_manager b).
Proof. by apply Manager.reach_new. Qed.
Lemma example_member_reachable b : Manager.reachable Release (example_member b).
Proof.
  eapply Manager.reach_step; [apply example_reachable|]. by apply Manager.step_create.
Qed.

Lemma channel_agreement_witness :
  ∃ e, Manager.decrypt_from_peer
         (Manager.establish_channel (example_manager Byte.x02) (replicate 16 Byte.x01)
            (replicate 32 Byte.x01) 9)
         (replicate 16 Byte.x01) e = Ok (str "position").
Proof.
  destruct (Manager.channel_agreement (H := toy_x25519_laws) (H0 := toy_aead_laws)
    (H1 := toy_hkdf_laws) Release (example_manager Byte.x01) (example_manager Byte.x02)
    9 9 (replicate 12 Byte.x05) (str "position")
    (example_reachable _) (example_reachable _) eq_refl) as [(e & _ & _ & He) _].
  exists e. exact He.
Defined.

Lemma rotation_separates_generations_witness :
  ∃ k m, Manager.rotate_cell_key Release (example_member Byte.x01) (str "alpha")
           (replicate 32 Byte.x09) 6 = Ok (k, m) ∧ generation k = 2%Z.
Proof.
  destruct (Manager.rotation_separates_generations (H := toy_aead_laws) (H0 := toy_hkdf_laws)
    Release (example_member Byte.x01) (example_manager Byte.x02) (example_member Byte.x03)
    (str "alpha") (Group.generate (str "alpha") (replicate 32 Byte.x07) 5)
    (replicate 32 Byte.x09) 6 (replicate 12 Byte.x05) (str "hold")
    (example_member_reachable _) (example_member_reachable _) ltac:(vm_eq) ltac:(vm_eq)
    ltac:(done) eq_refl ltac:(done) eq_refl eq_refl) as (k & m & Hr & Hg & _).
  exists k, m. split; [exact Hr|exact Hg].
Defined.

Lemma document_key_is_public_witness :
  ∃ d, Manager.encrypt_document (example_manager Byte.x01) (replicate 12 Byte.x05)
         (str "report") 7 = Ok d
    ∧ Sym.decrypt (Manager.document_key_of_public_key (replicate 32 Byte.x01))
        (doc_encrypted d) = Ok (str "report").
Proof.
  destruct (Manager.document_key_is_public (H := toy_aead_laws) (H0 := toy_hkdf_laws)
    Release (example_manager Byte.x01) (replicate 12 Byte.x05) (str "report") 7
    (example_reachable _) eq_refl) as (d & Hd & _ & _ & Hk).
  exists d. split; [exact Hd|exact Hk].
Defined.
