(* ===== verification/Formation.v ===== *)
(** Formation keys ([src/security/formation_key.rs]), the set of formation peers
    ([src/security/formation_peers.rs]) and the authentication of sync connections
    with them: [respond_to_formation_auth], [run_formation_auth] and the connection
    handler of [src/storage/mesh_sync_transport.rs].  HMAC-SHA256 and base64 are
    third-party code, the classes [Hmac] and [Base64]. *)
From Stdlib Require Import ZArith Lia Strings.Byte Strings.String.
From stdpp Require Import prelude gmap.
From S2P Require Import Prelude Wire Crypto Device Certificate Bundle.

Set Default Proof Using "Type".

(** [hmac k m]: [Hmac::<Sha256>] with key [k] over the message [m]. *)
Class Hmac := hmac : bytes → bytes → bytes.
Class HmacLaws `{!Hmac} := hmac_length k m : length (hmac k m) = 32.

(** The [STANDARD] engine of the base64 crate. *)
Class Base64 := {
  base64_encode : bytes → bytes;
  base64_decode : bytes → option bytes
}.
Class Base64Laws `{!Base64} := {
  base64_decode_encode b : base64_decode (base64_encode b) = Some b;
  base64_printable b : Forall (λ c, 32 < u8 c < 127)%Z (base64_encode b)
}.

(** * [str::trim] *)

(** The UTF-8 encodings of the characters with the White_Space property. *)
Definition whitespace : list bytes :=
  ((λ z, [as_u8 z]) <$> [9; 10; 11; 12; 13; 32]%Z)
  ++ ((λ z, [as_u8 0xC2; as_u8 z]) <$> [0x85; 0xA0]%Z)
  ++ [[as_u8 0xE1; as_u8 0x9A; as_u8 0x80]]
  ++ ((λ z, [as_u8 0xE2; as_u8 0x80; as_u8 z]) <$>
        [0x80; 0x81; 0x82; 0x83; 0x84; 0x85; 0x86; 0x87; 0x88; 0x89; 0x8A; 0xA8; 0xA9; 0xAF]%Z)
  ++ [[as_u8 0xE2; as_u8 0x81; as_u8 0x9F]; [as_u8 0xE3; as_u8 0x80; as_u8 0x80]].

(** [strip ws n l] removes up to [n] of the words [ws] from the front. *)
Fixpoint strip (ws : list bytes) (n : nat) (l : bytes) : bytes :=
  match n with
  | O => l
  | S n =>
      match list_find (λ w, take (length w) l = w) ws with
      | Some (_, w) => strip ws n (drop (length w) l)
      | None => l
      end
  end.
Definition trim (s : bytes) : bytes :=
  let s := strip whitespace (length s) s in
  reverse (strip (reverse <$> whitespace) (length s) (reverse s)).

(** * [FormationKey] *)
Record FormationKey := { formation_id : bytes; hmac_key : bytes }.

Definition FORMATION_CHALLENGE_SIZE : nat := 32.
Definition FORMATION_RESPONSE_SIZE : nat := 32.
Definition HKDF_INFO_FORMATION : bytes := str "peat-protocol-v1-formation".

Module FormationKey.
Section with_crypto.
Context {Kdf : Hkdf} {Sha : Sha256} {Mac : Hmac} {B64 : Base64}.

Definition new (id shared_secret : bytes) : FormationKey :=
  {| formation_id := id; hmac_key := hkdf (Some id) shared_secret HKDF_INFO_FORMATION 32 |}.

Definition from_base64 (id base64_secret : bytes) : outcome SecurityError FormationKey :=
  secret_bytes ← ok_or (base64_decode (trim base64_secret))
                   (AuthenticationFailed "Invalid base64 shared secret");
  secret ← (if decide (length secret_bytes = 32) then array 32 secret_bytes
            else Ok (sha256 secret_bytes));
  Ok (new id secret).

(** [rnd] are the random bytes drawn for the secret. *)
Definition generate_secret (rnd : bytes) : bytes := base64_encode rnd.

Definition compute_response (k : FormationKey) (nonce : bytes) : outcome SecurityError bytes :=
  array FORMATION_RESPONSE_SIZE (hmac (hmac_key k) (nonce ++ formation_id k)).

Definition create_challenge (k : FormationKey) (rnd : bytes)
    : outcome SecurityError (bytes * bytes) :=
  expected ← compute_response k rnd;
  Ok (rnd, expected).

Definition respond_to_challenge (k : FormationKey) (nonce : bytes)
    : outcome SecurityError bytes :=
  compute_response k nonce.

Definition verify_response (k : FormationKey) (nonce response : bytes)
    : outcome SecurityError bool :=
  expected ← compute_response k nonce;
  Ok (bool_decide (expected = response)).

Lemma compute_response_ok `{!HmacLaws} k n :
  compute_response k n = Ok (hmac (hmac_key k) (n ++ formation_id k)).
Proof. apply array_ok, hmac_length. Qed.

(** The trim does not touch printable text, so a generated secret parses to the
    key of the random bytes. *)
Lemma strip_printable ws n l :
  Forall (λ c, 32 < u8 c < 127)%Z l →
  Forall (λ w, ∃ b r, w = b :: r ∧ ¬ (32 < u8 b < 127)%Z) ws → strip ws n l = l.
Proof.
  intros Hl Hws. destruct n as [|n]; [done|]. cbn [strip].
  destruct (list_find _ ws) as [[i w]|] eqn:Hf; [exfalso|done].
  apply list_find_Some in Hf as (Hi & Hw & _).
  destruct (Forall_lookup_1 _ _ _ _ Hws Hi) as (b & r & -> & Hb).
  destruct l as [|c l]; [done|]. cbn in Hw. injection Hw as -> _.
  by apply Forall_cons in Hl as [? _].
Qed.

Lemma trim_printable l : Forall (λ c, 32 < u8 c < 127)%Z l → trim l = l.
Proof.
  intros Hl. unfold trim. rewrite (strip_printable whitespace _ l); [|done|].
  - rewrite strip_printable; [apply reverse_involutive|by apply Forall_reverse|].
    repeat constructor; (do 2 eexists; split; [reflexivity|by vm_compute; intros []]).
  - repeat constructor; (do 2 eexists; split; [reflexivity|by vm_compute; intros []]).
Qed.

Lemma generated_secret_parses `{!Base64Laws} id rnd :
  length rnd = 32 → from_base64 id (generate_secret rnd) = Ok (new id rnd).
Proof.
  intros Hr. unfold from_base64, generate_secret.
  rewrite trim_printable by apply base64_printable.
  rewrite base64_decode_encode. cbn [ok_or mbind outcome_bind].
  rewrite decide_True by done. by rewrite array_ok.
Qed.
End with_crypto.
End FormationKey.

(** * Messages *)
Record FormationChallenge := { challenge_formation_id : bytes; challenge_nonce : bytes }.
Record FormationChallengeResponse := { response : bytes }.
Inductive FormationAuthResult := Accepted | Rejected.

Module Challenge.
Definition to_bytes (c : FormationChallenge) : bytes :=
  to_le 2 (zlen (challenge_formation_id c)) ++ challenge_formation_id c ++ challenge_nonce c.

Definition from_bytes (b : bytes) : outcome SecurityError FormationChallenge :=
  bail! decide (length b < 2) with AuthenticationFailed "Challenge too short";
  b0 ← index b 0;
  b1 ← index b 1;
  let id_len := Z.to_nat (from_le [b0; b1]) in
  bail! decide (length b < 2 + id_len + FORMATION_CHALLENGE_SIZE)
    with AuthenticationFailed "Challenge truncated";
  id ← slice b 2 (2 + id_len);
  id ← ok_or (from_utf8 id) (AuthenticationFailed "Invalid formation ID");
  nonce ← slice b (2 + id_len) (2 + id_len + FORMATION_CHALLENGE_SIZE);
  nonce ← array FORMATION_CHALLENGE_SIZE nonce;
  Ok {| challenge_formation_id := id; challenge_nonce := nonce |}.

Record challenge_wf (c : FormationChallenge) : Prop := {
  fwf_id : utf8_valid (challenge_formation_id c) = true;
  fwf_id_len : (zlen (challenge_formation_id c) < 65536)%Z;
  fwf_nonce : length (challenge_nonce c) = 32
}.

Lemma challenge_decode_no_panic b : no_panic (from_bytes b).
Proof. unfold from_bytes, FORMATION_CHALLENGE_SIZE. panic_free. Qed.

Lemma challenge_decode_cursor c data rest :
  challenge_wf c → cursor data 0 (to_bytes c ++ rest) → from_bytes data = Ok c.
Proof.
  intros [] C. unfold from_bytes, to_bytes, FORMATION_CHALLENGE_SIZE in *.
  rewrite <- !(assoc_L (++)), to_le_2 in C. cbn [app] in C. decode_run C. by destruct c.
Qed.

Lemma challenge_decode_inv b c :
  from_bytes b = Ok c → challenge_wf c ∧ ∃ rest, b = to_bytes c ++ rest.
Proof.
  intros H. unfold from_bytes, FORMATION_CHALLENGE_SIZE in H.
  pose proof (cursor_start b) as C. decode_inv H. simplify_eq.
  split; [split; cbn; eauto|].
  - eapply (len_le_bound 2); [eassumption|done].
  - eexists. unfold to_bytes. cbn. wire_eq.
Qed.
End Challenge.

Module Response.
Definition to_bytes (r : FormationChallengeResponse) : bytes := response r.

Definition from_bytes (b : bytes) : outcome SecurityError FormationChallengeResponse :=
  bail! decide (length b < FORMATION_RESPONSE_SIZE)
    with AuthenticationFailed "Response too short";
  r ← slice b 0 FORMATION_RESPONSE_SIZE;
  r ← array FORMATION_RESPONSE_SIZE r;
  Ok {| response := r |}.

Lemma response_decode_inv b r :
  from_bytes b = Ok r → length (response r) = 32 ∧ ∃ rest, b = response r ++ rest.
Proof.
  intros H. unfold from_bytes, FORMATION_RESPONSE_SIZE in H.
  pose proof (cursor_start b) as C. decode_inv H. simplify_eq. cbn. eauto.
Qed.
Lemma response_decode_to r : length (response r) = 32 → from_bytes (to_bytes r) = Ok r.
Proof.
  intros Hr. unfold from_bytes, to_bytes, FORMATION_RESPONSE_SIZE.
  rewrite decide_False by lia. rewrite slice_in by lia. cbn [mbind outcome_bind].
  rewrite drop_0, take_ge by lia. rewrite array_ok by done. by destruct r.
Qed.
End Response.

Module AuthResult.
Definition to_byte (r : FormationAuthResult) : byte :=
  match r with Accepted => as_u8 0x01 | Rejected => as_u8 0x00 end.
Definition from_byte (b : byte) : FormationAuthResult :=
  if decide (b = as_u8 0x01) then Accepted else Rejected.
End AuthResult.

(** * [FormationPeerSet] *)
Module PeerSet.
Definition new : gset bytes := ∅.
Definition insert (s : gset bytes) (peer : bytes) : gset bytes := {[peer]} ∪ s.
Definition remove (s : gset bytes) (peer : bytes) : gset bytes := s ∖ {[peer]}.
Definition contains (s : gset bytes) (peer : bytes) : bool := bool_decide (peer ∈ s).
Definition snapshot (s : gset bytes) : list bytes := elements s.
End PeerSet.

(** * The authentication stream

    One side of a conversation over a bidirectional stream: it reads from what the
    peer has sent and writes.  A read past the end of the input is a timeout or a
    closed stream. *)
Inductive AuthError :=
| ReadFailed
| UnsupportedVersion (v : Z)
| TooLarge (n : Z)
| InvalidMessage (e : SecurityError)
| FormationIdMismatch
| RejectedByAcceptor
| HmacVerificationFailed.

Record stream := { inp : bytes; out : bytes }.
Definition talk (A : Type) : Type := stream → outcome AuthError A * stream.
Global Instance talk_ret : MRet talk := λ A a s, (Ok a, s).
Global Instance talk_bind : MBind talk := λ A B f m s,
  match m s with
  | (Ok a, s) => f a s
  | (Err e, s) => (Err e, s)
  | (Panic, s) => (Panic, s)
  end.

Module Auth.
Definition read_exact (n : nat) : talk bytes := λ s,
  if decide (length (inp s) < n) then (Err ReadFailed, s)
  else (Ok (take n (inp s)), {| inp := drop n (inp s); out := out s |}).
Definition write_all (b : bytes) : talk unit := λ s,
  (Ok tt, {| inp := inp s; out := out s ++ b |}).
Definition fail {A} (e : AuthError) : talk A := λ s, (Err e, s).
Definition lift {A} (m : outcome SecurityError A) : talk A := λ s, (map_err InvalidMessage m, s).

(** What a side answers to the bytes it receives. *)
Definition run {A} (m : talk A) (input : bytes) : outcome AuthError A * bytes :=
  let r := m {| inp := input; out := [] |} in (r.1, out r.2).

Definition FORMATION_AUTH_VERSION : byte := as_u8 1.

Section with_crypto.
Context {Ed : Ed25519} {Mac : Hmac}.

(** [rnd] is the nonce of the challenge. *)
Definition run_formation_auth (fk : FormationKey) (rnd : bytes) : talk unit :=
  version ← read_exact 1;
  v ← lift (index version 0);
  if decide (v ≠ FORMATION_AUTH_VERSION) then fail (UnsupportedVersion (u8 v)) else
  c ← lift (FormationKey.create_challenge fk rnd);
  let challenge_bytes := Challenge.to_bytes
    {| challenge_formation_id := formation_id fk; challenge_nonce := c.1 |} in
  _ ← write_all (to_le 4 (zlen challenge_bytes));
  _ ← write_all challenge_bytes;
  len_buf ← read_exact 4;
  let resp_len := from_le len_buf in
  if decide (resp_len > 256)%Z then fail (TooLarge resp_len) else
  resp_buf ← read_exact (Z.to_nat resp_len);
  resp ← lift (Response.from_bytes resp_buf);
  ok ← lift (FormationKey.verify_response fk c.1 (response resp));
  if (ok : bool) then
    _ ← write_all [AuthResult.to_byte Accepted];
    mret tt
  else
    _ ← write_all [AuthResult.to_byte Rejected];
    fail HmacVerificationFailed.

Definition respond_to_formation_auth (fk : FormationKey) : talk unit :=
  _ ← write_all [FORMATION_AUTH_VERSION];
  len_buf ← read_exact 4;
  let challenge_len := from_le len_buf in
  if decide (challenge_len > 1024)%Z then fail (TooLarge challenge_len) else
  challenge_buf ← read_exact (Z.to_nat challenge_len);
  challenge ← lift (Challenge.from_bytes challenge_buf);
  if decide (challenge_formation_id challenge ≠ formation_id fk)
  then fail FormationIdMismatch else
  resp ← lift (FormationKey.respond_to_challenge fk (challenge_nonce challenge));
  let resp_bytes := Response.to_bytes {| response := resp |} in
  _ ← write_all (to_le 4 (zlen resp_bytes));
  _ ← write_all resp_bytes;
  verdict ← read_exact 1;
  v ← lift (index verdict 0);
  match AuthResult.from_byte v with
  | Accepted => mret tt
  | Rejected => fail RejectedByAcceptor
  end.

(** Both sides over one stream: each is run on what the other has written so far,
    until neither has more to say. *)
Definition handshake (acceptor connector : FormationKey) (rnd : bytes)
    : outcome AuthError unit * outcome AuthError unit :=
  let c0 := (run (respond_to_formation_auth connector) []).2 in
  let a1 := (run (run_formation_auth acceptor rnd) c0).2 in
  let c1 := (run (respond_to_formation_auth connector) a1).2 in
  let a2 := run (run_formation_auth acceptor rnd) c1 in
  (a2.1, (run (respond_to_formation_auth connector) a2.2).1).

(** [SyncProtocolHandler::accept]: [peer] is the remote key, [input] what the peer
    sends on the stream it opens. *)
Inductive AcceptAction :=
| Close (code : Z) (reason : bytes)
| StartSync (peer : bytes).

Definition accept (certificate_bundle : option CertificateBundle) (fk : FormationKey)
    (rnd peer input : bytes) (now_ms : Z) : AcceptAction :=
  if match certificate_bundle with
     | Some b => negb (Bundle.validate_peer b peer now_ms)
     | None => false
     end
  then Close 2 (str "certificate required")
  else
    match (run (run_formation_auth fk rnd) input).1 with
    | Ok _ => StartSync peer
    | _ => Close 1 (str "formation auth failed")
    end.

(** ** Running a conversation *)

Lemma bind_read {A} n (f : bytes → talk A) m rest o :
  length m = n →
  (read_exact n ≫= f) {| inp := m ++ rest; out := o |} = f m {| inp := rest; out := o |}.
Proof.
  intros <-. unfold mbind, talk_bind, read_exact. cbn [inp out].
  rewrite decide_False by (rewrite length_app; lia).
  by rewrite take_app_length, drop_app_length.
Qed.
Lemma bind_read_short {A} n (f : bytes → talk A) i o :
  length i < n → (read_exact n ≫= f) {| inp := i; out := o |} = (Err ReadFailed, {| inp := i; out := o |}).
Proof. intros H. unfold mbind, talk_bind, read_exact. cbn. by rewrite decide_True. Qed.
Lemma bind_write {A} b (f : unit → talk A) i o :
  (write_all b ≫= f) {| inp := i; out := o |} = f tt {| inp := i; out := o ++ b |}.
Proof. done. Qed.
Lemma bind_lift {A B} (m : outcome SecurityError A) (f : A → talk B) a s :
  m = Ok a → (lift m ≫= f) s = f a s.
Proof. by intros ->. Qed.

(** What the two sides write. *)
Definition challenge_of (fk : FormationKey) (rnd : bytes) : bytes :=
  Challenge.to_bytes {| challenge_formation_id := formation_id fk; challenge_nonce := rnd |}.
Definition challenge_frame (fk : FormationKey) (rnd : bytes) : bytes :=
  to_le 4 (zlen (challenge_of fk rnd)) ++ challenge_of fk rnd.
Definition expected_response (fk : FormationKey) (rnd : bytes) : bytes :=
  hmac (hmac_key fk) (rnd ++ formation_id fk).
Definition response_frame (r : bytes) : bytes := to_le 4 (zlen r) ++ r.

(** A formation id that fits the length limit of the connector. *)
Record key_wf (fk : FormationKey) : Prop := {
  kwf_fid : utf8_valid (formation_id fk) = true;
  kwf_fid_len : length (formation_id fk) ≤ 990
}.

Lemma length_challenge_of fk rnd :
  length rnd = 32 → length (challenge_of fk rnd) = 34 + length (formation_id fk).
Proof.
  intros Hr. unfold challenge_of, Challenge.to_bytes. cbn.
  autorewrite with lens. rewrite Hr. lia.
Qed.

Lemma response_frame_read (r : bytes) :
  length r = 32 → from_le (to_le 4 (zlen r)) = 32%Z.
Proof. intros Hr. rewrite (le_roundtrip 4 32); [|done|]; unfold zlen, in_u; rewrite Hr; lia. Qed.

Lemma connector_on_challenge `{!HmacLaws} fk fk' rnd rest :
  key_wf fk' → length rnd = 32 →
  run (respond_to_formation_auth fk) (challenge_frame fk' rnd ++ rest) =
  if decide (formation_id fk' ≠ formation_id fk)
  then (Err FormationIdMismatch, [FORMATION_AUTH_VERSION])
  else
    (match rest with
     | [] => Err ReadFailed
     | b :: _ => match AuthResult.from_byte b with
                 | Accepted => Ok tt | Rejected => Err RejectedByAcceptor
                 end
     end, [FORMATION_AUTH_VERSION] ++ response_frame (expected_response fk rnd)).
Proof.
  intros [Hu Hl] Hr. pose proof (length_challenge_of fk' rnd Hr) as HL.
  unfold run, respond_to_formation_auth, challenge_frame. rewrite <- (assoc_L (++)).
  rewrite bind_write, bind_read by apply length_to_le.
  assert (from_le (to_le 4 (zlen (challenge_of fk' rnd))) = zlen (challenge_of fk' rnd)) as ->.
  { apply (le_roundtrip 4 32); [done|]. unfold in_u, zlen. lia. }
  cbv zeta. rewrite decide_False by (unfold zlen; lia).
  rewrite bind_read by (unfold zlen; lia).
  rewrite (bind_lift _ _ {| challenge_formation_id := formation_id fk'; challenge_nonce := rnd |}).
  2:{ apply (Challenge.challenge_decode_cursor _ _ []).
      - split; cbn; [done|unfold zlen; lia|done].
      - rewrite app_nil_r. apply cursor_start. }
  cbn [challenge_formation_id challenge_nonce].
  case_decide as Hid; [done|].
  rewrite (bind_lift _ _ _ _ (FormationKey.compute_response_ok fk rnd)).
  rewrite !bind_write. unfold Response.to_bytes. cbn [response]. fold (expected_response fk rnd).
  destruct rest as [|b rest].
  - rewrite bind_read_short by (cbn; lia). by rewrite <- (assoc_L (++)).
  - rewrite (bind_read 1 _ [b] rest) by done. rewrite (bind_lift _ _ b) by done.
    rewrite <- (assoc_L (++)). by destruct (AuthResult.from_byte b).
Qed.

Lemma acceptor_prompt `{!HmacLaws} fk rnd :
  run (run_formation_auth fk rnd) [FORMATION_AUTH_VERSION]
  = (Err ReadFailed, challenge_frame fk rnd).
Proof.
  unfold run, run_formation_auth.
  rewrite (bind_read 1 _ [FORMATION_AUTH_VERSION] []) by done.
  rewrite (bind_lift _ _ FORMATION_AUTH_VERSION) by done. rewrite decide_False by auto.
  rewrite (bind_lift _ _ (rnd, expected_response fk rnd)).
  2:{ unfold FormationKey.create_challenge. by rewrite FormationKey.compute_response_ok. }
  cbv zeta. rewrite !bind_write. by rewrite bind_read_short by (cbn; lia).
Qed.

Lemma acceptor_on_response `{!HmacLaws} fk rnd r rest :
  length r = 32 →
  run (run_formation_auth fk rnd) ([FORMATION_AUTH_VERSION] ++ response_frame r ++ rest)
  = if decide (r = expected_response fk rnd)
    then (Ok tt, challenge_frame fk rnd ++ [AuthResult.to_byte Accepted])
    else (Err HmacVerificationFailed, challenge_frame fk rnd ++ [AuthResult.to_byte Rejected]).
Proof.
  intros Hr. unfold run, run_formation_auth, response_frame. rewrite <- (assoc_L (++)).
  rewrite (bind_read 1) by done.
  rewrite (bind_lift _ _ FORMATION_AUTH_VERSION) by done. rewrite decide_False by auto.
  rewrite (bind_lift _ _ (rnd, expected_response fk rnd)).
  2:{ unfold FormationKey.create_challenge. by rewrite FormationKey.compute_response_ok. }
  cbv zeta. rewrite !bind_write, bind_read by apply length_to_le.
  rewrite response_frame_read by done. rewrite decide_False by lia.
  rewrite bind_read by (by rewrite Hr).
  rewrite (bind_lift _ _ {| response := r |}) by (by apply (Response.response_decode_to {| response := r |})).
  rewrite (bind_lift _ _ (bool_decide (expected_response fk rnd = r))).
  2:{ unfold FormationKey.verify_response. by rewrite FormationKey.compute_response_ok. }
  cbn [fst]. case_decide as He; subst.
  - by rewrite bool_decide_eq_true_2, bind_write by done.
  - rewrite bool_decide_eq_false_2, bind_write by done. done.
Qed.

(** Formation authentication: over one stream, two nodes complete the handshake
    exactly when they have the same formation id and the HMAC keys give the same
    response to the challenge (the same key, in particular); otherwise both sides
    fail.  The id has to be UTF-8 of at most 990 bytes. *)
Theorem handshake_outcome `{!HmacLaws} acceptor connector rnd :
  key_wf acceptor → length rnd = 32 →
  handshake acceptor connector rnd =
  if decide (formation_id acceptor = formation_id connector) then
    if decide (expected_response connector rnd = expected_response acceptor rnd)
    then (Ok tt, Ok tt)
    else (Err HmacVerificationFailed, Err RejectedByAcceptor)
  else (Err ReadFailed, Err FormationIdMismatch).
Proof.
  intros Hk Hr. unfold handshake.
  change (run (respond_to_formation_auth connector) []).2 with [FORMATION_AUTH_VERSION].
  rewrite acceptor_prompt. cbn [snd].
  pose proof (connector_on_challenge connector acceptor rnd [] Hk Hr) as Hc.
  rewrite app_nil_r in Hc. rewrite Hc. case_decide as Hid.
  - cbn [snd]. rewrite acceptor_prompt. cbn [fst snd]. rewrite Hc. by rewrite !decide_False.
  - rewrite (decide_True (P := formation_id acceptor = _)) by done.
    cbn [snd].
    rewrite <- (app_nil_r (response_frame _)), acceptor_on_response by apply hmac_length.
    case_decide as He; cbn [fst snd]; rewrite connector_on_challenge by done;
      by rewrite decide_False by auto.
Qed.

(** ** What an accepted peer has sent *)

Lemma talk_bind_Ok {A B} (m : talk A) (f : A → talk B) s b s' :
  (m ≫= f) s = (Ok b, s') → ∃ a s1, m s = (Ok a, s1) ∧ f a s1 = (Ok b, s').
Proof.
  unfold mbind, talk_bind. destruct (m s) as [[a| |] s1]; [eauto|discriminate..].
Qed.
Lemma read_exact_Ok n s b s' :
  read_exact n s = (Ok b, s') → inp s = b ++ inp s' ∧ length b = n.
Proof.
  unfold read_exact. case_decide as H; [discriminate|]. intros [= <- <-]. cbn.
  rewrite take_drop, length_take. split; [done|lia].
Qed.
Lemma write_all_inp b s r s' : write_all b s = (r, s') → inp s' = inp s.
Proof. by intros [= _ <-]. Qed.
Lemma lift_Ok {A} (m : outcome SecurityError A) s a s' :
  lift m s = (Ok a, s') → m = Ok a ∧ s' = s.
Proof. unfold lift. destruct m; cbn; naive_solver. Qed.

Ltac talk_inv H :=
  match type of H with
  | (if decide ?c then fail _ else _) _ = (Ok _, _) => destruct (decide c); [discriminate H|]
  | (_ ≫= _) _ = (Ok _, _) =>
      let a := fresh "v" in let s := fresh "s" in let Ha := fresh "Hv" in
      apply talk_bind_Ok in H as (a & s & Ha & H); cbv beta zeta in H;
      lazymatch type of Ha with
      | read_exact _ _ = _ => let L := fresh "Hlen" in apply read_exact_Ok in Ha as [Ha L]
      | write_all _ _ = _ => apply write_all_inp in Ha
      | lift _ _ = _ => let L := fresh "Hm" in apply lift_Ok in Ha as [L ->]
      | _ => idtac
      end
  end.

Lemma acceptor_sound `{!HmacLaws} fk rnd input :
  (run (run_formation_auth fk rnd) input).1 = Ok tt →
  ∃ len rest, length len = 4
    ∧ input = [FORMATION_AUTH_VERSION] ++ len ++ expected_response fk rnd ++ rest.
Proof.
  unfold run. cbn [fst]. intros Hok.
  destruct (run_formation_auth fk rnd {| inp := input; out := [] |}) as [r st] eqn:Hrun.
  cbn in Hok. subst r. unfold run_formation_auth in Hrun. repeat talk_inv Hrun.
  unfold FormationKey.create_challenge in *. rewrite FormationKey.compute_response_ok in *.
  simplify_eq/=. match goal with H : FormationKey.verify_response _ _ _ = Ok ?b |- _ =>
    rename H into Hver; destruct b end.
  2:{ by repeat talk_inv Hrun. }
  unfold FormationKey.verify_response in Hver.
  rewrite FormationKey.compute_response_ok in Hver. injection Hver as Heq%bool_decide_eq_true.
  match goal with H : Response.from_bytes _ = Ok _ |- _ =>
    apply Response.response_decode_inv in H as [_ (rest & Hbody)] end.
  destruct v as [|b [|? ?]]; [discriminate Hlen| |discriminate Hlen].
  injection Hm as ->. apply dec_stable in n as ->.
  exists v4, (rest ++ inp s3). split; [done|]. unfold expected_response. cbn [app]. f_equal.
  by rewrite Heq, <- Hv0, <- Hv1, Hv2, Hv3, Hbody, <- (assoc_L (++)).
Qed.

(** C9.  Admission to sync: when the handler starts a sync connection, the peer has
    sent, on a stream of the current version, the HMAC of this connection's nonce
    and the formation id under the formation key; and when a certificate
    bundle is configured (built by the bundle's operations), the peer holds a
    currently valid, correctly signed certificate for its key with a chain to an
    authority or a self-signed root of the bundle. *)
Theorem sync_connection_authenticated `{!HmacLaws} bundle fk rnd peer input now_ms q :
  accept bundle fk rnd peer input now_ms = StartSync q →
  q = peer
  ∧ (∃ len rest, length len = 4
       ∧ input = [FORMATION_AUTH_VERSION] ++ len
                 ++ hmac (hmac_key fk) (rnd ++ formation_id fk) ++ rest)
  ∧ (∀ b built, bundle = Some b → Bundle.reachable built b →
       ∃ c, certificates b !! peer = Some c ∧ subject_public_key c = peer
         ∧ Cert.is_valid c now_ms = true ∧ Cert.verify c = Ok tt
         ∧ Bundle.chain (authorities b) built c).
Proof.
  unfold accept. case_match eqn:Hb; [discriminate|].
  destruct (run (run_formation_auth fk rnd) input).1 as [[]| |] eqn:Hrun; [|discriminate..].
  intros [= <-]. split_and!; [done|by apply acceptor_sound|].
  intros b built -> Hr%Bundle.reachable_ok. apply negb_false_iff in Hb.
  unfold Bundle.validate_peer in Hb. destruct (certificates b !! peer) as [c|] eqn:Hl; [|done].
  apply Bundle.check_cert_inv in Hb as [Hv Hs]. apply Hr in Hl as Hc. naive_solver.
Qed.

(** The handshake authenticates the connecting side only: a node that knows a
    formation's id, but has no key, makes a connector of that formation finish
    successfully, for any challenge, by sending the accepting verdict itself. *)
Theorem acceptor_is_not_authenticated `{!HmacLaws} fk rnd :
  key_wf fk → length rnd = 32 →
  (run (respond_to_formation_auth fk)
     (challenge_frame {| formation_id := formation_id fk; hmac_key := [] |} rnd
      ++ [AuthResult.to_byte Accepted])).1 = Ok tt.
Proof.
  intros [Hu Hl] Hr. rewrite connector_on_challenge; [|by split|done].
  by rewrite decide_False by auto.
Qed.
End with_crypto.
End Auth.

(** * Witnesses *)
#[local] Instance toy_hmac : Hmac := λ k m, pad 32 (k ++ m).
Lemma toy_hmac_laws : HmacLaws.
Proof. intros k m. apply length_pad. Qed.
#[local] Existing Instances toy_ed25519 toy_hkdf.

Definition ex_formation : FormationKey :=
  {| formation_id := str "alpha"; hmac_key := replicate 4 Byte.x0a |}.
Definition ex_other_key : FormationKey :=
  {| formation_id := str "alpha"; hmac_key := replicate 4 Byte.x0b |}.
Definition ex_nonce : bytes := replicate 32 Byte.x03.

Lemma handshake_outcome_witness :
  Auth.handshake ex_formation ex_formation ex_nonce = (Ok tt, Ok tt)
  ∧ Auth.handshake ex_formation ex_other_key ex_nonce
    = (Err HmacVerificationFailed, Err RejectedByAcceptor).
Proof.
  split; rewrite (Auth.handshake_outcome (H := toy_hmac_laws));
    [vm_eq|split; [vm_eq|vm_compute; lia]|done|vm_eq|split; [vm_eq|vm_compute; lia]|done].
Defined.

Lemma sync_connection_authenticated_witness :
  let b := Bundle.add_certificate_unchecked ex_bundle ex_old in
  ∃ c, certificates b !! subject_public_key ex_old = Some c
    ∧ Bundle.chain (authorities b) 20 c.
Proof.
  intros b.
  destruct (Auth.sync_connection_authenticated (H := toy_hmac_laws) (Some b) ex_formation
    ex_nonce (subject_public_key ex_old)
    ([Auth.FORMATION_AUTH_VERSION]
     ++ Auth.response_frame (Auth.expected_response ex_formation ex_nonce))
    30 (subject_public_key ex_old)) as (_ & _ & Hc); [vm_eq|].
  destruct (Hc b 20%Z eq_refl) as (c & Hl & _ & _ & _ & Hch).
  - apply (Bundle.reach_add 10 20 ex_bundle b ex_old); [|done|vm_eq].
    by apply (Bundle.reach_authority 5 10); [apply Bundle.reach_new|].
  - by exists c.
Defined.

Lemma acceptor_is_not_authenticated_witness :
  (Auth.run (Auth.respond_to_formation_auth ex_formation)
     (Auth.challenge_frame {| formation_id := str "alpha"; hmac_key := [] |} ex_nonce
      ++ [AuthResult.to_byte Accepted])).1 = Ok tt.
Proof.
  apply (Auth.acceptor_is_not_authenticated (H := toy_hmac_laws) ex_formation ex_nonce);
    [split; [vm_eq|vm_compute; lia]|done].
Defined.
