(* ===== verification/Transport.v ===== *)
(** Types shared by the transports ([src/transport/mod.rs]): errors, connection
    health, and the peer lifecycle events that applications subscribe to. *)
From Stdlib Require Import ZArith Lia Strings.Byte Strings.String.
From stdpp Require Import prelude gmap.
From S2P Require Import Prelude Wire.

Set Default Proof Using "Type".

(** The payload of [Other] is a boxed error; it carries its message. *)
Inductive TransportError :=
| ConnectionFailed (msg : string)
| PeerNotFound (peer : bytes)
| AlreadyConnected (msg : bytes)
| NotStarted
| Other (msg : string).

Inductive ConnectionState := Healthy | Degraded | Suspect | Dead.
Global Instance ConnectionState_eq_dec : EqDecision ConnectionState.
Proof. solve_decision. Defined.

Record ConnectionHealth := {
  rtt_ms : Z;
  rtt_variance_ms : Z;
  packet_loss_percent : Z;
  health_state : ConnectionState;
  last_activity : Z
}.

Inductive DisconnectReason :=
| RemoteClosed
| Timeout
| NetworkError (msg : bytes)
| LocalClosed
| IdleTimeout
| ApplicationError (msg : bytes)
| Unknown.

Inductive PeerEvent :=
| Connected (peer_id : bytes) (connected_at : Z)
| Disconnected (peer_id : bytes) (reason : DisconnectReason) (connection_duration : Z)
| DegradedEvent (peer_id : bytes) (health : ConnectionHealth)
| Reconnecting (peer_id : bytes) (attempt : Z) (max_attempts : option Z)
| ReconnectFailed (peer_id : bytes) (attempt : Z) (error : bytes) (will_retry : bool).

(** [MeshConnection::disconnect_reason] *)
Definition disconnect_reason (is_alive : bool) : option DisconnectReason :=
  if is_alive then None else Some Unknown.

(** ** Accounting of connection events

    [open_count peer log] is the number of connections of [peer] reported in the
    log and not yet reported as disconnected. *)
Definition event_delta (peer : bytes) (e : PeerEvent) : Z :=
  match e with
  | Connected p _ => if decide (p = peer) then 1 else 0
  | Disconnected p _ _ => if decide (p = peer) then -1 else 0
  | _ => 0
  end.
Fixpoint open_count (peer : bytes) (log : list PeerEvent) : Z :=
  match log with
  | [] => 0
  | e :: log => event_delta peer e + open_count peer log
  end.

Lemma open_count_app peer l1 l2 :
  open_count peer (l1 ++ l2) = (open_count peer l1 + open_count peer l2)%Z.
Proof. induction l1 as [|e l1 IH]; cbn; [done|]. rewrite IH. lia. Qed.

(** A log that closes more connections of a peer than it opens reports one closed. *)
Lemma open_count_neg peer log :
  (open_count peer log < 0)%Z → ∃ reason d, Disconnected peer reason d ∈ log.
Proof.
  induction log as [|e log IH]; cbn; [lia|]. intros H.
  destruct (decide (open_count peer log < 0)%Z) as [Hn|Hn].
  - destruct (IH Hn) as (r & d & Hin). exists r, d. by right.
  - destruct e as [p t|p r d| | | ]; cbn in H; try case_decide; subst; try lia.
    exists r, d. by left.
Qed.
