(* ===== verification/Capabilities.v ===== *)
(** What transports can do and what messages need ([src/transport/capabilities.rs]):
    capabilities, message requirements, range modes, PACE policies and the score by
    which a transport is chosen. *)
From Stdlib Require Import ZArith Lia Strings.Byte Strings.String.
From stdpp Require Import prelude gmap.
From S2P Require Import Prelude Wire Iteration Crypto Replay Bypass Transport.

Set Default Proof Using "Type".

Inductive TransportType :=
| Quic | BluetoothClassic | BluetoothLE | WifiDirect | LoRa | TacticalRadio | Satellite
| CustomTransport (id : Z).
Global Instance TransportType_eq_dec : EqDecision TransportType.
Proof. solve_decision. Defined.
Definition type_code (t : TransportType) : nat * Z :=
  match t with
  | Quic => (0, 0%Z) | BluetoothClassic => (1, 0%Z) | BluetoothLE => (2, 0%Z)
  | WifiDirect => (3, 0%Z) | LoRa => (4, 0%Z) | TacticalRadio => (5, 0%Z) | Satellite => (6, 0%Z)
  | CustomTransport id => (7, id)
  end.
Definition type_of_code (c : nat * Z) : TransportType :=
  match c with
  | (0, _) => Quic | (1, _) => BluetoothClassic | (2, _) => BluetoothLE | (3, _) => WifiDirect
  | (4, _) => LoRa | (5, _) => TacticalRadio | (6, _) => Satellite | (_, id) => CustomTransport id
  end.
Global Instance TransportType_countable : Countable TransportType.
Proof. apply (inj_countable' type_code type_of_code). by intros []. Defined.

(** [bypass_ttl] and the other durations are in nanoseconds. *)
Record MessageRequirements := {
  min_bandwidth_bps : Z;
  max_latency_ms : option Z;
  message_size : Z;
  needs_reliable : bool;
  req_priority : MessagePriority;
  power_sensitive : bool;
  bypass_sync : bool;
  bypass_ttl : option Z
}.
Record TransportCapabilities := {
  transport_type : TransportType;
  max_bandwidth_bps : Z;
  typical_latency_ms : Z;
  max_range_meters : Z;
  bidirectional : bool;
  reliable : bool;
  battery_impact : Z;
  supports_broadcast : bool;
  requires_pairing : bool;
  caps_max_message_size : Z
}.

Module Caps.
Definition quic : TransportCapabilities := {|
  transport_type := Quic; max_bandwidth_bps := 100000000; typical_latency_ms := 10;
  max_range_meters := 0; bidirectional := true; reliable := true; battery_impact := 20;
  supports_broadcast := false; requires_pairing := false; caps_max_message_size := 0 |}.
Definition bluetooth_le : TransportCapabilities := {|
  transport_type := BluetoothLE; max_bandwidth_bps := 250000; typical_latency_ms := 30;
  max_range_meters := 100; bidirectional := true; reliable := true; battery_impact := 15;
  supports_broadcast := true; requires_pairing := false; caps_max_message_size := 512 |}.
Definition lora (spreading_factor : Z) : TransportCapabilities :=
  let '(bandwidth, range, latency) :=
    match spreading_factor with
    | 7 => (21900, 6000, 100) | 8 => (12500, 8000, 150) | 9 => (7000, 10000, 200)
    | 10 => (3900, 12000, 300) | 11 => (2100, 14000, 500) | 12 => (1100, 15000, 1000)
    | _ => (5000, 10000, 300)
    end%Z in {|
  transport_type := LoRa; max_bandwidth_bps := bandwidth; typical_latency_ms := latency;
  max_range_meters := range; bidirectional := true; reliable := false; battery_impact := 10;
  supports_broadcast := true; requires_pairing := false; caps_max_message_size := 255 |}.
Definition wifi_direct : TransportCapabilities := {|
  transport_type := WifiDirect; max_bandwidth_bps := 250000000; typical_latency_ms := 10;
  max_range_meters := 200; bidirectional := true; reliable := true; battery_impact := 50;
  supports_broadcast := true; requires_pairing := true; caps_max_message_size := 0 |}.

Definition meets_requirements (c : TransportCapabilities) (r : MessageRequirements) : bool :=
  if needs_reliable r && negb (reliable c) then false
  else if decide (0 < max_bandwidth_bps c ∧ max_bandwidth_bps c < min_bandwidth_bps r)%Z then false
  else if decide (0 < caps_max_message_size c ∧ caps_max_message_size c < message_size r)%Z
  then false
  else true.

(** The product is a [u64], the quotient is cut to 32 bits, the sum is a [u32]. *)
Definition estimate_delivery_ms {E} (p : profile) (c : TransportCapabilities) (size : Z)
    : outcome E Z :=
  bits ← checked p 64 (size * 1000);
  let transfer_time :=
    if decide (max_bandwidth_bps c = 0)%Z then 0%Z
    else wrap 32 (bits / max_bandwidth_bps c) in
  checked p 32 (typical_latency_ms c + transfer_time).
End Caps.

Module Requirements.
Definition default_requirements : MessageRequirements := {|
  min_bandwidth_bps := 0; max_latency_ms := None; message_size := 0; needs_reliable := false;
  req_priority := Normal; power_sensitive := false; bypass_sync := false; bypass_ttl := None |}.
Definition bypass (max_latency : Z) : MessageRequirements := {|
  min_bandwidth_bps := 0; max_latency_ms := Some max_latency; message_size := 0;
  needs_reliable := false; req_priority := Normal; power_sensitive := false; bypass_sync := true;
  bypass_ttl := None |}.
Definition bypass_with_ttl (max_latency ttl : Z) : MessageRequirements := {|
  min_bandwidth_bps := 0; max_latency_ms := Some max_latency; message_size := 0;
  needs_reliable := false; req_priority := Normal; power_sensitive := false; bypass_sync := true;
  bypass_ttl := Some ttl |}.
Definition with_bypass (r : MessageRequirements) (b : bool) : MessageRequirements := {|
  min_bandwidth_bps := min_bandwidth_bps r; max_latency_ms := max_latency_ms r;
  message_size := message_size r; needs_reliable := needs_reliable r && negb b;
  req_priority := req_priority r; power_sensitive := power_sensitive r; bypass_sync := b;
  bypass_ttl := bypass_ttl r |}.
Definition with_ttl (r : MessageRequirements) (ttl : Z) : MessageRequirements := {|
  min_bandwidth_bps := min_bandwidth_bps r; max_latency_ms := max_latency_ms r;
  message_size := message_size r; needs_reliable := needs_reliable r;
  req_priority := req_priority r; power_sensitive := power_sensitive r;
  bypass_sync := bypass_sync r; bypass_ttl := Some ttl |}.
End Requirements.

(** * Range modes *)
Inductive RangeMode := StandardRange | ExtendedRange | MaximumRange | CustomRange (v : Z).
Global Instance RangeMode_eq_dec : EqDecision RangeMode.
Proof. solve_decision. Defined.
Global Instance RangeMode_countable : Countable RangeMode.
Proof.
  apply (inj_countable'
    (λ m, match m with StandardRange => (0, 0%Z) | ExtendedRange => (1, 0%Z)
                     | MaximumRange => (2, 0%Z) | CustomRange v => (3, v) end)
    (λ c, match c with (0, _) => StandardRange | (1, _) => ExtendedRange
                     | (2, _) => MaximumRange | (_, v) => CustomRange v end)).
  by intros [].
Defined.
Record RangeModeConfig := {
  available_modes : list RangeMode;
  current_mode : RangeMode;
  mode_capabilities : gmap RangeMode TransportCapabilities
}.

Module Range.
(** [collect] into the map: the last entry of a mode counts. *)
Definition new (modes : list (RangeMode * TransportCapabilities)) : RangeModeConfig := {|
  available_modes := modes.*1;
  current_mode := default StandardRange (head modes.*1);
  mode_capabilities := foldl (λ m e, <[e.1 := e.2]> m) ∅ modes |}.
Definition current_capabilities (c : RangeModeConfig) : option TransportCapabilities :=
  mode_capabilities c !! current_mode c.
Definition reaches (distance : Z) (c : TransportCapabilities) : bool :=
  bool_decide (distance ≤ max_range_meters c)%Z || bool_decide (max_range_meters c = 0)%Z.
Definition recommend_for_distance {O : IterOrder RangeMode TransportCapabilities}
    (c : RangeModeConfig) (distance : Z) : option RangeMode :=
  fst <$> max_by_key (λ e, max_bandwidth_bps e.2)
            (filter (λ e, reaches distance e.2 = true) (iter (mode_capabilities c))).
End Range.

Inductive DistanceSource :=
| Gps (confidence_meters : Z) | Rssi (estimated_meters variance : Z) | Tof (precision_ns : Z)
| Configured | UnknownDistance.
Record PeerDistance := {
  distance_peer : bytes;
  distance_meters : Z;
  distance_source : DistanceSource;
  distance_updated : Z
}.

(** * PACE policies *)
Abbreviation TransportId := bytes.
Record TransportInstance := {
  instance_id : TransportId;
  instance_type : TransportType;
  description : bytes;
  interface : option bytes;
  instance_capabilities : TransportCapabilities;
  available : bool
}.
Definition instance_new (id : TransportId) (t : TransportType) (c : TransportCapabilities)
    : TransportInstance := {|
  instance_id := id; instance_type := t; description := []; interface := None;
  instance_capabilities := c; available := true |}.

Inductive PaceLevel := PacePrimary | PaceAlternate | PaceContingency | PaceEmergency | PaceNone.
Global Instance PaceLevel_eq_dec : EqDecision PaceLevel.
Proof. solve_decision. Defined.
Record TransportPolicy := {
  policy_name : bytes;
  primary : list TransportId;
  alternate : list TransportId;
  contingency : list TransportId;
  emergency : list TransportId
}.
Inductive TransportMode :=
| Single
| Redundant (min_paths : nat) (max_paths : option nat)
| Bonded
| LoadBalanced (weights : option (gmap TransportId Z)).

Module Policy.
Definition ordered (p : TransportPolicy) : list TransportId :=
  primary p ++ alternate p ++ contingency p ++ emergency p.
Definition any_in (l : list TransportId) (s : gset TransportId) : bool :=
  existsb (λ t, bool_decide (t ∈ s)) l.
Definition current_level (p : TransportPolicy) (s : gset TransportId) : PaceLevel :=
  if any_in (primary p) s then PacePrimary
  else if any_in (alternate p) s then PaceAlternate
  else if any_in (contingency p) s then PaceContingency
  else if any_in (emergency p) s then PaceEmergency
  else PaceNone.
Definition at_level (p : TransportPolicy) (l : PaceLevel) : list TransportId :=
  match l with
  | PacePrimary => primary p
  | PaceAlternate => primary p ++ alternate p
  | PaceContingency => primary p ++ alternate p ++ contingency p
  | PaceEmergency | PaceNone => ordered p
  end.
End Policy.

(** * Transports

    A transport as the manager sees it while it selects: its capabilities, and what it
    answers at that time.  The delivery estimate and the score are the defaults of the
    trait. *)
Record DynTransport := {
  capabilities : TransportCapabilities;
  is_available : bool;
  signal_quality : option Z;
  can_reach : bytes → bool
}.

Definition urgent (p : MessagePriority) : bool :=
  match p with High | Critical => true | Background | Normal => false end.
Definition calculate_score (t : DynTransport) (r : MessageRequirements) (preference_bonus : Z) : Z :=
  let caps := capabilities t in
  (100 + (if urgent (req_priority r) then 50 - Z.min (typical_latency_ms caps) 50 else 0)
   - (if power_sensitive r then battery_impact caps else 0)
   + preference_bonus
   + match signal_quality t with Some q => q / 10 | None => 0 end)%Z.
