(* ===== verification/TransportManager.v ===== *)
(** The coordinator of the transports ([src/transport/manager.rs]): registration,
    selection by score and by PACE policy, connecting with and without fallback, and
    the routing of messages and collections. *)
From Stdlib Require Import ZArith Lia Strings.Byte Strings.String Sorting.Sorted.
From stdpp Require Import prelude gmap.
From S2P Require Import Prelude Wire Iteration Crypto Replay Bypass Transport Capabilities.

Set Default Proof Using "Type".

(** * Configuration *)
Inductive CollectionTransportRoute :=
| FixedRoute (t : TransportType)
| BypassRoute (encoding : MessageEncoding) (ttl_ms : Z) (transport : BypassTransport)
| PaceRoute (policy_override : option TransportPolicy).
Record CollectionRouteConfig := {
  route_collection_name : bytes;
  route : CollectionTransportRoute;
  route_priority : MessagePriority
}.
Abbreviation CollectionRouteTable := (list CollectionRouteConfig).

Module Routes.
Definition with_collection (t : CollectionRouteTable) (c : CollectionRouteConfig)
    : CollectionRouteTable := t ++ [c].
Definition get (t : CollectionRouteTable) (collection : bytes) : option CollectionRouteConfig :=
  head (filter (λ c, route_collection_name c = collection) t).
Definition has_collection (t : CollectionRouteTable) (collection : bytes) : bool :=
  existsb (λ c, bool_decide (route_collection_name c = collection)) t.
Definition is_bypass (t : CollectionRouteTable) (collection : bytes) : bool :=
  match get t collection with
  | Some c => match route c with BypassRoute _ _ _ => true | _ => false end
  | None => false
  end.
End Routes.

Record TransportManagerConfig := {
  preference_order : list TransportType;
  enable_fallback : bool;
  cache_peer_transport : bool;
  switch_threshold : Z;
  default_policy : option TransportPolicy;
  transport_mode : TransportMode;
  collection_routes : CollectionRouteTable
}.
Definition default_manager_config : TransportManagerConfig := {|
  preference_order := [Quic; WifiDirect; BluetoothLE; LoRa]; enable_fallback := true;
  cache_peer_transport := true; switch_threshold := 10; default_policy := None;
  transport_mode := Single; collection_routes := [] |}.

Inductive RouteDecision :=
| RouteBypass | RouteTransport (t : TransportType) | RouteInstance (id : TransportId) | NoRoute.

Record TransportManager := {
  transports : gmap TransportType DynTransport;
  transport_instances : gmap TransportId (TransportInstance * DynTransport);
  peer_transports : gmap bytes TransportType;
  peer_transport_ids : gmap bytes TransportId;
  peer_distances : gmap bytes PeerDistance;
  config : TransportManagerConfig;
  bypass_channel : option UdpBypassChannel
}.

Module Manager.
Implicit Types m : TransportManager.
Definition new (c : TransportManagerConfig) : TransportManager := {|
  transports := ∅; transport_instances := ∅; peer_transports := ∅; peer_transport_ids := ∅;
  peer_distances := ∅; config := c; bypass_channel := None |}.
Definition set_bypass_channel m (b : option UdpBypassChannel) : TransportManager := {|
  transports := transports m; transport_instances := transport_instances m;
  peer_transports := peer_transports m; peer_transport_ids := peer_transport_ids m;
  peer_distances := peer_distances m; config := config m; bypass_channel := b |}.
Definition with_bypass (c : TransportManagerConfig) (b : UdpBypassChannel) : TransportManager :=
  set_bypass_channel (new c) (Some b).
Definition is_bypass_collection m (collection : bytes) : bool :=
  match bypass_channel m with
  | Some b => ChannelConfig.is_bypass_collection (Bypass.config b) collection
  | None => false
  end.

Definition set_transports m (ts : gmap TransportType DynTransport) : TransportManager := {|
  transports := ts; transport_instances := transport_instances m;
  peer_transports := peer_transports m; peer_transport_ids := peer_transport_ids m;
  peer_distances := peer_distances m; config := config m; bypass_channel := bypass_channel m |}.
Definition set_instances m (insts : gmap TransportId (TransportInstance * DynTransport))
    : TransportManager := {|
  transports := transports m; transport_instances := insts;
  peer_transports := peer_transports m; peer_transport_ids := peer_transport_ids m;
  peer_distances := peer_distances m; config := config m; bypass_channel := bypass_channel m |}.
Definition set_cache m (c : gmap bytes TransportType) (ids : gmap bytes TransportId)
    : TransportManager := {|
  transports := transports m; transport_instances := transport_instances m;
  peer_transports := c; peer_transport_ids := ids;
  peer_distances := peer_distances m; config := config m; bypass_channel := bypass_channel m |}.

Definition register m (t : DynTransport) : TransportManager :=
  set_transports m (<[transport_type (capabilities t) := t]> (transports m)).
Definition unregister m (ty : TransportType) : TransportManager * option DynTransport :=
  (set_transports m (delete ty (transports m)), transports m !! ty).
Definition unregister_instance m (id : TransportId)
    : TransportManager * option (TransportInstance * DynTransport) :=
  (set_instances m (delete id (transport_instances m)), transport_instances m !! id).
Definition update_peer_distance m (d : PeerDistance) : TransportManager := {|
  transports := transports m; transport_instances := transport_instances m;
  peer_transports := peer_transports m; peer_transport_ids := peer_transport_ids m;
  peer_distances := <[distance_peer d := d]> (peer_distances m); config := config m;
  bypass_channel := bypass_channel m |}.

Definition record_success m (peer : bytes) (ty : TransportType) : TransportManager :=
  if cache_peer_transport (config m)
  then set_cache m (<[peer := ty]> (peer_transports m)) (peer_transport_ids m) else m.
Definition record_success_pace m (peer : bytes) (id : TransportId) : TransportManager :=
  if cache_peer_transport (config m)
  then set_cache m (peer_transports m) (<[peer := id]> (peer_transport_ids m)) else m.
Definition clear_cache_pace m (peer : bytes) : TransportManager :=
  set_cache m (peer_transports m) (delete peer (peer_transport_ids m)).

(** ** Selection by score *)
Section selection.
Context {TO : IterOrder TransportType DynTransport} {E : Type}.

Definition reachable (t : DynTransport) (peer : bytes) : bool := is_available t && can_reach t peer.
Definition available_transports m (peer : bytes) : list TransportType :=
  (filter (λ e, reachable e.2 peer = true) (iter (transports m))).*1.
Definition preference_bonus (c : TransportManagerConfig) (ty : TransportType) : Z :=
  match list_find (λ t, t = ty) (preference_order c) with
  | Some (idx, _) => 20 - Z.of_nat idx * 5
  | None => 0
  end.
Definition usable (t : DynTransport) (peer : bytes) (r : MessageRequirements) : bool :=
  reachable t peer && Caps.meets_requirements (capabilities t) r.

(** What [filter_map] makes of one type; without a latency bound in [fallback]. *)
Definition candidate (p : profile) m (r : MessageRequirements) (fallback : bool) (ty : TransportType)
    : outcome E (option (TransportType * Z)) :=
  match transports m !! ty with
  | None => Ok None
  | Some t =>
      if negb (Caps.meets_requirements (capabilities t) r) then Ok None
      else
        let scored := (ty, calculate_score t r (preference_bonus (config m) ty)) in
        match max_latency_ms r with
        | Some max_latency =>
            if fallback then Ok (Some scored)
            else
              est ← Caps.estimate_delivery_ms p (capabilities t) (message_size r);
              Ok (if decide (max_latency < est)%Z then None else Some scored)
        | None => Ok (Some scored)
        end
  end.
Fixpoint filter_map {A B} (f : A → outcome E (option B)) (l : list A) : outcome E (list B) :=
  match l with
  | [] => Ok []
  | x :: l => y ← f x; rest ← filter_map f l; Ok (option_list y ++ rest)
  end.
Definition candidates (p : profile) m (peer : bytes) (r : MessageRequirements) (fallback : bool)
    : outcome E (list (TransportType * Z)) :=
  filter_map (candidate p m r fallback) (available_transports m peer).

(** The cached transport, when it can still be used. *)
Definition cached m (peer : bytes) (r : MessageRequirements) : option TransportType :=
  if cache_peer_transport (config m) then
    ty ← peer_transports m !! peer;
    t ← transports m !! ty;
    if usable t peer r then Some ty else None
  else None.
Definition select_transport (p : profile) m (peer : bytes) (r : MessageRequirements)
    : outcome E (option TransportType) :=
  match cached m peer r with
  | Some ty => Ok (Some ty)
  | None =>
      cs ← candidates p m peer r false;
      Ok (fst <$> max_by_key snd cs)
  end.
(** The range mode is a placeholder in the code. *)
Definition select_transport_for_distance (p : profile) m (peer : bytes) (r : MessageRequirements)
    : outcome E (option (TransportType * option RangeMode)) :=
  found ← select_transport p m peer r;
  Ok (option_map (λ t, (t, None)) found).
End selection.

(** ** Connecting

    [link t peer] is what the transport's [connect] returns. *)
Section connecting.
Context {TO : IterOrder TransportType DynTransport} {C : Type}
  (link : TransportType → bytes → outcome TransportError C).

Definition no_suitable (peer : bytes) : TransportError :=
  PeerNotFound (str "No suitable transport for " ++ peer).
Definition connect (p : profile) (peer : bytes) (r : MessageRequirements)
    : stm TransportManager TransportError (TransportType * C) := λ m,
  match (found ← select_transport p m peer r;
         ty ← ok_or found (no_suitable peer);
         _ ← ok_or (transports m !! ty) NotStarted;
         c ← link ty peer;
         Ok (ty, c)) with
  | Ok (ty, c) => (Ok (ty, c), record_success m peer ty)
  | Err e => (Err e, m)
  | Panic => (Panic, m)
  end.

End connecting.

(** ** PACE *)
Section pace.
Context {IO : IterOrder TransportId (TransportInstance * DynTransport)}.

Definition up (e : TransportInstance * DynTransport) : bool := available e.1 && is_available e.2.
Definition available_instances_for_peer m (peer : bytes) : list TransportId :=
  (filter (λ e, up e.2 && can_reach e.2.2 peer = true) (iter (transport_instances m))).*1.
(** The set [available_for_peer] of the two selections. *)
Definition usable_instances m (peer : bytes) (r : MessageRequirements) : gset TransportId :=
  list_to_set (filter (λ e, up e.2 && can_reach e.2.2 peer
                            && Caps.meets_requirements (capabilities e.2.2) r = true)
                 (iter (transport_instances m))).*1.
Definition select_transports_pace m (peer : bytes) (r : MessageRequirements) : list TransportId :=
  match default_policy (config m) with
  | None => []
  | Some policy =>
      let candidates := filter (λ id, id ∈ usable_instances m peer r) (Policy.ordered policy) in
      match transport_mode (config m) with
      | Single => take 1 candidates
      | Redundant min_paths max_paths =>
          take (Nat.max (default (length candidates) max_paths) min_paths) candidates
      | Bonded | LoadBalanced _ => candidates
      end
  end.
Definition select_transport_pace m (peer : bytes) (r : MessageRequirements) : option TransportId :=
  head (select_transports_pace m peer r).
Definition select_transport_pace_with_policy m (peer : bytes) (r : MessageRequirements)
    (policy_override : option TransportPolicy) : option TransportId :=
  policy ← match policy_override with Some p => Some p | None => default_policy (config m) end;
  head (filter (λ id, id ∈ usable_instances m peer r) (Policy.ordered policy)).
End pace.

(** ** Routing *)
Section routing.
Context {TO : IterOrder TransportType DynTransport}
  {IO : IterOrder TransportId (TransportInstance * DynTransport)} {E : Type}.

Definition route_message (p : profile) m (peer : bytes) (r : MessageRequirements)
    : outcome E RouteDecision :=
  if bypass_sync r && bool_decide (is_Some (bypass_channel m)) then Ok RouteBypass
  else
    found ← select_transport (E:=E) p m peer r;
    Ok match found with Some t => RouteTransport t | None => NoRoute end.
Definition route_collection (p : profile) m (collection peer : bytes) (r : MessageRequirements)
    : outcome E RouteDecision :=
  match Routes.get (collection_routes (config m)) collection with
  | None => route_message p m peer r
  | Some c =>
      Ok match route c with
         | BypassRoute _ _ _ =>
             match bypass_channel m with Some _ => RouteBypass | None => NoRoute end
         | FixedRoute ty =>
             match transports m !! ty with
             | Some t => if reachable t peer then RouteTransport ty else NoRoute
             | None => NoRoute
             end
         | PaceRoute policy_override =>
             match select_transport_pace_with_policy m peer r policy_override with
             | Some id => RouteInstance id
             | None => NoRoute
             end
         end
  end.
End routing.

(** ** The bypass channel *)
Definition bypass_missing : TransportError := Other "Bypass channel not configured".
(** The message of the channel's error is not kept. *)
Definition send_bypass (collection : bytes) (target : option SocketAddr) (data : bytes)
    (joined : outcome BypassError unit) (send_to : BypassTarget → bytes → outcome BypassError Z)
    : stm TransportManager TransportError unit := λ m,
  match bypass_channel m with
  | None => (Err bypass_missing, m)
  | Some b =>
      let '(b, result) := Channel.send_to_collection b collection target data joined send_to in
      (map_err (λ _, Other "bypass") result, set_bypass_channel m (Some b))
  end.
Definition send_bypass_to (target : BypassTarget) (collection data : bytes)
    (joined : outcome BypassError unit) (send_to : BypassTarget → bytes → outcome BypassError Z)
    : stm TransportManager TransportError unit := λ m,
  match bypass_channel m with
  | None => (Err bypass_missing, m)
  | Some b =>
      let '(b, result) := Channel.send b target collection data joined send_to in
      (map_err (λ _, Other "bypass") result, set_bypass_channel m (Some b))
  end.
End Manager.

(** * What a selection returns *)
Lemma filter_map_Ok {E A B} (f : A → outcome E (option B)) l r :
  Manager.filter_map f l = Ok r → ∀ y, y ∈ r ↔ ∃ x, x ∈ l ∧ f x = Ok (Some y).
Proof.
  revert r. induction l as [|a l IH]; intros r; cbn [Manager.filter_map].
  - intros [= <-] y. split; [by intros ?%elem_of_nil|]. by intros (? & ?%elem_of_nil & _).
  - destruct (f a) as [o| |] eqn:Ha; cbn [mbind outcome_bind]; [|done..].
    destruct (Manager.filter_map f l) as [rest| |]; cbn [mbind outcome_bind]; [|done..].
    intros [= <-] y. rewrite elem_of_app, (IH rest) by done. split.
    + intros [Hy|(x & Hx & Hf)]; [|exists x; split; [by right|done]].
      exists a. split; [by left|]. destruct o; cbn in Hy; [|by apply elem_of_nil in Hy].
      apply list_elem_of_singleton in Hy as ->. done.
    + intros (x & [->|Hx]%elem_of_cons & Hf); [|right; eauto]. left.
      rewrite Hf in Ha. injection Ha as <-. by apply list_elem_of_singleton.
Qed.
Lemma filter_map_total {E A B} (f : A → outcome E (option B)) l :
  (∀ x, ∃ y, f x = Ok y) → ∃ r, Manager.filter_map f l = Ok r.
Proof.
  intros Hf. induction l as [|a l [r IH]]; cbn [Manager.filter_map]; [by eexists|].
  destruct (Hf a) as [y ->]. cbn [mbind outcome_bind]. rewrite IH. by eexists.
Qed.
Lemma filter_map_no_err {E A B} (f : A → outcome E (option B)) l e :
  (∀ x, f x ≠ Err e) → Manager.filter_map f l ≠ Err e.
Proof.
  intros Hf. induction l as [|a l IH]; cbn [Manager.filter_map]; [done|]. specialize (Hf a).
  destruct (f a); cbn [mbind outcome_bind]; [|congruence|done].
  destruct (Manager.filter_map f l); cbn [mbind outcome_bind]; congruence.
Qed.
(** What a debug build computes, a release build computes as well. *)
Lemma checked_debug_release {E} w z x : checked (E:=E) Debug w z = Ok x → checked (E:=E) Release w z = Ok x.
Proof. unfold checked. by destruct (_ && _). Qed.
Lemma estimate_release {E} c size x :
  Caps.estimate_delivery_ms (E:=E) Debug c size = Ok x →
  Caps.estimate_delivery_ms (E:=E) Release c size = Ok x.
Proof.
  unfold Caps.estimate_delivery_ms. destruct (checked Debug 64 _) as [b| |] eqn:Hb; [|done..].
  rewrite (checked_debug_release _ _ _ Hb). cbn [mbind outcome_bind]. apply checked_debug_release.
Qed.
Lemma estimate_total {E} c size : ∃ x, Caps.estimate_delivery_ms (E:=E) Release c size = Ok x.
Proof.
  unfold Caps.estimate_delivery_ms, checked.
  destruct (_ && _); cbn [mbind outcome_bind]; destruct (_ && _); by eexists.
Qed.

Section Selection.
Context {TO : IterOrder TransportType DynTransport} {E : Type}.
Implicit Types m : TransportManager.

Definition score m (r : MessageRequirements) (ty : TransportType) (t : DynTransport) : Z :=
  calculate_score t r (Manager.preference_bonus (config m) ty).
(** The delivery is estimated to take no longer than allowed. *)
Definition in_time (p : profile) (r : MessageRequirements) (t : DynTransport) : Prop :=
  match max_latency_ms r with
  | None => True
  | Some l => ∃ est, Caps.estimate_delivery_ms (E:=E) p (capabilities t) (message_size r) = Ok est
                     ∧ (est ≤ l)%Z
  end.
Definition registered m (peer : bytes) (r : MessageRequirements) (ty : TransportType)
    (t : DynTransport) : Prop :=
  transports m !! ty = Some t ∧ Manager.usable t peer r = true.

Lemma elem_of_available m peer ty :
  ty ∈ Manager.available_transports m peer ↔
  ∃ t, transports m !! ty = Some t ∧ Manager.reachable t peer = true.
Proof.
  unfold Manager.available_transports. rewrite list_elem_of_fmap. split.
  - intros ([ty' t] & -> & [Hr Hin]%list_elem_of_filter). apply elem_of_iter in Hin. eauto.
  - intros (t & Ht & Hr). exists (ty, t). split; [done|].
    apply list_elem_of_filter. by rewrite elem_of_iter.
Qed.
Lemma elem_of_candidates p m peer r fb cs ty sc :
  Manager.candidates (E:=E) p m peer r fb = Ok cs →
  (ty, sc) ∈ cs ↔
  ∃ t, registered m peer r ty t ∧ sc = score m r ty t ∧ (fb = false → in_time p r t).
Proof.
  intros Hc. rewrite (filter_map_Ok _ _ _ Hc). unfold registered, Manager.usable, in_time, score.
  setoid_rewrite elem_of_available. unfold Manager.candidate. split.
  - intros (x & (t & Ht & Hr) & Hf). rewrite Ht in Hf.
    destruct (Caps.meets_requirements _ _) eqn:Hm; [|done]. cbn [negb] in Hf.
    destruct (max_latency_ms r) as [l|].
    + destruct fb; [simplify_eq; exists t; rewrite Hr, Hm; naive_solver|].
      destruct (Caps.estimate_delivery_ms _ _ _) as [est| |] eqn:He; [|done..].
      cbn [mbind outcome_bind] in Hf. case_decide; simplify_eq.
      exists t. rewrite Hr, Hm. split_and!; try done. intros _. exists est. split; [done|lia].
    + simplify_eq. exists t. rewrite Hr, Hm. naive_solver.
  - intros (t & (Ht & [Hr Hm]%andb_true_iff) & -> & Hl). exists ty.
    split; [eauto|]. rewrite Ht, Hm. cbn [negb]. destruct (max_latency_ms r) as [l|]; [|done].
    destruct fb; [done|]. destruct (Hl eq_refl) as (est & -> & Hle).
    cbn [mbind outcome_bind]. by rewrite decide_False by lia.
Qed.
Lemma candidates_total m peer r fb :
  ∃ cs, Manager.candidates (E:=E) Release m peer r fb = Ok cs.
Proof.
  apply filter_map_total. intros ty. unfold Manager.candidate.
  destruct (transports m !! ty) as [t|]; [|by eexists]. destruct (negb _); [by eexists|].
  destruct (max_latency_ms r); [|by eexists]. destruct fb; [by eexists|].
  destruct (estimate_total (E:=E) (capabilities t) (message_size r)) as [x ->]. by eexists.
Qed.
Lemma cached_registered m peer r ty :
  Manager.cached m peer r = Some ty → ∃ t, registered m peer r ty t.
Proof.
  unfold Manager.cached. destruct (cache_peer_transport _); [|done].
  destruct (peer_transports m !! peer) as [ty'|]; [|done]. cbn [mbind option_bind].
  destruct (transports m !! ty') as [t|] eqn:Ht; [|done]. cbn [mbind option_bind].
  destruct (Manager.usable t peer r) eqn:Hu; [|done]. intros [= <-]. by exists t.
Qed.

(** What the selection promises of a result that did not come from the cache. *)
Definition best m (p : profile) (peer : bytes) (r : MessageRequirements)
    (res : option TransportType) : Prop :=
  match res with
  | Some ty => ∃ t, registered m peer r ty t ∧ in_time p r t
      ∧ ∀ ty' t', registered m peer r ty' t' → in_time p r t' →
                  (score m r ty' t' ≤ score m r ty t)%Z
  | None => ∀ ty t, registered m peer r ty t → ¬ in_time p r t
  end.
Lemma select_best p m peer r res :
  Manager.cached m peer r = None →
  Manager.select_transport (E:=E) p m peer r = Ok res → best m p peer r res.
Proof.
  intros Hc. unfold Manager.select_transport. rewrite Hc.
  destruct (Manager.candidates _ _ _ _ _) as [cs| |] eqn:Hcs; cbn [mbind outcome_bind]; [|done..].
  pose proof (λ ty sc, elem_of_candidates _ _ _ _ _ _ ty sc Hcs) as He.
  intros [= <-]. destruct (max_by_key snd cs) as [[ty sc]|] eqn:Hmax; cbn.
  - apply max_by_key_Some in Hmax as [Hin Hall].
    apply (He ty sc) in Hin as (t & Ht & -> & Hl). exists t. split_and!; [done|by apply Hl|].
    intros ty' t' Ht' Hl'. apply (Hall (ty', _)), He. eauto.
  - apply max_by_key_None in Hmax as ->. intros ty t Ht Hl.
    eapply not_elem_of_nil, (He ty). eauto.
Qed.
Lemma select_debug m peer r res :
  Manager.select_transport (E:=E) Debug m peer r = Ok res →
  Manager.select_transport (E:=E) Release m peer r = Ok res.
Proof.
  unfold Manager.select_transport. destruct (Manager.cached m peer r); [done|].
  assert (∀ l r0, Manager.filter_map (E:=E) (Manager.candidate Debug m r false) l = Ok r0 →
    Manager.filter_map (E:=E) (Manager.candidate Release m r false) l = Ok r0) as H.
  { induction l as [|ty l IH]; intros r0; cbn [Manager.filter_map]; [done|].
    destruct (Manager.candidate Debug m r false ty) as [o| |] eqn:Hd; [|done..].
    assert (Manager.candidate (E:=E) Release m r false ty = Ok o) as ->.
    { revert Hd. unfold Manager.candidate. destruct (transports m !! ty) as [t|]; [|done].
      destruct (negb _); [done|]. destruct (max_latency_ms r) as [l'|]; [|done].
      destruct (Caps.estimate_delivery_ms Debug _ _) eqn:He; [|done..].
      by rewrite (estimate_release _ _ _ He). }
    cbn [mbind outcome_bind].
    destruct (Manager.filter_map (Manager.candidate Debug m r false) l) as [rest| |]; [|done..].
    by rewrite (IH rest). }
  unfold Manager.candidates.
  destruct (Manager.filter_map (Manager.candidate Debug _ _ _) _) as [cs| |] eqn:Hd; [|done..].
  by rewrite (H _ _ Hd).
Qed.

Lemma select_cases p m peer r :
  match Manager.select_transport (E:=E) p m peer r with
  | Ok (Some ty) => ∃ t, registered m peer r ty t
  | Ok None => True
  | Err _ => False
  | Panic => p = Debug
  end.
Proof.
  destruct (Manager.select_transport p m peer r) as [[ty|]|e|] eqn:Hs; [|done|..].
  - destruct (Manager.cached m peer r) as [ty'|] eqn:Hc.
    + unfold Manager.select_transport in Hs. rewrite Hc in Hs. injection Hs as ->.
      by apply cached_registered.
    + destruct (select_best _ _ _ _ _ Hc Hs) as (t & ? & _). by exists t.
  - unfold Manager.select_transport in Hs. destruct (Manager.cached m peer r); [done|].
    destruct (Manager.candidates p m peer r false) as [cs|e'|] eqn:Hcs; [done| |done].
    eapply filter_map_no_err; [|exact Hcs]. intros ty. unfold Manager.candidate.
    destruct (transports m !! ty); [|done]. destruct (negb _); [done|].
    destruct (max_latency_ms r); [|done]. unfold Caps.estimate_delivery_ms, checked.
    destruct (_ && _); destruct p; cbn [mbind outcome_bind]; try done; by destruct (_ && _).
  - destruct p; [done|]. unfold Manager.select_transport in Hs.
    destruct (Manager.cached m peer r); [done|].
    destruct (candidates_total m peer r false) as [cs Hcs]. by rewrite Hcs in Hs.
Qed.

(** Selection of a transport: a release build always decides.  A cached choice that
    is still registered, reachable and able to carry the message is taken; otherwise the
    result is a registered transport that reaches the peer, meets the requirements and
    the latency bound, with the highest score of all of these, and there is none exactly
    when there is no such transport.  A debug build decides the same unless the delivery
    estimate of a transport overflows, where it panics. *)
Theorem selection_is_best m peer r :
  (∃ res, Manager.select_transport (E:=E) Release m peer r = Ok res
     ∧ match Manager.cached m peer r with
       | Some ty => res = Some ty ∧ ∃ t, registered m peer r ty t
       | None => best m Release peer r res
       end)
  ∧ ∀ res, Manager.select_transport (E:=E) Debug m peer r = Ok res →
      Manager.select_transport (E:=E) Release m peer r = Ok res.
Proof.
  split; [|apply select_debug].
  destruct (Manager.cached m peer r) as [ty|] eqn:Hc.
  - exists (Some ty). unfold Manager.select_transport. rewrite Hc.
    split_and!; [done..|by apply cached_registered].
  - assert (∃ res, Manager.select_transport (E:=E) Release m peer r = Ok res) as [res Hres].
    { unfold Manager.select_transport. rewrite Hc.
      destruct (candidates_total m peer r false) as [cs ->]. by eexists. }
    exists res. split; [done|]. by eapply select_best.
Qed.
End Selection.

(** * Connecting *)
Definition with_latency (r : MessageRequirements) (l : option Z) : MessageRequirements := {|
  min_bandwidth_bps := min_bandwidth_bps r; max_latency_ms := l; message_size := message_size r;
  needs_reliable := needs_reliable r; req_priority := req_priority r;
  power_sensitive := power_sensitive r; bypass_sync := bypass_sync r; bypass_ttl := bypass_ttl r |}.

Section Connecting.
Context {TO : IterOrder TransportType DynTransport} {C : Type}
  (link : TransportType → bytes → outcome TransportError C).
Implicit Types m : TransportManager.

Fixpoint attempts (n : nat) (p : profile) (peer : bytes) (r : MessageRequirements)
    (m : TransportManager) : list (outcome TransportError (TransportType * C)) * TransportManager :=
  match n with
  | O => ([], m)
  | S n =>
      let '(res, m) := Manager.connect link p peer r m in
      let '(rest, m) := attempts n p peer r m in (res :: rest, m)
  end.

(** The cached transport of a peer is used whatever happens to it: the latency bound
    of a message is not checked for it, and when connecting over it fails, [connect]
    fails and keeps it, so every later attempt fails in the same way, although another
    transport may be able to connect. *)
Theorem cached_transport_sticks p m peer r ty :
  Manager.cached m peer r = Some ty →
  (∀ bound, Manager.select_transport (E:=TransportError) p m peer (with_latency r bound) = Ok (Some ty))
  ∧ ∀ e n, link ty peer = Err e → attempts n p peer r m = (replicate n (Err e), m).
Proof.
  intros Hc. split.
  - intros l. unfold Manager.select_transport.
    assert (Manager.cached m peer (with_latency r l) = Manager.cached m peer r) as -> by done.
    by rewrite Hc.
  - intros e n He. induction n as [|n IH]; [done|]. cbn [attempts replicate].
    assert (Manager.connect link p peer r m = (Err e, m)) as ->; [|by rewrite IH].
    unfold Manager.connect, Manager.select_transport. rewrite Hc. cbn [mbind outcome_bind ok_or].
    destruct (cached_registered _ _ _ _ Hc) as (t & Ht & _). rewrite Ht.
    cbn [mbind outcome_bind ok_or]. by rewrite He.
Qed.




End Connecting.



Section Pace.
Context {IO : IterOrder TransportId (TransportInstance * DynTransport)}.
Implicit Types m : TransportManager.

Definition instance_usable m (peer : bytes) (r : MessageRequirements) (id : TransportId) : Prop :=
  ∃ i t, transport_instances m !! id = Some (i, t) ∧ available i = true ∧ is_available t = true
    ∧ can_reach t peer = true ∧ Caps.meets_requirements (capabilities t) r = true.
Lemma elem_of_usable m peer r id :
  id ∈ Manager.usable_instances m peer r ↔ instance_usable m peer r id.
Proof.
  unfold Manager.usable_instances, instance_usable, Manager.up.
  rewrite elem_of_list_to_set, list_elem_of_fmap. split.
  - intros ([id' [i t]] & -> & [Hp Hin]%list_elem_of_filter). apply elem_of_iter in Hin.
    cbn in Hp. rewrite !andb_true_iff in Hp. naive_solver.
  - intros (i & t & Hin & H1 & H2 & H3 & H4). exists (id, (i, t)). split; [done|].
    apply list_elem_of_filter. rewrite elem_of_iter. cbn. by rewrite H1, H2, H3, H4.
Qed.

End Pace.

(** * Routing *)
Section Routing.
Context {TO : IterOrder TransportType DynTransport}
  {IO : IterOrder TransportId (TransportInstance * DynTransport)} {E : Type}.
Implicit Types m : TransportManager.

(** Routes lead somewhere: whatever the route table says, a decision for the bypass
    channel is only made when there is one, a decision for a transport only when it is
    registered and reaches the peer (and can carry the message, unless the collection is
    fixed to it), and a decision for an instance only when it is usable.  Collections
    without an entry are routed like their messages, and the message of a bypass request
    falls back to the transports when there is no channel. *)
Theorem routes_are_usable p m collection peer r :
  match Manager.route_collection (E:=E) p m collection peer r with
  | Ok RouteBypass =>
      is_Some (bypass_channel m)
      ∧ (Routes.is_bypass (collection_routes (config m)) collection = true
         ∨ Routes.get (collection_routes (config m)) collection = None ∧ bypass_sync r = true)
  | Ok (RouteTransport ty) =>
      ∃ t, transports m !! ty = Some t ∧ Manager.reachable t peer = true
        ∧ ((∃ c, Routes.get (collection_routes (config m)) collection = Some c
                 ∧ route c = FixedRoute ty)
           ∨ Caps.meets_requirements (capabilities t) r = true)
  | Ok (RouteInstance id) => instance_usable m peer r id
  | Ok NoRoute => True
  | Err _ => False
  | Panic => Routes.get (collection_routes (config m)) collection = None ∧ p = Debug
  end.
Proof.
  unfold Manager.route_collection, Routes.is_bypass.
  destruct (Routes.get _ collection) as [c|] eqn:Hc.
  - destruct (route c) as [ty| |policy] eqn:Hr.
    + destruct (transports m !! ty) as [t|] eqn:Ht; [|done].
      destruct (Manager.reachable t peer) eqn:Hre; [|done]. exists t. naive_solver.
    + destruct (bypass_channel m); [|done]. split; [by eexists|by left].
    + destruct (Manager.select_transport_pace_with_policy _ _ _ _) as [id|] eqn:Hs; [|done].
      unfold Manager.select_transport_pace_with_policy in Hs.
      destruct (match policy with Some p => Some p | None => _ end) as [q|]; [|done].
      cbn [mbind option_bind] in Hs. apply elem_of_usable.
      apply head_Some_elem_of, list_elem_of_filter in Hs. by destruct Hs.
  - unfold Manager.route_message. destruct (bypass_sync r); cbn [andb].
    1: destruct (bypass_channel m) as [b|]; [split; [by eexists|by right]|].
    1: rewrite bool_decide_false by (by intros [? ?]).
    all: pose proof (select_cases (E:=E) p m peer r) as Hs;
      destruct (Manager.select_transport p m peer r) as [[ty|]| |];
      cbn [mbind outcome_bind]; [|done..].
    all: destruct Hs as (t & Ht & [? ?]%andb_true_iff); exists t; naive_solver.
Qed.
End Routing.

(** * Witnesses *)
#[local] Existing Instance key_order.
Definition ex_quic : DynTransport :=
  {| capabilities := Caps.quic; is_available := true; signal_quality := None; can_reach := λ _, true |}.
Definition ex_ble : DynTransport :=
  {| capabilities := Caps.bluetooth_le; is_available := true; signal_quality := Some 70%Z;
     can_reach := λ _, true |}.
Definition ex_manager : TransportManager :=
  Manager.record_success
    (Manager.register (Manager.register (Manager.new default_manager_config) ex_quic) ex_ble)
    (str "peer") Quic.
(** The QUIC endpoint is down, Bluetooth works. *)
Definition ex_link (ty : TransportType) (_ : bytes) : outcome TransportError unit :=
  match ty with BluetoothLE => Ok tt | _ => Err (ConnectionFailed "refused") end.

Lemma cached_transport_sticks_witness :
  attempts ex_link 3 Release (str "peer") Requirements.default_requirements ex_manager
  = (replicate 3 (Err (ConnectionFailed "refused")), ex_manager).
Proof.
  apply (cached_transport_sticks ex_link Release ex_manager (str "peer")
           Requirements.default_requirements Quic); [vm_eq|done].
Defined.

