(* ===== verification/LiteWire.v ===== *)
(** The Peat-Lite wire protocol as the mesh uses it ([src/transport/lite.rs]):
    frames, query requests, the constructors of outgoing messages, and the decoders
    of the primitive CRDT payloads.  The message and CRDT type codes, the magic and
    the capability flags come from the [peat_lite] crate, the class [PeatLite]. *)
From Stdlib Require Import ZArith Lia Strings.Byte Strings.String.
From stdpp Require Import prelude gmap.
From S2P Require Import Prelude Wire.

Set Default Proof Using "Type".

(** * The [peat_lite] crate *)
Class PeatLite := {
  MessageType : Type;
  mt_from_u8 : byte → option MessageType;
  mt_as_u8 : MessageType → byte;
  mt_Announce : MessageType;
  mt_Heartbeat : MessageType;
  mt_Data : MessageType;
  mt_Query : MessageType;
  mt_Ack : MessageType;
  mt_Leave : MessageType;
  mt_OtaOffer : MessageType;
  mt_OtaAccept : MessageType;
  mt_OtaData : MessageType;
  mt_OtaAck : MessageType;
  mt_OtaComplete : MessageType;
  mt_OtaResult : MessageType;
  mt_OtaAbort : MessageType;
  CrdtType : Type;
  crdt_from_u8 : byte → option CrdtType;
  crdt_as_u8 : CrdtType → byte;
  crdt_LwwRegister : CrdtType;
  crdt_GCounter : CrdtType;
  crdt_PnCounter : CrdtType;
  crdt_OrSet : CrdtType;
  NodeCapabilities : Type;
  caps_from_bits : Z → NodeCapabilities;
  caps_empty : NodeCapabilities;
  caps_default : NodeCapabilities;
  MAGIC : bytes;
  PROTOCOL_VERSION : byte;
  DEFAULT_PORT : Z;
  (** Constants of the firmware update protocol. *)
  OTA_CHUNK_DATA_SIZE : nat;
  OTA_FLAG_SIGNED : Z;
  OTA_RESULT_SUCCESS : byte;
  OTA_ABORT_TOO_MANY_RETRIES : byte
}.

(** A type code is the discriminant of the enumeration: distinct message types
    have distinct codes, and [from_u8] inverts them. *)
Class PeatLiteLaws `{!PeatLite} := {
  mt_from_as t : mt_from_u8 (mt_as_u8 t) = Some t;
  mt_as_from b t : mt_from_u8 b = Some t → mt_as_u8 t = b;
  mt_distinct : NoDup (mt_as_u8 <$> [mt_Announce; mt_Heartbeat; mt_Data; mt_Query; mt_Ack;
    mt_Leave; mt_OtaOffer; mt_OtaAccept; mt_OtaData; mt_OtaAck; mt_OtaComplete;
    mt_OtaResult; mt_OtaAbort]);
  crdt_from_as t : crdt_from_u8 (crdt_as_u8 t) = Some t;
  crdt_as_from b t : crdt_from_u8 b = Some t → crdt_as_u8 t = b;
  MAGIC_length : length MAGIC = 4;
  OTA_CHUNK_DATA_SIZE_range : (0 < Z.of_nat OTA_CHUNK_DATA_SIZE < 65536)%Z
}.

(** [==] on the derived [PartialEq] of the enumeration: equality of codes. *)
Definition mt_eqb `{!PeatLite} (a b : MessageType) : bool :=
  bool_decide (mt_as_u8 a = mt_as_u8 b).
Lemma mt_eqb_spec `{!PeatLite} `{!PeatLiteLaws} a b : mt_eqb a b = true ↔ a = b.
Proof.
  unfold mt_eqb. rewrite bool_decide_eq_true. split; [|by intros ->]. intros H'.
  pose proof (mt_from_as a) as Ha. rewrite H', mt_from_as in Ha. congruence.
Qed.

(** A decoder that returns [Option]: [Err tt] is [None]. *)
Abbreviation decoded := (outcome unit).
Abbreviation None_ := (Err tt).

(** [bytes[a..b].try_into().ok()?] *)
Definition try_array (n : nat) (s : bytes) : decoded bytes :=
  if decide (length s = n) then Ok s else None_.

Section Lite.
Context {PL : PeatLite}.

(** * [QueryRequest] *)
Record QueryRequest := {
  crdt_type : CrdtType;
  collection : bytes;
  doc_id : option bytes
}.

Definition query_encode (q : QueryRequest) : bytes :=
  let doc_id_bytes := default [] (doc_id q) in
  [crdt_as_u8 (crdt_type q)]
  ++ [as_u8 (zlen (collection q))]
  ++ collection q
  ++ [as_u8 (zlen doc_id_bytes)]
  ++ doc_id_bytes.

Definition query_decode (data : bytes) : decoded QueryRequest :=
  bail! decide (length data < 3) with tt;
  b0 ← index data 0;
  t ← ok_or (crdt_from_u8 b0) tt;
  b1 ← index data 1;
  let collection_len := Z.to_nat (u8 b1) in
  bail! decide (length data < 2 + collection_len + 1) with tt;
  c ← slice data 2 (2 + collection_len);
  c ← ok_or (from_utf8 c) tt;
  let doc_id_offset := 2 + collection_len in
  b2 ← index data doc_id_offset;
  let doc_id_len := Z.to_nat (u8 b2) in
  bail! decide (length data < doc_id_offset + 1 + doc_id_len) with tt;
  d ← (if decide (0 < doc_id_len) then
         d ← slice data (doc_id_offset + 1) (doc_id_offset + 1 + doc_id_len);
         d ← ok_or (from_utf8 d) tt;
         Ok (Some d)
       else Ok None);
  Ok {| crdt_type := t; collection := c; doc_id := d |}.

(** * [LiteMessage] *)
Record LiteMessage := {
  msg_type : MessageType;
  flags : Z;
  node_id : Z;
  seq_num : Z;
  payload : bytes
}.

Definition decode (buf : bytes) : decoded LiteMessage :=
  bail! decide (length buf < 16) with tt;
  m ← slice buf 0 4;
  bail! decide (m ≠ MAGIC) with tt;
  v ← index buf 4;
  bail! decide (v ≠ PROTOCOL_VERSION) with tt;
  t ← index buf 5;
  t ← ok_or (mt_from_u8 t) tt;
  f ← slice buf 6 8;
  f ← try_array 2 f;
  n ← slice buf 8 12;
  n ← try_array 4 n;
  s ← slice buf 12 16;
  s ← try_array 4 s;
  p ← (if decide (16 < length buf) then slice buf 16 (length buf) else Ok []);
  Ok {| msg_type := t; flags := from_le f; node_id := from_le n; seq_num := from_le s;
        payload := p |}.

Definition encode (m : LiteMessage) : bytes :=
  MAGIC
  ++ [PROTOCOL_VERSION]
  ++ [mt_as_u8 (msg_type m)]
  ++ to_le 2 (flags m)
  ++ to_le 4 (node_id m)
  ++ to_le 4 (seq_num m)
  ++ payload m.

(** ** Constructors *)
Definition ack (node ack_seq : Z) : LiteMessage := {|
  msg_type := mt_Ack; flags := 0; node_id := node; seq_num := 0;
  payload := to_le 4 ack_seq
|}.
Definition query (node seq : Z) (request : QueryRequest) : LiteMessage := {|
  msg_type := mt_Query; flags := 0; node_id := node; seq_num := seq;
  payload := query_encode request
|}.
Definition data (node seq : Z) (t : CrdtType) (crdt_data : bytes) : LiteMessage := {|
  msg_type := mt_Data; flags := 0; node_id := node; seq_num := seq;
  payload := [crdt_as_u8 t] ++ crdt_data
|}.
Definition ota_offer (node : Z) (version : bytes) (firmware_size total_chunks chunk_size : Z)
    (sha256 : bytes) (session_id fl : Z) (signature : option bytes) : LiteMessage := {|
  msg_type := mt_OtaOffer; flags := 0; node_id := node; seq_num := 0;
  payload := version ++ to_le 4 firmware_size ++ to_le 2 total_chunks ++ to_le 2 chunk_size
    ++ sha256 ++ to_le 2 session_id ++ to_le 2 fl
    ++ match signature with
       | Some sig => sig ++ replicate 16 Byte.x00
       | None => replicate 16 Byte.x00
       end
|}.
Definition ota_data (node session_id chunk_num : Z) (chunk : bytes) : LiteMessage := {|
  msg_type := mt_OtaData; flags := 0; node_id := node; seq_num := 0;
  payload := to_le 2 session_id ++ to_le 2 chunk_num ++ to_le 2 (zlen chunk) ++ chunk
|}.
Definition ota_complete (node session_id : Z) : LiteMessage := {|
  msg_type := mt_OtaComplete; flags := 0; node_id := node; seq_num := 0;
  payload := to_le 2 session_id
|}.
Definition ota_abort (node session_id : Z) (reason : byte) : LiteMessage := {|
  msg_type := mt_OtaAbort; flags := 0; node_id := node; seq_num := 0;
  payload := to_le 2 session_id ++ [reason] ++ [Byte.x00]
|}.

(** [LiteCapabilitiesExt::from_bytes] *)
Definition caps_from_bytes (b : bytes) : decoded NodeCapabilities :=
  if decide (2 ≤ length b) then
    b0 ← index b 0;
    b1 ← index b 1;
    Ok (caps_from_bits (from_le [b0; b1]))
  else Ok caps_empty.

(** ** Frames *)
Record frame_wf (m : LiteMessage) : Prop := {
  lwf_flags : in_u 16 (flags m);
  lwf_node : in_u 32 (node_id m);
  lwf_seq : in_u 32 (seq_num m)
}.

Lemma try_array_ok n s : length s = n → try_array n s = Ok s.
Proof. intros. unfold try_array. by rewrite decide_True. Qed.
Lemma try_array_inv n s t : try_array n s = Ok t → s = t ∧ length s = n.
Proof. unfold try_array. case_decide; [|discriminate]. by intros [= ->]. Qed.
Lemma no_panic_try_array n s : no_panic (try_array n s).
Proof. unfold try_array. by case_decide. Qed.
End Lite.

Arguments LiteMessage : clear implicits.
Arguments LiteMessage {_}.
#[export] Hint Resolve no_panic_try_array : wire.

Section LiteCodecs.
Context {PL : PeatLite} {PLL : PeatLiteLaws}.

Lemma decode_no_panic buf : no_panic (decode buf).
Proof. unfold decode. panic_free. Qed.
Lemma query_decode_no_panic buf : no_panic (query_decode buf).
Proof. unfold query_decode. panic_free. Qed.

Ltac lite_run C :=
  repeat first [ decode_step C
               | rewrite try_array_ok by (rewrite ?length_to_le; done);
                 cbn [mbind outcome_bind] ].
Ltac lite_inv H :=
  decode_inv H;
  repeat match goal with
         | Ht : try_array _ _ = Ok _ |- _ => apply try_array_inv in Ht as [<- ?]
         end.

(** The payload is whatever follows the header. *)
Lemma payload_rest buf rest :
  cursor buf 16 rest →
  (if decide (16 < length buf) then slice buf 16 (length buf) else Ok []) = Ok (E:=unit) rest.
Proof.
  intros C. pose proof (cursor_length _ _ _ C). case_decide.
  - by apply (slice_to_end _ _ _ _ C).
  - destruct rest; [done|]. cbn in *. lia.
Qed.

Lemma frame_decode_encode m : frame_wf m → decode (encode m) = Ok m.
Proof using PLL.
  intros []. pose proof (cursor_start (encode m)) as C. pose proof MAGIC_length as HM.
  unfold decode. unfold encode in C at 2. lite_run C.
  rewrite decide_False by auto. lite_run C. rewrite decide_False by auto. lite_run C.
  rewrite mt_from_as. cbn [ok_or mbind outcome_bind]. lite_run C.
  rewrite !(le_roundtrip 4 32), (le_roundtrip 2 16) by done.
  rewrite (payload_rest _ (payload m)).
  - by destruct m.
  - autorewrite with lens in C. by rewrite HM in C.
Qed.

Lemma frame_encode_decode buf m : decode buf = Ok m → frame_wf m ∧ buf = encode m.
Proof using PLL.
  intros H. unfold decode in H. pose proof (cursor_start buf) as C.
  lite_inv H.
  match goal with
  | C : cursor _ 16 _, Hp : _ = Ok ?p |- _ =>
      rewrite (payload_rest _ _ C) in Hp; injection Hp as <-
  end.
  match goal with Hv : mt_from_u8 _ = Some _ |- _ => apply mt_as_from in Hv as <- end.
  apply dec_stable in n0 as ->. apply dec_stable in n1 as ->. injection H as <-.
  split; [split; cbn [flags node_id seq_num]; eauto with wire|].
  unfold encode. cbn [msg_type flags node_id seq_num payload]. wire_eq.
Qed.

(** ** Query requests *)
Record query_wf (q : QueryRequest) : Prop := {
  qwf_collection : utf8_valid (collection q) = true;
  qwf_collection_len : length (collection q) ≤ 255;
  qwf_doc : ∀ d, doc_id q = Some d → d ≠ [] ∧ utf8_valid d = true ∧ length d ≤ 255
}.

Lemma query_decode_cursor q data rest :
  query_wf q → cursor data 0 (query_encode q ++ rest) → query_decode data = Ok q.
Proof using PLL.
  intros [Hu Hl Hd] C. destruct q as [t c d]. cbn [collection doc_id] in *.
  unfold query_decode, query_encode in *. cbn [crdt_type collection doc_id] in C.
  rewrite <- !(assoc_L (++)) in C. cbn [app] in C. lite_run C.
  rewrite crdt_from_as. cbn [ok_or mbind outcome_bind]. lite_run C.
  destruct d as [d|]; cbn [default from_option id] in *.
  - destruct (Hd d eq_refl) as (Hne & Hud & Hld). lite_run C.
    rewrite (decide_True (P := 0 < length d)) by (destruct d; [done|cbn; lia]).
    by lite_run C.
  - cbn [app] in C.
    change (Z.to_nat (u8 (as_u8 (zlen [])))) with 0. lite_run C. done.
Qed.

Lemma query_decode_inv data q :
  query_decode data = Ok q → query_wf q ∧ ∃ rest, data = query_encode q ++ rest.
Proof using PLL.
  intros H. unfold query_decode in H. pose proof (cursor_start data) as C. lite_inv H.
  match goal with Hv : crdt_from_u8 _ = Some _ |- _ => apply crdt_as_from in Hv as <- end.
  injection H as <-. case_decide.
  - lite_inv Hv0. injection Hv0 as <-. split.
    + split; cbn; [done|eauto with wire|]. intros d [= <-].
      split_and!; [by intros ->; cbn in *; lia|done|eauto with wire].
    + exists rest. unfold query_encode. cbn [crdt_type collection doc_id default from_option id].
      wire_eq.
  - injection Hv0 as <-. split; [split; cbn; eauto with wire; done|].
    eexists. unfold query_encode. cbn [crdt_type collection doc_id default from_option id].
    rewrite (len_u8_inv [] v3) by (cbn; lia). wire_eq.
Qed.

(** Peat-Lite messages: the frame decoder accepts exactly the encodings of
    well-formed messages; the query decoder accepts exactly the encodings, followed
    by anything, of requests whose texts fit one length byte and whose document id,
    when present, is not empty.  Neither panics on any input. *)
Theorem lite_decode_exact :
  (∀ buf m, decode buf = Ok m ↔ frame_wf m ∧ buf = encode m)
  ∧ (∀ buf q, query_decode buf = Ok q ↔ query_wf q ∧ ∃ rest, buf = query_encode q ++ rest)
  ∧ (∀ buf, decode buf ≠ Panic ∧ query_decode buf ≠ Panic).
Proof using PLL.
  split_and!.
  - intros buf m. split; [apply frame_encode_decode|]. intros [Hwf ->].
    by apply frame_decode_encode.
  - intros buf q. split; [apply query_decode_inv|]. intros (Hwf & rest & ->).
    eapply query_decode_cursor; eauto with wire.
  - intros buf. split; [apply decode_no_panic|apply query_decode_no_panic].
Qed.
End LiteCodecs.

(** * Primitive CRDT payloads ([LiteDocumentBridge]) *)
Record OrSetElement := { tag_node_id : Z; tag_seq : Z; value : bytes }.

(** [z as i64] of a [u64], and checked [i64] arithmetic. *)
Definition as_i64 (z : Z) : Z := if (z <? 2 ^ 63)%Z then z else (z - 2 ^ 64)%Z.
Definition checked_i64 {E} (p : profile) (z : Z) : outcome E Z :=
  if ((- 2 ^ 63 <=? z) && (z <? 2 ^ 63))%Z then Ok z
  else match p with Debug => Panic | Release => Ok (as_i64 (wrap 64 z)) end.

Module Crdt.

(** [u32::from_le_bytes(data[a..b].try_into().ok()?)] and its siblings. *)
Definition read_le (data : bytes) (a n : nat) : decoded Z :=
  s ← slice data a (a + n);
  s ← try_array n s;
  Ok (from_le s).

(** The loop of [decode_gcounter], [n] entries to go. *)
Fixpoint gcounter_entries (p : profile) (data : bytes) (offset n : nat) (total : Z)
    : decoded (list (Z * Z) * Z) :=
  match n with
  | O => Ok ([], total)
  | S n =>
      node ← read_le data offset 4;
      count ← read_le data (offset + 4) 8;
      total ← checked p 64 (total + count);
      r ← gcounter_entries p data (offset + 12) n total;
      Ok ((node, count) :: r.1, r.2)
  end.

Definition decode_gcounter (p : profile) (data : bytes) : decoded (list (Z * Z) * Z) :=
  bail! decide (length data < 6) with tt;
  _ ← read_le data 0 4;
  num ← read_le data 4 2;
  let num_entries := Z.to_nat num in
  bail! decide (length data < 6 + num_entries * 12) with tt;
  gcounter_entries p data 6 num_entries 0.

Definition decode_lww_register (data : bytes) : decoded (Z * Z * bytes) :=
  bail! decide (length data < 12) with tt;
  timestamp ← read_le data 0 8;
  node ← read_le data 8 4;
  v ← slice data 12 (length data);
  Ok (timestamp, node, v).

Fixpoint pncounter_entries (p : profile) (data : bytes) (offset n : nat) (net : Z)
    : decoded (list (Z * Z * Z) * Z) :=
  match n with
  | O => Ok ([], net)
  | S n =>
      node ← read_le data offset 4;
      inc ← read_le data (offset + 4) 8;
      dec ← read_le data (offset + 12) 8;
      d ← checked_i64 p (as_i64 inc - as_i64 dec);
      net ← checked_i64 p (net + d);
      r ← pncounter_entries p data (offset + 20) n net;
      Ok ((node, inc, dec) :: r.1, r.2)
  end.

Definition decode_pncounter (p : profile) (data : bytes) : decoded (list (Z * Z * Z) * Z) :=
  bail! decide (length data < 6) with tt;
  _ ← read_le data 0 4;
  num ← read_le data 4 2;
  let num_entries := Z.to_nat num in
  bail! decide (length data < 6 + num_entries * 20) with tt;
  pncounter_entries p data 6 num_entries 0.

Fixpoint orset_elements (data : bytes) (offset n : nat) : decoded (list OrSetElement) :=
  match n with
  | O => Ok []
  | S n =>
      bail! decide (length data < offset + 10) with tt;
      tag_node ← read_le data offset 4;
      tag_s ← read_le data (offset + 4) 4;
      len ← read_le data (offset + 8) 2;
      let value_len := Z.to_nat len in
      bail! decide (length data < offset + 10 + value_len) with tt;
      v ← slice data (offset + 10) (offset + 10 + value_len);
      r ← orset_elements data (offset + (10 + value_len)) n;
      Ok ({| tag_node_id := tag_node; tag_seq := tag_s; value := v |} :: r)
  end.

Definition decode_orset (data : bytes) : decoded (Z * list OrSetElement) :=
  bail! decide (length data < 6) with tt;
  local ← read_le data 0 4;
  num ← read_le data 4 2;
  elements ← orset_elements data 6 (Z.to_nat num);
  Ok (local, elements).

(** The bytes the document encoders write for the entries they collected. *)
Definition gcounter_bytes (entries : list (Z * Z)) : bytes :=
  to_le 4 0 ++ to_le 2 (zlen entries)
  ++ (entries ≫= λ '(node, count), to_le 4 node ++ to_le 8 count).
Definition pncounter_bytes (entries : list (Z * Z * Z)) : bytes :=
  to_le 4 0 ++ to_le 2 (zlen entries)
  ++ (entries ≫= λ '(node, inc, dec), to_le 4 node ++ to_le 8 inc ++ to_le 8 dec).
Definition orset_bytes (elements : list OrSetElement) : bytes :=
  to_le 4 0 ++ to_le 2 (zlen elements)
  ++ (elements ≫= λ e, to_le 4 (tag_node_id e) ++ to_le 4 (tag_seq e)
        ++ to_le 2 (zlen (value e)) ++ value e).

(** ** Reading what the encoders wrote *)
Lemma read_le_cursor data pos w n z rest a :
  cursor data pos (to_le n z ++ rest) → a = pos → w = (8 * Z.of_nat n)%Z → in_u w z →
  read_le data a n = Ok z ∧ cursor data (pos + n) rest.
Proof.
  intros C -> Hw Hz. split; [|eapply cursor_skip; [done|apply length_to_le]].
  unfold read_le. rewrite (cursor_slice _ _ _ _ _ C) by apply length_to_le.
  cbn [mbind outcome_bind]. rewrite try_array_ok by apply length_to_le.
  cbn [mbind outcome_bind]. by rewrite (le_roundtrip n w).
Qed.

Lemma no_panic_read_le data a n : a + n ≤ length data → no_panic (read_le data a n).
Proof. intros. unfold read_le. panic_free. Qed.

(** [read_next C]: run one [read_le] along the cursor [C]. *)
Ltac read_next C :=
  match goal with
  | |- context [read_le ?d ?a ?n] =>
      let H := fresh in
      eapply (read_le_cursor d _ _ n _ _ a) in C as [H C];
        [rewrite H; clear H; cbn [mbind outcome_bind]|lia|reflexivity|try done]
  end.

Definition sum_counts (entries : list (Z * Z)) : Z := foldr Z.add 0%Z (entries.*2).
Definition count_wf (e : Z * Z) : Prop := in_u 32 e.1 ∧ in_u 64 e.2.

Lemma sum_counts_nonneg entries : Forall count_wf entries → (0 ≤ sum_counts entries)%Z.
Proof.
  unfold sum_counts. induction 1 as [|e l [_ He]]; cbn; [lia|]. unfold in_u in He. lia.
Qed.

(** The sum of the counts as the profile computes it. *)
Definition gcounter_total (p : profile) (sum : Z) : option Z :=
  match p with
  | Debug => if decide (sum < 2 ^ 64)%Z then Some sum else None
  | Release => Some (wrap 64 sum)
  end.

Lemma gcounter_loop p data pos entries rest total :
  Forall count_wf entries → in_u 64 total →
  cursor data pos ((entries ≫= λ '(node, count), to_le 4 node ++ to_le 8 count) ++ rest) →
  gcounter_entries p data pos (length entries) total
  = match gcounter_total p (total + sum_counts entries) with
    | Some t => Ok (entries, t)
    | None => Panic
    end.
Proof.
  intros He. revert pos total.
  induction He as [|[node count] l [Hn Hc] Hl IH]; intros pos total Ht C.
  - cbn. rewrite Z.add_0_r. unfold gcounter_total, wrap. destruct p.
    + by rewrite decide_True by apply Ht.
    + by rewrite Z.mod_small by apply Ht.
  - cbn [length gcounter_entries]. cbn [mbind list_bind] in C.
    rewrite <- !(assoc_L (++)) in C. cbn in Hn, Hc.
    assert (sum_counts ((node, count) :: l) = count + sum_counts l)%Z as -> by done.
    pose proof (sum_counts_nonneg l Hl). read_next C. read_next C.
    unfold in_u in Hc, Ht. rewrite Z.add_assoc.
    destruct (decide (total + count < 2 ^ 64)%Z).
    + rewrite checked_in by (unfold in_u; lia). cbn [mbind outcome_bind].
      rewrite (IH (pos + 12)) by (unfold in_u; lia || by replace (pos + 12) with (pos + 4 + 8) by lia).
      by destruct (gcounter_total p _).
    + unfold checked. rewrite (proj2 (Z.ltb_ge _ _)), andb_false_r by lia. destruct p.
      * cbn. by rewrite decide_False by lia.
      * cbn [mbind outcome_bind].
        rewrite (IH (pos + 12));
          [|by apply Z.mod_pos_bound|by replace (pos + 12) with (pos + 4 + 8) by lia].
        cbn. unfold wrap. by rewrite Zplus_mod_idemp_l.
Qed.

Lemma length_gcounter_body (entries : list (Z * Z)) :
  length (entries ≫= λ '(node, count), to_le 4 node ++ to_le 8 count) = 12 * length entries.
Proof.
  induction entries as [|[n c] l IH]; [done|]. cbn [mbind list_bind].
  rewrite length_app, IH. autorewrite with lens. lia.
Qed.

Lemma decode_gcounter_bytes p entries rest :
  Forall count_wf entries → (zlen entries < 65536)%Z →
  decode_gcounter p (gcounter_bytes entries ++ rest)
  = match gcounter_total p (sum_counts entries) with
    | Some t => Ok (entries, t)
    | None => Panic
    end.
Proof.
  intros He Hl. pose proof (cursor_start (gcounter_bytes entries ++ rest)) as C.
  revert C. generalize (gcounter_bytes entries ++ rest) at 1 3. intros data C.
  unfold gcounter_bytes in C. rewrite <- !(assoc_L (++)) in C.
  pose proof (cursor_length _ _ _ C) as HL.
  rewrite !length_app, length_gcounter_body, !length_to_le in HL.
  unfold decode_gcounter. rewrite decide_False by lia. read_next C. read_next C.
  2:{ unfold in_u, zlen in *. lia. }
  cbv zeta. unfold zlen. rewrite Nat2Z.id, decide_False by lia.
  by rewrite (gcounter_loop _ _ _ _ _ _ He ltac:(done) C).
Qed.

(** ** PN-counters *)
Definition pn_wf (e : Z * Z * Z) : Prop := in_u 32 e.1.1 ∧ in_u 64 e.1.2 ∧ in_u 64 e.2.
Definition pn_net (entries : list (Z * Z * Z)) : Z :=
  foldr (λ e acc, e.1.2 - e.2 + acc)%Z 0%Z entries.

Lemma length_pncounter_body (entries : list (Z * Z * Z)) :
  length (entries ≫= λ '(node, inc, dec), to_le 4 node ++ to_le 8 inc ++ to_le 8 dec)
  = 20 * length entries.
Proof.
  induction entries as [|[[n i] d] l IH]; [done|]. cbn [mbind list_bind].
  rewrite length_app, IH. autorewrite with lens. lia.
Qed.

Definition wrap_i64 (z : Z) : Z := as_i64 (wrap 64 z).

Lemma wrap_i64_mod z : (wrap_i64 z mod 2 ^ 64 = z mod 2 ^ 64)%Z.
Proof.
  unfold wrap_i64, as_i64, wrap. case_match; [by rewrite Zmod_mod|].
  rewrite <- (Z_mod_plus_full _ 1), Z.mul_1_l, Z.sub_add. apply Zmod_mod.
Qed.
Lemma wrap_i64_small z : (- 2 ^ 63 ≤ z < 2 ^ 63)%Z → wrap_i64 z = z.
Proof.
  intros Hz. unfold wrap_i64, as_i64, wrap. destruct (decide (0 ≤ z)%Z).
  - rewrite Z.mod_small by lia. by rewrite (proj2 (Z.ltb_lt _ _)) by lia.
  - assert (z mod 2 ^ 64 = z + 2 ^ 64)%Z as ->.
    { rewrite <- (Z_mod_plus_full z 1). apply Z.mod_small. lia. }
    rewrite (proj2 (Z.ltb_ge _ _)) by lia. lia.
Qed.
Lemma wrap_i64_eq z z' : (z mod 2 ^ 64 = z' mod 2 ^ 64)%Z → wrap_i64 z = wrap_i64 z'.
Proof. unfold wrap_i64, wrap. by intros ->. Qed.
Lemma wrap_i64_shift z z' k : (z = z' + k * 2 ^ 64)%Z → wrap_i64 z = wrap_i64 z'.
Proof. intros ->. apply wrap_i64_eq, Z_mod_plus_full. Qed.
Lemma wrap_i64_cong z : ∃ k, (wrap_i64 z = z + k * 2 ^ 64)%Z.
Proof.
  exists (wrap_i64 z / 2 ^ 64 - z / 2 ^ 64)%Z. pose proof (wrap_i64_mod z).
  pose proof (Z_div_mod_eq_full (wrap_i64 z) (2 ^ 64)).
  pose proof (Z_div_mod_eq_full z (2 ^ 64)). lia.
Qed.
Lemma checked_i64_release {E} z : checked_i64 (E:=E) Release z = Ok (wrap_i64 z).
Proof.
  unfold checked_i64. case_match eqn:Hb; [|done].
  apply andb_true_iff in Hb as [?%Z.leb_le ?%Z.ltb_lt]. by rewrite wrap_i64_small.
Qed.
Lemma as_i64_wrap z : in_u 64 z → as_i64 z = wrap_i64 z.
Proof. intros Hz. unfold wrap_i64, wrap. by rewrite Z.mod_small by apply Hz. Qed.

Lemma pncounter_loop data pos entries rest net :
  Forall pn_wf entries → wrap_i64 net = net →
  cursor data pos
    ((entries ≫= λ '(node, inc, dec), to_le 4 node ++ to_le 8 inc ++ to_le 8 dec) ++ rest) →
  pncounter_entries Release data pos (length entries) net
  = Ok (entries, wrap_i64 (net + pn_net entries)).
Proof.
  intros He. revert pos net.
  induction He as [|[[node inc] dec] l (Hn & Hi & Hd) Hl IH]; intros pos net Hw C.
  - cbn. by rewrite Z.add_0_r, Hw.
  - cbn [length pncounter_entries]. cbn [mbind list_bind] in C.
    rewrite <- !(assoc_L (++)) in C. cbn in Hn, Hi, Hd.
    read_next C. read_next C. read_next C.
    rewrite !checked_i64_release. cbn [mbind outcome_bind].
    rewrite checked_i64_release. cbn [mbind outcome_bind]. rewrite (IH (pos + 20)).
    + cbn [mbind outcome_bind fst snd]. do 2 f_equal. rewrite !as_i64_wrap by done.
      change (pn_net ((node, inc, dec) :: l)) with (inc - dec + pn_net l)%Z.
      destruct (wrap_i64_cong inc) as [k1 ->], (wrap_i64_cong dec) as [k2 ->].
      destruct (wrap_i64_cong (inc + k1 * 2 ^ 64 - (dec + k2 * 2 ^ 64))) as [k3 ->].
      destruct (wrap_i64_cong (net + (inc + k1 * 2 ^ 64 - (dec + k2 * 2 ^ 64) + k3 * 2 ^ 64)))
        as [k4 ->].
      apply (wrap_i64_shift _ _ (k1 - k2 + k3 + k4)). lia.
    + apply wrap_i64_eq, wrap_i64_mod.
    + by replace (pos + 20) with (pos + 4 + 8 + 8) by lia.
Qed.

Lemma decode_pncounter_bytes entries rest :
  Forall pn_wf entries → (zlen entries < 65536)%Z →
  decode_pncounter Release (pncounter_bytes entries ++ rest)
  = Ok (entries, wrap_i64 (pn_net entries)).
Proof.
  intros He Hl. pose proof (cursor_start (pncounter_bytes entries ++ rest)) as C.
  revert C. generalize (pncounter_bytes entries ++ rest) at 1 3. intros data C.
  unfold pncounter_bytes in C. rewrite <- !(assoc_L (++)) in C.
  pose proof (cursor_length _ _ _ C) as HL.
  rewrite !length_app, length_pncounter_body, !length_to_le in HL.
  unfold decode_pncounter. rewrite decide_False by lia. read_next C. read_next C.
  2:{ unfold in_u, zlen in *. lia. }
  cbv zeta. unfold zlen. rewrite Nat2Z.id, decide_False by lia.
  exact (pncounter_loop _ _ _ _ 0 He eq_refl C).
Qed.

(** ** OR-sets *)
Definition element_wf (e : OrSetElement) : Prop :=
  in_u 32 (tag_node_id e) ∧ in_u 32 (tag_seq e) ∧ (zlen (value e) < 65536)%Z.

Lemma orset_loop data pos elements rest :
  Forall element_wf elements →
  cursor data pos ((elements ≫= λ e, to_le 4 (tag_node_id e) ++ to_le 4 (tag_seq e)
        ++ to_le 2 (zlen (value e)) ++ value e) ++ rest) →
  orset_elements data pos (length elements) = Ok elements.
Proof.
  intros He. revert pos. induction He as [|e l (Hn & Hs & Hv) Hl IH]; intros pos C; [done|].
  cbn [length orset_elements]. cbn [mbind list_bind] in C. rewrite <- !(assoc_L (++)) in C.
  pose proof (cursor_length _ _ _ C) as HL. rewrite !length_app, !length_to_le in HL.
  rewrite decide_False by lia. read_next C. read_next C. read_next C.
  2:{ unfold in_u, zlen in *. lia. }
  cbv zeta. unfold zlen in *. rewrite Nat2Z.id, decide_False by lia.
  rewrite (cursor_slice_at _ _ (value e) _ _ _ C) by lia. cbn [mbind outcome_bind].
  rewrite IH; [by destruct e|].
  apply (cursor_skip _ _ _ _ (length (value e))) in C; [|done].
  by replace (pos + (10 + length (value e))) with (pos + 4 + 4 + 2 + length (value e)) by lia.
Qed.

Lemma decode_orset_bytes elements rest :
  Forall element_wf elements → (zlen elements < 65536)%Z →
  decode_orset (orset_bytes elements ++ rest) = Ok (0%Z, elements).
Proof.
  intros He Hl. pose proof (cursor_start (orset_bytes elements ++ rest)) as C.
  revert C. generalize (orset_bytes elements ++ rest) at 1 3. intros data C.
  unfold orset_bytes in C. rewrite <- !(assoc_L (++)) in C.
  pose proof (cursor_length _ _ _ C) as HL. rewrite !length_app, !length_to_le in HL.
  unfold decode_orset. rewrite decide_False by lia. read_next C. read_next C.
  2:{ unfold in_u, zlen in *. lia. }
  unfold zlen. rewrite Nat2Z.id. by rewrite (orset_loop data 6 _ _ He C).
Qed.

(** ** No input makes the decoders read out of range *)
Lemma read_le_total data a n :
  a + n ≤ length data → ∃ z, read_le data a n = Ok z ∧ in_u (8 * Z.of_nat n) z.
Proof.
  intros H. unfold read_le. rewrite slice_in by lia. cbn [mbind outcome_bind].
  rewrite try_array_ok by (rewrite length_take, length_drop; lia).
  eexists. split; [done|]. eapply from_le_in_u; [done|]. rewrite length_take, length_drop. lia.
Qed.

Lemma gcounter_entries_release data pos n total :
  pos + n * 12 ≤ length data → no_panic (gcounter_entries Release data pos n total).
Proof.
  revert pos total. induction n as [|n IH]; intros pos total H; [done|]. cbn [gcounter_entries].
  destruct (read_le_total data pos 4) as (z & -> & _); [lia|]. cbn [mbind outcome_bind].
  destruct (read_le_total data (pos + 4) 8) as (c & -> & _); [lia|]. cbn [mbind outcome_bind].
  apply no_panic_bind; [unfold checked; by case_match|]. intros t _.
  apply no_panic_bind; [apply IH; lia|done].
Qed.

Lemma pncounter_entries_release data pos n net :
  pos + n * 20 ≤ length data → no_panic (pncounter_entries Release data pos n net).
Proof.
  revert pos net. induction n as [|n IH]; intros pos net H; [done|]. cbn [pncounter_entries].
  destruct (read_le_total data pos 4) as (z & -> & _); [lia|]. cbn [mbind outcome_bind].
  destruct (read_le_total data (pos + 4) 8) as (i & -> & _); [lia|]. cbn [mbind outcome_bind].
  destruct (read_le_total data (pos + 12) 8) as (d & -> & _); [lia|]. cbn [mbind outcome_bind].
  rewrite checked_i64_release. cbn [mbind outcome_bind].
  rewrite checked_i64_release. cbn [mbind outcome_bind].
  apply no_panic_bind; [apply IH; lia|done].
Qed.

Lemma orset_elements_no_panic data pos n : no_panic (orset_elements data pos n).
Proof.
  revert pos. induction n as [|n IH]; intros pos; [done|]. cbn [orset_elements].
  case_decide; [done|].
  destruct (read_le_total data pos 4) as (z & -> & _); [lia|]. cbn [mbind outcome_bind].
  destruct (read_le_total data (pos + 4) 4) as (q & -> & _); [lia|]. cbn [mbind outcome_bind].
  destruct (read_le_total data (pos + 8) 2) as (l & -> & _); [lia|]. cbn [mbind outcome_bind].
  cbv zeta. case_decide; [done|]. apply no_panic_bind; [apply no_panic_slice; lia|].
  intros v _. apply no_panic_bind; [apply IH|done].
Qed.

Lemma crdt_decoders_release data :
  no_panic (decode_gcounter Release data) ∧ no_panic (decode_pncounter Release data)
  ∧ no_panic (decode_orset data) ∧ no_panic (decode_lww_register data).
Proof.
  assert (∀ a n, a + n ≤ length data → no_panic (read_le data a n)) as Hr
    by (intros; by apply no_panic_read_le).
  split_and!; [unfold decode_gcounter|unfold decode_pncounter|unfold decode_orset
              |unfold decode_lww_register]; (case_decide; [done|]);
    (apply no_panic_bind; [apply Hr; lia|intros ? _]);
    (apply no_panic_bind; [apply Hr; lia|intros ? _]); cbv zeta.
  - case_decide; [done|]. apply gcounter_entries_release. lia.
  - case_decide; [done|]. apply pncounter_entries_release. lia.
  - apply no_panic_bind; [apply orset_elements_no_panic|done].
  - apply no_panic_bind; [apply no_panic_slice; lia|done].
Qed.

(** CRDT payloads: for entries within the wire widths, what the document encoders
    write decodes to the entries, with the exact sum of a grow-only counter (the
    sum modulo 2^64 in a release build, a panic of the receive loop in a debug
    build, as soon as the counts add up to 2^64) and the two's complement net value
    of a PN-counter; release builds panic on no input. *)
Theorem crdt_payloads :
  (∀ p entries rest, Forall count_wf entries → (zlen entries < 65536)%Z →
     decode_gcounter p (gcounter_bytes entries ++ rest)
     = match gcounter_total p (sum_counts entries) with
       | Some total => Ok (entries, total) | None => Panic end)
  ∧ (∀ entries rest, Forall pn_wf entries → (zlen entries < 65536)%Z →
     decode_pncounter Release (pncounter_bytes entries ++ rest)
     = Ok (entries, wrap_i64 (pn_net entries)))
  ∧ (∀ elements rest, Forall element_wf elements → (zlen elements < 65536)%Z →
     decode_orset (orset_bytes elements ++ rest) = Ok (0%Z, elements))
  ∧ (∀ data, decode_gcounter Release data ≠ Panic ∧ decode_pncounter Release data ≠ Panic
     ∧ decode_orset data ≠ Panic ∧ decode_lww_register data ≠ Panic).
Proof.
  split_and!; [apply decode_gcounter_bytes|apply decode_pncounter_bytes|apply decode_orset_bytes
              |apply crdt_decoders_release].
Qed.
End Crdt.

(** * A concrete type table, for witnesses: the codes themselves *)
#[local] Instance toy_peat_lite : PeatLite := {|
  MessageType := byte; mt_from_u8 := Some; mt_as_u8 b := b;
  mt_Announce := Byte.x01; mt_Heartbeat := Byte.x02; mt_Data := Byte.x03;
  mt_Query := Byte.x04; mt_Ack := Byte.x05; mt_Leave := Byte.x06;
  mt_OtaOffer := Byte.x10; mt_OtaAccept := Byte.x11; mt_OtaData := Byte.x12;
  mt_OtaAck := Byte.x13; mt_OtaComplete := Byte.x14; mt_OtaResult := Byte.x15;
  mt_OtaAbort := Byte.x16;
  CrdtType := byte; crdt_from_u8 := Some; crdt_as_u8 b := b;
  crdt_LwwRegister := Byte.x01; crdt_GCounter := Byte.x02; crdt_PnCounter := Byte.x03;
  crdt_OrSet := Byte.x04;
  NodeCapabilities := Z; caps_from_bits z := z; caps_empty := 0%Z; caps_default := 0%Z;
  MAGIC := str "PEAT"; PROTOCOL_VERSION := Byte.x01; DEFAULT_PORT := 5555;
  OTA_CHUNK_DATA_SIZE := 4; OTA_FLAG_SIGNED := 1; OTA_RESULT_SUCCESS := Byte.x00;
  OTA_ABORT_TOO_MANY_RETRIES := Byte.x02
|}.
Lemma toy_peat_lite_laws : PeatLiteLaws.
Proof.
  split; try done; try (by intros ? ? [= ->]).
  by apply (bool_decide_unpack (NoDup _)).
Qed.

Lemma lite_decode_exact_witness :
  decode (encode (ack 7 9)) = Ok (ack 7 9).
Proof.
  destruct (lite_decode_exact (PLL := toy_peat_lite_laws)) as [H _].
  apply H. split; [by split|done].
Defined.
