(* ===== verification/LiteTransport.v ===== *)
(** The Peat-Lite transport ([src/transport/lite.rs]): the table of virtual peer
    connections driven by received messages and the staleness check, the events it
    emits, the body of the receive loop, and the collection filter of the document
    bridge.  Sockets are external: received datagrams are inputs. *)
From Stdlib Require Import ZArith Lia Strings.Byte Strings.String.
From stdpp Require Import prelude gmap.
From S2P Require Import Prelude Wire Transport LiteWire.

Set Default Proof Using "Type".

Inductive LiteSyncMode := LatestOnly | DeltaSync | ReceiveOnly.

Record LiteTransportConfig := {
  listen_port : Z;
  broadcast_port : Z;
  peer_timeout_secs : Z;
  enable_broadcast : bool;
  broadcast_interval_secs : Z;
  outbound_collections : list bytes;
  inbound_collections : list bytes;
  max_document_age_secs : Z;
  outbound_sync_mode : LiteSyncMode
}.

Section Lite.
Context {PL : PeatLite} {Addr : Type}.

Definition default_config : LiteTransportConfig := {|
  listen_port := DEFAULT_PORT;
  broadcast_port := DEFAULT_PORT;
  peer_timeout_secs := 30;
  enable_broadcast := true;
  broadcast_interval_secs := 2;
  outbound_collections := [str "beacons"; str "alerts"];
  inbound_collections := [str "lite_sensors"; str "lite_events"; str "lite_status"];
  max_document_age_secs := 300;
  outbound_sync_mode := LatestOnly
|}.

Record LitePeerState := {
  node_id_raw : Z;
  address : Addr;
  capabilities : NodeCapabilities;
  last_seen : Z;
  last_seq : Z;
  connected_at : Z;
  message_count : Z
}.

(** The three callbacks are external; the fields say whether they are set. *)
Record LiteMeshTransport := {
  config : LiteTransportConfig;
  peers : gmap bytes LitePeerState;
  socket : bool;
  running : bool;
  local_node_id : Z;
  crdt_callback : bool;
  query_callback : bool;
  ota_callback : bool
}.

(** Calls of the callbacks. *)
Inductive Call :=
| CrdtCall (collection doc_id : bytes) (t : CrdtType) (data : bytes)
| QueryCall (request : QueryRequest)
| OtaCall (peer : bytes) (t : MessageType) (data : bytes).

(** The order in which the table is iterated. *)
Class PeerOrder := {
  peer_iter : gmap bytes LitePeerState → list (bytes * LitePeerState);
  peer_iter_perm m : peer_iter m ≡ₚ map_to_list m
}.

Definition new (c : LiteTransportConfig) (local : Z) : LiteMeshTransport := {|
  config := c; peers := ∅; socket := false; running := false; local_node_id := local;
  crdt_callback := false; query_callback := false; ota_callback := false
|}.

Definition set_peers (t : LiteMeshTransport) (m : gmap bytes LitePeerState) := {|
  config := config t; peers := m; socket := socket t; running := running t;
  local_node_id := local_node_id t; crdt_callback := crdt_callback t;
  query_callback := query_callback t; ota_callback := ota_callback t
|}.

(** [format!("lite-{:08X}", id)] *)
Definition node_name (id : Z) : bytes := str "lite-" ++ hex8 id.

(** [Instant::elapsed] *)
Definition elapsed (now t : Z) : Z := saturating_sub now t.

(** What [handle_message] does to the table; [true] for a new peer. *)
Definition touch_peer (p : profile) (t : LiteMeshTransport) (msg : LiteMessage) (src : Addr)
    (now : Z) : decoded (bool * LiteMeshTransport) :=
  let id := node_name (node_id msg) in
  let announced := mt_eqb (msg_type msg) mt_Announce && negb (bool_decide (payload msg = [])) in
  match peers t !! id with
  | Some st =>
      count ← checked p 64 (message_count st + 1);
      caps ← (if announced then caps_from_bytes (payload msg) else Ok (capabilities st));
      Ok (false, set_peers t (<[id := {|
        node_id_raw := node_id_raw st; address := src; capabilities := caps;
        last_seen := now; last_seq := seq_num msg; connected_at := connected_at st;
        message_count := count |}]> (peers t)))
  | None =>
      caps ← (if announced then caps_from_bytes (payload msg) else Ok caps_default);
      Ok (true, set_peers t (<[id := {|
        node_id_raw := node_id msg; address := src; capabilities := caps;
        last_seen := now; last_seq := seq_num msg; connected_at := now;
        message_count := 1 |}]> (peers t)))
  end.

(** [handle_message]: the new state, the events and the callback calls. *)
Definition handle_message (p : profile) (t : LiteMeshTransport) (msg : LiteMessage)
    (src : Addr) (now : Z) : decoded (LiteMeshTransport * list PeerEvent * list Call) :=
  if decide (node_id msg = local_node_id t) then Ok (t, [], []) else
  let id := node_name (node_id msg) in
  r ← touch_peer p t msg src now;
  let '(is_new_peer, t) := r in
  let connected := if is_new_peer : bool then [Connected id now] else [] in
  let has ty := mt_eqb (msg_type msg) ty in
  if has mt_Data then
    match payload msg with
    | [] => Ok (t, connected, [])
    | b :: crdt_data =>
        match crdt_from_u8 b with
        | Some ty =>
            Ok (t, connected,
                if crdt_callback t then [CrdtCall (str "lite_sensors") id ty crdt_data] else [])
        | None => Ok (t, connected, [])
        end
    end
  else if has mt_Leave then
    match peers t !! id with
    | Some st =>
        Ok (set_peers t (delete id (peers t)),
            connected ++ [Disconnected id RemoteClosed (elapsed now (connected_at st))], [])
    | None => Ok (t, connected, [])
    end
  else if has mt_Query then
    match query_decode (payload msg) with
    | Ok q => Ok (t, connected, if query_callback t then [QueryCall q] else [])
    | Err _ => Ok (t, connected, [])
    | Panic => Panic
    end
  else if has mt_OtaAccept || has mt_OtaAck || has mt_OtaResult || has mt_OtaAbort then
    Ok (t, connected, if ota_callback t then [OtaCall id (msg_type msg) (payload msg)] else [])
  else Ok (t, connected, []).

(** [check_stale_peers] at time [now]. *)
Definition is_stale (t : LiteMeshTransport) (now : Z) (st : LitePeerState) : bool :=
  bool_decide (elapsed now (last_seen st) > from_secs (peer_timeout_secs (config t)))%Z.

Definition check_stale_peers `{!PeerOrder} (t : LiteMeshTransport) (now : Z)
    : LiteMeshTransport * list PeerEvent :=
  let stale := filter (λ e, is_stale t now e.2 = true) (peer_iter (peers t)) in
  (set_peers t (foldl (λ m e, delete e.1 m) (peers t) stale),
   (λ e, Disconnected e.1 Timeout (elapsed now (connected_at e.2))) <$> stale).

(** One turn of the receive loop: the datagram read, if any ([recv_from] fills a
    buffer of 512 bytes), the time [now], and the time of the last stale check.
    [None]: the loop has ended. *)
Definition receive_step `{!PeerOrder} (p : profile) (t : LiteMeshTransport) (last_check : Z)
    (recv : option (bytes * Addr)) (now : Z)
    : decoded (option (LiteMeshTransport * Z * list PeerEvent * list Call)) :=
  if negb (running t) then Ok None else
  r ← match recv with
      | None => Ok (t, [], [])
      | Some (datagram, src) =>
          match decode (take 512 datagram) with
          | Ok msg => handle_message p t msg src now
          | Err _ => Ok (t, [], [])
          | Panic => Panic
          end
      end;
  let '(t, events, calls) := r in
  if decide (elapsed now last_check > from_secs 5)%Z then
    let '(t, stale) := check_stale_peers t now in
    Ok (Some (t, now, events ++ stale, calls))
  else Ok (Some (t, last_check, events, calls)).

Fixpoint receive_loop `{!PeerOrder} (p : profile) (t : LiteMeshTransport) (last_check : Z)
    (turns : list (option (bytes * Addr) * Z))
    : decoded (LiteMeshTransport * Z * list PeerEvent) :=
  match turns with
  | [] => Ok (t, last_check, [])
  | (recv, now) :: turns =>
      r ← receive_step p t last_check recv now;
      match r with
      | None => Ok (t, last_check, [])
      | Some (t, last_check, events, _) =>
          r ← receive_loop p t last_check turns;
          Ok (r.1, events ++ r.2)
      end
  end.

(** ** The other operations of the transport *)
Definition start (t : LiteMeshTransport) : LiteMeshTransport := {|
  config := config t; peers := peers t; socket := true; running := true;
  local_node_id := local_node_id t; crdt_callback := crdt_callback t;
  query_callback := query_callback t; ota_callback := ota_callback t
|}.
Definition stop (t : LiteMeshTransport) : LiteMeshTransport := {|
  config := config t; peers := peers t; socket := false; running := false;
  local_node_id := local_node_id t; crdt_callback := crdt_callback t;
  query_callback := query_callback t; ota_callback := ota_callback t
|}.

Definition connect (t : LiteMeshTransport) (peer : bytes)
    : outcome TransportError (bytes * Z) :=
  match peers t !! peer with
  | Some st => Ok (peer, connected_at st)
  | None => Err (PeerNotFound peer)
  end.

Definition disconnect (t : LiteMeshTransport) (peer : bytes) (now : Z)
    : outcome TransportError (LiteMeshTransport * list PeerEvent) :=
  match peers t !! peer with
  | Some st =>
      Ok (set_peers t (delete peer (peers t)),
          [Disconnected peer LocalClosed (elapsed now (connected_at st))])
  | None => Err (PeerNotFound peer)
  end.

(** [send_to]: the bytes and the address handed to the socket. *)
Definition send_to (t : LiteMeshTransport) (peer : bytes) (msg : LiteMessage)
    : outcome TransportError (bytes * Addr) :=
  if negb (socket t) then Err NotStarted else
  match peers t !! peer with
  | Some st => Ok (encode msg, address st)
  | None => Err (PeerNotFound peer)
  end.

(** [LiteConnection::is_alive] of the state it shares with the table. *)
Definition is_alive (st : LitePeerState) (now : Z) : bool :=
  bool_decide (elapsed now (last_seen st) < from_secs 30)%Z.

Definition get_peer_health (t : LiteMeshTransport) (peer : bytes) (now : Z)
    : option ConnectionHealth :=
  st ← peers t !! peer;
  Some {|
    rtt_ms := 0; rtt_variance_ms := 0; packet_loss_percent := 0;
    health_state :=
      if decide (elapsed now (last_seen st) < from_secs 10)%Z then Healthy
      else if decide (elapsed now (last_seen st) < from_secs 30)%Z then Degraded
      else Dead;
    last_activity := last_seen st
  |}.

(** ** Filters of [LiteDocumentBridge] *)
Definition accepts_inbound (c : LiteTransportConfig) (collection : bytes) : bool :=
  bool_decide (inbound_collections c = [])
  || bool_decide (collection ∈ inbound_collections c).
Definition sends_outbound (c : LiteTransportConfig) (collection : bytes) : bool :=
  bool_decide (collection ∈ outbound_collections c).
End Lite.
Arguments LitePeerState {_} Addr.
Arguments LiteMeshTransport {_} Addr.
Arguments PeerOrder {_} Addr.

(** * The table and the events it reports *)
Section Table.
Context {PL : PeatLite} {Addr : Type} {PO : PeerOrder Addr}.
Implicit Types t : LiteMeshTransport Addr.

Definition present t (id : bytes) : Z := if decide (is_Some (peers t !! id)) then 1 else 0.

(** Keys are the names of the nodes they describe, never of this node. *)
Definition table_ok t : Prop :=
  ∀ id st, peers t !! id = Some st →
    id = node_name (node_id_raw st) ∧ in_u 32 (node_id_raw st)
    ∧ node_id_raw st ≠ local_node_id t.

Lemma node_name_inj x y : in_u 32 x → in_u 32 y → node_name x = node_name y → x = y.
Proof. unfold node_name. intros Hx Hy H%app_inv_head. by apply hex8_inj. Qed.

(** ** Receiving *)
Lemma caps_from_bytes_ok b : ∃ c, caps_from_bytes b = Ok c.
Proof.
  unfold caps_from_bytes. case_decide; [|eauto].
  destruct b as [|b0 [|b1 b]]; cbn in *; [lia..|eauto].
Qed.

Lemma touch_peer_inv p t msg src now fresh t' :
  touch_peer p t msg src now = Ok (fresh, t') →
  ∃ st, t' = set_peers t (<[node_name (node_id msg) := st]> (peers t))
    ∧ last_seen st = now
    ∧ match peers t !! node_name (node_id msg) with
      | Some old => fresh = false ∧ node_id_raw st = node_id_raw old
      | None => fresh = true ∧ node_id_raw st = node_id msg
      end.
Proof.
  unfold touch_peer. cbv zeta. destruct (peers t !! node_name (node_id msg)) as [old|].
  - intros H. apply bind_Ok_inv in H as (c & _ & H). apply bind_Ok_inv in H as (caps & _ & H).
    injection H as <- <-. eexists. by split_and!.
  - intros H. apply bind_Ok_inv in H as (caps & _ & H). injection H as <- <-.
    eexists. by split_and!.
Qed.

(** A message changes at most the entry of its sender: it is present afterwards, or
    has been removed by a leave message, and the events say which. *)
Lemma handle_message_inv p t msg src now t' events calls :
  handle_message p t msg src now = Ok (t', events, calls) →
  (node_id msg = local_node_id t ∧ t' = t ∧ events = [])
  ∨ (node_id msg ≠ local_node_id t ∧ ∃ st fresh,
       let id := node_name (node_id msg) in
       last_seen st = now
       ∧ match peers t !! id with
         | Some old => fresh = [] ∧ node_id_raw st = node_id_raw old
         | None => fresh = [Connected id now] ∧ node_id_raw st = node_id msg
         end
       ∧ ((t' = set_peers t (<[id := st]> (peers t)) ∧ events = fresh)
          ∨ (∃ d, t' = set_peers t (delete id (peers t))
                  ∧ events = fresh ++ [Disconnected id RemoteClosed d]))).
Proof.
  unfold handle_message. case_decide as Hl; [intros [= <- <- _]; by left|]. cbv zeta.
  intros H. right. split; [done|]. apply bind_Ok_inv in H as ([fresh t1] & Ht & H).
  apply touch_peer_inv in Ht as (st & -> & Hs & Hm).
  exists st, (if fresh then [Connected (node_name (node_id msg)) now] else []).
  split; [done|]. split; [by destruct (peers t !! _), fresh; naive_solver|].
  cbn [peers set_peers] in H. rewrite lookup_insert_eq in H.
  destruct (mt_eqb (msg_type msg) mt_Data).
  { left. by repeat case_match; simplify_eq. }
  destruct (mt_eqb (msg_type msg) mt_Leave).
  { right. injection H as <- <- _. rewrite delete_insert_eq. by eexists. }
  left. by repeat case_match; simplify_eq.
Qed.

Lemma present_insert t id st k :
  present (set_peers t (<[id := st]> (peers t))) k = if decide (k = id) then 1%Z else present t k.
Proof.
  unfold present. cbn [peers set_peers]. destruct (decide (k = id)) as [->|Hk].
  - rewrite lookup_insert_eq. by rewrite decide_True by eauto.
  - by rewrite lookup_insert_ne by auto.
Qed.
Lemma present_delete t id k :
  present (set_peers t (delete id (peers t))) k = if decide (k = id) then 0%Z else present t k.
Proof.
  unfold present. cbn [peers set_peers]. destruct (decide (k = id)) as [->|Hk].
  - rewrite lookup_delete_eq. by rewrite decide_False by (by intros []).
  - by rewrite lookup_delete_ne by auto.
Qed.

Lemma handle_message_events p t msg src now t' events calls k :
  handle_message p t msg src now = Ok (t', events, calls) →
  open_count k events = (present t' k - present t k)%Z.
Proof.
  intros [(_ & -> & ->)|(_ & st & fresh & _ & Hm & Hcase)]%handle_message_inv; [cbn; lia|].
  cbn zeta in *. generalize dependent (node_name (node_id msg)). intros id Hm Hcase.
  assert (open_count k fresh = (if decide (k = id) then 1 - present t id else 0))%Z as Hf.
  { unfold present. destruct (peers t !! id) as [old|].
    - destruct Hm as [-> _]. rewrite (decide_True (P := is_Some (Some old))) by eauto.
      case_decide; cbn; lia.
    - destruct Hm as [-> _]. rewrite (decide_False (P := is_Some None)) by (by intros []).
      cbn. repeat case_decide; subst; cbn; (lia || congruence). }
  destruct Hcase as [[-> ->]|(d & -> & ->)].
  - rewrite Hf, present_insert. case_decide; subst; lia.
  - rewrite open_count_app, Hf, present_delete. cbn.
    repeat case_decide; subst; cbn; (lia || congruence).
Qed.

Lemma handle_message_table p t msg src now t' events calls :
  in_u 32 (node_id msg) → handle_message p t msg src now = Ok (t', events, calls) →
  table_ok t → table_ok t'.
Proof.
  intros Hu [(_ & -> & _)|(Hl & st & fresh & _ & Hm & Hcase)]%handle_message_inv Ht; [done|].
  cbn zeta in Hm. destruct Hcase as [[-> _]|(d & -> & _)]; intros k s Hk; cbn [peers set_peers] in Hk.
  - apply lookup_insert_Some in Hk as [[<- <-]|[_ Hk]]; [|by apply Ht].
    destruct (peers t !! _) as [old|] eqn:Ho; destruct Hm as [_ ->]; [by apply Ht|done].
  - apply lookup_delete_Some in Hk as [_ Hk]. by apply Ht.
Qed.

(** ** The staleness check *)
Lemma foldl_delete_lookup {A} (l : list (bytes * A)) (m : gmap bytes A) k :
  foldl (λ m e, delete e.1 m) m l !! k = if decide (k ∈ l.*1) then None else m !! k.
Proof.
  revert m. induction l as [|[id st] l IH]; intros m; cbn; [by rewrite decide_False by set_solver|].
  rewrite IH. destruct (decide (k = id)) as [->|Hk].
  - rewrite (decide_True (P := id ∈ id :: l.*1)) by set_solver.
    by case_decide; [|apply lookup_delete_eq].
  - rewrite lookup_delete_ne by auto. repeat case_decide; try done; set_solver.
Qed.

Definition stale_list t now : list (bytes * LitePeerState Addr) :=
  filter (λ e, is_stale t now e.2 = true) (peer_iter (peers t)).

Lemma stale_list_elem t now id st :
  (id, st) ∈ stale_list t now ↔ peers t !! id = Some st ∧ is_stale t now st = true.
Proof.
  unfold stale_list. rewrite list_elem_of_filter, peer_iter_perm, elem_of_map_to_list. naive_solver.
Qed.
Lemma stale_list_keys t now k :
  k ∈ (stale_list t now).*1 ↔ ∃ st, peers t !! k = Some st ∧ is_stale t now st = true.
Proof.
  rewrite list_elem_of_fmap. split.
  - intros ([id st] & -> & H%stale_list_elem). eauto.
  - intros (st & H%stale_list_elem). by exists (k, st).
Qed.
Lemma stale_list_NoDup t now : NoDup (stale_list t now).*1.
Proof.
  unfold stale_list. apply (sublist_NoDup _ (peer_iter (peers t)).*1).
  - rewrite peer_iter_perm. apply NoDup_fst_map_to_list.
  - apply fmap_sublist, sublist_filter.
Qed.

Lemma timeout_events_count {A} (l : list (bytes * A)) (d : bytes * A → Z) k :
  NoDup l.*1 →
  open_count k ((λ e, Disconnected e.1 Timeout (d e)) <$> l) = if decide (k ∈ l.*1) then (-1)%Z else 0%Z.
Proof.
  induction l as [|[id st] l IH]; cbn; [by rewrite decide_False by set_solver|].
  intros [Hn Hd]%NoDup_cons. rewrite IH by done.
  destruct (decide (id = k)) as [->|Hk].
  - rewrite decide_False by done. by rewrite decide_True by set_solver.
  - repeat case_decide; try done; set_solver.
Qed.

Lemma check_stale_lookup t now k :
  peers (check_stale_peers t now).1 !! k
  = match peers t !! k with
    | Some st => if is_stale t now st then None else Some st
    | None => None
    end.
Proof.
  cbn [check_stale_peers fst peers set_peers]. rewrite foldl_delete_lookup.
  fold (stale_list t now). case_decide as Hk.
  - apply stale_list_keys in Hk as (st & -> & ->). done.
  - destruct (peers t !! k) as [st|] eqn:Hs; [|done].
    destruct (is_stale t now st) eqn:He; [|done].
    destruct Hk. apply stale_list_keys. eauto.
Qed.

Lemma check_stale_events t now k :
  open_count k (check_stale_peers t now).2
  = (present (check_stale_peers t now).1 k - present t k)%Z.
Proof.
  unfold present. rewrite check_stale_lookup. cbn [check_stale_peers snd].
  fold (stale_list t now).
  rewrite (timeout_events_count _ (λ e, elapsed now (connected_at e.2)))
    by apply stale_list_NoDup.
  case_decide as Hk.
  - apply stale_list_keys in Hk as (st & -> & ->).
    rewrite decide_False by (by intros []). by rewrite decide_True by eauto.
  - destruct (peers t !! k) as [st|] eqn:Hs; [|by rewrite decide_False by (by intros [])].
    destruct (is_stale t now st) eqn:He; [|lia].
    destruct Hk. apply stale_list_keys. eauto.
Qed.

Lemma check_stale_table t now : table_ok t → table_ok (check_stale_peers t now).1.
Proof.
  intros Ht k st. rewrite check_stale_lookup. destruct (peers t !! k) as [s|] eqn:Hs; [|done].
  case_match; [done|]. intros [= <-]. by apply Ht.
Qed.

(** ** Turns of the receive loop *)

(** A turn receives nothing of interest or handles one message, then checks for
    stale peers when the last check is more than five seconds ago. *)
Lemma receive_step_inv p t c recv now t' c' events calls :
  receive_step p t c recv now = Ok (Some (t', c', events, calls)) →
  ∃ t1 ev1,
    ((t1 = t ∧ ev1 = [])
     ∨ ∃ datagram src msg, recv = Some (datagram, src) ∧ decode (take 512 datagram) = Ok msg
         ∧ handle_message p t msg src now = Ok (t1, ev1, calls))
    ∧ if decide (elapsed now c > from_secs 5)%Z
      then t' = (check_stale_peers t1 now).1 ∧ c' = now
           ∧ events = ev1 ++ (check_stale_peers t1 now).2
      else t' = t1 ∧ c' = c ∧ events = ev1.
Proof.
  unfold receive_step. case_match; [discriminate|]. intros H'.
  apply bind_Ok_inv in H' as ([[t1 ev1] calls1] & Hr & H'). exists t1, ev1.
  assert (calls = calls1) as -> by (repeat case_match; by simplify_eq).
  split.
  - destruct recv as [[datagram src]|]; [|simplify_eq; by left].
    destruct (decode (take 512 datagram)) as [msg| |] eqn:Hd; [|simplify_eq; by left|done].
    right. eauto 10.
  - case_decide; by simplify_eq/=.
Qed.

Lemma receive_step_events p t c recv now t' c' events calls k :
  receive_step p t c recv now = Ok (Some (t', c', events, calls)) →
  open_count k events = (present t' k - present t k)%Z.
Proof.
  intros (t1 & ev1 & Hmsg & Hstale)%receive_step_inv.
  assert (open_count k ev1 = (present t1 k - present t k)%Z) as H1.
  { destruct Hmsg as [[-> ->]|(? & ? & ? & _ & _ & Hm)]; [cbn; lia|].
    by eapply handle_message_events. }
  case_decide; destruct Hstale as (-> & _ & ->); [|done].
  rewrite open_count_app, check_stale_events. lia.
Qed.

Lemma receive_step_table `{!PeatLiteLaws} p t c recv now t' c' events calls :
  receive_step p t c recv now = Ok (Some (t', c', events, calls)) → table_ok t → table_ok t'.
Proof.
  intros (t1 & ev1 & Hmsg & Hstale)%receive_step_inv Ht.
  assert (table_ok t1) as Ht1.
  { destruct Hmsg as [[-> ->]|(? & ? & ? & _ & Hd & Hm)]; [done|].
    apply frame_encode_decode in Hd as [Hwf _].
    eapply handle_message_table; [apply Hwf|done..]. }
  case_decide; destruct Hstale as (-> & _); [by apply check_stale_table|done].
Qed.

(** The states of the transport, the time of the last check and the event log. *)
Inductive reaches (p : profile) : LiteMeshTransport Addr → Z → list PeerEvent → Prop :=
| reach_new c local now : reaches p (new c local) now []
| reach_start t c log now : reaches p t c log → reaches p (start t) now log
| reach_stop t c log : reaches p t c log → reaches p (stop t) c log
| reach_turn t c log recv now t' c' events calls :
    reaches p t c log →
    receive_step p t c recv now = Ok (Some (t', c', events, calls)) →
    reaches p t' c' (log ++ events)
| reach_disconnect t c log peer now t' events :
    reaches p t c log → disconnect t peer now = Ok (t', events) →
    reaches p t' c (log ++ events).

Lemma disconnect_inv t peer now t' events :
  disconnect t peer now = Ok (t', events) →
  is_Some (peers t !! peer) ∧ t' = set_peers t (delete peer (peers t))
  ∧ ∃ d, events = [Disconnected peer LocalClosed d].
Proof.
  unfold disconnect. destruct (peers t !! peer); [|done]. intros [= <- <-]. eauto.
Qed.

(** Peer table: whatever sequence of datagrams, staleness checks, disconnects,
    starts and stops, the reported events match the table: each peer in the table
    has been reported connected exactly once more than disconnected, every other
    one equally often; and each entry is filed under the name of its node, which is
    never this node. *)
Theorem events_match_table `{!PeatLiteLaws} p t c log :
  reaches p t c log →
  table_ok t
  ∧ ∀ id, open_count id log = if decide (is_Some (peers t !! id)) then 1%Z else 0%Z.
Proof.
  intros Hreach. cut (table_ok t ∧ ∀ id, open_count id log = present t id); [done|].
  induction Hreach as [cfg local now|t c log now H' [Ht IH]|t c log H' [Ht IH]
    |t c log recv now t' c' events calls H' [Ht IH] Hs
    |t c log peer now t' events H' [Ht IH] Hd].
  - split; [|done]. intros id st. cbn. by rewrite lookup_empty.
  - by split.
  - by split.
  - split; [by eapply receive_step_table|]. intros id.
    rewrite open_count_app, IH, (receive_step_events _ _ _ _ _ _ _ _ _ _ Hs). lia.
  - apply disconnect_inv in Hd as (Hp & -> & d & ->). split.
    + intros id st. cbn [peers set_peers]. intros [_ Hl]%lookup_delete_Some. by apply Ht.
    + intros id. rewrite open_count_app, IH, present_delete. cbn.
      unfold present. repeat case_decide; subst; (lia || done).
Qed.

(** ** Silent peers *)

(** No datagram of the turn is a message of the peer [id]. *)
Definition silent (id : bytes) (turn : option (bytes * Addr) * Z) : Prop :=
  match turn.1 with
  | Some (datagram, _) =>
      match decode (take 512 datagram) with
      | Ok msg => node_name (node_id msg) ≠ id
      | _ => True
      end
  | None => True
  end.

Lemma handle_message_other p t msg src now t' events calls id :
  handle_message p t msg src now = Ok (t', events, calls) → node_name (node_id msg) ≠ id →
  peers t' !! id = peers t !! id ∧ config t' = config t ∧ running t' = running t.
Proof.
  intros [(_ & -> & _)|(_ & st & fresh & _ & _ & Hcase)]%handle_message_inv Hne; [done|].
  destruct Hcase as [[-> _]|(d & -> & _)]; cbn [peers set_peers config running].
  - by rewrite lookup_insert_ne.
  - by rewrite lookup_delete_ne.
Qed.

Lemma receive_step_silent p t c recv now t' c' events calls id :
  receive_step p t c recv now = Ok (Some (t', c', events, calls)) → silent id (recv, now) →
  config t' = config t ∧ running t' = running t
  ∧ if decide (elapsed now c > from_secs 5)%Z
    then c' = now ∧ peers t' !! id = match peers t !! id with
                      | Some st => if is_stale t now st then None else Some st
                      | None => None
                      end
    else c' = c ∧ peers t' !! id = peers t !! id.
Proof.
  intros (t1 & ev1 & Hmsg & Hstale)%receive_step_inv Hs.
  assert (peers t1 !! id = peers t !! id ∧ config t1 = config t ∧ running t1 = running t)
    as (Hp & Hc & Hrun).
  { destruct Hmsg as [[-> _]|(dg & src & msg & -> & Hd & Hm)]; [done|].
    eapply handle_message_other; [done|]. unfold silent in Hs. cbn in Hs. by rewrite Hd in Hs. }
  case_decide; destruct Hstale as (-> & -> & _); [|done].
  rewrite check_stale_lookup, Hp. split; [done|]. split; [done|]. split; [done|].
  destruct (peers t !! id); [|done]. unfold is_stale. by rewrite Hc.
Qed.

Lemma is_stale_spec t now st :
  is_stale t now st = false ↔ (elapsed now (last_seen st) ≤ from_secs (peer_timeout_secs (config t)))%Z.
Proof. unfold is_stale. rewrite bool_decide_eq_false. lia. Qed.

Lemma receive_step_running p t c recv now t' c' events calls :
  receive_step p t c recv now = Ok (Some (t', c', events, calls)) → running t' = running t.
Proof.
  intros (t1 & ev1 & Hmsg & Hstale)%receive_step_inv.
  assert (running t1 = running t) as Hrun.
  { destruct Hmsg as [[-> _]|(? & ? & msg & _ & _ & Hm)]; [done|].
    apply handle_message_inv in Hm as [(_ & -> & _)|(_ & ? & ? & _ & _ & [[-> _]|(? & -> & _)])];
      done. }
  by case_decide; destruct Hstale as (-> & _).
Qed.

(** One turn of a running loop. *)
Lemma receive_loop_cons p t c recv now turns t' c' log :
  running t = true → receive_loop p t c ((recv, now) :: turns) = Ok (t', c', log) →
  ∃ t1 c1 ev calls log1, receive_step p t c recv now = Ok (Some (t1, c1, ev, calls))
    ∧ receive_loop p t1 c1 turns = Ok (t', c', log1) ∧ log = ev ++ log1.
Proof.
  intros Hrun H. cbn [receive_loop] in H.
  apply bind_Ok_inv in H as ([[[[t1 c1] ev] calls]|] & Hst & H).
  - apply bind_Ok_inv in H as ([[t2 c2] ev2] & Hrest & [= <- <- <-]). eauto 10.
  - exfalso. unfold receive_step in Hst. rewrite Hrun in Hst. cbn in Hst.
    apply bind_Ok_inv in Hst as ([[? ?] ?] & _ & Hst). case_decide; simplify_eq.
Qed.

(** A peer that is not in the table does not come back without a message. *)
Lemma silent_gone p id turns t c t' c' log :
  running t = true → Forall (silent id) turns →
  receive_loop p t c turns = Ok (t', c', log) → peers t !! id = None → peers t' !! id = None.
Proof.
  intros Hrun Hsil. revert t c t' c' log Hrun.
  induction Hsil as [|[recv now] turns Hs Hsil IH]; intros t c t' c' log Hrun Hloop Hp.
  { by injection Hloop as <- <- <-. }
  apply receive_loop_cons in Hloop as (t1 & c1 & ev & calls & log1 & Hst & Hrest & ->); [|done].
  pose proof (receive_step_silent _ _ _ _ _ _ _ _ _ id Hst Hs) as (_ & Hrun1 & Hcase).
  eapply IH; [by rewrite Hrun1|done|]. rewrite Hp in Hcase.
  by case_decide; destruct Hcase as [_ ->].
Qed.

(** After any number of turns of a running loop without a message of [id], the
    peer has been dropped or the last check is recent. *)
Lemma silent_loop p id st turns t c t' c' log bound :
  running t = true → Forall (silent id) turns →
  receive_loop p t c turns = Ok (t', c', log) → peers t !! id = Some st →
  (last_seen st + from_secs (peer_timeout_secs (config t)) ≤ bound)%Z → (c ≤ bound)%Z →
  peers t' !! id = None ∨
  (peers t' !! id = Some st ∧ (c' ≤ bound)%Z
   ∧ ∀ recv now, last turns = Some (recv, now) → (now ≤ c' + from_secs 5)%Z).
Proof.
  intros Hrun Hsil. revert t c t' c' log Hrun.
  induction Hsil as [|[recv now] turns Hs Hsil IH]; intros t c t' c' log Hrun Hloop Hp Hb Hc.
  { injection Hloop as <- <- <-. right. by split_and!. }
  apply receive_loop_cons in Hloop as (t1 & c1 & ev & calls & log1 & Hst & Hrest & ->); [|done].
  pose proof (receive_step_silent _ _ _ _ _ _ _ _ _ id Hst Hs) as (Hcfg & Hrun1 & Hcase).
  rewrite Hp in Hcase.
  assert ((peers t1 !! id = Some st ∧ (c1 ≤ bound)%Z ∧ (now ≤ c1 + from_secs 5)%Z)
          ∨ peers t1 !! id = None) as [(Hp1 & Hb1 & Hn)|Hgone].
  { case_decide as Hdue; destruct Hcase as [-> ->].
    - destruct (is_stale t now st) eqn:He; [by right|left]. apply is_stale_spec in He.
      unfold elapsed, saturating_sub, from_secs in *. split_and!; [done|lia|lia].
    - left. unfold elapsed, saturating_sub, from_secs in *. split_and!; [done|lia|lia]. }
  2:{ left. eapply silent_gone; [by rewrite Hrun1| |done|done]. done. }
  destruct (IH t1 c1 t' c' log1) as [|(Hp' & Hc' & Hl)]; rewrite ?Hcfg, ?Hrun1; auto.
  right. split_and!; [done|done|]. intros r n Hlast. destruct turns as [|turn turns].
  - injection Hrest as <- <- <-. by injection Hlast as <- <-.
  - by apply (Hl r n).
Qed.

Lemma receive_loop_events p t c turns t' c' events k :
  running t = true → receive_loop p t c turns = Ok (t', c', events) →
  open_count k events = (present t' k - present t k)%Z.
Proof.
  revert t c t' c' events. induction turns as [|[recv now] turns IH]; intros t c t' c' events Hrun Hl.
  { injection Hl as <- <- <-. cbn. lia. }
  apply receive_loop_cons in Hl as (t1 & c1 & ev & calls & log1 & Hst & Hrest & ->); [|done].
  assert (running t1 = true) as Hrun1 by (by rewrite (receive_step_running _ _ _ _ _ _ _ _ _ Hst)).
  rewrite open_count_app, (IH _ _ _ _ _ Hrun1 Hrest), (receive_step_events _ _ _ _ _ _ _ _ _ _ Hst).
  lia.
Qed.

(** C12.  Liveness of the staleness check: when the receive loop runs and no message
    of a peer arrives, then at the end of any turn that comes more than five
    seconds after both the peer's timeout and the last check, the peer is no longer
    in the table, and its disconnection has been reported; however often the loop
    has turned in between. *)
Theorem silent_peer_removed p id st turns t c t' c' events recv now :
  running t = true → peers t !! id = Some st →
  Forall (silent id) turns → last turns = Some (recv, now) →
  receive_loop p t c turns = Ok (t', c', events) →
  (now > Z.max c (last_seen st + from_secs (peer_timeout_secs (config t))) + from_secs 5)%Z →
  peers t' !! id = None ∧ ∃ reason d, Disconnected id reason d ∈ events.
Proof.
  intros Hrun Hp Hsil Hlast Hloop Hnow.
  destruct (silent_loop p id st turns t c t' c' events
    (Z.max c (last_seen st + from_secs (peer_timeout_secs (config t)))))
    as [Hgone|(_ & Hc' & Hl)]; [done|done|done|done|lia|lia| |].
  2:{ specialize (Hl _ _ Hlast). lia. }
  split; [done|]. apply open_count_neg.
  rewrite (receive_loop_events _ _ _ _ _ _ _ id Hrun Hloop). unfold present.
  rewrite Hgone, Hp. rewrite decide_False by (by intros []). by rewrite decide_True by eauto.
Qed.
End Table.

(** * Witnesses *)
#[local] Existing Instance toy_peat_lite.
#[local] Instance toy_peer_order : PeerOrder nat := {
  peer_iter m := map_to_list m;
  peer_iter_perm m := reflexivity _
}.

Definition ex_heartbeat : LiteMessage :=
  {| msg_type := mt_Heartbeat; flags := 0; node_id := 7; seq_num := 1; payload := [] |}.
Definition ex_started : LiteMeshTransport nat := start (new default_config 1).
Definition ex_turn (recv : option (bytes * nat)) (now : Z) (t : LiteMeshTransport nat) (c : Z) :=
  match receive_step Release t c recv now with
  | Ok (Some (t', c', events, _)) => (t', c', events)
  | _ => (t, c, [])
  end.
Definition ex_joined := ex_turn (Some (encode ex_heartbeat, 3)) (from_secs 2) ex_started 0.

Lemma events_match_table_witness :
  table_ok ex_joined.1.1
  ∧ open_count (str "lite-00000007") [Connected (str "lite-00000007") (from_secs 2)] = 1%Z.
Proof.
  destruct (events_match_table (H := toy_peat_lite_laws) Release ex_joined.1.1 0
    ([] ++ [Connected (str "lite-00000007") (from_secs 2)])) as [Ht Hc].
  - apply (reach_turn Release ex_started 0 [] (Some (encode ex_heartbeat, 3)) (from_secs 2)
      ex_joined.1.1 0 [Connected (str "lite-00000007") (from_secs 2)] []); [|vm_eq].
    apply (reach_start Release (new default_config 1) 0 []), reach_new.
  - split; [exact Ht|]. exact (Hc (str "lite-00000007")).
Defined.

Definition ex_late := ex_turn None (from_secs 100) ex_joined.1.1 0.
Lemma silent_peer_removed_witness :
  peers ex_late.1.1 !! str "lite-00000007" = None.
Proof.
  destruct (silent_peer_removed Release (str "lite-00000007")
    {| node_id_raw := 7; address := 3; capabilities := caps_default; last_seen := from_secs 2;
       last_seq := 1; connected_at := from_secs 2; message_count := 1 |}
    [(None, from_secs 100)] ex_joined.1.1 0 ex_late.1.1 (from_secs 100) ex_late.2
    None (from_secs 100)) as [Hgone _]; [vm_eq|vm_eq|by repeat constructor|done|vm_eq| |].
  - by vm_compute.
  - exact Hgone.
Defined.
