(* ===== verification/LiteOta.v ===== *)
(** Firmware updates of Peat-Lite nodes ([src/transport/lite_ota.rs]): the firmware
    image and its chunks, and the stop-and-wait sender with one session per peer.
    Messages go out through the Lite transport, whose peer table decides whether a
    send succeeds; the clock is an argument. *)
From Stdlib Require Import ZArith Lia Strings.Byte Strings.String.
From stdpp Require Import prelude gmap.
From S2P Require Import Prelude Wire Crypto Device Transport LiteWire LiteTransport.

Set Default Proof Using "Type".

Definition CHUNK_TIMEOUT : Z := from_millis 500.
Definition MAX_RETRIES_PER_CHUNK : Z := 5.
Definition SESSION_TIMEOUT : Z := from_secs 300.

(** * [FirmwareImage] *)
Record FirmwareImage := {
  fw_data : bytes;
  fw_sha256 : bytes;
  fw_version : bytes;
  total_chunks : Z;
  chunk_size : Z;
  fw_signature : option bytes
}.

Inductive OtaSenderState :=
| Offered (sent_at retries : Z)
| Transferring (current_chunk last_sent_at retries : Z)
| WaitingResult (sent_at retries : Z)
| Complete
| Failed (reason : string).

Record OtaSession := {
  session_id : Z;
  peer_id : bytes;
  firmware : FirmwareImage;
  state : OtaSenderState;
  started_at : Z;
  chunks_acked : Z
}.

Record OtaSender `{!Ed25519} := {
  sessions : gmap bytes OtaSession;
  next_session_id : Z;
  signing_keypair : option DeviceKeypair
}.

Record OtaStatusInfo := {
  status_session_id : Z;
  status_state : string;
  status_progress : Z;
  chunks_sent : Z;
  status_total_chunks : Z;
  elapsed_secs : Z
}.

Inductive TickAction :=
| RetransmitOffer (session_id new_retries : Z)
| RetransmitChunk (chunk : Z)
| RetransmitComplete
| Abort (session_id : Z).

Section Ota.
Context {Ed : Ed25519} {Sha : Sha256} {PL : PeatLite} {Addr : Type}.

Definition ceil_div (a b : nat) : nat := (a + (b - 1)) / b.

Definition firmware_new (data version : bytes) : decoded FirmwareImage :=
  digest ← array 32 (sha256 data);
  let copy_len := Nat.min (length version) 15 in
  Ok {|
    fw_data := data;
    fw_sha256 := digest;
    fw_version := take copy_len version ++ replicate (16 - copy_len) Byte.x00;
    total_chunks := wrap 16 (Z.of_nat (ceil_div (length data) OTA_CHUNK_DATA_SIZE));
    chunk_size := wrap 16 (Z.of_nat OTA_CHUNK_DATA_SIZE);
    fw_signature := None
  |}.

Definition firmware_sign (f : FirmwareImage) (k : DeviceKeypair) : FirmwareImage := {|
  fw_data := fw_data f; fw_sha256 := fw_sha256 f; fw_version := fw_version f;
  total_chunks := total_chunks f; chunk_size := chunk_size f;
  fw_signature := Some (sign k (fw_sha256 f))
|}.

Definition chunk (f : FirmwareImage) (chunk_num : Z) : decoded bytes :=
  let start := Z.to_nat (chunk_num * chunk_size f) in
  bail! decide (length (fw_data f) ≤ start) with tt;
  let end_ := Nat.min (start + Z.to_nat (chunk_size f)) (length (fw_data f)) in
  slice (fw_data f) start end_.

(** * Sessions *)
Definition progress_percent (s : OtaSession) : Z :=
  if decide (total_chunks (firmware s) = 0%Z) then 0
  else wrap 8 (chunks_acked s * 100 / total_chunks (firmware s)).

Definition is_timed_out (s : OtaSession) (now : Z) : bool :=
  bool_decide (elapsed now (started_at s) > SESSION_TIMEOUT)%Z.

Definition set_state (s : OtaSession) (st : OtaSenderState) : OtaSession := {|
  session_id := session_id s; peer_id := peer_id s; firmware := firmware s; state := st;
  started_at := started_at s; chunks_acked := chunks_acked s
|}.
Definition set_acked (s : OtaSession) (n : Z) : OtaSession := {|
  session_id := session_id s; peer_id := peer_id s; firmware := firmware s; state := state s;
  started_at := started_at s; chunks_acked := n
|}.
Definition put (o : OtaSender) (peer : bytes) (s : OtaSession) : OtaSender := {|
  sessions := <[peer := s]> (sessions o);
  next_session_id := next_session_id o; signing_keypair := signing_keypair o
|}.

(** Messages handed to the transport, with the peer they are for. *)
Abbreviation sends := (list (bytes * LiteMessage)).

Definition new (k : option DeviceKeypair) : OtaSender :=
  {| sessions := ∅; next_session_id := 1; signing_keypair := k |}.

Definition offer_message (local : Z) (f : FirmwareImage) (sid fl : Z) : LiteMessage :=
  ota_offer local (fw_version f) (wrap 32 (zlen (fw_data f))) (total_chunks f) (chunk_size f)
    (fw_sha256 f) sid fl (fw_signature f).

(** [socket_ok]: the UDP socket accepts the datagram. *)
Definition offer_to_peer (o : OtaSender) (t : LiteMeshTransport Addr) (peer : bytes)
    (f : FirmwareImage) (socket_ok : bool) (now : Z)
    : outcome string Z * OtaSender * sends :=
  let sid := next_session_id o in
  let id := wrap 16 (sid + 1) in
  let o := {| sessions := sessions o;
              next_session_id := if decide (id = 0%Z) then 1 else id;
              signing_keypair := signing_keypair o |} in
  let '(f, fl) := match signing_keypair o with
                  | Some k => (firmware_sign f k, OTA_FLAG_SIGNED)
                  | None => (f, 0%Z)
                  end in
  let msg := offer_message (local_node_id t) f sid fl in
  match LiteTransport.send_to t peer msg with
  | Ok _ =>
      if socket_ok then
        (Ok sid,
         put o peer {| session_id := sid; peer_id := peer; firmware := f;
                       state := Offered now 0; started_at := now; chunks_acked := 0 |},
         [(peer, msg)])
      else (Err "Failed to send OTA offer"%string, o, [(peer, msg)])
  | _ => (Err "Failed to send OTA offer"%string, o, [])
  end.

(** [send_chunk]: nothing is sent past the end of the image. *)
Definition send_chunk (o : OtaSender) (local : Z) (peer : bytes) (chunk_num : Z)
    : decoded sends :=
  match sessions o !! peer with
  | Some s =>
      match chunk (firmware s) chunk_num with
      | Ok d => Ok [(peer, ota_data local (session_id s) chunk_num d)]
      | Err _ => Ok []
      | Panic => Panic
      end
  | None => Ok []
  end.

Definition send_complete (o : OtaSender) (local : Z) (peer : bytes) : sends :=
  match sessions o !! peer with
  | Some s => [(peer, ota_complete local (session_id s))]
  | None => []
  end.

(** [u16::from_le_bytes(payload[a..a + 2].try_into().unwrap())] *)
Definition payload_u16 (payload : bytes) (a : nat) : decoded Z :=
  s ← slice payload a (a + 2);
  s ← array 2 s;
  Ok (from_le s).

(** ** Messages from the peer *)
Definition handle_accept (o : OtaSender) (local : Z) (peer payload : bytes) (now : Z)
    : decoded (OtaSender * sends) :=
  if decide (length payload < 4) then Ok (o, []) else
  sid ← payload_u16 payload 0;
  resume_chunk ← payload_u16 payload 2;
  match sessions o !! peer with
  | Some s =>
      if decide (session_id s ≠ sid) then Ok (o, []) else
      let s := set_state (set_acked s resume_chunk) (Transferring resume_chunk now 0) in
      let o := put o peer s in
      out ← send_chunk o local peer resume_chunk;
      Ok (o, out)
  | None => Ok (o, [])
  end.

Definition handle_ack (p : profile) (o : OtaSender) (local : Z) (peer payload : bytes) (now : Z)
    : decoded (OtaSender * sends) :=
  if decide (length payload < 4) then Ok (o, []) else
  sid ← payload_u16 payload 0;
  acked_chunk ← payload_u16 payload 2;
  match sessions o !! peer with
  | Some s =>
      if decide (session_id s ≠ sid) then Ok (o, []) else
      next ← checked p 16 (acked_chunk + 1);
      let s := set_acked s next in
      if decide (total_chunks (firmware s) ≤ next)%Z then
        let o := put o peer (set_state s (WaitingResult now 0)) in
        Ok (o, send_complete o local peer)
      else
        let o := put o peer (set_state s (Transferring next now 0)) in
        out ← send_chunk o local peer next;
        Ok (o, out)
  | None => Ok (o, [])
  end.

Definition result_reason (code : byte) : string :=
  match u8 code with
  | 1%Z => "hash mismatch"
  | 2%Z => "flash error"
  | 3%Z => "invalid offer"
  | 4%Z => "signature invalid"
  | 5%Z => "signature required"
  | _ => "unknown"
  end.

Definition handle_result (o : OtaSender) (peer payload : bytes) : decoded OtaSender :=
  if decide (length payload < 3) then Ok o else
  sid ← payload_u16 payload 0;
  code ← index payload 2;
  match sessions o !! peer with
  | Some s =>
      if decide (session_id s ≠ sid) then Ok o else
      Ok (put o peer (set_state s
            (if decide (code = OTA_RESULT_SUCCESS) then Complete
             else Failed (result_reason code))))
  | None => Ok o
  end.

Definition handle_abort (o : OtaSender) (peer payload : bytes) : decoded OtaSender :=
  if decide (length payload < 3) then Ok o else
  sid ← payload_u16 payload 0;
  _ ← index payload 2;
  match sessions o !! peer with
  | Some s =>
      if decide (session_id s = sid) then Ok (put o peer (set_state s (Failed "peer aborted")))
      else Ok o
  | None => Ok o
  end.

(** ** Timeouts: the decision under the first lock, then the action *)
Definition tick_decide (o : OtaSender) (peer : bytes) (now : Z)
    : OtaSender * option TickAction :=
  match sessions o !! peer with
  | None => (o, None)
  | Some s =>
      if is_timed_out s now then
        (put o peer (set_state s (Failed "session timeout")), Some (Abort (session_id s)))
      else
        match state s with
        | Offered sent_at retries =>
            if decide (elapsed now sent_at > CHUNK_TIMEOUT)%Z then
              if decide (MAX_RETRIES_PER_CHUNK ≤ retries)%Z then
                (put o peer (set_state s (Failed "offer not accepted")),
                 Some (Abort (session_id s)))
              else (o, Some (RetransmitOffer (session_id s) (retries + 1)))
            else (o, None)
        | Transferring current_chunk last_sent_at retries =>
            if decide (elapsed now last_sent_at > CHUNK_TIMEOUT)%Z then
              if decide (MAX_RETRIES_PER_CHUNK ≤ retries)%Z then
                (put o peer (set_state s (Failed "chunk retry limit")),
                 Some (Abort (session_id s)))
              else
                (put o peer (set_state s (Transferring current_chunk now (retries + 1))),
                 Some (RetransmitChunk current_chunk))
            else (o, None)
        | WaitingResult sent_at retries =>
            if decide (elapsed now sent_at > CHUNK_TIMEOUT)%Z then
              if decide (MAX_RETRIES_PER_CHUNK ≤ retries)%Z then
                (put o peer (set_state s (Failed "no result received")),
                 Some (Abort (session_id s)))
              else
                (put o peer (set_state s (WaitingResult now (retries + 1))),
                 Some RetransmitComplete)
            else (o, None)
        | Complete | Failed _ => (o, None)
        end
  end.

Definition tick_act (o : OtaSender) (local : Z) (peer : bytes) (action : option TickAction)
    (now : Z) : decoded (OtaSender * sends) :=
  match action with
  | Some (RetransmitOffer sid new_retries) =>
      match sessions o !! peer with
      | Some s =>
          let fl := match fw_signature (firmware s) with
                    | Some _ => OTA_FLAG_SIGNED | None => 0%Z end in
          Ok (put o peer (set_state s (Offered now new_retries)),
              [(peer_id s, offer_message local (firmware s) sid fl)])
      | None => Ok (o, [])
      end
  | Some (RetransmitChunk n) => out ← send_chunk o local peer n; Ok (o, out)
  | Some RetransmitComplete => Ok (o, send_complete o local peer)
  | Some (Abort sid) => Ok (o, [(peer, ota_abort local sid OTA_ABORT_TOO_MANY_RETRIES)])
  | None => Ok (o, [])
  end.

Definition tick_peer (o : OtaSender) (local : Z) (peer : bytes) (now : Z)
    : decoded (OtaSender * sends) :=
  let '(o, action) := tick_decide o peer now in
  tick_act o local peer action now.

(** [tick]: [order] is the list of the session keys in the map's order. *)
Fixpoint tick (o : OtaSender) (local : Z) (order : list bytes) (now : Z)
    : decoded (OtaSender * sends) :=
  match order with
  | [] => Ok (o, [])
  | peer :: order =>
      r ← tick_peer o local peer now;
      r' ← tick r.1 local order now;
      Ok (r'.1, r.2 ++ r'.2)
  end.

Definition get_status (o : OtaSender) (peer : bytes) (now : Z) : option OtaStatusInfo :=
  s ← sessions o !! peer;
  Some {|
    status_session_id := session_id s;
    status_state := match state s with
                    | Offered _ _ => "offered"
                    | Transferring _ _ _ => "transferring"
                    | WaitingResult _ _ => "waiting_result"
                    | Complete => "complete"
                    | Failed reason => String.append "failed: " reason
                    end;
    status_progress := progress_percent s;
    chunks_sent := chunks_acked s;
    status_total_chunks := total_chunks (firmware s);
    elapsed_secs := elapsed now (started_at s) / from_secs 1
  |}.
End Ota.

(** * Chunks *)
Lemma mapM_Ok {A B E} (f : A → outcome E B) (g : A → B) l :
  (∀ x, x ∈ l → f x = Ok (g x)) → mapM f l = Ok (g <$> l).
Proof.
  induction l as [|x l IH]; intros H; [done|]. cbn [mapM]. rewrite H by set_solver. cbn.
  rewrite IH by set_solver. done.
Qed.

Lemma ceil_div_spec a b i : 0 < b → i < ceil_div a b ↔ i * b < a.
Proof.
  intros Hb. unfold ceil_div.
  pose proof (Nat.div_mod (a + (b - 1)) b ltac:(lia)) as Hq.
  pose proof (Nat.mod_upper_bound (a + (b - 1)) b ltac:(lia)).
  generalize dependent ((a + (b - 1)) / b). intros q Hq. split; nia.
Qed.

Lemma join_chunks (c n : nat) (d : bytes) :
  mjoin ((λ i, take c (drop (i * c) d)) <$> seq 0 n) = take (n * c) d.
Proof.
  induction n as [|n IH]; [done|]. rewrite seq_S, fmap_app, join_app, IH. cbn.
  rewrite app_nil_r, take_take_drop. f_equal. lia.
Qed.

Lemma imap_fmap_seq {A B} (f : nat → A) (g : nat → A → B) n :
  imap g (f <$> seq 0 n) = (λ j, g j (f j)) <$> seq 0 n.
Proof.
  apply list_eq. intros i. rewrite list_lookup_imap, !list_lookup_fmap.
  destruct (seq 0 n !! i) as [j|] eqn:Hj; [|done]. by apply lookup_seq in Hj as [-> _].
Qed.

Section Chunks.
Context {Ed : Ed25519} {Sha : Sha256} {PL : PeatLite} {PLL : PeatLiteLaws}.

Record image_wf (f : FirmwareImage) : Prop := {
  iwf_size : chunk_size f = Z.of_nat OTA_CHUNK_DATA_SIZE;
  iwf_total : total_chunks f
    = wrap 16 (Z.of_nat (ceil_div (length (fw_data f)) OTA_CHUNK_DATA_SIZE))
}.

Lemma firmware_new_wf data version f :
  firmware_new data version = Ok f → image_wf f ∧ fw_data f = data.
Proof using PLL.
  unfold firmware_new. intros H. apply bind_Ok_inv in H as (d & _ & [= <-]).
  pose proof OTA_CHUNK_DATA_SIZE_range. split; [|done]. split; cbn; [|done].
  unfold wrap. rewrite Z.mod_small; [done|]. lia.
Qed.
Lemma firmware_sign_wf f k : image_wf f → image_wf (firmware_sign f k).
Proof. by intros []. Qed.

Lemma chunk_spec f i :
  image_wf f →
  chunk f (Z.of_nat i) =
  let start := i * OTA_CHUNK_DATA_SIZE in
  if decide (length (fw_data f) ≤ start) then None_
  else Ok (take OTA_CHUNK_DATA_SIZE (drop start (fw_data f))).
Proof.
  intros [Hs _]. unfold chunk. rewrite Hs, <- Nat2Z.inj_mul, !Nat2Z.id. cbv zeta.
  case_decide as Hd; [done|]. rewrite slice_in by lia. f_equal.
  rewrite <- (take_ge (drop (i * _) _) (length (fw_data f) - i * OTA_CHUNK_DATA_SIZE)) at 2
    by (rewrite length_drop; lia).
  rewrite take_take. f_equal. lia.
Qed.

Lemma chunk_no_panic f n : no_panic (chunk f n).
Proof. unfold chunk. cbv zeta. case_decide; [done|]. apply no_panic_slice; lia. Qed.

(** Every chunk below the count exists, none above. *)
Lemma chunk_count f i :
  image_wf f →
  is_ok (chunk f (Z.of_nat i)) = true
  ↔ i < ceil_div (length (fw_data f)) OTA_CHUNK_DATA_SIZE.
Proof using PLL.
  intros Hf. rewrite ceil_div_spec by (pose proof OTA_CHUNK_DATA_SIZE_range; lia).
  rewrite chunk_spec by done. cbv zeta. case_decide; cbn; [|split; [lia|done]].
  split; [done|lia].
Qed.

Lemma chunks_of_image f :
  image_wf f →
  let n := ceil_div (length (fw_data f)) OTA_CHUNK_DATA_SIZE in
  mapM (λ i, chunk f (Z.of_nat i)) (seq 0 n)
  = Ok ((λ i, take OTA_CHUNK_DATA_SIZE (drop (i * OTA_CHUNK_DATA_SIZE) (fw_data f))) <$> seq 0 n)
  ∧ mjoin ((λ i, take OTA_CHUNK_DATA_SIZE (drop (i * OTA_CHUNK_DATA_SIZE) (fw_data f)))
           <$> seq 0 n) = fw_data f.
Proof using PLL.
  intros Hf n. pose proof OTA_CHUNK_DATA_SIZE_range. split.
  - apply mapM_Ok. intros i [_ Hi]%elem_of_seq. rewrite chunk_spec by done. cbv zeta.
    rewrite decide_False; [done|]. apply ceil_div_spec in Hi; lia.
  - rewrite join_chunks. apply take_ge.
    assert (¬ n < ceil_div (length (fw_data f)) OTA_CHUNK_DATA_SIZE) as Hn by lia.
    rewrite ceil_div_spec in Hn by lia. lia.
Qed.

(** Chunking: for an image that needs fewer than 65536 chunks the chunk count of
    the offer is the number of chunks the image has, and these, in order, are the
    image; for a larger image the count is truncated to 16 bits, so that chunks
    past the announced count exist. *)
Theorem firmware_chunks data version f :
  firmware_new data version = Ok f →
  let n := ceil_div (length data) OTA_CHUNK_DATA_SIZE in
  (∀ i, is_ok (chunk f (Z.of_nat i)) = true ↔ i < n)
  ∧ (∃ chunks, mapM (λ i, chunk f (Z.of_nat i)) (seq 0 n) = Ok chunks ∧ mjoin chunks = data)
  ∧ ((Z.of_nat n < 65536)%Z → total_chunks f = Z.of_nat n)
  ∧ ((65536 ≤ Z.of_nat n)%Z → (total_chunks f < Z.of_nat n)%Z).
Proof using PLL.
  intros [Hf <-]%firmware_new_wf n. destruct (chunks_of_image f Hf) as [Hm Hj].
  split_and!.
  - intros i. by apply chunk_count.
  - eauto.
  - intros Hn. rewrite (iwf_total f Hf). apply Z.mod_small. lia.
  - intros Hn. rewrite (iwf_total f Hf). fold n. unfold wrap.
    pose proof (Z.mod_pos_bound (Z.of_nat n) (2 ^ 16) ltac:(lia)). lia.
Qed.
End Chunks.

(** * Sessions under ticks *)
Section Ticks.
Context {Ed : Ed25519} {Sha : Sha256} {PL : PeatLite}.

Abbreviation sends := (list (bytes * LiteMessage)).

(** What a tick does to one session. *)
Definition session_tick (s : OtaSession) (now : Z) : OtaSession :=
  let retry (sent_at retries : Z) (reason : string) (again : OtaSenderState) :=
    if decide (elapsed now sent_at > CHUNK_TIMEOUT)%Z then
      if decide (MAX_RETRIES_PER_CHUNK ≤ retries)%Z then set_state s (Failed reason)
      else set_state s again
    else s in
  if is_timed_out s now then set_state s (Failed "session timeout") else
  match state s with
  | Offered t r => retry t r "offer not accepted"%string (Offered now (r + 1))
  | Transferring c t r => retry t r "chunk retry limit"%string (Transferring c now (r + 1))
  | WaitingResult t r => retry t r "no result received"%string (WaitingResult now (r + 1))
  | Complete | Failed _ => s
  end.

Lemma put_sessions (o : OtaSender) peer s : sessions (put o peer s) = <[peer := s]> (sessions o).
Proof. done. Qed.

Lemma send_chunk_total (o : OtaSender) local peer n : ∃ out, send_chunk o local peer n = Ok out.
Proof.
  unfold send_chunk. destruct (sessions o !! peer) as [s|]; [|eauto].
  pose proof (chunk_no_panic (firmware s) n). destruct (chunk _ _); [eauto..|done].
Qed.

Lemma tick_peer_spec (o : OtaSender) local peer now :
  ∃ o' out, tick_peer o local peer now = Ok (o', out)
    ∧ sessions o' = match sessions o !! peer with
                    | Some s => <[peer := session_tick s now]> (sessions o)
                    | None => sessions o
                    end.
Proof.
  unfold tick_peer, tick_decide. destruct (sessions o !! peer) as [s|] eqn:Hs; [|eauto].
  assert (sessions o = <[peer := s]> (sessions o)) as Hid by (by rewrite insert_id).
  unfold session_tick. destruct (is_timed_out s now); [cbn; eauto|].
  destruct (state s) as [t r|c t r|t r| |]; repeat case_decide; cbn [tick_act]; rewrite ?Hs;
    try match goal with |- context [send_chunk ?o' local peer c] =>
      destruct (send_chunk_total o' local peer c) as [out ->] end;
    eexists _, _; (split; [done|]); (done || exact Hid).
Qed.

Lemma tick_spec (o : OtaSender) local order now :
  NoDup order →
  ∃ o' out, tick o local order now = Ok (o', out)
    ∧ ∀ peer, sessions o' !! peer =
        (if decide (peer ∈ order) then (λ s, session_tick s now) <$> sessions o !! peer
         else sessions o !! peer).
Proof.
  revert o. induction order as [|q order IH]; intros o Hnd.
  { exists o, []. split; [done|]. intros peer. by rewrite decide_False by set_solver. }
  apply NoDup_cons in Hnd as [Hq Hnd]. cbn [tick].
  destruct (tick_peer_spec o local q now) as (o1 & out1 & -> & H1). cbn [mbind outcome_bind fst snd].
  destruct (IH o1 Hnd) as (o2 & out2 & -> & H2). cbn [mbind outcome_bind fst snd].
  eexists _, _. split; [done|]. intros peer. rewrite H2, H1.
  destruct (decide (peer = q)) as [->|Hne].
  - rewrite (decide_False (P := q ∈ order)) by done. rewrite decide_True by set_solver.
    destruct (sessions o !! q) as [s|] eqn:Hs; [by rewrite lookup_insert_eq|by rewrite Hs].
  - assert (match sessions o !! q with
            | Some s => <[q := session_tick s now]> (sessions o) | None => sessions o
            end !! peer = sessions o !! peer) as ->.
    { destruct (sessions o !! q); [by rewrite lookup_insert_ne|done]. }
    destruct (decide (peer ∈ order)).
    + by rewrite decide_True by set_solver.
    + by rewrite decide_False by set_solver.
Qed.

(** ** Silent peers *)

(** A session that waits: the time of the last transmission and the retries. *)
Definition waiting (st : OtaSenderState) : option (Z * Z) :=
  match st with
  | Offered t r | Transferring _ t r | WaitingResult t r => Some (t, r)
  | Complete | Failed _ => None
  end.
Definition failed (s : OtaSession) : Prop := ∃ reason, state s = Failed reason.

(** A run of ticks; the order of the sessions may differ each time. *)
Fixpoint run_ticks (o : OtaSender) (local : Z) (ticks : list (list bytes * Z))
    : decoded (OtaSender * sends) :=
  match ticks with
  | [] => Ok (o, [])
  | (order, now) :: ticks =>
      r ← tick o local order now;
      r' ← run_ticks r.1 local ticks;
      Ok (r'.1, r.2 ++ r'.2)
  end.

(** Consecutive ticks lie more than the chunk timeout apart. *)
Fixpoint spaced (last : Z) (times : list Z) : Prop :=
  match times with
  | [] => True
  | now :: times => (now > last + CHUNK_TIMEOUT)%Z ∧ spaced now times
  end.

Lemma session_tick_failed s now : failed s → failed (session_tick s now).
Proof.
  intros [reason Hr]. unfold failed, session_tick. rewrite Hr.
  destruct (is_timed_out s now); cbn; eauto.
Qed.

(** Each due tick fails the session or uses up one retry. *)
Lemma session_tick_due s now t r :
  waiting (state s) = Some (t, r) → (now > t + CHUNK_TIMEOUT)%Z →
  failed (session_tick s now)
  ∨ (r < MAX_RETRIES_PER_CHUNK)%Z ∧ waiting (state (session_tick s now)) = Some (now, r + 1)%Z.
Proof.
  intros Hw Ht. unfold session_tick, failed.
  assert (elapsed now t > CHUNK_TIMEOUT)%Z as He.
  { unfold elapsed, saturating_sub. lia. }
  destruct (is_timed_out s now); [left; cbn; eauto|].
  destruct (state s) as [t' r'|c t' r'|t' r'| |]; cbn in Hw; simplify_eq;
    rewrite (decide_True (P := (elapsed now t > CHUNK_TIMEOUT)%Z)) by done;
    case_decide; (left; by eexists) || (right; split; [lia|done]).
Qed.

Lemma run_ticks_session (o : OtaSender) local peer ticks s :
  sessions o !! peer = Some s → Forall (λ tk, NoDup tk.1 ∧ peer ∈ tk.1) ticks →
  ∃ o' out, run_ticks o local ticks = Ok (o', out)
    ∧ sessions o' !! peer = Some (foldl session_tick s (ticks.*2)).
Proof.
  intros Hs Hall. revert o s Hs.
  induction Hall as [|[order now] ticks [Hnd Hin] _ IH]; intros o s Hs; [eauto|].
  cbn [run_ticks]. destruct (tick_spec o local order now Hnd) as (o1 & out1 & -> & H1).
  cbn [mbind outcome_bind fst snd]. cbn in Hin.
  destruct (IH o1 (session_tick s now)) as (o2 & out2 & -> & H2).
  { rewrite H1, decide_True by done. by rewrite Hs. }
  cbn [mbind outcome_bind fst snd]. eauto.
Qed.

Lemma failed_stays s times : failed s → failed (foldl session_tick s times).
Proof. revert s. induction times; intros s Hf; cbn; [done|]. by apply IHtimes, session_tick_failed. Qed.

Lemma silent_session s times t r :
  waiting (state s) = Some (t, r) → (r ≤ MAX_RETRIES_PER_CHUNK)%Z → spaced t times →
  (MAX_RETRIES_PER_CHUNK < r + Z.of_nat (length times))%Z →
  failed (foldl session_tick s times).
Proof.
  revert s t r. induction times as [|now times IH]; intros s t r Hw Hr Hsp Hn; [cbn in Hn; lia|].
  destruct Hsp as [Ht Hsp]. rewrite length_cons in Hn.
  destruct (session_tick_due s now t r Hw Ht) as [Hf|[Hlt Hw']].
  - cbn [foldl]. by apply failed_stays.
  - cbn [foldl]. eapply IH; [done|lia|done|lia].
Qed.

(** C11.  Termination of transfers: a session that waits for its peer, whatever its
    phase, does not wait for ever.  When the peer stays silent, ticks more than the
    chunk timeout apart fail the session after at most six of them, counting the
    retries already used; no tick panics, and other sessions and the order of
    iteration do not matter. *)
Theorem silent_session_fails (o : OtaSender) local peer ticks s t r :
  sessions o !! peer = Some s → waiting (state s) = Some (t, r) →
  (r ≤ MAX_RETRIES_PER_CHUNK)%Z →
  Forall (λ tk, NoDup tk.1 ∧ peer ∈ tk.1) ticks → spaced t (ticks.*2) →
  (MAX_RETRIES_PER_CHUNK < r + Z.of_nat (length ticks))%Z →
  ∃ o' out s' reason, run_ticks o local ticks = Ok (o', out)
    ∧ sessions o' !! peer = Some s' ∧ state s' = Failed reason.
Proof.
  intros Hs Hw Hr Hall Hsp Hn.
  destruct (run_ticks_session o local peer ticks s Hs Hall) as (o' & out & Hrun & Hs').
  destruct (silent_session s (ticks.*2) t r Hw Hr Hsp) as [reason Hf].
  { rewrite length_fmap. exact Hn. }
  eauto 10.
Qed.

(** The overall timeout also hits finished sessions: five minutes after the
    offer, every tick turns a completed session into a failed one and sends the
    peer an abort message, again at each tick. *)
Theorem completed_session_fails_later (o : OtaSender) local peer s now :
  sessions o !! peer = Some s → state s = Complete →
  (now > started_at s + SESSION_TIMEOUT)%Z →
  ∃ o', tick_peer o local peer now
      = Ok (o', [(peer, ota_abort local (session_id s) OTA_ABORT_TOO_MANY_RETRIES)])
    ∧ sessions o' !! peer = Some (set_state s (Failed "session timeout"))
    ∧ ∀ later, (now ≤ later)%Z →
        ∃ o'', tick_peer o' local peer later
          = Ok (o'', [(peer, ota_abort local (session_id s) OTA_ABORT_TOO_MANY_RETRIES)]).
Proof.
  intros Hs _ Hnow.
  assert (∀ n s', (now ≤ n)%Z → started_at s' = started_at s → is_timed_out s' n = true) as Hto.
  { intros n s' Hn Hst. apply bool_decide_eq_true. unfold elapsed, saturating_sub. lia. }
  unfold tick_peer, tick_decide. rewrite Hs, Hto by (done || lia). eexists. split; [done|].
  cbn [sessions put]. rewrite lookup_insert_eq. split; [done|]. intros later Hl.
  rewrite Hto by (done || lia). by eexists.
Qed.

(** ** Acknowledgements *)
Definition ack_payload (sid n : Z) : bytes := to_le 2 sid ++ to_le 2 n.

Lemma payload_u16_first sid n rest :
  in_u 16 sid → payload_u16 (to_le 2 sid ++ to_le 2 n ++ rest) 0 = Ok sid.
Proof.
  intros Hs. unfold payload_u16.
  rewrite (cursor_slice _ 0 (to_le 2 sid) _ 2 (cursor_start _)) by apply length_to_le.
  cbn [mbind outcome_bind]. rewrite array_ok by apply length_to_le.
  cbn [mbind outcome_bind]. by rewrite (le_roundtrip 2 16).
Qed.
Lemma payload_u16_second sid n rest :
  in_u 16 n → payload_u16 (to_le 2 sid ++ to_le 2 n ++ rest) 2 = Ok n.
Proof.
  intros Hn. unfold payload_u16.
  pose proof (cursor_skip _ 0 (to_le 2 sid) _ 2 (cursor_start (to_le 2 sid ++ to_le 2 n ++ rest))
    (length_to_le _ _)) as C.
  rewrite (cursor_slice _ 2 (to_le 2 n) rest 2 C) by apply length_to_le.
  cbn [mbind outcome_bind]. rewrite array_ok by apply length_to_le.
  cbn [mbind outcome_bind]. by rewrite (le_roundtrip 2 16).
Qed.
Lemma ack_payload_read sid n :
  in_u 16 sid → in_u 16 n →
  length (ack_payload sid n) = 4 ∧ payload_u16 (ack_payload sid n) 0 = Ok sid
  ∧ payload_u16 (ack_payload sid n) 2 = Ok n.
Proof.
  intros Hs Hn. unfold ack_payload. rewrite length_app, !length_to_le.
  rewrite <- (app_nil_r (to_le 2 n)).
  by rewrite payload_u16_first, payload_u16_second by done.
Qed.

Lemma handle_ack_step p (o : OtaSender) local peer s n now :
  sessions o !! peer = Some s → in_u 16 (session_id s) → in_u 16 n →
  handle_ack p o local peer (ack_payload (session_id s) n) now =
  (next ← checked p 16 (n + 1);
   let s := set_acked s next in
   if decide (total_chunks (firmware s) ≤ next)%Z then
     let o := put o peer (set_state s (WaitingResult now 0)) in
     Ok (o, send_complete o local peer)
   else
     let o := put o peer (set_state s (Transferring next now 0)) in
     out ← send_chunk o local peer next;
     Ok (o, out)).
Proof.
  intros Hs Hsid Hn. destruct (ack_payload_read _ _ Hsid Hn) as (Hl & H0 & H2).
  unfold handle_ack. rewrite Hl, H0, H2. cbn [mbind outcome_bind].
  rewrite decide_False by lia. rewrite Hs. by rewrite decide_False by auto.
Qed.
End Ticks.

(** * A transfer with a cooperating peer *)
Section Transfer.
Context {Ed : Ed25519} {Sha : Sha256} {PL : PeatLite} {PLL : PeatLiteLaws}.
Abbreviation sends := (list (bytes * LiteMessage)).

(** The peer acknowledges the chunks [i], ..., [i + n - 1]. *)
Fixpoint ack_all (p : profile) (o : OtaSender) (local : Z) (peer : bytes) (sid : Z)
    (i n : nat) (now : Z) : decoded (OtaSender * sends) :=
  match n with
  | O => Ok (o, [])
  | S n =>
      r ← handle_ack p o local peer (ack_payload sid (Z.of_nat i)) now;
      r' ← ack_all p r.1 local peer sid (i + 1) n now;
      Ok (r'.1, r.2 ++ r'.2)
  end.

Definition chunk_bytes (f : FirmwareImage) (j : nat) : bytes :=
  take OTA_CHUNK_DATA_SIZE (drop (j * OTA_CHUNK_DATA_SIZE) (fw_data f)).
Definition data_message (local : Z) (s : OtaSession) (j : nat) : LiteMessage :=
  ota_data local (session_id s) (Z.of_nat j) (chunk_bytes (firmware s) j).

Lemma send_chunk_ok (o : OtaSender) local peer s j :
  sessions o !! peer = Some s → image_wf (firmware s) →
  j < ceil_div (length (fw_data (firmware s))) OTA_CHUNK_DATA_SIZE →
  send_chunk o local peer (Z.of_nat j) = Ok [(peer, data_message local s j)].
Proof using PLL.
  intros Hs Hf Hj. unfold send_chunk. rewrite Hs, chunk_spec by done. cbv zeta.
  rewrite decide_False; [done|]. apply ceil_div_spec in Hj; [lia|].
  pose proof OTA_CHUNK_DATA_SIZE_range. lia.
Qed.

(** A session with an image of [n] chunks, as the offer announces it. *)
Record session_wf (s : OtaSession) (n : nat) : Prop := {
  swf_image : image_wf (firmware s);
  swf_count : ceil_div (length (fw_data (firmware s))) OTA_CHUNK_DATA_SIZE = n;
  swf_small : (Z.of_nat n < 65536)%Z;
  swf_id : in_u 16 (session_id s)
}.
Lemma session_wf_total s n : session_wf s n → total_chunks (firmware s) = Z.of_nat n.
Proof.
  intros [Hf Hc Hn _]. rewrite (iwf_total _ Hf), Hc. apply Z.mod_small. lia.
Qed.

Lemma ack_all_spec p (o : OtaSender) local peer s N n i now :
  sessions o !! peer = Some s → session_wf s N → i + S n = N →
  ∃ o', ack_all p o local peer (session_id s) i (S n) now
      = Ok (o', ((λ j, (peer, data_message local s j)) <$> seq (i + 1) n)
                ++ [(peer, ota_complete local (session_id s))])
    ∧ sessions o' !! peer
      = Some (set_state (set_acked s (Z.of_nat N)) (WaitingResult now 0)).
Proof using PLL.
  revert o s i. induction n as [|n IH]; intros o s i Hs Hwf Hi;
    pose proof (session_wf_total _ _ Hwf) as Ht; pose proof (swf_small _ _ Hwf) as Hsm;
    cbn [ack_all]; rewrite handle_ack_step by (done || apply Hwf || (unfold in_u; lia));
    rewrite checked_in by (unfold in_u; lia); cbn [mbind outcome_bind]; cbv zeta;
    cbn [firmware set_acked]; rewrite Ht.
  - rewrite decide_True by lia. cbn [mbind outcome_bind fst snd seq fmap list_fmap app].
    unfold send_complete. cbn [sessions put]. rewrite lookup_insert_eq. eexists. split; [done|].
    rewrite put_sessions, lookup_insert_eq. do 3 f_equal. lia.
  - rewrite decide_False by lia. cbn [mbind outcome_bind].
    set (s1 := set_state (set_acked s (Z.of_nat i + 1)) (Transferring (Z.of_nat i + 1) now 0)).
    assert (sessions (put o peer s1) !! peer = Some s1) as Hs1 by apply lookup_insert_eq.
    assert (session_wf s1 N) as Hwf1 by (by destruct Hwf).
    replace (Z.of_nat i + 1)%Z with (Z.of_nat (i + 1)) by lia.
    rewrite (send_chunk_ok _ _ _ s1); [|done|apply Hwf|rewrite (swf_count _ _ Hwf1); lia].
    cbn [mbind outcome_bind fst snd].
    destruct (IH (put o peer s1) s1 (i + 1) Hs1 Hwf1 ltac:(lia)) as (o' & Hrun & Hs').
    change (session_id s1) with (session_id s) in Hrun.
    cbn [ack_all] in Hrun. rewrite Hrun. cbn [mbind outcome_bind fst snd].
    eexists. split; [|done]. cbn [seq fmap list_fmap app].
    by rewrite (Nat.add_1_r (i + 1)).
Qed.

Lemma handle_accept_step (o : OtaSender) local peer s n now :
  sessions o !! peer = Some s → in_u 16 (session_id s) → in_u 16 n →
  handle_accept o local peer (ack_payload (session_id s) n) now =
  (let s := set_state (set_acked s n) (Transferring n now 0) in
   let o := put o peer s in
   out ← send_chunk o local peer n;
   Ok (o, out)).
Proof.
  intros Hs Hsid Hn. destruct (ack_payload_read _ _ Hsid Hn) as (Hl & H0 & H2).
  unfold handle_accept. rewrite Hl, H0, H2. cbn [mbind outcome_bind].
  rewrite decide_False by lia. rewrite Hs. by rewrite decide_False by auto.
Qed.

(** C13.  A complete transfer: when the peer accepts the offer and acknowledges the
    chunks one by one, the sender transmits each chunk of the image exactly once, in
    order, their concatenation being the image, then the completion message; the
    peer's success result completes the session. *)
Theorem transfer_delivers p (o : OtaSender) local peer s n now :
  sessions o !! peer = Some s → session_wf s n → 0 < n →
  ∃ o1 out1 o2 out2 o3 chunks,
    handle_accept o local peer (ack_payload (session_id s) 0) now = Ok (o1, out1)
    ∧ ack_all p o1 local peer (session_id s) 0 n now = Ok (o2, out2)
    ∧ out1 ++ out2 = imap (λ j c, (peer, ota_data local (session_id s) (Z.of_nat j) c)) chunks
                     ++ [(peer, ota_complete local (session_id s))]
    ∧ mjoin chunks = fw_data (firmware s)
    ∧ handle_result o2 peer (to_le 2 (session_id s) ++ [OTA_RESULT_SUCCESS]) = Ok o3
    ∧ state <$> sessions o3 !! peer = Some Complete.
Proof using PLL.
  intros Hs Hwf Hn.
  set (s1 := set_state (set_acked s 0) (Transferring 0 now 0)).
  assert (sessions (put o peer s1) !! peer = Some s1) as Hs1 by apply lookup_insert_eq.
  assert (session_wf s1 n) as Hwf1 by (by destruct Hwf).
  destruct n as [|n]; [lia|].
  destruct (ack_all_spec p (put o peer s1) local peer s1 (S n) n 0 now Hs1 Hwf1 eq_refl)
    as (o2 & Hack & Hs2). change (session_id s1) with (session_id s) in Hack.
  exists (put o peer s1), [(peer, data_message local s 0)], o2.
  eexists _, _, ((λ j, chunk_bytes (firmware s) j) <$> seq 0 (S n)).
  split_and!; [| exact Hack | | | |].
  - rewrite handle_accept_step by (done || apply Hwf). cbv zeta. fold s1.
    rewrite (send_chunk_ok _ _ _ s1 0); [done|done|apply Hwf|rewrite (swf_count _ _ Hwf1); lia].
  - rewrite (assoc_L (++)). f_equal. by rewrite imap_fmap_seq.
  - destruct (chunks_of_image _ (swf_image _ _ Hwf)) as [_ Hj].
    rewrite (swf_count _ _ Hwf) in Hj. exact Hj.
  - unfold handle_result. rewrite length_app, length_to_le. cbn [length].
    rewrite decide_False by lia. unfold payload_u16.
    rewrite (cursor_slice _ 0 (to_le 2 (session_id s)) _ 2 (cursor_start _))
      by apply length_to_le.
    cbn [mbind outcome_bind]. rewrite array_ok by apply length_to_le. cbn [mbind outcome_bind].
    rewrite (le_roundtrip 2 16) by (done || apply Hwf).
    rewrite (cursor_index _ 2 OTA_RESULT_SUCCESS []) by
      (apply (cursor_skip _ 0 (to_le 2 (session_id s)) _ 2 (cursor_start _)), length_to_le).
    cbn [mbind outcome_bind]. rewrite Hs2. rewrite decide_False by (cbn; auto).
    by rewrite decide_True by done.
  - rewrite put_sessions, lookup_insert_eq. done.
Qed.

(** ** What an acknowledgement can do *)

(** Acknowledgements are not checked against the phase or the progress of the
    session.  Acknowledging the last chunk of an offer the peer never accepted, with
    no chunk sent, makes the sender wait for the result; acknowledging chunk 65535
    panics in a debug build and in a release build restarts the transfer at chunk 0. *)
Theorem ack_hazards (o : OtaSender) local peer s n t r now :
  sessions o !! peer = Some s → session_wf s n → 0 < n → state s = Offered t r →
  (∃ o', handle_ack Release o local peer (ack_payload (session_id s) (Z.of_nat n - 1)) now
         = Ok (o', [(peer, ota_complete local (session_id s))])
     ∧ state <$> sessions o' !! peer = Some (WaitingResult now 0))
  ∧ handle_ack Debug o local peer (ack_payload (session_id s) 65535) now = Panic
  ∧ (∃ o', handle_ack Release o local peer (ack_payload (session_id s) 65535) now
           = Ok (o', [(peer, data_message local s 0)])
     ∧ state <$> sessions o' !! peer = Some (Transferring 0 now 0)).
Proof using PLL.
  intros Hs Hwf Hn _. pose proof (session_wf_total _ _ Hwf) as Ht.
  pose proof (swf_small _ _ Hwf) as Hsm. split_and!.
  - rewrite handle_ack_step by (done || apply Hwf || (unfold in_u; lia)).
    rewrite checked_in by (unfold in_u; lia). cbn [mbind outcome_bind firmware set_acked]. cbv zeta.
    rewrite Ht, decide_True by lia. unfold send_complete. rewrite put_sessions, lookup_insert_eq.
    eexists. split; [done|]. by rewrite put_sessions, lookup_insert_eq.
  - rewrite handle_ack_step by (done || apply Hwf). done.
  - rewrite handle_ack_step by (done || apply Hwf).
    change (checked Release 16 (65535 + 1)) with (Ok (E:=unit) 0%Z).
    cbn [mbind outcome_bind firmware set_acked]. cbv zeta. rewrite Ht, decide_False by lia.
    rewrite (send_chunk_ok _ _ _ (set_state (set_acked s 0) (Transferring 0 now 0)) 0);
      [|apply lookup_insert_eq|apply Hwf|cbn [firmware set_state set_acked];
        rewrite (swf_count _ _ Hwf); lia].
    cbn [mbind outcome_bind]. eexists. split; [done|]. by rewrite put_sessions, lookup_insert_eq.
Qed.

(** A race between retransmission and acceptance: the tick decides to repeat an
    offer, the peer's acceptance is handled before the tick acts, and the tick
    then puts the session back to the offered phase although the transfer has
    started and its first chunk has been sent. *)
Theorem offer_retransmission_race (o : OtaSender) local peer s n t r now :
  sessions o !! peer = Some s → session_wf s n → 0 < n → state s = Offered t r →
  (r < MAX_RETRIES_PER_CHUNK)%Z → (t + CHUNK_TIMEOUT < now)%Z →
  (now ≤ started_at s + SESSION_TIMEOUT)%Z → (started_at s ≤ now)%Z →
  ∃ o1 action o2 o3 out,
    tick_decide o peer now = (o1, action)
    ∧ handle_accept o1 local peer (ack_payload (session_id s) 0) now
      = Ok (o2, [(peer, data_message local s 0)])
    ∧ state <$> sessions o2 !! peer = Some (Transferring 0 now 0)
    ∧ tick_act o2 local peer action now = Ok (o3, out)
    ∧ state <$> sessions o3 !! peer = Some (Offered now (r + 1)).
Proof using PLL.
  intros Hs Hwf Hn Hst Hr Ht Hto Hge. unfold tick_decide. rewrite Hs, Hst.
  assert (is_timed_out s now = false) as ->.
  { apply bool_decide_eq_false. unfold elapsed, saturating_sub. lia. }
  rewrite decide_True by (unfold elapsed, saturating_sub; lia). rewrite decide_False by lia.
  eexists _, _, _, _, _. split; [done|]. split.
  { rewrite handle_accept_step by (done || apply Hwf). cbv zeta.
    rewrite (send_chunk_ok _ _ _ (set_state (set_acked s 0) (Transferring 0 now 0)) 0);
      [done|apply lookup_insert_eq|apply Hwf|cbn [firmware set_state set_acked];
        rewrite (swf_count _ _ Hwf); lia]. }
  rewrite put_sessions, lookup_insert_eq. split; [done|].
  unfold tick_act. rewrite put_sessions, lookup_insert_eq. split; [done|].
  by rewrite put_sessions, lookup_insert_eq.
Qed.
End Transfer.

(** * Witnesses *)
#[local] Existing Instances toy_ed25519 toy_peat_lite.
#[local] Instance toy_sha256 : Sha256 := pad 32.

Definition ex_image : FirmwareImage :=
  match firmware_new (str "firmware") (str "1.0") with
  | Ok f => f
  | _ => {| fw_data := []; fw_sha256 := []; fw_version := []; total_chunks := 0;
            chunk_size := 0; fw_signature := None |}
  end.
Definition ex_session (st : OtaSenderState) : OtaSession := {|
  session_id := 9; peer_id := str "lite-00000007"; firmware := ex_image; state := st;
  started_at := 0; chunks_acked := 0
|}.
Definition ex_sender (st : OtaSenderState) : OtaSender :=
  put (new None) (str "lite-00000007") (ex_session st).

Lemma ex_session_wf st : session_wf (ex_session st) 2.
Proof. split; [split; vm_eq|vm_eq|done|done]. Qed.

Lemma firmware_chunks_witness : total_chunks ex_image = 2%Z.
Proof.
  destruct (firmware_chunks (PLL := toy_peat_lite_laws) (str "firmware") (str "1.0") ex_image)
    as (_ & _ & H & _); [vm_eq|]. rewrite H; by vm_compute.
Defined.

Lemma silent_session_fails_witness :
  ∃ o out s reason,
    run_ticks (ex_sender (Offered 0 0)) 1
      ((λ i, ([str "lite-00000007"], from_secs (Z.of_nat i))) <$> seq 1 6) = Ok (o, out)
    ∧ sessions o !! str "lite-00000007" = Some s ∧ state s = Failed reason.
Proof.
  apply (silent_session_fails (ex_sender (Offered 0 0)) 1 (str "lite-00000007")
    ((λ i, ([str "lite-00000007"], from_secs (Z.of_nat i))) <$> seq 1 6)
    (ex_session (Offered 0 0)) 0 0); [vm_eq|vm_eq|by vm_compute| | |by vm_compute].
  - repeat constructor; set_solver.
  - by vm_compute.
Defined.

Lemma completed_session_fails_later_witness :
  ∃ o, tick_peer (ex_sender Complete) 1 (str "lite-00000007") (from_secs 301)
       = Ok (o, [(str "lite-00000007", ota_abort 1 9 OTA_ABORT_TOO_MANY_RETRIES)]).
Proof.
  destruct (completed_session_fails_later (ex_sender Complete) 1 (str "lite-00000007")
    (ex_session Complete) (from_secs 301)) as (o & Ho & _); [vm_eq|vm_eq|by vm_compute|].
  exists o. exact Ho.
Defined.

Lemma transfer_delivers_witness :
  ∃ o1 out1, handle_accept (ex_sender (Offered 0 0)) 1 (str "lite-00000007") (ack_payload 9 0) 5
    = Ok (o1, out1).
Proof.
  destruct (transfer_delivers (PLL := toy_peat_lite_laws) Debug (ex_sender (Offered 0 0)) 1
    (str "lite-00000007") (ex_session (Offered 0 0)) 2 5) as (o1 & out1 & ? & ? & ? & ? & H & _);
    [vm_eq|apply ex_session_wf|lia|].
  exists o1, out1. exact H.
Defined.

Lemma ack_hazards_witness :
  handle_ack Debug (ex_sender (Offered 0 0)) 1 (str "lite-00000007") (ack_payload 9 65535) 5
  = Panic.
Proof.
  destruct (ack_hazards (PLL := toy_peat_lite_laws) (ex_sender (Offered 0 0)) 1
    (str "lite-00000007") (ex_session (Offered 0 0)) 2 0 0 5) as (_ & H & _);
    [vm_eq|apply ex_session_wf|lia|vm_eq|exact H].
Defined.

Lemma offer_retransmission_race_witness :
  ∃ o1 action, tick_decide (ex_sender (Offered 0 0)) (str "lite-00000007") (from_secs 1)
    = (o1, action).
Proof.
  destruct (offer_retransmission_race (PLL := toy_peat_lite_laws) (ex_sender (Offered 0 0)) 1
    (str "lite-00000007") (ex_session (Offered 0 0)) 2 0 0 (from_secs 1))
    as (o1 & action & _ & _ & _ & H & _);
    [vm_eq|apply ex_session_wf|lia|vm_eq|by vm_compute..|].
  exists o1, action. exact H.
Defined.
