(* ===== verification/Geohash.v ===== *)
(** Geohashes ([src/geohash.rs]): the two coordinates as 32-bit fixed-point numbers
    read off the bits of a double, their bits interleaved by masks and shifts, and the
    base-32 text of the upper bits; decoding, and the neighbours of a cell.

    [Lor] is the algebra behind the masks: each step commutes with a bitwise or, so that
    it is determined by what it does to a single bit. *)
From Stdlib Require Import ZArith Lia Strings.Byte Strings.String.
From stdpp Require Import prelude.
From S2P Require Import Prelude Wire Float.

Set Default Proof Using "Type".

Inductive GeohashError :=
| InvalidHashCharacter (c : byte)
| InvalidCoordinateRange (lon lat : float)
| InvalidLength (n : nat)
| InvalidHash (msg : bytes).

Module Compass.
Inductive Direction := N | NE | E | SE | S | SW | W | NW.
Global Instance direction_eq_dec : EqDecision Direction.
Proof. solve_decision. Defined.
Record Neighbors := {
  sw : bytes; s : bytes; se : bytes; w : bytes; e : bytes; nw : bytes; n : bytes; ne : bytes
}.
End Compass.

Module Geohash.
Import Compass.
Definition to_tuple (d : Direction) : float * float :=
  let one := F64.of_Z 1 in
  let zero := F64.of_Z 0 in
  match d with
  | SW => (fneg one, fneg one)
  | S => (fneg one, zero)
  | SE => (fneg one, one)
  | W => (zero, fneg one)
  | E => (zero, one)
  | NW => (one, fneg one)
  | N => (one, zero)
  | NE => (one, one)
  end.

Definition BASE32_CODES : bytes := str "0123456789bcdefghjkmnpqrstuvwxyz".
(** The table [DECODER]: the digits '0' to '9' and the letters except a, i, l and o. *)
Definition DECODER (b : byte) : Z :=
  let c := u8 b in
  if ((48 <=? c) && (c <=? 57))%Z then c - 48
  else if ((98 <=? c) && (c <=? 104))%Z then c - 98 + 10
  else if ((106 <=? c) && (c <=? 107))%Z then c - 106 + 17
  else if ((109 <=? c) && (c <=? 110))%Z then c - 109 + 19
  else if ((112 <=? c) && (c <=? 122))%Z then c - 112 + 21
  else 255.

(** ** Bit interleaving *)
Definition u64_shl (x k : Z) : Z := wrap 64 (Z.shiftl x k).
Definition spread_step (k mask v : Z) : Z := Z.land (Z.lor v (u64_shl v k)) mask.
Definition spread (x : Z) : Z :=
  let v := spread_step 16 0x0000ffff0000ffff x in
  let v := spread_step 8 0x00ff00ff00ff00ff v in
  let v := spread_step 4 0x0f0f0f0f0f0f0f0f v in
  let v := spread_step 2 0x3333333333333333 v in
  spread_step 1 0x5555555555555555 v.
Definition interleave (x y : Z) : Z := Z.lor (spread x) (u64_shl (spread y) 1).
Definition squash_step (k mask v : Z) : Z := Z.land (Z.lor v (Z.shiftr v k)) mask.
Definition squash (x : Z) : Z :=
  let v := Z.land x 0x5555555555555555 in
  let v := squash_step 1 0x3333333333333333 v in
  let v := squash_step 2 0x0f0f0f0f0f0f0f0f v in
  let v := squash_step 4 0x00ff00ff00ff00ff v in
  let v := squash_step 8 0x0000ffff0000ffff v in
  let v := squash_step 16 0x00000000ffffffff v in
  wrap 32 v.
Definition deinterleave (x : Z) : Z * Z := (squash x, squash (Z.shiftr x 1)).

(** ** Encoding *)
(** [((x * scale + 1.5).to_bits() >> 20) as u32] *)
Definition fixed (scale x : float) : Z :=
  wrap 32 (Z.shiftr (F64.to_bits (F64.add (F64.mul x scale) (F64.dec 15 1))) 20).
Definition lat32 : float → Z := fixed (F64.dec 5555555555555556 18).
Definition lon32 : float → Z := fixed (F64.dec 2777777777777778 18).
Definition within (lo hi x : float) : bool := fle lo x && fle x hi.

Fixpoint digits (len : nat) (interleaved : Z) : bytes :=
  match len with
  | O => []
  | Datatypes.S len =>
      let code := Z.land (Z.shiftr interleaved 59) 0x1f in
      nth (Z.to_nat code) BASE32_CODES x00 :: digits len (u64_shl interleaved 5)
  end.
Definition encode (lon lat : float) (len : nat) : outcome GeohashError bytes :=
  bail! negb (within (F64.of_Z (-180)) (F64.of_Z 180) lon)
        || negb (within (F64.of_Z (-90)) (F64.of_Z 90) lat)
    with InvalidCoordinateRange lon lat;
  bail! negb ((1 <=? len) && (len <=? 12)) with InvalidLength len;
  Ok (digits len (interleave (lat32 lat) (lon32 lon))).

(** ** Decoding *)
Definition decode_range (x : Z) (r : float) : float :=
  let p := F64.from_bits (Z.lor (Z.shiftl x 20) (Z.shiftl 1023 52)) in
  F64.sub (F64.mul (F64.mul (F64.of_Z 2) r) (F64.sub p (F64.of_Z 1))) r.

Fixpoint int_hash (h : bytes) (acc : Z) : outcome GeohashError Z :=
  match h with
  | [] => Ok acc
  | c :: h =>
      let val := DECODER c in
      bail! (val =? 255)%Z with InvalidHashCharacter c;
      int_hash h (Z.lor (u64_shl acc 5) val)
  end.

Section with_powi.
Context {Pw : Powi}.
Definition error_with_precision (bits : nat) : float * float :=
  let lat_bits := (bits / 2)%nat in
  let lon_bits := bits - lat_bits in
  (F64.mul (F64.of_Z 180) (powi (F64.of_Z 2) (- Z.of_nat lat_bits)),
   F64.mul (F64.of_Z 360) (powi (F64.of_Z 2) (- Z.of_nat lon_bits))).

(** [x << k] of a [u64] for [k] up to 64: the shift by 64 panics in a debug build and
    shifts by nothing in a release build. *)
Definition checked_shl (p : profile) (x : Z) (k : nat) : outcome GeohashError Z :=
  if decide (k < 64) then Ok (u64_shl x (Z.of_nat k))
  else match p with Debug => Panic | Release => Ok (u64_shl x (Z.of_nat k mod 64)) end.

Definition decode (p : profile) (hash_str : bytes)
    : outcome GeohashError ((float * float) * float * float) :=
  let bits := length hash_str * 5 in
  bail! (12 <? length hash_str)
    with InvalidHash (str "hash length exceeds maximum of 12");
  hash ← int_hash hash_str 0;
  full_hash ← checked_shl p hash (64 - bits);
  let '(lat_int, lon_int) := deinterleave full_hash in
  let lat := decode_range lat_int (F64.of_Z 90) in
  let lon := decode_range lon_int (F64.of_Z 180) in
  let '(lat_err, lon_err) := error_with_precision bits in
  let half x := F64.div x (F64.of_Z 2) in
  Ok ((F64.add lon (half lon_err), F64.add lat (half lat_err)), half lon_err, half lat_err).

(** ** Neighbours *)
Definition neighbor (p : profile) (hash_str : bytes) (d : Direction)
    : outcome GeohashError bytes :=
  r ← decode p hash_str;
  let '((lon, lat), lon_err, lat_err) := r in
  let '(dlat, dlon) := to_tuple d in
  let moved x err dx full half :=
    F64.sub (F64.rem_euclid
               (F64.add (F64.add x (F64.mul (F64.mul (F64.of_Z 2) (fabs err)) dx)) (F64.of_Z half))
               (F64.of_Z full)) (F64.of_Z half) in
  encode (moved lon lon_err dlon 360%Z 180%Z) (moved lat lat_err dlat 180%Z 90%Z) (length hash_str).
Definition neighbors (p : profile) (h : bytes) : outcome GeohashError Neighbors :=
  a ← neighbor p h SW; b ← neighbor p h S; c ← neighbor p h SE; d ← neighbor p h W;
  f ← neighbor p h E; g ← neighbor p h NW; i ← neighbor p h N; j ← neighbor p h NE;
  Ok {| sw := a; s := b; se := c; w := d; e := f; nw := g; n := i; ne := j |}.
End with_powi.
End Geohash.

Local Open Scope Z_scope.

(** * Functions determined by single bits *)
Module Lor.
(** [f] commutes with the bitwise or of natural numbers. *)
Class Morph (f : Z → Z) : Prop := {
  morph_0 : f 0 = 0;
  morph_lor x y : f (Z.lor x y) = Z.lor (f x) (f y)
}.

Global Instance morph_id : Morph (λ x, x).
Proof. by split. Qed.
Global Instance morph_zero : Morph (λ _, 0).
Proof. by split. Qed.
Global Instance morph_or f g : Morph f → Morph g → Morph (λ x, Z.lor (f x) (g x)).
Proof.
  intros [F0 F] [G0 G]. split; [by rewrite F0, G0|]. intros x y. rewrite F, G.
  rewrite <-!Z.lor_assoc. f_equal. rewrite !Z.lor_assoc. f_equal. apply Z.lor_comm.
Qed.
Global Instance morph_land f m : Morph f → Morph (λ x, Z.land (f x) m).
Proof. intros [F0 F]. split; [by rewrite F0|]. intros x y. by rewrite F, Z.land_lor_distr_l. Qed.
Global Instance morph_shl f k : Morph f → Morph (λ x, Z.shiftl (f x) k).
Proof. intros [F0 F]. split; [by rewrite F0, Z.shiftl_0_l|]. intros x y. by rewrite F, Z.shiftl_lor. Qed.
Global Instance morph_shr f k : Morph f → Morph (λ x, Z.shiftr (f x) k).
Proof. intros [F0 F]. split; [by rewrite F0, Z.shiftr_0_l|]. intros x y. by rewrite F, Z.shiftr_lor. Qed.
Lemma wrap_land w x : 0 ≤ w → wrap w x = Z.land x (Z.ones w).
Proof. intros H. unfold wrap. by rewrite Z.land_ones. Qed.
Global Instance morph_wrap64 f : Morph f → Morph (λ x, wrap 64 (f x)).
Proof.
  intros [F0 F]. split; [by rewrite F0|].
  intros x y. by rewrite F, !wrap_land, Z.land_lor_distr_l by lia.
Qed.
Global Instance morph_wrap32 f : Morph f → Morph (λ x, wrap 32 (f x)).
Proof.
  intros [F0 F]. split; [by rewrite F0|].
  intros x y. by rewrite F, !wrap_land, Z.land_lor_distr_l by lia.
Qed.
Global Instance morph_bit f i : Morph f → Morph (λ x, Z.b2z (Z.testbit (f x) i)).
Proof.
  intros [F0 F]. split; [by rewrite F0, Z.bits_0|].
  intros x y. rewrite F, Z.lor_spec. by destruct (Z.testbit (f x) i), (Z.testbit (f y) i).
Qed.

(** The highest of [w + 1] bits and the others. *)
Lemma split_bit w x :
  0 ≤ w → in_u (w + 1) x → x = Z.lor (if Z.testbit x w then 2 ^ w else 0) (x mod 2 ^ w).
Proof.
  intros Hw [H0 H1]. apply Z.bits_inj'. intros k Hk. rewrite Z.lor_spec.
  assert (Z.testbit (if Z.testbit x w then 2 ^ w else 0) k = Z.testbit x w && bool_decide (k = w)) as ->.
  { destruct (Z.testbit x w); cbn [andb]; [|apply Z.bits_0].
    rewrite Z.pow2_bits_eqb by lia. apply eq_true_iff_eq. rewrite Z.eqb_eq, bool_decide_eq_true. lia. }
  destruct (Z.lt_trichotomy k w) as [L|[->|G]].
  - rewrite Z.mod_pow2_bits_low, bool_decide_eq_false_2, andb_false_r by lia. done.
  - by rewrite Z.mod_pow2_bits_high, bool_decide_eq_true_2, andb_true_r, orb_false_r by lia.
  - rewrite Z.mod_pow2_bits_high, bool_decide_eq_false_2, andb_false_r by lia. cbn [orb].
    rewrite <-(Z.mod_small x (2 ^ (w + 1))) by lia. apply Z.mod_pow2_bits_high. lia.
Qed.

(** Two of them that agree on the single bits agree everywhere. *)
Definition agree (w : nat) (f g : Z → Z) : bool :=
  forallb (λ i, (f (2 ^ Z.of_nat i) =? g (2 ^ Z.of_nat i))%Z) (seq 0 w).
Lemma morph_ext (w : nat) f g `{!Morph f, !Morph g} x :
  agree w f g = true → in_u (Z.of_nat w) x → f x = g x.
Proof.
  unfold agree. rewrite forallb_forall. intros Hfg. revert x.
  induction w as [|w IH]; intros x Hx.
  - assert (x = 0) as -> by (unfold in_u in Hx; lia). by rewrite !morph_0.
  - rewrite Nat2Z.inj_succ, <-Z.add_1_r in Hx.
    rewrite (split_bit (Z.of_nat w) x), !morph_lor by (done || lia). f_equal.
    + destruct (Z.testbit x (Z.of_nat w)); [|by rewrite !morph_0].
      apply Z.eqb_eq, Hfg, in_seq. lia.
    + apply IH; [intros i Hi; apply Hfg, in_seq; apply in_seq in Hi; lia|].
      apply Z.mod_pos_bound, Z.pow_pos_nonneg; lia.
Qed.
End Lor.
Import Lor.

(** * Interleaving *)
Module Interleave.
Import Geohash.

Global Instance spread_morph f : Morph f → Morph (λ x, spread (f x)).
Proof. intros. unfold spread, spread_step, u64_shl. cbv zeta. apply _. Qed.
Global Instance squash_morph f : Morph f → Morph (λ x, squash (f x)).
Proof. intros. unfold squash, squash_step. cbv zeta. apply _. Qed.
Global Instance u64_shl_morph f k : Morph f → Morph (λ x, u64_shl (f x) k).
Proof. intros. unfold u64_shl. apply _. Qed.

(** The number with its lowest [k] bits cleared. *)
Definition clear (k x : Z) : Z := Z.shiftl (Z.shiftr x k) k.
Global Instance clear_morph f k : Morph f → Morph (λ x, clear k (f x)).
Proof. intros. unfold clear. apply _. Qed.

Lemma squash_spread x : in_u 32 x → squash (spread x) = x.
Proof. apply (morph_ext 32 (λ x, squash (spread x)) (λ x, x)). vm_eq. Qed.
Lemma squash_odd x : in_u 32 x → squash (u64_shl (spread x) 1) = 0.
Proof. apply (morph_ext 32 (λ x, squash (u64_shl (spread x) 1)) (λ x, 0)). vm_eq. Qed.
Lemma squash_shifted x : in_u 32 x → squash (Z.shiftr (spread x) 1) = 0.
Proof. apply (morph_ext 32 (λ x, squash (Z.shiftr (spread x) 1)) (λ x, 0)). vm_eq. Qed.
Lemma squash_back x : in_u 32 x → squash (Z.shiftr (u64_shl (spread x) 1) 1) = x.
Proof. apply (morph_ext 32 (λ x, squash (Z.shiftr (u64_shl (spread x) 1) 1)) (λ x, x)). vm_eq. Qed.

Lemma deinterleave_interleave x y : in_u 32 x → in_u 32 y → deinterleave (interleave x y) = (x, y).
Proof.
  intros Hx Hy. unfold deinterleave, interleave. rewrite Z.shiftr_lor.
  rewrite !(morph_lor (f:=λ x, squash x)).
  rewrite squash_spread, squash_odd, squash_shifted, squash_back by done.
  by rewrite Z.lor_0_r, Z.lor_0_l.
Qed.

(** The Morton code, bit by bit: bit [i] of a number goes to position [2 i + o]. *)
Definition place (o x : Z) : Z :=
  foldr (λ i acc, Z.lor (Z.shiftl (Z.b2z (Z.testbit x (Z.of_nat i))) (2 * Z.of_nat i + o)) acc)
    0 (seq 0 32).
Definition morton (x y : Z) : Z := Z.lor (place 0 x) (place 1 y).
Lemma morph_foldr (h : nat → Z → Z) l :
  (∀ i, Morph (h i)) → Morph (λ x, foldr (λ i acc, Z.lor (h i x) acc) 0 l).
Proof. intros H. induction l as [|i l IH]; cbn; [apply _|]. apply (morph_or (h i)); [apply H|apply IH]. Qed.
Global Instance place_morph o : Morph (place o).
Proof. unfold place. apply morph_foldr. intros i. apply morph_shl, morph_bit, morph_id. Qed.

(** C26.  The masks and shifts of [interleave] compute the Morton code of the two numbers,
    defined bit by bit, and those of [deinterleave] take it apart again. *)
Theorem interleave_is_morton x y :
  in_u 32 x → in_u 32 y → interleave x y = morton x y ∧ deinterleave (morton x y) = (x, y).
Proof.
  intros Hx Hy. assert (interleave x y = morton x y) as E; [|by rewrite <-E, deinterleave_interleave].
  unfold interleave, morton. f_equal.
  - apply (morph_ext 32 (λ x, spread x) (place 0)); [vm_eq|done].
  - apply (morph_ext 32 (λ x, u64_shl (spread x) 1) (place 1)); [vm_eq|done].
Qed.

(** The upper [5 n] bits of the interleaving are the upper bits of the two numbers,
    one more of the second when [n] is odd. *)
Definition lat_bits (n : nat) : Z := Z.of_nat (n * 5 / 2)%nat.
Definition lon_bits (n : nat) : Z := Z.of_nat (n * 5 - n * 5 / 2)%nat.




End Interleave.
Import Geohash Interleave.

Section properties.
Context {Pw : Powi}.






(** The north pole has the hash of the south pole: the sum of the scaled latitude and 1.5
    is 2, whose mantissa is that of 1. *)
Theorem poles_share_geohash lon n :
  within (F64.of_Z (-180)) (F64.of_Z 180) lon = true →
  encode lon (F64.of_Z 90) n = encode lon (F64.of_Z (-90)) n.
Proof.
  intros H. unfold encode. rewrite H.
  assert (lat32 (F64.of_Z 90) = lat32 (F64.of_Z (-90))) as -> by vm_eq.
  assert (within (F64.of_Z (-90)) (F64.of_Z 90) (F64.of_Z 90) = true) as -> by vm_eq.
  by assert (within (F64.of_Z (-90)) (F64.of_Z 90) (F64.of_Z (-90)) = true) as -> by vm_eq.
Qed.

Lemma no_panic_int_hash h acc : no_panic (int_hash h acc).
Proof. revert acc. induction h; intros acc; cbn; [done|]. case_match; [done|auto]. Qed.
(** Decoding panics on the empty string in a debug build, where it shifts a [u64] by 64
    bits, and never otherwise. *)
Theorem decode_panics p h : decode p h = Panic ↔ p = Debug ∧ h = [].
Proof.
  unfold decode. destruct h as [|c h]; [by destruct p; cbn; split; try (intros [? ?])|].
  assert (¬ (p = Debug ∧ c :: h = [])) as Hno by (intros [_ [=]]).
  case_match eqn:E; [by split|]. apply Nat.ltb_ge in E. split; [|intros H; by destruct Hno].
  pose proof (no_panic_int_hash (c :: h) 0) as Hp.
  destruct (int_hash (c :: h) 0) as [z| |]; cbn [mbind outcome_bind]; [|done|done].
  unfold checked_shl. rewrite decide_True by (cbn [length] in *; lia).
  unfold mbind, outcome_bind. by destruct (deinterleave _), (error_with_precision _).
Qed.
End properties.

(** * Witnesses *)
#[local] Instance exact_powi : Powi := λ _ k, F64.of_ZE 1 k.

Lemma interleave_is_morton_witness :
  in_u 32 5 ∧ in_u 32 3 ∧ interleave 5 3 = morton 5 3 ∧ deinterleave (morton 5 3) = (5, 3)
  ∧ morton 5 3 = 27.
Proof.
  assert (in_u 32 5) as H5 by (split; lia). assert (in_u 32 3) as H3 by (split; lia).
  split; [exact H5|]. split; [exact H3|].
  destruct (interleave_is_morton 5 3 H5 H3) as [E1 E2].
  split; [exact E1|]. split; [exact E2|]. vm_eq.
Defined.
