(* ===== verification/Ttl.v ===== *)
(** Expiry of documents: the TTL configuration ([src/storage/ttl.rs]), the manager
    that schedules and performs deletions ([src/storage/ttl_manager.rs]), and the
    writes that schedule them ([put_with_ttl] of [src/storage/automerge_store.rs]). *)
From Stdlib Require Import ZArith Lia Strings.Byte Strings.String.
From stdpp Require Import prelude gmap sorting.
From S2P Require Import Prelude Wire Text Iteration Deletion Store Float.

Set Default Proof Using "Type".

(** * Configuration *)
Inductive EvictionStrategy :=
| OldestFirst
| StoragePressure (threshold_pct : Z)
| KeepLastN (n : nat)
| NoEviction.

Record OfflineRetentionPolicy := {
  online_ttl : Z;
  offline_ttl : Z;
  keep_last_n : nat
}.

Record TtlConfig := {
  tombstone_ttl_hours : Z;
  tombstone_reaping_enabled : bool;
  days_between_reaping : Z;
  beacon_ttl : Z;
  position_ttl : Z;
  capability_ttl : Z;
  evict_strategy : EvictionStrategy;
  offline_policy : option OfflineRetentionPolicy
}.

Module Config.
Definition new : TtlConfig := {|
  tombstone_ttl_hours := 168; tombstone_reaping_enabled := true; days_between_reaping := 1;
  beacon_ttl := from_secs 600; position_ttl := from_secs 600; capability_ttl := from_secs 7200;
  evict_strategy := NoEviction; offline_policy := None
|}.
Definition tactical : TtlConfig := {|
  tombstone_ttl_hours := 168; tombstone_reaping_enabled := true; days_between_reaping := 1;
  beacon_ttl := from_secs 300; position_ttl := from_secs 600; capability_ttl := from_secs 7200;
  evict_strategy := OldestFirst;
  offline_policy := Some {| online_ttl := from_secs 600; offline_ttl := from_secs 60;
                            keep_last_n := 10 |}
|}.
Definition long_duration : TtlConfig := {|
  tombstone_ttl_hours := 168; tombstone_reaping_enabled := true; days_between_reaping := 1;
  beacon_ttl := from_secs 600; position_ttl := from_secs 3600; capability_ttl := from_secs 172800;
  evict_strategy := StoragePressure 80; offline_policy := None
|}.
Definition offline_node : TtlConfig := {|
  tombstone_ttl_hours := 72; tombstone_reaping_enabled := true; days_between_reaping := 1;
  beacon_ttl := from_secs 30; position_ttl := from_secs 60; capability_ttl := from_secs 300;
  evict_strategy := KeepLastN 10;
  offline_policy := Some {| online_ttl := from_secs 300; offline_ttl := from_secs 30;
                            keep_last_n := 5 |}
|}.
Definition get_collection_ttl (c : TtlConfig) (collection : bytes) : option Z :=
  if decide (collection = str "beacons") then Some (beacon_ttl c)
  else if decide (collection = str "node_positions") then Some (position_ttl c)
  else if decide (collection = str "capabilities") then Some (capability_ttl c)
  else if decide (collection = str "hierarchical_commands") then None
  else if decide (collection = str "cells") then Some (from_secs 3600)
  else None.
End Config.

(** * The manager *)

(** A [BTreeMap] from expiry times to keys, as its entries in order. *)
Abbreviation expiries := (list (Z * list bytes)).

Record TtlManager := {
  ttl_config : TtlConfig;
  expiry_map : expiries
}.
Definition set_expiry_map (m : TtlManager) (e : expiries) : TtlManager :=
  {| ttl_config := ttl_config m; expiry_map := e |}.

(** The order in which a hash map of groups is iterated. *)
Class GroupOrder := {
  group_iter : gmap bytes (list (Z * bytes)) → list (bytes * list (Z * bytes));
  group_iter_perm g : group_iter g ≡ₚ map_to_list g
}.

Module Ttl.
Definition new (c : TtlConfig) : TtlManager := {| ttl_config := c; expiry_map := [] |}.

(** [entry(t).or_default().push(key)] *)
Fixpoint push (t : Z) (key : bytes) (m : expiries) : expiries :=
  match m with
  | [] => [(t, [key])]
  | (t', keys) :: m' =>
      if (t <? t')%Z then (t, [key]) :: m
      else if (t =? t')%Z then (t', keys ++ [key]) :: m'
      else (t', keys) :: push t key m'
  end.

(** [Instant + Duration]: seconds are an [i64]. *)
Definition instant_add {E} (now d : Z) : outcome E Z :=
  if decide ((now + d) / 1000000000 < 2 ^ 63)%Z then Ok (now + d)%Z else Panic.

Definition set_ttl {E} (m : TtlManager) (key : bytes) (ttl now : Z) : outcome E TtlManager :=
  expiry_time ← instant_add now ttl;
  Ok (set_expiry_map m (push expiry_time key (expiry_map m))).

(** The entries of a range, key by key. *)
Definition range_to (bound : Z) (m : expiries) : expiries := filter (λ e, (e.1 ≤ bound)%Z) m.
Definition flat (m : expiries) : list (Z * bytes) := m ≫= λ e, (λ k, (e.1, k)) <$> e.2.

(** What [cleanup_expired] and the background task take out of the map. *)
Definition take_expired (m : TtlManager) (now : Z) : list (Z * bytes) * TtlManager :=
  let split_key := default now (last (range_to now (expiry_map m)).*1) in
  (flat (range_to split_key (expiry_map m)),
   set_expiry_map m (filter (λ e, (now < e.1)%Z) (expiry_map m))).

Definition is_slash (b : byte) : bool := bool_decide (u8 b = 47%Z).
(** [key.split('/').next().unwrap_or("")] *)
Definition group_of (key : bytes) : bytes := take (default (length key) (find_byte is_slash key)) key.
Definition group_by (l : list (Z * bytes)) : gmap bytes (list (Z * bytes)) :=
  foldl (λ g e, <[group_of e.2 := default [] (g !! group_of e.2) ++ [e]]> g) ∅ l.

Definition apply_eviction_strategy {GO : GroupOrder} (c : TtlConfig) (expired : list (Z * bytes))
    : list bytes :=
  match evict_strategy c with
  | OldestFirst => (sort_by (λ x y, (x.1 <? y.1)%Z) expired).*2
  | KeepLastN n =>
      group_iter (group_by expired) ≫= λ g, (drop n (sort_by (λ x y, (y.1 <? x.1)%Z) g.2)).*2
  | StoragePressure _ | NoEviction => expired.*2
  end.

Section with_store.
Context {AM : Automerge} {RD : Redb} {LR : Lru doc} {GO : GroupOrder}.

Fixpoint delete_keys (keys : list bytes) (count : nat) : stm AutomergeStore StoreError nat :=
  match keys with
  | [] => mret count
  | key :: keys => _ ← delete_doc key; delete_keys keys (S count)
  end.
Definition cleanup_expired (m : TtlManager) (now : Z)
    : TtlManager * stm AutomergeStore StoreError nat :=
  let '(expired_keys, m') := take_expired m now in
  (m', delete_keys (apply_eviction_strategy (ttl_config m) expired_keys) 0).

(** One turn of the background task: failures are printed. *)
Fixpoint delete_all (keys : list bytes) (s : AutomergeStore) : AutomergeStore :=
  match keys with
  | [] => s
  | key :: keys => delete_all keys (delete_doc key s).2
  end.
Definition background_tick (m : TtlManager) (now : Z) (s : AutomergeStore)
    : TtlManager * AutomergeStore :=
  let '(expired, m') := take_expired m now in
  (m', delete_all expired.*2 s).

(** [AutomergeStore::put_with_ttl]; the collection ends at the first [/] or [:]. *)
Definition ttl_collection (key : bytes) : bytes :=
  match find_byte (λ b, is_slash b || is_colon b) key with
  | Some pos => take pos key
  | None => key
  end.
Definition put_with_ttl (key : bytes) (d : doc) (m : TtlManager) (now : Z)
    : stm AutomergeStore StoreError TtlManager :=
  _ ← put key d;
  match Config.get_collection_ttl (ttl_config m) (ttl_collection key) with
  | Some ttl => lift (set_ttl m key ttl now)
  | None => mret m
  end.
End with_store.

Fixpoint extend_loop (now : Z) (factor : float) (entries : list (Z * bytes)) (m : expiries)
    : outcome unit expiries :=
  match entries with
  | [] => Ok m
  | (old_expiry, key) :: entries =>
      let remaining := saturating_sub old_expiry now in
      extended ← from_secs_f64 (F64.mul (F64.as_secs_f64 remaining) factor);
      new_expiry ← instant_add now extended;
      extend_loop now factor entries (push new_expiry key m)
  end.
Definition extend_ttls_for_offline (m : TtlManager) (now : Z) : outcome unit TtlManager :=
  match offline_policy (ttl_config m) with
  | None => Ok m
  | Some policy =>
      let online_secs := F64.as_secs_f64 (online_ttl policy) in
      let offline_secs := F64.as_secs_f64 (offline_ttl policy) in
      if fle offline_secs (F64.of_Z 0) || fle online_secs (F64.of_Z 0) then Ok m
      else
        let factor := F64.div online_secs offline_secs in
        if fle factor (F64.of_Z 1) then Ok m
        else
          let entries := flat (filter (λ e, (now < e.1)%Z) (expiry_map m)) in
          e ← extend_loop now factor entries [];
          Ok (set_expiry_map m e)
  end.

Definition pending_count (m : TtlManager) : nat := sum_list_with (λ e, length e.2) (expiry_map m).
End Ttl.

(** * The expiry map *)
Definition ttl_wf (m : TtlManager) : Prop := StronglySorted Z.lt (expiry_map m).*1.

Lemma elem_of_flat m t k : (t, k) ∈ Ttl.flat m ↔ ∃ ks, (t, ks) ∈ m ∧ k ∈ ks.
Proof.
  unfold Ttl.flat. rewrite list_elem_of_bind. split.
  - intros ([t' ks] & (k' & [= -> ->] & Hk)%list_elem_of_fmap & Hin). eauto.
  - intros (ks & Hin & Hk). exists (t, ks). split; [|done]. by apply list_elem_of_fmap_2.
Qed.

Lemma flat_push t k m e : e ∈ Ttl.flat (Ttl.push t k m) ↔ e = (t, k) ∨ e ∈ Ttl.flat m.
Proof.
  assert (∀ t' ks m', e ∈ Ttl.flat ((t', ks) :: m') ↔ (e.1 = t' ∧ e.2 ∈ ks) ∨ e ∈ Ttl.flat m') as Hcons.
  { destruct e as [te ke]. intros t' ks m'. rewrite !elem_of_flat. cbn.
    setoid_rewrite elem_of_cons. naive_solver. }
  induction m as [|[t' ks] m IH]; cbn [Ttl.push].
  - rewrite Hcons. rewrite list_elem_of_singleton. destruct e. naive_solver.
  - destruct (Z.ltb_spec t t'); [|destruct (Z.eqb_spec t t')].
    + rewrite Hcons, list_elem_of_singleton. destruct e. naive_solver.
    + subst. rewrite !Hcons, elem_of_app, list_elem_of_singleton. destruct e. naive_solver.
    + rewrite !Hcons, IH. naive_solver.
Qed.

Lemma push_bound t k m x : Forall (Z.lt x) m.*1 → (x < t)%Z → Forall (Z.lt x) (Ttl.push t k m).*1.
Proof.
  induction m as [|[t' ks] m IH]; cbn; [by repeat constructor|].
  intros [Hx Hm]%Forall_cons Ht. destruct (t <? t')%Z; [|destruct (t =? t')%Z]; cbn; auto.
Qed.
Lemma push_sorted t k m : StronglySorted Z.lt m.*1 → StronglySorted Z.lt (Ttl.push t k m).*1.
Proof.
  induction m as [|[t' ks] m IH]; cbn; [by repeat constructor|].
  intros [Hs Hm]%StronglySorted_inv. destruct (Z.ltb_spec t t'); [|destruct (Z.eqb_spec t t')]; cbn.
  - constructor; [by constructor|]. constructor; [done|]. eapply Forall_impl; [exact Hm|]. cbn. lia.
  - by constructor.
  - constructor; [by apply IH|]. apply push_bound; [done|lia].
Qed.
Lemma set_ttl_wf {E} m k ttl now m' :
  Ttl.set_ttl (E := E) m k ttl now = Ok m' → ttl_wf m →
  ttl_wf m' ∧ ttl_config m' = ttl_config m
  ∧ ∀ e, e ∈ Ttl.flat (expiry_map m') ↔ e = ((now + ttl)%Z, k) ∨ e ∈ Ttl.flat (expiry_map m).
Proof.
  unfold Ttl.set_ttl, Ttl.instant_add. case_decide; [|done]. intros [= <-] Hwf.
  split_and!; [by apply push_sorted|done|]. intros e. apply flat_push.
Qed.

(** Everything up to [now] is taken, and nothing else. *)
Lemma range_split now m :
  StronglySorted Z.lt m.*1 →
  Ttl.range_to (default now (last (Ttl.range_to now m).*1)) m = Ttl.range_to now m.
Proof.
  unfold Ttl.range_to. intros Hs. destruct (last _) as [b|] eqn:Hl; [|done]. cbn.
  assert (b ≤ now)%Z as Hb.
  { apply last_Some in Hl as [l Hl]. assert (b ∈ (filter (λ e, (e.1 ≤ now)%Z) m).*1) as Hin.
    { rewrite Hl. set_solver. }
    apply list_elem_of_fmap in Hin as (e & -> & [? _]%list_elem_of_filter). done. }
  assert (∀ e, e ∈ m → (e.1 ≤ now)%Z → (e.1 ≤ b)%Z) as Hle.
  { clear Hb. intros e Hin He.
    assert (StronglySorted Z.lt (filter (λ e, (e.1 ≤ now)%Z) m).*1) as Hs'.
    { eapply StronglySorted_sublist; [|exact Hs]. apply fmap_sublist, sublist_filter. }
    assert (e.1 ∈ (filter (λ e, (e.1 ≤ now)%Z) m).*1) as Hin'.
    { apply list_elem_of_fmap_2, list_elem_of_filter. done. }
    apply last_Some in Hl as [l Hl]. rewrite Hl in Hs', Hin'.
    apply elem_of_app in Hin' as [Hin'|Hin']; [|set_solver].
    clear -Hs' Hin'. induction l as [|x l IH]; [set_solver|]. cbn in Hs'.
    apply StronglySorted_inv in Hs' as [Hs' Hx]. apply elem_of_cons in Hin' as [->|Hin']; [|by apply IH].
    rewrite Forall_forall in Hx. specialize (Hx b). assert (x < b)%Z; [apply Hx; set_solver|lia]. }
  clear Hl Hs. induction m as [|e m IH]; [done|]. rewrite !filter_cons.
  rewrite IH by (intros e' He'; apply Hle; by constructor).
  destruct (decide (e.1 ≤ now)%Z) as [Hn|Hn].
  - rewrite decide_True; [done|]. apply Hle; [constructor|done].
  - rewrite decide_False; [done|]. lia.
Qed.

Lemma take_expired_ok m now es m' :
  ttl_wf m → Ttl.take_expired m now = (es, m') →
  ttl_wf m' ∧ ttl_config m' = ttl_config m
  ∧ (∀ e, e ∈ es ↔ e ∈ Ttl.flat (expiry_map m) ∧ (e.1 ≤ now)%Z)
  ∧ (∀ e, e ∈ Ttl.flat (expiry_map m') ↔ e ∈ Ttl.flat (expiry_map m) ∧ (now < e.1)%Z).
Proof.
  intros Hwf [= <- <-]. rewrite range_split by done. split_and!; [|done| |].
  - eapply StronglySorted_sublist; [|exact Hwf]. apply fmap_sublist, sublist_filter.
  - intros [t k]. unfold Ttl.range_to. rewrite !elem_of_flat. setoid_rewrite list_elem_of_filter. naive_solver.
  - intros [t k]. cbn. rewrite !elem_of_flat. setoid_rewrite list_elem_of_filter. naive_solver.
Qed.

Lemma extend_loop_keys now factor entries : ∀ m0 m,
  Ttl.extend_loop now factor entries m0 = Ok m →
  ∀ t k, (t, k) ∈ Ttl.flat m → (t, k) ∈ Ttl.flat m0 ∨ ∃ t', (t', k) ∈ entries.
Proof.
  induction entries as [|[t0 k0] entries IH]; intros m0 m Hl t k Hin; cbn [Ttl.extend_loop] in Hl.
  { injection Hl as <-. by left. }
  apply bind_Ok_inv in Hl as (x & _ & (t1 & _ & Hl)%bind_Ok_inv).
  destruct (IH _ _ Hl t k Hin) as [Hin'|(t' & Ht')]; [|right; exists t'; by constructor].
  apply flat_push in Hin' as [[= -> ->]|?]; [right; exists t0; by constructor|by left].
Qed.

Lemma filter_flat_length (P : Z * bytes → Prop) `{!∀ x, Decision (P x)} (Q : Z * list bytes → Prop)
    `{!∀ x, Decision (Q x)} m :
  length (filter P (Ttl.flat (filter Q m))) ≤ length (filter P (Ttl.flat m)).
Proof.
  induction m as [|e m IH]; [done|].
  assert (∀ m', Ttl.flat (e :: m') = ((λ k, (e.1, k)) <$> e.2) ++ Ttl.flat m') as Hcons by done.
  rewrite filter_cons, (Hcons m), filter_app, length_app.
  case_decide; [rewrite Hcons, filter_app, length_app|]; lia.
Qed.

(** ** Groups *)
Lemma group_by_lookup l g :
  default [] (Ttl.group_by l !! g) = filter (λ e, Ttl.group_of e.2 = g) l.
Proof.
  unfold Ttl.group_by. induction l as [|e l IH] using rev_ind; [done|].
  rewrite foldl_app, filter_app, filter_cons, filter_nil. cbn [foldl].
  destruct (decide (Ttl.group_of e.2 = g)) as [<-|Hne].
  - by rewrite lookup_insert_eq, <- IH.
  - by rewrite lookup_insert_ne, app_nil_r.
Qed.

Definition slash_free (k : bytes) : Prop := find_byte Ttl.is_slash k = None.
Lemma group_of_slash_free k : slash_free k → Ttl.group_of k = k.
Proof. intros Hk. unfold Ttl.group_of. rewrite Hk. cbn. by apply take_ge. Qed.

Lemma keep_last_n_all {GO : GroupOrder} c n es :
  evict_strategy c = KeepLastN n → Forall (λ e, slash_free e.2) es →
  (∀ k, length (filter (λ e, e.2 = k) es) ≤ n) → Ttl.apply_eviction_strategy c es = [].
Proof.
  intros Hc Hsf Hn. unfold Ttl.apply_eviction_strategy. rewrite Hc.
  assert (∀ g, g ∈ group_iter (Ttl.group_by es) → length g.2 ≤ n) as Hlen.
  { intros [g l]. rewrite group_iter_perm, elem_of_map_to_list. intros Hl. cbn.
    pose proof (group_by_lookup es g) as Hg. rewrite Hl in Hg. cbn in Hg. rewrite Hg.
    etrans; [|apply (Hn g)]. clear -Hsf. induction Hsf as [|e es He _ IH]; [done|].
    rewrite !filter_cons, (group_of_slash_free _ He). case_decide; cbn; lia. }
  induction (group_iter (Ttl.group_by es)) as [|g l IH]; [done|]. cbn.
  rewrite drop_ge by (rewrite sort_by_perm; apply Hlen; constructor). cbn.
  apply IH. intros g' Hg'. apply Hlen. by constructor.
Qed.

(** * Deletion of expired documents *)
Section Cleanup.
Context {AM : Automerge} {AML : AutomergeLaws} {RD : Redb} {RDL : RedbLaws}
  {LR : Lru doc} {LRL : LruLaws doc} {GO : GroupOrder}.
Implicit Types s : AutomergeStore.

Lemma delete_keys_ok keys : ∀ n s r s',
  Ttl.delete_keys keys n s = (r, s') → store_ok s →
  store_ok s' ∧ ∃ some, some `prefix_of` keys ∧ contents s' = remove_keys some (contents s)
    ∧ ((some = keys ∧ r = Ok (n + length keys)) ∨ r = Err DatabaseError).
Proof.
  induction keys as [|k keys IH]; intros n s r s' Hr Hok.
  { injection Hr as <- <-. split; [done|]. exists []. rewrite remove_keys_nil.
    split_and!; [done|done|left; split; [done|]]. f_equal. cbn. lia. }
  cbn [Ttl.delete_keys] in Hr.
  apply stm_bind_inv in Hr as [([] & s1 & Hg & Hr)|[(e & s1 & Hg & [= -> ->])|(s1 & Hg & [= -> ->])]];
    destruct (delete_doc_ok _ _ _ _ Hg Hok) as [(Heq & Hok1 & Hc & _)|[Heq Hs]]; try done.
  - destruct (IH (S n) s1 r s' Hr Hok1) as (Hok' & some & Hp & Hcs & Hres). split; [done|].
    exists (k :: some). rewrite remove_keys_cons, <- Hc. split_and!; [by apply prefix_cons|done|].
    destruct Hres as [[-> ->]|]; [left; split; [done|]|by right]. f_equal. cbn. lia.
  - subst. split; [done|]. exists []. rewrite remove_keys_nil. injection Heq as ->.
    split_and!; [apply prefix_nil|done|by right].
Qed.

Definition deletes_all (c : TtlConfig) : Prop :=
  match evict_strategy c with KeepLastN _ => False | _ => True end.

Lemma strategy_perm c es : deletes_all c → Ttl.apply_eviction_strategy c es ≡ₚ es.*2.
Proof.
  unfold deletes_all, Ttl.apply_eviction_strategy. destruct (evict_strategy c); try done.
  intros _. by rewrite sort_by_perm.
Qed.


(** A refresh does not extend a document's life: [put_with_ttl] schedules a new
    expiry and keeps the old one, so the first successful cleanup after the first
    deadline deletes the document, although it was rewritten since and its own
    deadline has not come. *)
Theorem refreshed_document_expires_early key d1 d2 m s t0 t1 ttl m1 s1 m2 s2 now m3 act n s3 :
  ttl_wf m → deletes_all (ttl_config m) → store_ok s → is_Some (db s) → utf8_valid key = true →
  Config.get_collection_ttl (ttl_config m) (Ttl.ttl_collection key) = Some ttl →
  Ttl.put_with_ttl key d1 m t0 s = (Ok m1, s1) → Ttl.put_with_ttl key d2 m1 t1 s1 = (Ok m2, s2) →
  (t0 + ttl ≤ now < t1 + ttl)%Z →
  Ttl.cleanup_expired m2 now = (m3, act) → act s2 = (Ok n, s3) →
  contents s2 !! key ≡ Some d2 ∧ contents s3 !! key = None
  ∧ ((t1 + ttl)%Z, key) ∈ Ttl.flat (expiry_map m3).
Proof using AML.
  intros Hwf Hall Hok [d0 Hdb] Hk Hcoll Hp1 Hp2 Hnow Hcl Hact.
  apply stm_bind_Ok_inv in Hp1 as ([] & s1' & Hput1 & Hset1). rewrite Hcoll in Hset1.
  injection Hset1 as Hset1 ->. destruct (set_ttl_wf _ _ _ _ _ Hset1 Hwf) as (Hwf1 & Hc1 & He1).
  destruct (put_inner_ok key d1 true s _ s1 Hput1 Hok) as [(_ & Hok1 & _ & _ & _ & Hdb1)|[? _]];
    [by unfold room; rewrite Hdb|done| |done].
  apply stm_bind_Ok_inv in Hp2 as ([] & s2' & Hput2 & Hset2). rewrite Hc1, Hcoll in Hset2.
  injection Hset2 as Hset2 ->. destruct (set_ttl_wf _ _ _ _ _ Hset2 Hwf1) as (Hwf2 & Hc2 & He2).
  destruct (put_inner_ok key d2 true s1 _ s2 Hput2 Hok1) as [(_ & Hok2 & Hcs & _)|[? _]];
    [unfold room; rewrite Hdb1, Hdb; done|done| |done].
  unfold Ttl.cleanup_expired in Hcl.
  destruct (Ttl.take_expired m2 now) as [es m3'] eqn:Ht. injection Hcl as <- <-.
  destruct (take_expired_ok _ _ _ _ Hwf2 Ht) as (_ & _ & Hes & Hm3).
  destruct (delete_keys_ok _ _ _ _ _ Hact Hok2) as (_ & some & _ & Hc3 & [[-> _]|?]); [|done].
  split_and!.
  - specialize (Hcs key). by rewrite lookup_insert_eq in Hcs.
  - rewrite Hc3, lookup_remove_keys, decide_True; [done|]. rewrite strategy_perm by congruence.
    apply list_elem_of_fmap. exists ((t0 + ttl)%Z, key). split; [done|]. apply Hes.
    rewrite He2, He1. split; [auto|cbn; lia].
  - apply Hm3. rewrite He2. split; [auto|cbn; lia].
Qed.

(** [KeepLastN] groups keys by the text before [/], but the keys of the typed
    collections are [collection:id]: every key is then its own group, and unless a
    single key has more than [n] expired entries, a cleanup deletes nothing at all
    and still forgets the expired entries, so the documents stay forever. *)
Theorem keep_last_n_never_deletes m now n s :
  ttl_wf m → evict_strategy (ttl_config m) = KeepLastN n →
  Forall (λ e, slash_free e.2) (Ttl.flat (expiry_map m)) →
  (∀ k, length (filter (λ e, e.2 = k) (Ttl.flat (expiry_map m))) ≤ n) →
  ∃ m' act, Ttl.cleanup_expired m now = (m', act) ∧ act s = (Ok 0, s)
    ∧ ∀ e, e ∈ Ttl.flat (expiry_map m') → (now < e.1)%Z.
Proof.
  intros Hwf Hc Hsf Hn. unfold Ttl.cleanup_expired.
  destruct (Ttl.take_expired m now) as [es m'] eqn:Ht.
  destruct (take_expired_ok _ _ _ _ Hwf Ht) as (_ & _ & Hes & Hm').
  exists m', (Ttl.delete_keys (Ttl.apply_eviction_strategy (ttl_config m) es) 0). split_and!; [done| |].
  - rewrite (keep_last_n_all _ n); [done|done| |].
    + rewrite Forall_forall in Hsf |- *. intros e [He _]%Hes. by apply Hsf.
    + intros k. etrans; [|apply (Hn k)]. injection Ht as <- _. rewrite range_split by done.
      apply filter_flat_length.
  - intros e [_ He]%Hm'. done.
Qed.

(** Expired entries leave the map before their documents are deleted: when the
    first deletion fails, the documents stay and no entry is left to delete them
    later.  Extending the TTLs of an offline node likewise drops every entry that
    has expired but was not yet cleaned up. *)
Theorem expired_entries_lost m now :
  ttl_wf m →
  (∀ m' act s e, Ttl.cleanup_expired m now = (m', act) →
     act s = (Err e, s) → ∀ x, x ∈ Ttl.flat (expiry_map m') → (now < x.1)%Z)
  ∧ (∀ policy m' k, offline_policy (ttl_config m) = Some policy →
       Ttl.extend_ttls_for_offline m now = Ok m' →
       (∀ t, (t, k) ∈ Ttl.flat (expiry_map m) → (t ≤ now)%Z) →
       m' = m ∨ ∀ t, (t, k) ∉ Ttl.flat (expiry_map m')).
Proof.
  intros Hwf. split.
  - intros m' act s e Hcl _ x Hx. unfold Ttl.cleanup_expired in Hcl.
    destruct (Ttl.take_expired m now) as [es m1] eqn:Ht. injection Hcl as <- _.
    destruct (take_expired_ok _ _ _ _ Hwf Ht) as (_ & _ & _ & Hm'). by apply Hm' in Hx as [_ ?].
  - intros policy m' k Hp Hext Hold. unfold Ttl.extend_ttls_for_offline in Hext. rewrite Hp in Hext.
    destruct (_ || _); [injection Hext as <-; by left|]. cbv zeta in Hext.
    destruct (fle _ _); [injection Hext as <-; by left|]. right. intros t Hin.
    apply bind_Ok_inv in Hext as (e & Hloop & [= <-]). cbn in Hin.
    destruct (extend_loop_keys _ _ _ _ _ Hloop t k Hin) as [[]%not_elem_of_nil|[t' Ht']].
    rewrite elem_of_flat in Ht'. setoid_rewrite list_elem_of_filter in Ht'.
    destruct Ht' as (ks & [Hlt Hks] & Hk). cbn in Hlt.
    specialize (Hold t'). rewrite elem_of_flat in Hold. assert (t' ≤ now)%Z; [eauto|lia].
Qed.
End Cleanup.

(** * Concrete runs *)
#[export] Instance toy_group_order : GroupOrder := {|
  group_iter := map_to_list; group_iter_perm g := reflexivity _
|}.
Definition toy_manager (c : TtlConfig) : TtlManager :=
  {| ttl_config := c; expiry_map := [(10, [str "notes:1"]); (20, [str "notes:2"])]%Z |}.
Lemma toy_manager_wf c : ttl_wf (toy_manager c).
Proof. repeat constructor. Qed.


Definition ok_of {S E A} (d : A) (r : outcome E A * S) : A :=
  match r.1 with Ok a => a | _ => d end.
Definition beacon : bytes := str "beacons:1".
Definition manager0 : TtlManager := Ttl.new Config.tactical.
Definition write1 : outcome StoreError TtlManager * AutomergeStore :=
  Ttl.put_with_ttl beacon toy_note manager0 0 note_store.
Definition write2 : outcome StoreError TtlManager * AutomergeStore :=
  Ttl.put_with_ttl beacon toy_note (ok_of manager0 write1) (from_secs 200) write1.2.
Definition cleaned : outcome StoreError nat * AutomergeStore :=
  snd (Ttl.cleanup_expired (ok_of manager0 write2) (from_secs 300)) write2.2.

Lemma refreshed_document_expires_early_witness :
  contents write2.2 !! beacon ≡ Some toy_note ∧ contents cleaned.2 !! beacon = None.
Proof.
  destruct (refreshed_document_expires_early beacon toy_note toy_note manager0 note_store
    0 (from_secs 200) (from_secs 300) (ok_of manager0 write1) write1.2 (ok_of manager0 write2) write2.2
    (from_secs 300) (fst (Ttl.cleanup_expired (ok_of manager0 write2) (from_secs 300)))
    (snd (Ttl.cleanup_expired (ok_of manager0 write2) (from_secs 300))) (ok_of 0 cleaned) cleaned.2)
    as (H1 & H2 & _).
  - constructor.
  - exact I.
  - exact toy_one_ok.
  - done.
  - done.
  - done.
  - vm_eq.
  - vm_eq.
  - unfold from_secs. lia.
  - apply surjective_pairing.
  - vm_eq.
  - split; [exact H1|exact H2].
Defined.

Lemma keep_last_n_never_deletes_witness :
  ∃ m' act, Ttl.cleanup_expired (toy_manager Config.offline_node) 15 = (m', act)
    ∧ act note_store = (Ok 0, note_store) ∧ ∀ e, e ∈ Ttl.flat (expiry_map m') → (15 < e.1)%Z.
Proof.
  apply (keep_last_n_never_deletes (toy_manager Config.offline_node) 15 10).
  - apply toy_manager_wf.
  - reflexivity.
  - repeat constructor.
  - intros k. change (Ttl.flat _) with [(10, str "notes:1"); (20, str "notes:2")]%Z.
    rewrite !filter_cons, filter_nil. repeat case_decide; cbn; lia.
Defined.

Lemma expired_entries_lost_witness :
  ∃ m', Ttl.extend_ttls_for_offline (toy_manager Config.tactical) 15 = Ok m'
    ∧ ∀ t, (t, str "notes:1") ∉ Ttl.flat (expiry_map m').
Proof.
  destruct (expired_entries_lost (toy_manager Config.tactical) 15 (toy_manager_wf _)) as [_ Hext].
  destruct (Ttl.extend_ttls_for_offline (toy_manager Config.tactical) 15) as [m'| |] eqn:He;
    [|vm_compute in He; discriminate..].
  exists m'. split; [reflexivity|].
  destruct (Hext {| online_ttl := from_secs 600; offline_ttl := from_secs 60; keep_last_n := 10 |}
    m' (str "notes:1") eq_refl eq_refl) as [->|Hno]; [| |exact Hno].
  - intros t. rewrite elem_of_flat. cbn. intros (ks & [[= -> ->]|[[= -> ->]|[]%not_elem_of_nil]%elem_of_cons]%elem_of_cons & Hk).
    + lia.
    + apply list_elem_of_singleton in Hk. discriminate.
  - vm_compute in He. discriminate.
Defined.
