(* ===== verification/Qos.v ===== *)
(** Quality of service ([src/qos/mod.rs], [retention.rs], [lifecycle.rs]): priority
    classes, retention policies and lifecycle decisions. *)
From Stdlib Require Import ZArith Lia SpecFloat Strings.Byte Strings.String.
From stdpp Require Import prelude gmap countable.
From S2P Require Import Prelude Wire Float Ttl.

Set Default Proof Using "Type".
#[local] Open Scope Z_scope.

(** * Priority classes *)
Inductive QoSClass := Critical | High | Normal | Low | Bulk.
#[export] Instance QoSClass_eq_dec : EqDecision QoSClass.
Proof. solve_decision. Defined.

Module Class.
Definition as_u8 (c : QoSClass) : Z :=
  match c with Critical => 1 | High => 2 | Normal => 3 | Low => 4 | Bulk => 5 end.
Definition can_preempt (c other : QoSClass) : bool := bool_decide (as_u8 c < as_u8 other).
Definition bandwidth_allocation_percent (c : QoSClass) : Z :=
  match c with Critical => 40 | High => 30 | Normal => 20 | Low => 8 | Bulk => 2 end.
Definition for_collection (c : bytes) : QoSClass :=
  if decide (c = str "commands" ∨ c = str "contact_reports" ∨ c = str "alerts") then Critical
  else if decide (c = str "cells" ∨ c = str "nodes" ∨ c = str "audit_logs") then High
  else if decide (c = str "beacons" ∨ c = str "platforms" ∨ c = str "tracks") then Normal
  else if decide (c = str "node_positions" ∨ c = str "capabilities" ∨ c = str "node_states") then Low
  else Bulk.
Definition all_by_priority : list QoSClass := [Critical; High; Normal; Low; Bulk].
Definition of_u8 (z : Z) : QoSClass :=
  match z with 1 => Critical | 2 => High | 3 => Normal | 4 => Low | _ => Bulk end.
Lemma of_as_u8 c : of_u8 (as_u8 c) = c.
Proof. by destruct c. Qed.
End Class.
#[export] Instance QoSClass_countable : Countable QoSClass :=
  inj_countable' Class.as_u8 Class.of_u8 Class.of_as_u8.

Record QoSPolicy := {
  base_class : QoSClass;
  max_latency_ms : option Z;
  max_size_bytes : option Z;
  ttl_seconds : option Z;
  retention_priority : Z;
  preemptable : bool
}.
Module Policies.
Definition default_policy : QoSPolicy := {|
  base_class := Normal; max_latency_ms := Some 60000; max_size_bytes := None; ttl_seconds := None;
  retention_priority := 3; preemptable := true |}.
Definition critical : QoSPolicy := {|
  base_class := Critical; max_latency_ms := Some 500; max_size_bytes := Some (64 * 1024);
  ttl_seconds := None; retention_priority := 5; preemptable := false |}.
Definition high : QoSPolicy := {|
  base_class := High; max_latency_ms := Some 5000; max_size_bytes := Some (10 * 1024 * 1024);
  ttl_seconds := Some 3600; retention_priority := 4; preemptable := true |}.
Definition low : QoSPolicy := {|
  base_class := Low; max_latency_ms := Some 300000; max_size_bytes := None;
  ttl_seconds := Some 86400; retention_priority := 2; preemptable := true |}.
Definition bulk : QoSPolicy := {|
  base_class := Bulk; max_latency_ms := None; max_size_bytes := None;
  ttl_seconds := Some 604800; retention_priority := 1; preemptable := true |}.
Definition exceeds_latency (p : QoSPolicy) (latency_ms : Z) : bool :=
  match max_latency_ms p with Some m => bool_decide (m < latency_ms) | None => false end.
Definition exceeds_size (p : QoSPolicy) (size : Z) : bool :=
  match max_size_bytes p with Some m => bool_decide (m < size) | None => false end.
End Policies.

(** * Retention *)
Record RetentionPolicy := {
  qos_class : QoSClass;
  min_retain_seconds : Z;
  max_retain_seconds : Z;
  eviction_priority : Z;
  compression_eligible : bool
}.

(** An [f32] literal in hundredths: both operands are exact and the division rounds
    to nearest. *)
Definition pct (n : Z) : float := F32.div (F32.of_Z n) (F32.of_Z 100).
(** The pressure above which a class may lose data. *)
Definition pressure_limit (c : QoSClass) : float :=
  match c with
  | Critical => S754_finite false 16777215 104 (* f32::MAX *) | High => pct 95 | Normal => pct 85 | Low => pct 75 | Bulk => pct 65
  end.

Module Retention.
Definition for_qos_class (c : QoSClass) : RetentionPolicy :=
  match c with
  | Critical => {| qos_class := c; min_retain_seconds := 7 * 24 * 3600; max_retain_seconds := umax 64;
                   eviction_priority := 5; compression_eligible := false |}
  | High => {| qos_class := c; min_retain_seconds := 24 * 3600; max_retain_seconds := 7 * 24 * 3600;
               eviction_priority := 4; compression_eligible := true |}
  | Normal => {| qos_class := c; min_retain_seconds := 3600; max_retain_seconds := 24 * 3600;
                 eviction_priority := 3; compression_eligible := true |}
  | Low => {| qos_class := c; min_retain_seconds := 300; max_retain_seconds := 3600;
              eviction_priority := 2; compression_eligible := true |}
  | Bulk => {| qos_class := c; min_retain_seconds := 60; max_retain_seconds := 300;
               eviction_priority := 1; compression_eligible := true |}
  end.
Definition custom (c : QoSClass) (min_retain max_retain priority : Z) (compress : bool)
    : RetentionPolicy := {|
  qos_class := c; min_retain_seconds := min_retain; max_retain_seconds := max_retain;
  eviction_priority := Z.max 1 (Z.min priority 5); compression_eligible := compress |}.
Definition should_retain (p : RetentionPolicy) (age : Z) (pressure : float) : bool :=
  if decide (age < min_retain_seconds p) then true
  else if decide (max_retain_seconds p < age) then false
  else match qos_class p with
       | Critical => true
       | c => flt pressure (pressure_limit c)
       end.
Definition should_evict (p : RetentionPolicy) (age : Z) (pressure : float) : bool :=
  negb (should_retain p age pressure).
Definition should_compress (p : RetentionPolicy) (pressure : float) : bool :=
  compression_eligible p && fgt pressure (pct 70).
End Retention.

(** [[RetentionPolicy; 5]], indexed by class. *)
Record RetentionPolicies := { policies : QoSClass → RetentionPolicy }.
Module RetentionTable.
Definition default_tactical : RetentionPolicies := {| policies := Retention.for_qos_class |}.
Definition storage_constrained : RetentionPolicies := {| policies := λ c,
  match c with
  | Critical => Retention.for_qos_class Critical
  | High => Retention.custom High (12 * 3600) (3 * 24 * 3600) 4 true
  | Normal => Retention.custom Normal (30 * 60) (12 * 3600) 3 true
  | Low => Retention.custom Low 120 (30 * 60) 2 true
  | Bulk => Retention.custom Bulk 30 120 1 true
  end |}.
Definition get (t : RetentionPolicies) (c : QoSClass) : RetentionPolicy := policies t c.
Definition eviction_candidates (t : RetentionPolicies) (pressure : float) : list QoSClass :=
  filter (λ c, let p := get t c in
               let age := if fgt pressure (pct 90) then min_retain_seconds p + 1
                          else max_retain_seconds p / 2 in
               Retention.should_evict p age pressure = true)
    [Bulk; Low; Normal; High].
End RetentionTable.

(** * Lifecycle *)
Record LifecyclePolicy := {
  qos_policy : QoSPolicy;
  life_ttl_seconds : option Z;
  soft_delete_after_seconds : option Z;
  use_soft_delete : bool
}.
Inductive LifecycleDecision := Retain | SoftDelete | Evict | TtlExpired.

Module Lifecycle.
Definition for_qos_class (c : QoSClass) : LifecyclePolicy :=
  let qos := match c with
             | Critical => Policies.critical | High => Policies.high
             | Normal => Policies.default_policy | Low => Policies.low | Bulk => Policies.bulk
             end in
  let '(ttl, soft, use) :=
    match c with
    | Critical => (None, None, false)
    | High => (Some (7 * 24 * 3600), Some (24 * 3600), false)
    | Normal => (Some (24 * 3600), Some 3600, false)
    | Low => (Some 3600, Some 300, true)
    | Bulk => (Some 300, Some 60, true)
    end in
  {| qos_policy := qos; life_ttl_seconds := ttl; soft_delete_after_seconds := soft;
     use_soft_delete := use |}.
Definition from_qos_and_ttl (q : QoSPolicy) (c : TtlConfig) : LifecyclePolicy :=
  let use := match base_class q with Low | Bulk => true | _ => false end in
  {| qos_policy := q; life_ttl_seconds := ttl_seconds q;
     soft_delete_after_seconds := if use then Some (position_ttl c / 1000000000) else None;
     use_soft_delete := use |}.

Definition custom (q : QoSPolicy) (ttl soft : option Z) (use : bool) : LifecyclePolicy := {|
  qos_policy := q; life_ttl_seconds := (λ d, d / 1000000000) <$> ttl;
  soft_delete_after_seconds := (λ d, d / 1000000000) <$> soft; use_soft_delete := use |}.

Definition should_evict (p : LifecyclePolicy) (age : Z) (pressure : float) : bool :=
  let c := base_class (qos_policy p) in
  if decide (c = Critical) then false
  else if match life_ttl_seconds p with Some ttl => bool_decide (ttl < age) | None => false end then true
  else fgt pressure (pressure_limit c)
       && bool_decide (min_retain_seconds (Retention.for_qos_class c) ≤ age).
Definition should_soft_delete (p : LifecyclePolicy) (age : Z) : bool :=
  use_soft_delete p
  && match soft_delete_after_seconds p with Some t => bool_decide (t < age) | None => false end.
Definition should_retain (p : LifecyclePolicy) (age : Z) (pressure : float) : bool :=
  negb (should_evict p age pressure).
Definition has_infinite_retention (p : LifecyclePolicy) : bool :=
  bool_decide (base_class (qos_policy p) = Critical) || bool_decide (life_ttl_seconds p = None).

(** [LifecyclePolicies]: a policy per class. *)
Definition from_ttl_config (t : TtlConfig) (c : QoSClass) : LifecyclePolicy :=
  match c with
  | Critical => custom Policies.critical None None false
  | High => custom Policies.high (Some (from_secs (7 * 24 * 3600))) (Some (from_secs (24 * 3600))) false
  | Normal => custom Policies.default_policy (Some (from_secs (24 * 3600))) (Some (from_secs 3600)) false
  | Low => custom Policies.low (Some (position_ttl t))
             (Some (from_secs (position_ttl t / 1000000000 / 2))) true
  | Bulk => custom Policies.bulk (Some (from_secs 300)) (Some (from_secs 60)) true
  end.

Definition make_lifecycle_decision (p : LifecyclePolicy) (age : Z) (pressure : float)
    : LifecycleDecision :=
  if match life_ttl_seconds p with
     | Some ttl => bool_decide (ttl < age ∧ base_class (qos_policy p) ≠ Critical)
     | None => false
     end then TtlExpired
  else if should_soft_delete p age then SoftDelete
  else if should_evict p age pressure then Evict
  else Retain.
Definition removes_data (d : LifecycleDecision) : bool :=
  match d with Evict | TtlExpired => true | _ => false end.

(** Critical data is never removed: a policy of the critical class never evicts
    and no lifecycle decision removes the data, at any age and pressure (NaN included)
    and whatever its time to live; nor do the retention tables evict it. *)
Theorem critical_data_is_kept p t age pressure :
  base_class (qos_policy p) = Critical →
  t ∈ [RetentionTable.default_tactical; RetentionTable.storage_constrained] → in_u 64 age →
  should_evict p age pressure = false
  ∧ removes_data (make_lifecycle_decision p age pressure) = false
  ∧ Retention.should_evict (RetentionTable.get t Critical) age pressure = false.
Proof.
  intros Hc Ht [_ Ha]. assert (should_evict p age pressure = false) as He.
  { unfold should_evict. by rewrite decide_True. }
  split_and!; [done| |].
  - unfold make_lifecycle_decision. rewrite He.
    assert (match life_ttl_seconds p with
            | Some ttl => bool_decide (ttl < age ∧ base_class (qos_policy p) ≠ Critical)
            | None => false
            end = false) as -> by (destruct (life_ttl_seconds p); [apply bool_decide_eq_false; naive_solver|done]).
    by destruct (should_soft_delete p age).
  - assert (RetentionTable.get t Critical = Retention.for_qos_class Critical) as ->.
    { apply elem_of_cons in Ht as [->|Ht%list_elem_of_singleton]; [done|by subst]. }
    unfold Retention.should_evict, Retention.should_retain. cbn [Retention.for_qos_class min_retain_seconds max_retain_seconds qos_class].
    case_decide; [done|]. case_decide as Hm; [|done]. unfold umax in Hm. lia.
Qed.

(** Storage pressure hardly evicts low-priority data: with the default policies
    of the two lowest classes the soft-delete check comes first, so that a decision
    is [Evict] only in the single second of the minimum retention time; every older
    document is soft-deleted, however high the pressure, until its time to live ends. *)
Theorem low_priority_eviction_window c age pressure :
  c ∈ [Low; Bulk] →
  let m := min_retain_seconds (Retention.for_qos_class c) in
  (make_lifecycle_decision (for_qos_class c) age pressure = Evict
   ↔ age = m ∧ fgt pressure (pressure_limit c) = true)
  ∧ (∀ ttl, life_ttl_seconds (for_qos_class c) = Some ttl → m < age ≤ ttl →
     make_lifecycle_decision (for_qos_class c) age pressure = SoftDelete).
Proof.
  intros Hc. assert (c = Low ∨ c = Bulk) as [-> | ->] by set_solver.
  all: unfold make_lifecycle_decision, should_soft_delete, should_evict.
  all: cbn [for_qos_class life_ttl_seconds qos_policy Policies.low Policies.bulk base_class
            use_soft_delete soft_delete_after_seconds Retention.for_qos_class min_retain_seconds andb].
  all: rewrite (decide_False (P := _ = Critical)) by done.
  all: split; [|intros ttl [= <-] Ha; rewrite bool_decide_false, bool_decide_true by lia; done].
  all: repeat match goal with |- context [bool_decide ?P] => destruct (bool_decide_reflect P) end.
  all: destruct (fgt pressure _); cbn [andb]; split; try done; intros; try lia.
  all: destruct_and?; try done; try lia.
Qed.
End Lifecycle.

(** Ten years old, storage full. *)
Lemma critical_data_is_kept_witness :
  Lifecycle.should_evict (Lifecycle.for_qos_class Critical) 315360000 (pct 100) = false
  ∧ Lifecycle.removes_data
      (Lifecycle.make_lifecycle_decision (Lifecycle.for_qos_class Critical) 315360000 (pct 100)) = false
  ∧ Retention.should_evict (RetentionTable.get RetentionTable.storage_constrained Critical)
      315360000 (pct 100) = false.
Proof.
  apply (Lifecycle.critical_data_is_kept (Lifecycle.for_qos_class Critical)
           RetentionTable.storage_constrained); [done|set_solver|by vm_compute].
Defined.
Lemma low_priority_eviction_window_witness :
  Lifecycle.make_lifecycle_decision (Lifecycle.for_qos_class Bulk) 60 (pct 99) = Evict
  ∧ Lifecycle.make_lifecycle_decision (Lifecycle.for_qos_class Bulk) 61 (pct 99) = SoftDelete.
Proof.
  split.
  - apply (Lifecycle.low_priority_eviction_window Bulk 60 (pct 99)); [set_solver|by vm_compute].
  - apply (Lifecycle.low_priority_eviction_window Bulk 61 (pct 99)) with (ttl := 300); [set_solver|done|].
    by vm_compute.
Defined.
