(* ===== verification/Bandwidth.v ===== *)
(** Bandwidth allocation ([src/qos/bandwidth.rs]): a token bucket for the link and a
    quota per class, in bits and bits per second.  Atomic counters wrap; other
    arithmetic panics or wraps with the build [profile].  Times are nanoseconds. *)
From Stdlib Require Import ZArith Lia SpecFloat Strings.Byte Strings.String.
From stdpp Require Import prelude gmap.
From S2P Require Import Prelude Wire Float Qos.

Set Default Proof Using "Type".
#[local] Open Scope Z_scope.

Record TokenBucket := { tokens : float; capacity : float; refill_rate : float; last_refill : Z }.

Module Bucket.
Definition new (capacity_bps now : Z) : TokenBucket := {|
  tokens := F64.of_Z capacity_bps; capacity := F64.of_Z capacity_bps;
  refill_rate := F64.of_Z capacity_bps; last_refill := now |}.
Definition refill (b : TokenBucket) (now : Z) : TokenBucket :=
  let elapsed := F64.as_secs_f64 (saturating_sub now (last_refill b)) in
  if fgt elapsed (F64.of_Z 0) then {|
    tokens := fmin (F64.add (tokens b) (F64.mul elapsed (refill_rate b))) (capacity b);
    capacity := capacity b; refill_rate := refill_rate b; last_refill := now |}
  else b.
Definition try_consume (b : TokenBucket) (bits now : Z) : TokenBucket * bool :=
  let b := refill b now in
  let bits := F64.of_Z bits in
  if fle bits (tokens b) then
    ({| tokens := F64.sub (tokens b) bits; capacity := capacity b; refill_rate := refill_rate b;
        last_refill := last_refill b |}, true)
  else (b, false).
Definition available (b : TokenBucket) (now : Z) : TokenBucket * Z :=
  let b := refill b now in (b, as_u 64 (tokens b)).
End Bucket.

Record BandwidthQuota := {
  min_guaranteed_bps : Z;
  max_burst_bps : Z;
  preemption_enabled : bool;
  current_usage_bps : Z;
  bytes_consumed : Z;
  window_start : Z
}.

Module Quota.
Definition new (min max : Z) (preempt : bool) (now : Z) : BandwidthQuota := {|
  min_guaranteed_bps := min; max_burst_bps := max; preemption_enabled := preempt;
  current_usage_bps := 0; bytes_consumed := 0; window_start := now |}.
Definition set_usage (q : BandwidthQuota) (usage consumed start : Z) : BandwidthQuota := {|
  min_guaranteed_bps := min_guaranteed_bps q; max_burst_bps := max_burst_bps q;
  preemption_enabled := preemption_enabled q; current_usage_bps := usage;
  bytes_consumed := consumed; window_start := start |}.

Definition record_usage {E} (p : profile) (q : BandwidthQuota) (size now : Z)
    : outcome E BandwidthQuota :=
  _ ← checked p 64 (size * 8);
  let consumed := wrap 64 (bytes_consumed q + size) in
  let elapsed := saturating_sub now (window_start q) in
  if decide (from_secs 1 ≤ elapsed) then
    bits_in_window ← checked p 64 (consumed * 8);
    Ok (set_usage q bits_in_window size now)
  else
    let elapsed_secs := fmax (F64.as_secs_f64 elapsed) (F64.div (F64.of_Z 1) (F64.of_Z 1000)) in
    bits_so_far ← checked p 64 (consumed * 8);
    Ok (set_usage q (as_u 64 (F64.div (F64.of_Z bits_so_far) elapsed_secs)) consumed (window_start q)).

Definition can_transmit {E} (p : profile) (q : BandwidthQuota) (size : Z) : outcome E bool :=
  additional_bits ← checked p 64 (size * 8);
  total ← checked p 64 (current_usage_bps q + additional_bits);
  Ok (bool_decide (total ≤ max_burst_bps q)).
Definition within_guaranteed (q : BandwidthQuota) : bool :=
  bool_decide (current_usage_bps q < min_guaranteed_bps q).
Definition utilization (q : BandwidthQuota) : float :=
  F64.div (F64.of_Z (current_usage_bps q)) (F64.of_Z (min_guaranteed_bps q)).
End Quota.

Record BandwidthAllocation := {
  total_bandwidth_bps : Z;
  quotas : gmap QoSClass BandwidthQuota;
  bucket : TokenBucket;
  active_permits : Z
}.

Record QuotaConfig := {
  min_guaranteed_percent : Z;
  max_burst_percent : Z;
  config_preemption : bool
}.
Record BandwidthConfig := { config_total_bps : Z; config_quotas : gmap QoSClass QuotaConfig }.

Module Allocation.
Section allocation.
Context {E : Type}.
Implicit Types a : BandwidthAllocation.

Definition share (p : profile) (total percent : Z) : outcome E Z :=
  x ← checked p 64 (total * percent); Ok (x / 100).
Definition new_quota (p : profile) (total min max : Z) (preempt : bool) (now : Z)
    : outcome E BandwidthQuota :=
  lo ← share p total min; hi ← share p total max; Ok (Quota.new lo hi preempt now).
Definition new (p : profile) (total now : Z) : outcome E BandwidthAllocation :=
  q1 ← new_quota p total 20 80 true now;
  q2 ← new_quota p total 30 60 true now;
  q3 ← new_quota p total 20 40 false now;
  q4 ← new_quota p total 15 30 false now;
  q5 ← new_quota p total 5 20 false now;
  Ok {| total_bandwidth_bps := total;
        quotas := <[Bulk := q5]> (<[Low := q4]> (<[Normal := q3]> (<[High := q2]> {[Critical := q1]})));
        bucket := Bucket.new total now; active_permits := 0 |}.
Definition default_tactical (p : profile) (now : Z) : outcome E BandwidthAllocation := new p 1000000 now.

Definition set_bucket a (b : TokenBucket) : BandwidthAllocation := {|
  total_bandwidth_bps := total_bandwidth_bps a; quotas := quotas a; bucket := b;
  active_permits := active_permits a |}.
Definition set_quota a (c : QoSClass) (q : BandwidthQuota) : BandwidthAllocation := {|
  total_bandwidth_bps := total_bandwidth_bps a; quotas := <[c := q]> (quotas a); bucket := bucket a;
  active_permits := active_permits a |}.
Definition add_permits a (d : Z) : BandwidthAllocation := {|
  total_bandwidth_bps := total_bandwidth_bps a; quotas := quotas a; bucket := bucket a;
  active_permits := wrap 64 (active_permits a + d) |}.

Definition can_transmit (p : profile) a (c : QoSClass) (size : Z) : outcome E bool :=
  match quotas a !! c with Some q => Quota.can_transmit p q size | None => Ok false end.

(** [acquire]; [locked] says that another task holds the bucket, in which case no
    tokens are taken. *)
Definition acquire (p : profile) (c : QoSClass) (size now : Z) (locked : bool)
    : stm BandwidthAllocation E bool := λ a,
  match quotas a !! c with
  | None => (Ok false, a)
  | Some q =>
      match Quota.can_transmit p q size with
      | Ok true =>
          match checked p 64 (size * 8) with
          | Ok bits =>
              if locked then (Ok true, add_permits a 1)
              else
                let '(b, taken) := Bucket.try_consume (bucket a) bits now in
                let a := set_bucket a b in
                if taken : bool then (Ok true, add_permits a 1) else (Ok false, a)
          | Err e => (Err e, a)
          | Panic => (Panic, a)
          end
      | Ok false => (Ok false, a)
      | Err e => (Err e, a)
      | Panic => (Panic, a)
      end
  end.
(** Dropping a permit. *)
Definition release a : BandwidthAllocation := add_permits a (-1).

Definition acquire_async (p : profile) (c : QoSClass) (size now : Z)
    : stm BandwidthAllocation E bool := λ a,
  match quotas a !! c with
  | None => (Ok false, a)
  | Some q =>
      match Quota.can_transmit p q size with
      | Ok true =>
          match Quota.record_usage p q size now with
          | Ok q =>
              let a := set_quota a c q in
              match checked p 64 (size * 8) with
              | Ok bits =>
                  let '(b, taken) := Bucket.try_consume (bucket a) bits now in
                  let a := set_bucket a b in
                  if taken : bool then (Ok true, add_permits a 1) else (Ok false, a)
              | Err e => (Err e, a)
              | Panic => (Panic, a)
              end
          | Err e => (Err e, a)
          | Panic => (Panic, a)
          end
      | Ok false => (Ok false, a)
      | Err e => (Err e, a)
      | Panic => (Panic, a)
      end
  end.

Definition preempt_lower a (c : QoSClass) : bool :=
  match quotas a !! c with
  | Some q =>
      preemption_enabled q
      && existsb (λ e, Class.can_preempt c e.1 && bool_decide (0 < current_usage_bps e.2))
           (map_to_list (quotas a))
  | None => false
  end.

(** [BandwidthConfig::build]; the order of the quotas does not show in the result. *)
Definition build_quota (p : profile) (total now : Z) (e : QoSClass * QuotaConfig)
    : outcome E (QoSClass * BandwidthQuota) :=
  q ← new_quota p total (min_guaranteed_percent e.2) (max_burst_percent e.2) (config_preemption e.2) now;
  Ok (e.1, q).
Definition build (p : profile) (c : BandwidthConfig) (now : Z) : outcome E BandwidthAllocation :=
  qs ← foldr (λ e rest, q ← build_quota p (config_total_bps c) now e; qs ← rest; Ok (q :: qs))
         (Ok []) (map_to_list (config_quotas c));
  Ok {| total_bandwidth_bps := config_total_bps c; quotas := list_to_map qs;
        bucket := Bucket.new (config_total_bps c) now; active_permits := 0 |}.
End allocation.
End Allocation.

(** [BandwidthConfig::validate]; [values] are the quotas in the order of the map. *)
Inductive ConfigError := GuaranteedExceeds | BurstBelowGuaranteed | BurstExceeds.
Module BandwidthConfigs.
Fixpoint sum_u8 (p : profile) (acc : Z) (l : list Z) : outcome ConfigError Z :=
  match l with
  | [] => Ok acc
  | z :: l => x ← checked p 8 (acc + z); sum_u8 p x l
  end.
Fixpoint check_quotas (l : list QuotaConfig) : outcome ConfigError unit :=
  match l with
  | [] => Ok tt
  | q :: l =>
      bail! bool_decide (max_burst_percent q < min_guaranteed_percent q) with BurstBelowGuaranteed;
      bail! bool_decide (100 < max_burst_percent q) with BurstExceeds;
      check_quotas l
  end.
Definition validate (p : profile) (values : list QuotaConfig) : outcome ConfigError unit :=
  total_guaranteed ← sum_u8 p 0 (min_guaranteed_percent <$> values);
  bail! bool_decide (100 < total_guaranteed) with GuaranteedExceeds;
  check_quotas values.
End BandwidthConfigs.

(** * Runs of the allocation *)
Inductive alloc_op := OpAcquire (c : QoSClass) (size now : Z) (locked : bool)
  | OpAcquireAsync (c : QoSClass) (size now : Z) | OpRelease.
Definition op_class (o : alloc_op) : option (QoSClass * Z) :=
  match o with OpAcquire c n _ _ | OpAcquireAsync c n _ => Some (c, n) | OpRelease => None end.
Definition run_op (p : profile) (o : alloc_op) : stm BandwidthAllocation Empty_set bool :=
  match o with
  | OpAcquire c n t l => Allocation.acquire p c n t l
  | OpAcquireAsync c n t => Allocation.acquire_async p c n t
  | OpRelease => λ a, (Ok false, Allocation.release a)
  end.
(** Every call with its answer. *)
Fixpoint run_allocs (p : profile) (ops : list alloc_op) (a : BandwidthAllocation)
    : list (alloc_op * outcome Empty_set bool) * BandwidthAllocation :=
  match ops with
  | [] => ([], a)
  | o :: ops =>
      let '(r, a) := run_op p o a in
      let '(rs, a) := run_allocs p ops a in ((o, r) :: rs, a)
  end.

Lemma acquire_quotas {E} p c size now locked a :
  quotas (Allocation.acquire (E := E) p c size now locked a).2 = quotas a.
Proof.
  unfold Allocation.acquire. destruct (quotas a !! c) as [q|]; [|done].
  destruct (Quota.can_transmit p q size) as [[]|?|]; [|done..].
  destruct (checked p 64 (size * 8)) as [bits|?|]; [|done..].
  destruct locked; [done|]. by destruct (Bucket.try_consume _ _ _) as [b []].
Qed.

(** A quota whose recorded usage is above its burst limit. *)
Definition exhausted (q : BandwidthQuota) : Prop := max_burst_bps q < current_usage_bps q.
Definition fits (q : BandwidthQuota) (size : Z) : Prop :=
  0 ≤ size ∧ current_usage_bps q + size * 8 ≤ umax 64.

Lemma exhausted_refuses {E} p q size :
  exhausted q → 0 ≤ current_usage_bps q → fits q size → Quota.can_transmit (E := E) p q size = Ok false.
Proof.
  unfold exhausted, fits. intros Hq Hu [Hs Hm]. unfold Quota.can_transmit, umax in *.
  rewrite checked_in by (unfold in_u; lia). cbn [mbind outcome_bind].
  rewrite checked_in by (unfold in_u; lia). cbn [mbind outcome_bind].
  rewrite bool_decide_false by lia. done.
Qed.

Lemma run_op_other p o a c q size :
  quotas a !! c = Some q → op_class o ≠ Some (c, size) → (∀ n, op_class o ≠ Some (c, n)) →
  quotas (run_op p o a).2 !! c = Some q.
Proof.
  intros Hq _ Ho. destruct o as [c' n t l|c' n t|]; cbn [run_op]; [by rewrite acquire_quotas| |done].
  assert (c' ≠ c) as Hc by (intros ->; by apply (Ho n)).
  unfold Allocation.acquire_async. destruct (quotas a !! c') as [q'|]; [|done].
  destruct (Quota.can_transmit p q' n) as [[]|?|]; [|done..].
  destruct (Quota.record_usage p q' n t) as [q''|?|]; [|done..].
  assert (quotas (Allocation.set_quota a c' q'') !! c = Some q) as Hs by (cbn; by rewrite lookup_insert_ne).
  destruct (checked p 64 (n * 8)) as [bits|?|]; [|done..].
  by destruct (Bucket.try_consume _ _ _) as [b []].
Qed.
Lemma run_op_exhausted p o a c q n :
  quotas a !! c = Some q → exhausted q → 0 ≤ current_usage_bps q → op_class o = Some (c, n) → fits q n →
  run_op p o a = (Ok false, a).
Proof.
  intros Hq He Hu Ho Hf. destruct o as [c' n' t l|c' n' t|]; [| |done]; injection Ho as -> ->.
  all: cbn [run_op]; unfold Allocation.acquire, Allocation.acquire_async; rewrite Hq.
  all: by rewrite (exhausted_refuses p q n He Hu Hf).
Qed.

(** A class whose usage once exceeds its burst limit is refused for ever: usage
    is only recorded after the check has passed, and nothing else lowers it.  From
    then on every acquisition of the class, however small and however much later, is
    refused, whatever the other classes do. *)
Theorem exhausted_class_is_locked_out p ops a c q :
  quotas a !! c = Some q → exhausted q → 0 ≤ current_usage_bps q →
  Forall (λ o, ∀ n, op_class o = Some (c, n) → fits q n) ops →
  quotas (run_allocs p ops a).2 !! c = Some q
  ∧ Forall (λ x, ∀ n, op_class x.1 = Some (c, n) → x.2 = Ok false) (run_allocs p ops a).1.
Proof.
  intros Hq He Hu Hf. revert a Hq. induction Hf as [|o ops Ho Hf IH]; intros a Hq; [by split|].
  cbn [run_allocs]. destruct (run_op p o a) as [r a'] eqn:Hr.
  assert (quotas a' !! c = Some q ∧ ∀ n, op_class o = Some (c, n) → r = Ok false) as [Hq' Hans].
  { destruct (op_class o) as [[c' n]|] eqn:Hc.
    2: { split; [|done]. pose proof (run_op_other p o a c q 0 Hq) as H. rewrite Hr in H. apply H; by rewrite Hc. }
    destruct (decide (c' = c)) as [->|Hne].
    - rewrite (run_op_exhausted p o a c q n) in Hr by (done || by apply Ho). injection Hr as <- <-.
      split; [done|]. by intros n' [= <-].
    - split; [|congruence]. pose proof (run_op_other p o a c q 0 Hq) as H. rewrite Hr in H.
      apply H; rewrite Hc; congruence. }
  destruct (IH a' Hq') as [Hq'' Hall]. destruct (run_allocs p ops a') as [rs a''].
  split; [done|]. constructor; [exact Hans|done].
Qed.

(** The synchronous calls: [None] drops a permit. *)
Definition sync_calls (l : list (option (QoSClass * Z * Z * bool))) : list alloc_op :=
  (λ x, match x with Some (c, n, t, b) => OpAcquire c n t b | None => OpRelease end) <$> l.
Definition tactical : BandwidthAllocation :=
  match Allocation.default_tactical (E := Empty_set) Debug 0 with
  | Ok a => a
  | _ => {| total_bandwidth_bps := 0; quotas := ∅; bucket := Bucket.new 0 0; active_permits := 0 |}
  end.

(** The synchronous [acquire], the one the sync coordinator calls, never counts
    usage: the quotas stay as they were whatever is acquired, so a class is limited
    per message only.  Five bulk messages take the whole tactical link and a critical
    message of one byte is refused, in spite of its guaranteed share. *)
Theorem sync_acquire_ignores_quotas p l a :
  quotas (run_allocs p (sync_calls l) a).2 = quotas a
  ∧ (run_allocs p (sync_calls (replicate 5 (Some (Bulk, 25000, 0, false)) ++ [Some (Critical, 1, 0, false)]))
       tactical).1.*2 = replicate 5 (Ok true) ++ [Ok false].
Proof.
  split; [|by destruct p; vm_compute].
  revert a. induction l as [|x l IH]; intros a; [done|].
  cbn [sync_calls fmap list_fmap run_allocs].
  set (o := match x with Some (c, n, t, b) => OpAcquire c n t b | None => OpRelease end).
  assert (quotas (run_op p o a).2 = quotas a) as Ho.
  { subst o. destruct x as [[[[c n] t] b]|]; [apply acquire_quotas|done]. }
  destruct (run_op p o a) as [r a']. specialize (IH a'). unfold sync_calls in IH.
  destruct (run_allocs p _ a') as [rs a'']. cbn [snd] in *. by rewrite IH.
Qed.

(** * Validation *)
Definition percent_ok (q : QuotaConfig) : Prop :=
  min_guaranteed_percent q ≤ max_burst_percent q ≤ 100.
Lemma check_quotas_spec l : BandwidthConfigs.check_quotas l = Ok tt ↔ Forall percent_ok l.
Proof.
  induction l as [|q l IH]; cbn [BandwidthConfigs.check_quotas]; [by split|].
  rewrite Forall_cons, <- IH. unfold percent_ok.
  destruct (bool_decide_reflect (max_burst_percent q < min_guaranteed_percent q)); [split; [done|lia]|].
  destruct (bool_decide_reflect (100 < max_burst_percent q)); [split; [done|lia]|].
  split; [intros Hl; split; [lia|done]|by intros [_ Hl]].
Qed.
Lemma sum_u8_debug acc l :
  in_u 8 acc → Forall (in_u 8) l →
  BandwidthConfigs.sum_u8 Debug acc l
  = if decide (acc + foldr Z.add 0 l ≤ umax 8) then Ok (acc + foldr Z.add 0 l) else Panic.
Proof.
  intros Ha Hl. revert acc Ha. induction Hl as [|z l Hz Hl IH]; intros acc Ha; cbn [BandwidthConfigs.sum_u8 foldr].
  { rewrite Z.add_0_r. destruct Ha. rewrite decide_True by (unfold umax; lia). done. }
  assert (0 ≤ foldr Z.add 0 l) as Hp by (clear -Hl; induction Hl as [|? ? [? ?]]; cbn; lia).
  destruct Ha as [Ha1 Ha2], Hz as [Hz1 Hz2].
  destruct (decide (acc + z < 2 ^ 8)).
  - rewrite checked_in by (unfold in_u; lia). cbn [mbind outcome_bind].
    rewrite IH by (unfold in_u; lia). by rewrite Z.add_assoc.
  - unfold checked. rewrite (proj2 (Z.leb_le _ _)), (proj2 (Z.ltb_ge _ _)) by lia. cbn [andb mbind outcome_bind].
    rewrite decide_False by (unfold umax; lia). done.
Qed.

(** Validation in a debug build accepts exactly the configurations whose shares
    add up to at most 100 and whose bursts lie between the guaranteed share and 100.
    A sum above 255 panics there, and wraps in a release build, which then accepts
    four classes of 64 per cent each. *)
Theorem bandwidth_validation values :
  Forall (λ q, in_u 8 (min_guaranteed_percent q)) values →
  let total := foldr Z.add 0 (min_guaranteed_percent <$> values) in
  (BandwidthConfigs.validate Debug values = Ok tt ↔ total ≤ 100 ∧ Forall percent_ok values)
  ∧ (BandwidthConfigs.validate Debug values = Panic ↔ 255 < total)
  ∧ (let over := replicate 4 {| min_guaranteed_percent := 64; max_burst_percent := 64;
                                config_preemption := false |} in
     BandwidthConfigs.validate Release over = Ok tt ∧ BandwidthConfigs.validate Debug over = Panic).
Proof.
  intros Hv total. split; [|split; [|by split; vm_compute]].
  all: unfold BandwidthConfigs.validate; rewrite sum_u8_debug by (done || by apply Forall_fmap).
  all: fold total; rewrite Z.add_0_l; unfold umax; cbn [Z.pow].
  all: destruct (decide (total ≤ 2 ^ 8 - 1)) as [Ht|Ht]; cbn [mbind outcome_bind].
  1,3: destruct (bool_decide_reflect (100 < total)); rewrite ?check_quotas_spec.
  all: split; try done; intros; destruct_and?; try lia; try done.
  1: split; [lia|done].
  assert (∀ l, BandwidthConfigs.check_quotas l ≠ Panic) as Hn; [|by destruct (Hn values)].
  induction l as [|q l IH]; [done|]. cbn [BandwidthConfigs.check_quotas]. by repeat case_match.
Qed.

(** ** Instances *)
Definition tactical_bulk : BandwidthAllocation :=
  (run_allocs Debug [OpAcquireAsync Bulk 26 0] tactical).2.
Definition bulk_quota : BandwidthQuota :=
  default (Quota.new 0 0 false 0) (quotas tactical_bulk !! Bulk).

(** One bulk message of 26 bytes, then one byte ten days later. *)
Lemma exhausted_class_is_locked_out_witness :
  let later := [OpAcquireAsync Critical 1000 1; OpRelease; OpAcquireAsync Bulk 1 864000000000000] in
  Forall (λ x, ∀ n, op_class x.1 = Some (Bulk, n) → x.2 = Ok false)
    (run_allocs Debug later tactical_bulk).1.
Proof.
  intros later.
  apply (exhausted_class_is_locked_out Debug later tactical_bulk Bulk bulk_quota);
    [vm_eq|by vm_compute|by vm_compute|].
  do 2 (constructor; [by intros n [=]|]). constructor; [|constructor].
  intros n [= <-]. by vm_compute.
Defined.
Definition one_quota : list QuotaConfig :=
  [{| min_guaranteed_percent := 20; max_burst_percent := 80; config_preemption := true |}].
Lemma bandwidth_validation_witness : BandwidthConfigs.validate Debug one_quota = Ok tt.
Proof.
  destruct (bandwidth_validation one_quota) as [[_ H] _]; [repeat constructor; by vm_compute|].
  apply H. split; [by vm_compute|]. repeat constructor; by vm_compute.
Defined.
