(* ===== verification/Preemption.v ===== *)
(** Preemption of transfers ([src/qos/preemption.rs]).  Transfer ids are inputs of
    the registration; the atomic counters wrap.  A transfer handed out by the
    controller is shared with it, so its own operations act on the table. *)
From Stdlib Require Import ZArith Lia Strings.Byte Strings.String.
From stdpp Require Import prelude gmap.
From S2P Require Import Prelude Wire Iteration Float Qos.

Set Default Proof Using "Type".
#[local] Open Scope Z_scope.

Record ActiveTransfer := {
  class : QoSClass;
  bytes_total : Z;
  bytes_sent : Z;
  can_pause : bool;
  is_paused : bool;
  started_at : Z;
  paused_at : option Z
}.

Module Transfer.
Definition new (c : QoSClass) (total : Z) (pausable : bool) (now : Z) : ActiveTransfer := {|
  class := c; bytes_total := total; bytes_sent := 0; can_pause := pausable; is_paused := false;
  started_at := now; paused_at := None |}.
Definition progress (t : ActiveTransfer) : float :=
  if decide (bytes_total t = 0) then F64.of_Z 1
  else F64.div (F64.of_Z (bytes_sent t)) (F64.of_Z (bytes_total t)).
Definition bytes_remaining (t : ActiveTransfer) : Z := saturating_sub (bytes_total t) (bytes_sent t).
Definition record_sent (t : ActiveTransfer) (n : Z) : ActiveTransfer := {|
  class := class t; bytes_total := bytes_total t; bytes_sent := wrap 64 (bytes_sent t + n);
  can_pause := can_pause t; is_paused := is_paused t; started_at := started_at t;
  paused_at := paused_at t |}.
Definition is_complete (t : ActiveTransfer) : bool := bool_decide (bytes_total t ≤ bytes_sent t).
Definition can_be_preempted_by (t : ActiveTransfer) (c : QoSClass) : bool :=
  can_pause t && Class.can_preempt c (class t).
Definition set_paused (t : ActiveTransfer) (b : bool) (at_ : option Z) : ActiveTransfer := {|
  class := class t; bytes_total := bytes_total t; bytes_sent := bytes_sent t;
  can_pause := can_pause t; is_paused := b; started_at := started_at t; paused_at := at_ |}.
Definition pause (t : ActiveTransfer) (now : Z) : ActiveTransfer :=
  if can_pause t && negb (is_paused t) then set_paused t true (Some now) else t.
Definition resume (t : ActiveTransfer) : ActiveTransfer := set_paused t false None.
Definition paused_duration (t : ActiveTransfer) (now : Z) : option Z :=
  if is_paused t then (λ s, saturating_sub now s) <$> paused_at t else None.
End Transfer.

Record PreemptionController := {
  active_transfers : gmap bytes ActiveTransfer;
  preemption_count : Z;
  paused_count : Z
}.

Module Preemption.
Section preemption.
Context {TO : IterOrder bytes ActiveTransfer}.
Implicit Types s : PreemptionController.

Definition new : PreemptionController :=
  {| active_transfers := ∅; preemption_count := 0; paused_count := 0 |}.
Definition set_transfers s (m : gmap bytes ActiveTransfer) : PreemptionController :=
  {| active_transfers := m; preemption_count := preemption_count s; paused_count := paused_count s |}.
Definition add_paused s (d : Z) : PreemptionController :=
  {| active_transfers := active_transfers s; preemption_count := preemption_count s;
     paused_count := wrap 64 (paused_count s + d) |}.

Definition register_transfer s (id : bytes) (c : QoSClass) (total : Z) (pausable : bool) (now : Z)
    : PreemptionController :=
  set_transfers s (<[id := Transfer.new c total pausable now]> (active_transfers s)).
Definition unregister_transfer s (id : bytes) : PreemptionController :=
  match active_transfers s !! id with
  | Some t =>
      let s := set_transfers s (delete id (active_transfers s)) in
      if is_paused t then add_paused s (-1) else s
  | None => s
  end.
Definition should_preempt s (c : QoSClass) : bool :=
  match c with
  | Critical | High =>
      existsb (λ e, Transfer.can_be_preempted_by e.2 c && negb (is_paused e.2))
        (iter (active_transfers s))
  | _ => false
  end.

(** One transfer of [pause_transfers_below]. *)
Definition pause_one (c : QoSClass) (now : Z) (acc : PreemptionController * list bytes)
    (e : bytes * ActiveTransfer) : PreemptionController * list bytes :=
  if Transfer.can_be_preempted_by e.2 c then
    (add_paused (set_transfers acc.1 (<[e.1 := Transfer.pause e.2 now]> (active_transfers acc.1))) 1,
     acc.2 ++ [e.1])
  else acc.
Definition pause_transfers_below s (c : QoSClass) (now : Z) : PreemptionController * list bytes :=
  let '(s, paused) := foldl (pause_one c now) (s, []) (iter (active_transfers s)) in
  (if decide (paused = []) then s
   else {| active_transfers := active_transfers s;
           preemption_count := wrap 64 (preemption_count s + 1); paused_count := paused_count s |},
   paused).

Definition resume_one s (id : bytes) : PreemptionController :=
  match active_transfers s !! id with
  | Some t =>
      if is_paused t then
        add_paused (set_transfers s (<[id := Transfer.resume t]> (active_transfers s))) (-1)
      else s
  | None => s
  end.
Definition resume_transfers s (ids : list bytes) : PreemptionController := foldl resume_one s ids.
Definition resume_all s : PreemptionController := {|
  active_transfers := (λ t, if is_paused t then Transfer.resume t else t) <$> active_transfers s;
  preemption_count := preemption_count s; paused_count := 0 |}.

Definition transfers_by_class s (c : QoSClass) : list (bytes * ActiveTransfer) :=
  filter (λ e, class e.2 = c) (iter (active_transfers s)).
Definition preemptable_transfers s (c : QoSClass) : list (bytes * ActiveTransfer) :=
  filter (λ e, Transfer.can_be_preempted_by e.2 c = true) (iter (active_transfers s)).
Definition bandwidth_used_below {E} (p : profile) s (c : QoSClass) : outcome E Z :=
  foldl (λ acc e, total ← acc; checked p 64 (total + Transfer.bytes_remaining e.2)) (Ok 0)
    (filter (λ e, Class.can_preempt c (class e.2) && negb (is_paused e.2) = true)
       (iter (active_transfers s))).
Definition cleanup_completed s : PreemptionController * Z :=
  let m := filter (λ e, Transfer.is_complete e.2 = false) (active_transfers s) in
  (set_transfers s m, Z.of_nat (size (active_transfers s)) - Z.of_nat (size m)).

(** A transfer's own operation, through the shared pointer. *)
Definition on_transfer s (id : bytes) (f : ActiveTransfer → ActiveTransfer) : PreemptionController :=
  set_transfers s (alter f id (active_transfers s)).

(** ** Pausing *)
Definition pause_if (c : QoSClass) (now : Z) (t : ActiveTransfer) : ActiveTransfer :=
  if Transfer.can_be_preempted_by t c then Transfer.pause t now else t.

Lemma pause_loop c now l s acc s' ids :
  NoDup l.*1 → (∀ e, e ∈ l → active_transfers s !! e.1 = Some e.2) →
  foldl (pause_one c now) (s, acc) l = (s', ids) →
  ids = acc ++ (filter (λ e, Transfer.can_be_preempted_by e.2 c = true) l).*1
  ∧ paused_count s' = foldl (λ n _, wrap 64 (n + 1)) (paused_count s)
      (filter (λ e, Transfer.can_be_preempted_by e.2 c = true) l)
  ∧ preemption_count s' = preemption_count s
  ∧ ∀ id, active_transfers s' !! id
    = if decide (id ∈ l.*1) then pause_if c now <$> active_transfers s !! id else active_transfers s !! id.
Proof.
  revert s acc. induction l as [|[id t] l IH]; intros s acc Hnd Hin Hf; cbn [foldl] in Hf.
  { injection Hf as <- <-. cbn. rewrite app_nil_r. split_and!; [done..|]. intros id.
    rewrite decide_False; [done|apply not_elem_of_nil]. }
  cbn [fmap list_fmap fst] in Hnd. apply NoDup_cons in Hnd as [Hid Hnd].
  pose proof (Hin (id, t) ltac:(left)) as Ht. cbn [fst snd] in Ht.
  unfold pause_one at 2 in Hf. cbn [fst snd] in Hf.
  rewrite filter_cons. cbn [snd].
  destruct (Transfer.can_be_preempted_by t c) eqn:Hc.
  - rewrite decide_True by done. cbn [fmap list_fmap fst foldl].
    apply IH in Hf as (-> & Hp & Hq & Hm); [|done|].
    2: { intros e He. cbn. rewrite lookup_insert_ne; [apply Hin; by right|]. intros ->. apply Hid.
      by apply list_elem_of_fmap_2. }
    split_and!; [by rewrite <- (assoc_L (++))|done|done|]. intros id'. rewrite Hm. cbn [active_transfers add_paused set_transfers].
    destruct (decide (id' = id)) as [->|Hne].
    + rewrite decide_False, lookup_insert_eq by done. rewrite decide_True by (cbn; left).
      rewrite Ht. cbn. unfold pause_if. by rewrite Hc.
    + rewrite lookup_insert_ne by done. destruct (decide (id' ∈ l.*1)) as [Hl|Hl].
      * rewrite decide_True by (cbn; by right). done.
      * rewrite decide_False; [done|]. cbn. intros [?|?]%elem_of_cons; done.
  - rewrite decide_False by done.
    apply IH in Hf as (-> & Hp & Hq & Hm); [|done|intros e He; apply Hin; by right].
    split_and!; [done..|]. intros id'. rewrite Hm. destruct (decide (id' = id)) as [->|Hne].
    + rewrite decide_False by done. rewrite decide_True by (cbn; left). rewrite Ht. cbn. unfold pause_if. by rewrite Hc.
    + destruct (decide (id' ∈ l.*1)) as [Hl|Hl].
      * rewrite decide_True by (cbn; by right). done.
      * rewrite decide_False; [done|]. cbn. intros [?|?]%elem_of_cons; done.
Qed.


Lemma pause_below_table s c now :
  active_transfers (pause_transfers_below s c now).1 = pause_if c now <$> active_transfers s
  ∧ (pause_transfers_below s c now).2 = (preemptable_transfers s c).*1
  ∧ paused_count (pause_transfers_below s c now).1
    = foldl (λ n _, wrap 64 (n + 1)) (paused_count s) (preemptable_transfers s c).
Proof.
  unfold pause_transfers_below.
  destruct (foldl (pause_one c now) (s, []) _) as [s' ids] eqn:Hf.
  apply pause_loop in Hf as (-> & Hp & Hq & Hm); [|apply NoDup_iter_fst|].
  2: { intros [id t] He. cbn. by apply elem_of_iter. }
  cbn [fst snd app]. split_and!; [|done|by case_decide].
  assert (active_transfers s' = pause_if c now <$> active_transfers s) as Ht; [|by case_decide].
  apply map_eq. intros id. rewrite Hm, lookup_fmap. case_decide as Hd; [done|].
  destruct (active_transfers s !! id) as [t|] eqn:Ht; [|done]. destruct Hd.
  apply elem_of_iter in Ht. by apply (list_elem_of_fmap_2 fst) in Ht.
Qed.

Lemma preemptable_pause t c now :
  Transfer.can_be_preempted_by (Transfer.pause t now) c = Transfer.can_be_preempted_by t c.
Proof. unfold Transfer.pause. by destruct (can_pause t && negb (is_paused t)) eqn:H. Qed.
Lemma preemptable_pause_if t c c' now :
  Transfer.can_be_preempted_by (pause_if c' now t) c = Transfer.can_be_preempted_by t c.
Proof. unfold pause_if. destruct (Transfer.can_be_preempted_by t c'); [apply preemptable_pause|done]. Qed.
Lemma pause_if_paused t c now :
  Transfer.can_be_preempted_by t c = true → is_paused (pause_if c now t) = true.
Proof.
  intros Hc. unfold pause_if. rewrite Hc. unfold Transfer.can_be_preempted_by in Hc.
  apply andb_true_iff in Hc as [Hp _]. unfold Transfer.pause. rewrite Hp.
  destruct (is_paused t) eqn:Hi; [by cbn|done].
Qed.

(** [pause_transfers_below] pauses exactly the transfers the class may preempt:
    each of them is paused and listed, every other transfer is as it was (a critical
    one, or one that cannot pause, in particular), and nothing is left to preempt. *)
Theorem pausing_is_selective s c now :
  let '(s', ids) := pause_transfers_below s c now in
  should_preempt s' c = false
  ∧ ∀ id t, active_transfers s !! id = Some t →
    ∃ t', active_transfers s' !! id = Some t'
    ∧ if Transfer.can_be_preempted_by t c then is_paused t' = true ∧ id ∈ ids else t' = t ∧ id ∉ ids.
Proof.
  destruct (pause_transfers_below s c now) as [s' ids] eqn:Hp.
  destruct (pause_below_table s c now) as (Hm & Hids & _). rewrite Hp in Hm, Hids. cbn in Hm, Hids. split.
  - assert (existsb (λ e, Transfer.can_be_preempted_by e.2 c && negb (is_paused e.2))
              (iter (active_transfers s')) = false) as He; [|by destruct c].
    apply not_true_is_false. intros ([id t] & Hin%list_elem_of_In & Hc)%existsb_exists. cbn in Hc.
    apply elem_of_iter in Hin. rewrite Hm, lookup_fmap in Hin. apply fmap_Some in Hin as (t0 & _ & ->).
    rewrite preemptable_pause_if in Hc. apply andb_true_iff in Hc as [Hc Hn].
    by rewrite (pause_if_paused t0 c now Hc) in Hn.
  - intros id t Ht. exists (pause_if c now t). split; [by rewrite Hm, lookup_fmap, Ht|].
    assert (id ∈ ids ↔ Transfer.can_be_preempted_by t c = true) as Hin.
    { subst ids. unfold preemptable_transfers. split.
      - intros ([id' t'] & -> & [Hc Hin]%list_elem_of_filter)%list_elem_of_fmap. cbn in *.
        apply elem_of_iter in Hin. congruence.
      - intros Hc. apply (list_elem_of_fmap_2' _ _ (id, t)); [|done]. apply list_elem_of_filter.
        split; [done|by apply elem_of_iter]. }
    destruct (Transfer.can_be_preempted_by t c) eqn:Hc.
    + split; [by apply pause_if_paused|by apply Hin].
    + split; [unfold pause_if; by rewrite Hc|]. rewrite Hin. done.
Qed.

Lemma resume_loop ids s :
  NoDup ids → (∀ id, id ∈ ids → ∃ t, active_transfers s !! id = Some t ∧ is_paused t = true) →
  (∀ id, active_transfers (resume_transfers s ids) !! id
    = if decide (id ∈ ids) then Transfer.resume <$> active_transfers s !! id else active_transfers s !! id)
  ∧ paused_count (resume_transfers s ids) = foldl (λ n _, wrap 64 (n + -1)) (paused_count s) ids.
Proof.
  intros Hnd. revert s. induction Hnd as [|id ids Hid Hnd IH]; intros s Hin; [by split|].
  destruct (Hin id) as (t & Ht & Hp); [left|].
  unfold resume_transfers in *. cbn [foldl]. unfold resume_one at 2 4. rewrite Ht, Hp.
  set (s1 := add_paused _ _).
  destruct (IH s1) as [Hm Hc].
  { intros id' Hid'. destruct (Hin id') as (t' & Ht' & Hp'); [by right|]. exists t'. split; [|done].
    cbn. rewrite lookup_insert_ne; [done|]. by intros ->. }
  split; [|exact Hc]. intros id'. rewrite Hm. cbn [s1 active_transfers add_paused set_transfers].
  destruct (decide (id' = id)) as [->|Hne].
  - rewrite decide_False, lookup_insert_eq by done. rewrite decide_True by left. by rewrite Ht.
  - rewrite lookup_insert_ne by done. destruct (decide (id' ∈ ids)) as [Hl|Hl].
    + rewrite decide_True by (by right). done.
    + rewrite decide_False; [done|]. by intros [?|?]%elem_of_cons.
Qed.

Lemma wrap_foldl {A} (d n : Z) (l : list A) :
  in_u 64 n → foldl (λ m _, wrap 64 (m + d)) n l = wrap 64 (n + d * Z.of_nat (length l)).
Proof.
  revert n. induction l as [|x l IH]; intros n Hn; cbn [foldl length].
  - rewrite Z.mul_0_r, Z.add_0_r. unfold wrap, in_u in *. by rewrite Z.mod_small.
  - rewrite IH by (unfold wrap, in_u; apply Z.mod_pos_bound; lia). unfold wrap.
    rewrite Zplus_mod_idemp_l. f_equal. lia.
Qed.

(** Preemptions do not nest.  Let a class pause transfers and, before it has
    resumed them, a second one pause and resume: everything the second may preempt
    runs again while the first still needs the bandwidth, and the counter keeps
    counting the first preemption's transfers as paused. *)
Theorem nested_preemption_resumes_early s c c' now now' :
  in_u 64 (paused_count s) →
  let '(s1, ids1) := pause_transfers_below s c now in
  let '(s2, ids2) := pause_transfers_below s1 c' now' in
  let s3 := resume_transfers s2 ids2 in
  (∀ id t, active_transfers s !! id = Some t → Transfer.can_be_preempted_by t c' = true →
   ∃ t', active_transfers s3 !! id = Some t' ∧ is_paused t' = false)
  ∧ paused_count s3 = wrap 64 (paused_count s + Z.of_nat (length ids1)).
Proof.
  intros Hc0. destruct (pause_transfers_below s c now) as [s1 ids1] eqn:H1.
  destruct (pause_transfers_below s1 c' now') as [s2 ids2] eqn:H2.
  destruct (pause_below_table s c now) as (Hm1 & Hi1 & Hp1). rewrite H1 in Hm1, Hi1, Hp1.
  destruct (pause_below_table s1 c' now') as (Hm2 & Hi2 & Hp2). rewrite H2 in Hm2, Hi2, Hp2.
  cbn [fst snd] in *.
  assert (NoDup ids2) as Hnd.
  { rewrite Hi2. unfold preemptable_transfers. eapply sublist_NoDup; [apply NoDup_iter_fst|].
    apply fmap_sublist, sublist_filter. }
  assert (∀ id, id ∈ ids2 ↔ ∃ t, active_transfers s1 !! id = Some t ∧ Transfer.can_be_preempted_by t c' = true) as Hin2.
  { intros id. rewrite Hi2. unfold preemptable_transfers. rewrite list_elem_of_fmap. split.
    - intros ([id' t] & -> & [Hc Hin]%list_elem_of_filter). exists t. cbn in *. by rewrite <- elem_of_iter.
    - intros (t & Ht & Hc). exists (id, t). rewrite list_elem_of_filter, elem_of_iter. done. }
  destruct (resume_loop ids2 s2 Hnd) as [Hm3 Hp3].
  { intros id (t & Ht & Hc)%Hin2. exists (pause_if c' now' t). rewrite Hm2, lookup_fmap, Ht.
    split; [done|by apply pause_if_paused]. }
  split.
  - intros id t Ht Hc. assert (active_transfers s1 !! id = Some (pause_if c now t)) as Ht1
      by (by rewrite Hm1, lookup_fmap, Ht).
    exists (Transfer.resume (pause_if c' now' (pause_if c now t))). split; [|done].
    rewrite Hm3, decide_True; [by rewrite Hm2, lookup_fmap, Ht1|].
    apply Hin2. exists (pause_if c now t). by rewrite preemptable_pause_if.
  - assert (∀ z, in_u 64 (wrap 64 z)) as Hw by (intros z; apply Z.mod_pos_bound; lia).
    rewrite wrap_foldl in Hp1 by done. rewrite Hp1, wrap_foldl in Hp2 by done.
    rewrite Hp3, Hp2, wrap_foldl by done.
    subst ids1 ids2. rewrite !length_fmap. unfold wrap.
    rewrite Zplus_mod_idemp_l, <- Z.add_assoc, Zplus_mod_idemp_l. f_equal. lia.
Qed.
End preemption.
End Preemption.

(** ** Instances *)
#[local] Instance toy_transfer_order : IterOrder bytes ActiveTransfer := key_order _ _.
Definition two_transfers : PreemptionController :=
  Preemption.register_transfer
    (Preemption.register_transfer Preemption.new (str "a") Low 1000 true 0) (str "b") High 1000 true 0.
(** A critical message pauses both; a high one, arriving meanwhile, ends by resuming
    the low transfer, with two counted as paused and one of them running. *)
Lemma nested_preemption_resumes_early_witness :
  let '(s1, ids1) := Preemption.pause_transfers_below two_transfers Critical 1 in
  let '(s2, ids2) := Preemption.pause_transfers_below s1 High 2 in
  let s3 := Preemption.resume_transfers s2 ids2 in
  (∃ t', active_transfers s3 !! str "a" = Some t' ∧ is_paused t' = false) ∧ paused_count s3 = 2.
Proof.
  pose proof (Preemption.nested_preemption_resumes_early two_transfers Critical High 1 2 ltac:(by vm_compute)) as H.
  assert (length (Preemption.pause_transfers_below two_transfers Critical 1).2 = 2%nat) as Hl by vm_eq.
  destruct (Preemption.pause_transfers_below two_transfers Critical 1) as [s1 ids1]. cbn [snd] in Hl.
  destruct (Preemption.pause_transfers_below s1 High 2) as [s2 ids2].
  destruct H as [Hr Hc]. split; [|by rewrite Hc, Hl].
  apply (Hr (str "a") (Transfer.new Low 1000 true 0)); by vm_compute.
Defined.
