(* ===== verification/Eviction.v ===== *)
(** Storage eviction ([src/qos/storage.rs], [audit.rs], [eviction.rs],
    [eviction_service.rs]): tracked documents, the audit log, the eviction cycle and
    the service that runs it on the document store.

    The deletion and compression callbacks act on a state of their own; the service
    deletes from an [AutomergeStore].  The byte counter is atomic and wraps; other
    sums of document sizes are exact.  The clock is an argument: the time in seconds
    of the cycle, and the milliseconds it has run at its [i]-th candidate.  The texts
    of audit entries are left out. *)
From Stdlib Require Import ZArith Lia SpecFloat Strings.Byte Strings.String.
From stdpp Require Import prelude gmap.
From S2P Require Import Prelude Wire Text Deletion Store Float Qos.

Set Default Proof Using "Type".
#[local] Open Scope Z_scope.

(** * Tracked documents *)
Record StoredDocument := {
  doc_class : QoSClass;
  size_bytes : Z;
  stored_at : Z;
  last_accessed : Z;
  protected : bool;
  compressed : bool
}.
Module Stored.
Definition new (c : QoSClass) (size now : Z) : StoredDocument := {|
  doc_class := c; size_bytes := size; stored_at := now; last_accessed := now;
  protected := false; compressed := false |}.
Definition age_seconds (d : StoredDocument) (now : Z) : Z := saturating_sub now (stored_at d).
Definition idle_seconds (d : StoredDocument) (now : Z) : Z := saturating_sub now (last_accessed d).
Definition touch (now : Z) (d : StoredDocument) : StoredDocument := {|
  doc_class := doc_class d; size_bytes := size_bytes d; stored_at := stored_at d;
  last_accessed := now; protected := protected d; compressed := compressed d |}.
Definition set_protected (b : bool) (d : StoredDocument) : StoredDocument := {|
  doc_class := doc_class d; size_bytes := size_bytes d; stored_at := stored_at d;
  last_accessed := last_accessed d; protected := b; compressed := compressed d |}.
Definition set_compressed (size : Z) (d : StoredDocument) : StoredDocument := {|
  doc_class := doc_class d; size_bytes := size; stored_at := stored_at d;
  last_accessed := last_accessed d; protected := protected d; compressed := true |}.
End Stored.

Record EvictionCandidate := {
  cand_id : bytes;
  cand_class : QoSClass;
  cand_age : Z;
  cand_size : Z;
  eviction_score : float
}.

Record QoSAwareStorage := {
  max_storage_bytes : Z;
  current_storage_bytes : Z;
  retention_policies : RetentionPolicies;
  documents : gmap bytes StoredDocument;
  eviction_threshold : float
}.
(** The order in which the documents are iterated. *)
Class DocumentOrder := {
  document_iter : gmap bytes StoredDocument → list (bytes * StoredDocument);
  document_iter_perm m : document_iter m ≡ₚ map_to_list m
}.

Module Storage.
Definition new (max : Z) : QoSAwareStorage := {|
  max_storage_bytes := max; current_storage_bytes := 0;
  retention_policies := RetentionTable.default_tactical; documents := ∅;
  eviction_threshold := pct 90 |}.
Definition with_retention_policies (s : QoSAwareStorage) (t : RetentionPolicies) : QoSAwareStorage := {|
  max_storage_bytes := max_storage_bytes s; current_storage_bytes := current_storage_bytes s;
  retention_policies := t; documents := documents s; eviction_threshold := eviction_threshold s |}.
(** [clamp]: a NaN stays. *)
Definition clamp (x lo hi : float) : float := if flt x lo then lo else if fgt x hi then hi else x.
Definition with_eviction_threshold (s : QoSAwareStorage) (t : float) : QoSAwareStorage := {|
  max_storage_bytes := max_storage_bytes s; current_storage_bytes := current_storage_bytes s;
  retention_policies := retention_policies s; documents := documents s;
  eviction_threshold := clamp t (pct 50) (pct 99) |}.
Definition set_documents (s : QoSAwareStorage) (m : gmap bytes StoredDocument) (delta : Z)
    : QoSAwareStorage := {|
  max_storage_bytes := max_storage_bytes s;
  current_storage_bytes := wrap 64 (current_storage_bytes s + delta);
  retention_policies := retention_policies s; documents := m;
  eviction_threshold := eviction_threshold s |}.

Definition register_document (s : QoSAwareStorage) (id : bytes) (d : StoredDocument) : QoSAwareStorage :=
  let old := match documents s !! id with Some e => size_bytes e | None => 0 end in
  let s := set_documents s (documents s) (- old) in
  set_documents s (<[id := d]> (documents s)) (size_bytes d).
Definition unregister_document (s : QoSAwareStorage) (id : bytes)
    : QoSAwareStorage * option StoredDocument :=
  match documents s !! id with
  | Some d => (set_documents s (delete id (documents s)) (- size_bytes d), Some d)
  | None => (s, None)
  end.
Definition touch_document (s : QoSAwareStorage) (id : bytes) (now : Z) : QoSAwareStorage :=
  set_documents s (alter (Stored.touch now) id (documents s)) 0.
Definition mark_protected (s : QoSAwareStorage) (id : bytes) (b : bool) : QoSAwareStorage * bool :=
  match documents s !! id with
  | Some d => (set_documents s (<[id := Stored.set_protected b d]> (documents s)) 0, true)
  | None => (s, false)
  end.
Definition update_compressed (s : QoSAwareStorage) (id : bytes) (new_size : Z)
    : QoSAwareStorage * option Z :=
  match documents s !! id with
  | Some d =>
      let diff := saturating_sub (size_bytes d) new_size in
      (set_documents s (<[id := Stored.set_compressed new_size d]> (documents s)) (- diff), Some diff)
  | None => (s, None)
  end.

Definition storage_pressure (s : QoSAwareStorage) : float :=
  if decide (max_storage_bytes s = 0) then F32.of_Z 0
  else F32.div (F32.of_Z (current_storage_bytes s)) (F32.of_Z (max_storage_bytes s)).
Definition should_evict (s : QoSAwareStorage) : bool := fle (eviction_threshold s) (storage_pressure s).

(** The documents eviction may take, at a pressure. *)
Definition evictable (s : QoSAwareStorage) (pressure : float) (now : Z) (d : StoredDocument) : bool :=
  bool_decide (doc_class d ≠ Critical) && negb (protected d)
  && Retention.should_evict (RetentionTable.get (retention_policies s) (doc_class d))
       (Stored.age_seconds d now) pressure.

Definition calculate_eviction_score (s : QoSAwareStorage) (d : StoredDocument) (pressure : float) (now : Z)
    : float :=
  let policy := RetentionTable.get (retention_policies s) (doc_class d) in
  let class_score := F64.of_Z (6 - eviction_priority policy) in
  let one := F64.of_Z 1 in
  let age_factor :=
    if decide (max_retain_seconds policy = umax 64) then F64.of_Z 0
    else fmin (F64.div (F64.of_Z (Stored.age_seconds d now)) (F64.of_Z (max_retain_seconds policy))) one in
  let idle_factor := fmin (F64.div (F64.of_Z (Stored.idle_seconds d now)) (F64.of_Z 3600)) one in
  let size_factor := fmin (F64.div (F64.of_Z (size_bytes d)) (F64.of_Z 1000000)) one in
  (* an f32 is exact as an f64 *)
  F64.add (F64.add (F64.add (F64.add (F64.mul class_score (F64.of_Z 10))
    (F64.mul age_factor (F64.of_Z 5))) (F64.mul idle_factor (F64.of_Z 3)))
    (F64.mul size_factor one)) (F64.mul pressure (F64.of_Z 2)).

(** A stable sort, highest score first; incomparable scores count as equal. *)
Fixpoint insert_candidate (c : EvictionCandidate) (l : list EvictionCandidate) : list EvictionCandidate :=
  match l with
  | [] => [c]
  | x :: l' => if flt (eviction_score x) (eviction_score c) then c :: l else x :: insert_candidate c l'
  end.
Definition sort_candidates (l : list EvictionCandidate) : list EvictionCandidate :=
  foldl (λ acc c, insert_candidate c acc) [] l.
Fixpoint select (needed total : Z) (l : list EvictionCandidate) : list EvictionCandidate :=
  match l with
  | [] => []
  | c :: l =>
      let total := total + cand_size c in
      c :: if decide (needed ≤ total) then [] else select needed total l
  end.

Section with_order.
Context {DO : DocumentOrder}.
Definition get_eviction_candidates (s : QoSAwareStorage) (needed now : Z) : list EvictionCandidate :=
  let pressure := storage_pressure s in
  let candidates :=
    (λ e, {| cand_id := e.1; cand_class := doc_class e.2; cand_age := Stored.age_seconds e.2 now;
             cand_size := size_bytes e.2;
             eviction_score := calculate_eviction_score s e.2 pressure now |})
    <$> filter (λ e, evictable s pressure now e.2 = true) (document_iter (documents s)) in
  select needed 0 (sort_candidates candidates).
Definition get_compression_candidates (s : QoSAwareStorage) : list bytes :=
  let pressure := storage_pressure s in
  (filter (λ e, bool_decide (doc_class e.2 ≠ Critical) && negb (protected e.2)
                && negb (compressed e.2)
                && Retention.should_compress
                     (RetentionTable.get (retention_policies s) (doc_class e.2)) pressure = true)
     (document_iter (documents s))).*1.
End with_order.
End Storage.

(** * The audit log *)
Inductive AuditAction := Evicted | Compressed | MarkedProtected | UnmarkedProtected | FailedEviction
  | AuditTtlExpired | SoftDeleted | CleanupCompleted.
#[export] Instance AuditAction_eq_dec : EqDecision AuditAction.
Proof. solve_decision. Defined.
Record AuditEntry := {
  timestamp : Z;
  action : AuditAction;
  audit_id : bytes;
  audit_class : QoSClass;
  audit_size : option Z
}.
Record EvictionAuditLog := { entries : list AuditEntry; max_entries : nat }.
Record AuditSummary := {
  total_entries : Z;
  total_evictions : Z;
  bytes_evicted : Z;
  total_compressions : Z;
  failed_evictions : Z;
  evictions_by_class : gmap QoSClass Z
}.
Module Audit.
Definition new (max : nat) : EvictionAuditLog := {| entries := []; max_entries := max |}.
Definition record (l : EvictionAuditLog) (e : AuditEntry) : EvictionAuditLog := {|
  entries := (if decide (max_entries l ≤ length (entries l))%nat then tail (entries l) else entries l) ++ [e];
  max_entries := max_entries l |}.
Definition entry (a : AuditAction) (id : bytes) (c : QoSClass) (size : option Z) (now : Z) : AuditEntry :=
  {| timestamp := now; action := a; audit_id := id; audit_class := c; audit_size := size |}.
Definition cleanup_completed (freed now : Z) : AuditEntry :=
  entry CleanupCompleted (str "system") Normal (Some freed) now.
Definition get_in_range (l : EvictionAuditLog) (a b : Z) : list AuditEntry :=
  filter (λ e, a ≤ timestamp e ≤ b) (entries l).
Definition get_by_class (l : EvictionAuditLog) (c : QoSClass) : list AuditEntry :=
  filter (λ e, audit_class e = c) (entries l).
Definition get_by_action (l : EvictionAuditLog) (a : AuditAction) : list AuditEntry :=
  filter (λ e, action e = a) (entries l).
Definition get_recent (l : EvictionAuditLog) (n : nat) : list AuditEntry :=
  drop (length (entries l) - n) (entries l).
Definition summarize (s : AuditSummary) (e : AuditEntry) : AuditSummary :=
  let evicted := bool_decide (action e = Evicted) in {|
  total_entries := total_entries s + 1;
  total_evictions := total_evictions s + (if evicted then 1 else 0);
  bytes_evicted := bytes_evicted s + (if evicted then default 0 (audit_size e) else 0);
  total_compressions := total_compressions s + (if decide (action e = Compressed) then 1 else 0);
  failed_evictions := failed_evictions s + (if decide (action e = FailedEviction) then 1 else 0);
  evictions_by_class :=
    if evicted then <[audit_class e := default 0 (evictions_by_class s !! audit_class e) + 1]>
                      (evictions_by_class s)
    else evictions_by_class s |}.
Definition summary (l : EvictionAuditLog) : AuditSummary :=
  foldl summarize {| total_entries := 0; total_evictions := 0; bytes_evicted := 0;
    total_compressions := 0; failed_evictions := 0; evictions_by_class := ∅ |} (entries l).
End Audit.

(** * The eviction controller *)
Record EvictionConfig := {
  config_threshold : float;
  target_pressure : float;
  compress_before_eviction : bool;
  max_evictions_per_cycle : nat;
  max_cycle_duration_ms : Z
}.
Definition default_eviction : EvictionConfig := {|
  config_threshold := pct 90; target_pressure := pct 70; compress_before_eviction := true;
  max_evictions_per_cycle := 1000; max_cycle_duration_ms := 5000 |}.
Definition aggressive : EvictionConfig := {|
  config_threshold := pct 75; target_pressure := pct 50; compress_before_eviction := true;
  max_evictions_per_cycle := 2000; max_cycle_duration_ms := 10000 |}.
Definition conservative : EvictionConfig := {|
  config_threshold := pct 95; target_pressure := pct 85; compress_before_eviction := true;
  max_evictions_per_cycle := 500; max_cycle_duration_ms := 3000 |}.

Record EvictionResult := {
  docs_evicted : nat;
  bytes_freed : Z;
  by_class : gmap QoSClass Z;
  compressions : Z;
  compression_savings : Z;
  failures : Z;
  duration_ms : Z;
  pressure_before : float;
  pressure_after : float
}.
Module Result.
Definition start (pressure : float) : EvictionResult := {|
  docs_evicted := 0; bytes_freed := 0; by_class := ∅; compressions := 0; compression_savings := 0;
  failures := 0; duration_ms := 0; pressure_before := pressure; pressure_after := F32.of_Z 0 |}.
Definition evicted (r : EvictionResult) (c : QoSClass) (n : Z) : EvictionResult := {|
  docs_evicted := S (docs_evicted r); bytes_freed := bytes_freed r + n;
  by_class := <[c := default 0 (by_class r !! c) + 1]> (by_class r);
  compressions := compressions r; compression_savings := compression_savings r;
  failures := failures r; duration_ms := duration_ms r; pressure_before := pressure_before r;
  pressure_after := pressure_after r |}.
Definition failed (r : EvictionResult) : EvictionResult := {|
  docs_evicted := docs_evicted r; bytes_freed := bytes_freed r; by_class := by_class r;
  compressions := compressions r; compression_savings := compression_savings r;
  failures := failures r + 1; duration_ms := duration_ms r; pressure_before := pressure_before r;
  pressure_after := pressure_after r |}.
Definition saved (r : EvictionResult) (n : Z) : EvictionResult := {|
  docs_evicted := docs_evicted r; bytes_freed := bytes_freed r; by_class := by_class r;
  compressions := compressions r + 1; compression_savings := compression_savings r + n;
  failures := failures r; duration_ms := duration_ms r; pressure_before := pressure_before r;
  pressure_after := pressure_after r |}.
Definition finish (r : EvictionResult) (pressure : float) (took : Z) : EvictionResult := {|
  docs_evicted := docs_evicted r; bytes_freed := bytes_freed r; by_class := by_class r;
  compressions := compressions r; compression_savings := compression_savings r;
  failures := failures r; duration_ms := took; pressure_before := pressure_before r;
  pressure_after := pressure |}.
Definition is_success (r : EvictionResult) : bool :=
  bool_decide (0 < docs_evicted r)%nat || bool_decide (0 < compression_savings r).
End Result.

Record EvictionController := {
  storage : QoSAwareStorage;
  audit_log : EvictionAuditLog;
  config : EvictionConfig;
  protected_docs : gset bytes;
  recent_stats : list EvictionResult
}.

Module Controller.
Definition set_storage (c : EvictionController) (s : QoSAwareStorage) : EvictionController := {|
  storage := s; audit_log := audit_log c; config := config c; protected_docs := protected_docs c;
  recent_stats := recent_stats c |}.
Definition log (c : EvictionController) (e : AuditEntry) : EvictionController := {|
  storage := storage c; audit_log := Audit.record (audit_log c) e; config := config c;
  protected_docs := protected_docs c; recent_stats := recent_stats c |}.
Definition set_protected_docs (c : EvictionController) (p : gset bytes) : EvictionController := {|
  storage := storage c; audit_log := audit_log c; config := config c; protected_docs := p;
  recent_stats := recent_stats c |}.
Definition push_stats (c : EvictionController) (r : EvictionResult) : EvictionController := {|
  storage := storage c; audit_log := audit_log c; config := config c;
  protected_docs := protected_docs c;
  recent_stats := (if decide (10 ≤ length (recent_stats c))%nat then tail (recent_stats c)
                   else recent_stats c) ++ [r] |}.

Definition new (s : QoSAwareStorage) (l : EvictionAuditLog) (cfg : EvictionConfig) : EvictionController :=
  {| storage := s; audit_log := l; config := cfg; protected_docs := ∅; recent_stats := [] |}.

Definition mark_protected (c : EvictionController) (id : bytes) (now : Z) : EvictionController :=
  let c := set_protected_docs c ({[id]} ∪ protected_docs c) in
  let c := set_storage c (Storage.mark_protected (storage c) id true).1 in
  match documents (storage c) !! id with
  | Some d => log c (Audit.entry MarkedProtected id (doc_class d) None now)
  | None => c
  end.
Definition unmark_protected (c : EvictionController) (id : bytes) (now : Z) : EvictionController :=
  let c := set_protected_docs c (protected_docs c ∖ {[id]}) in
  let c := set_storage c (Storage.mark_protected (storage c) id false).1 in
  match documents (storage c) !! id with
  | Some d => log c (Audit.entry UnmarkedProtected id (doc_class d) None now)
  | None => c
  end.
Definition needs_eviction (c : EvictionController) : bool :=
  fle (config_threshold (config c)) (Storage.storage_pressure (storage c)).

Section cycle.
Context {DO : DocumentOrder} {X : Type}.
Context (eviction_callback : option (bytes → stm X bytes unit))
  (compression_callback : option (bytes → stm X bytes Z)).
Abbreviation action := (stm (EvictionController * X) bytes).

Fixpoint compress_loop (ids : list bytes) (cb : bytes → stm X bytes Z) (r : EvictionResult)
    (saved now : Z) : action (EvictionResult * Z) := λ '(c, x),
  match ids with
  | [] => (Ok (r, saved), (c, x))
  | id :: ids =>
      match documents (storage c) !! id with
      | None => compress_loop ids cb r saved now (c, x)
      | Some d =>
          match cb id x with
          | (Ok new_size, x) =>
              if decide (new_size < size_bytes d) then
                let savings := size_bytes d - new_size in
                let c := set_storage c (Storage.update_compressed (storage c) id new_size).1 in
                let c := log c (Audit.entry Compressed id (doc_class d) (Some new_size) now) in
                compress_loop ids cb (Result.saved r savings) (saved + savings) now (c, x)
              else compress_loop ids cb r saved now (c, x)
          | (Err _, x) =>
              compress_loop ids cb r saved now
                (log c (Audit.entry FailedEviction id (doc_class d) None now), x)
          | (Panic, x) => (Panic, (c, x))
          end
      end
  end.
Definition compress_eligible_documents (r : EvictionResult) (now : Z) : action (EvictionResult * Z) :=
  match compression_callback with
  | None => mret (r, 0)
  | Some cb => λ s, compress_loop (Storage.get_compression_candidates (storage s.1)) cb r 0 now s
  end.

Definition evict_document (cand : EvictionCandidate) (now : Z) : action Z := λ '(c, x),
  match eviction_callback with
  | None => (Err (str "No eviction callback set"), (c, x))
  | Some cb =>
      match cb (cand_id cand) x with
      | (Ok _, x) =>
          match Storage.unregister_document (storage c) (cand_id cand) with
          | (s, Some d) =>
              (Ok (size_bytes d),
               (log (set_storage c s)
                  (Audit.entry Evicted (cand_id cand) (cand_class cand) (Some (size_bytes d)) now), x))
          | (_, None) => (Ok (cand_size cand), (c, x))
          end
      | (Err e, x) => (Err e, (c, x))
      | (Panic, x) => (Panic, (c, x))
      end
  end.

Fixpoint evict_loop (elapsed : nat → Z) (i : nat) (needed : Z) (cands : list EvictionCandidate)
    (r : EvictionResult) (now : Z) : action EvictionResult := λ s,
  match cands with
  | [] => (Ok r, s)
  | cand :: cands =>
      if decide (max_cycle_duration_ms (config s.1) < elapsed i) then (Ok r, s)
      else if decide (max_evictions_per_cycle (config s.1) ≤ docs_evicted r)%nat then (Ok r, s)
      else if decide (cand_id cand ∈ protected_docs s.1) then evict_loop elapsed (S i) needed cands r now s
      else
        match evict_document cand now s with
        | (Ok n, s) =>
            let r := Result.evicted r (cand_class cand) n in
            if decide (needed ≤ bytes_freed r + compression_savings r) then (Ok r, s)
            else evict_loop elapsed (S i) needed cands r now s
        | (Err _, (c, x)) =>
            evict_loop elapsed (S i) needed cands (Result.failed r) now
              (log c (Audit.entry FailedEviction (cand_id cand) (cand_class cand) None now), x)
        | (Panic, s) => (Panic, s)
        end
  end.

Definition record_cycle_completion (c : EvictionController) (r : EvictionResult) (now : Z)
    : EvictionController :=
  log c (Audit.cleanup_completed (bytes_freed r + compression_savings r) now).
Definition bytes_to_free (c : EvictionController) : Z :=
  saturating_sub (current_storage_bytes (storage c))
    (as_u 64 (F32.mul (F32.of_Z (max_storage_bytes (storage c))) (target_pressure (config c)))).

Definition execute_eviction_cycle (target : option Z) (elapsed : nat → Z) (took now : Z)
    : action EvictionResult := λ s,
  let r := Result.start (Storage.storage_pressure (storage s.1)) in
  let needed := default (bytes_to_free s.1) target in
  if decide (needed = 0) then (Ok (Result.finish r (Storage.storage_pressure (storage s.1)) took), s)
  else
    match (if compress_before_eviction (config s.1) then compress_eligible_documents r now s
           else (Ok (r, 0), s)) with
    | (Ok (r, saved), (c, x)) =>
        if compress_before_eviction (config s.1) && bool_decide (needed ≤ saved) then
          let r := Result.finish r (Storage.storage_pressure (storage c)) took in
          (Ok r, (record_cycle_completion c r now, x))
        else
          let remaining := saturating_sub needed (compression_savings r) in
          match evict_loop elapsed 0 needed (Storage.get_eviction_candidates (storage c) remaining now)
                  r now (c, x) with
          | (Ok r, (c, x)) =>
              let r := Result.finish r (Storage.storage_pressure (storage c)) took in
              (Ok r, (push_stats (record_cycle_completion c r now) r, x))
          | other => other
          end
    | (Err e, s) => (Err e, s)
    | (Panic, s) => (Panic, s)
    end.
Definition run_eviction_cycle (elapsed : nat → Z) (took now : Z) : action (option EvictionResult) := λ s,
  if flt (Storage.storage_pressure (storage s.1)) (config_threshold (config s.1)) then (Ok None, s)
  else (r ← execute_eviction_cycle None elapsed took now; mret (Some r)) s.
Definition force_eviction (bytes_to_free : Z) (elapsed : nat → Z) (took now : Z) : action EvictionResult :=
  execute_eviction_cycle (Some bytes_to_free) elapsed took now.
End cycle.
End Controller.

(** * The service *)
Module EvictionService.
Section service.
Context {AM : Automerge} {RD : Redb} {LR : Lru doc} {DO : DocumentOrder}.
Definition new (max : Z) (cfg : EvictionConfig) : EvictionController :=
  Controller.new (Storage.new max) (Audit.new 1000) cfg.
(** The callback: delete from the document store; the message is not kept. *)
Definition delete_callback (id : bytes) : stm AutomergeStore bytes unit := λ s,
  let '(r, s) := delete_doc id s in (map_err (λ _, str "Failed to delete") r, s).
Definition register_document (c : EvictionController) (key : bytes) (size now : Z) : EvictionController :=
  let collection := take (default (length key) (find_byte is_colon key)) key in
  Controller.set_storage c
    (Storage.register_document (storage c) key (Stored.new (Class.for_collection collection) size now)).
Definition unregister_document (c : EvictionController) (key : bytes) : EvictionController :=
  Controller.set_storage c (Storage.unregister_document (storage c) key).1.
(** One tick of the periodic task. *)
Definition tick (elapsed : nat → Z) (took now : Z)
    : stm (EvictionController * AutomergeStore) bytes (option EvictionResult) := λ s,
  if Storage.should_evict (storage s.1)
  then Controller.run_eviction_cycle (Some delete_callback) None elapsed took now s
  else (Ok None, s).
End service.
End EvictionService.

(** * Accounting *)
Definition total_size (m : gmap bytes StoredDocument) : Z := map_fold (λ _ d n, size_bytes d + n) 0 m.
(** The byte counter is the sum of the tracked sizes. *)
Definition accounted (s : QoSAwareStorage) : Prop :=
  current_storage_bytes s = wrap 64 (total_size (documents s)).

Lemma total_size_insert m id d :
  m !! id = None → total_size (<[id := d]> m) = size_bytes d + total_size m.
Proof. intros Hn. unfold total_size. rewrite map_fold_insert_L; [done| |done]. intros. lia. Qed.
Lemma total_size_delete m id d :
  m !! id = Some d → total_size m = size_bytes d + total_size (delete id m).
Proof.
  intros Hm. rewrite <- (total_size_insert (delete id m) id d (lookup_delete_eq _ _)).
  by rewrite insert_delete_id.
Qed.
Lemma total_size_replace m id d d' :
  m !! id = Some d → total_size (<[id := d']> m) = total_size m - size_bytes d + size_bytes d'.
Proof.
  intros Hm. rewrite <- (insert_delete_eq m id d'), (total_size_insert _ _ _ (lookup_delete_eq _ _)).
  rewrite (total_size_delete m id d Hm). lia.
Qed.
Lemma set_documents_accounted s m delta :
  accounted s → total_size m = total_size (documents s) + delta →
  accounted (Storage.set_documents s m delta).
Proof.
  unfold accounted. cbn. intros -> ->. unfold wrap. by rewrite Zplus_mod_idemp_l.
Qed.

Lemma unregister_accounted s id : accounted s → accounted (Storage.unregister_document s id).1.
Proof.
  intros Ha. unfold Storage.unregister_document. destruct (documents s !! id) as [d|] eqn:Hd; [|done].
  apply set_documents_accounted; [done|]. rewrite (total_size_delete _ id d Hd). lia.
Qed.
Lemma register_accounted s id d : accounted s → accounted (Storage.register_document s id d).
Proof.
  intros Ha. unfold Storage.register_document, accounted in *.
  cbn [current_storage_bytes Storage.set_documents documents]. rewrite Ha. unfold wrap.
  rewrite Zplus_mod_idemp_l, <- Z.add_assoc, Zplus_mod_idemp_l. f_equal.
  destruct (documents s !! id) as [e|] eqn:He.
  - rewrite (total_size_replace _ _ _ _ He). lia.
  - rewrite total_size_insert by done. lia.
Qed.
(** Compression keeps the account only if it does not grow the document. *)
Lemma compressed_accounted s id d n :
  documents s !! id = Some d → n ≤ size_bytes d → accounted s →
  accounted (Storage.update_compressed s id n).1.
Proof.
  intros Hd Hn Ha. unfold Storage.update_compressed. rewrite Hd.
  apply set_documents_accounted; [done|]. rewrite (total_size_replace _ _ _ _ Hd). cbn.
  unfold saturating_sub. lia.
Qed.

(** * What a cycle may do *)
Record same_doc (d d' : StoredDocument) : Prop := {
  same_class : doc_class d' = doc_class d;
  same_stored : stored_at d' = stored_at d;
  same_protected : protected d' = protected d;
  same_size : size_bytes d' ≤ size_bytes d
}.
Instance same_doc_refl : Reflexive same_doc.
Proof. by constructor. Qed.
Instance same_doc_trans : Transitive same_doc.
Proof. intros x y z [] []. constructor; (congruence || lia). Qed.

(** Documents no cycle may remove: critical, protected in either way, or younger than
    the minimum retention time. *)
Definition spared (c : EvictionController) (now : Z) (id : bytes) (d : StoredDocument) : Prop :=
  doc_class d = Critical ∨ protected d = true ∨ id ∈ protected_docs c
  ∨ Stored.age_seconds d now
    < min_retain_seconds (RetentionTable.get (retention_policies (storage c)) (doc_class d)).

Record cycle_rel (now : Z) (c c' : EvictionController) : Prop := {
  cr_config : config c' = config c;
  cr_protected : protected_docs c' = protected_docs c;
  cr_policies : retention_policies (storage c') = retention_policies (storage c);
  cr_keeps : ∀ id d, documents (storage c) !! id = Some d → spared c now id d →
    ∃ d', documents (storage c') !! id = Some d' ∧ same_doc d d';
  cr_adds_none : ∀ id d', documents (storage c') !! id = Some d' →
    ∃ d, documents (storage c) !! id = Some d ∧ same_doc d d';
  cr_accounted : accounted (storage c) → accounted (storage c')
}.
Lemma spared_same c c' now id d d' :
  protected_docs c' = protected_docs c →
  retention_policies (storage c') = retention_policies (storage c) → same_doc d d' →
  spared c' now id d' ↔ spared c now id d.
Proof.
  intros Hp Hr [Hc Hs Hpr _]. unfold spared, Stored.age_seconds. by rewrite Hp, Hr, Hc, Hs, Hpr.
Qed.
Instance cycle_rel_refl now : Reflexive (cycle_rel now).
Proof. constructor; [done..| | |done]; intros id d Hd; [intros _|]; by exists d. Qed.
Instance cycle_rel_trans now : Transitive (cycle_rel now).
Proof.
  intros c1 c2 c3 [Hc Hp Hr Hk Ha Hs] [Hc' Hp' Hr' Hk' Ha' Hs']. constructor; [congruence..| | |tauto].
  - intros id d Hd Hsp. destruct (Hk id d Hd Hsp) as (d2 & Hd2 & H12).
    destruct (Hk' id d2 Hd2) as (d3 & Hd3 & H23); [by eapply spared_same|].
    exists d3. split; [done|by etrans].
  - intros id d3 Hd3. destruct (Ha' id d3 Hd3) as (d2 & Hd2 & H23).
    destruct (Ha id d2 Hd2) as (d1 & Hd1 & H12). exists d1. split; [done|by etrans].
Qed.
(** Changes that leave the storage alone. *)
Lemma cycle_rel_storage now c c' :
  config c' = config c → protected_docs c' = protected_docs c → storage c' = storage c → cycle_rel now c c'.
Proof.
  intros Hc Hp Hs. constructor; rewrite ?Hs; [done..| | |done]; intros id d Hd; [intros _|]; by exists d.
Qed.

Lemma cycle_rel_compress now c id d n :
  documents (storage c) !! id = Some d → n < size_bytes d →
  cycle_rel now c (Controller.set_storage c (Storage.update_compressed (storage c) id n).1).
Proof.
  intros Hd Hn. constructor; [done|done| | | |].
  - cbn. unfold Storage.update_compressed. by rewrite Hd.
  - intros id' d' Hd' _. cbn. unfold Storage.update_compressed. rewrite Hd. cbn.
    destruct (decide (id = id')) as [<-|Hne].
    + rewrite lookup_insert_eq. eexists. split; [done|]. rewrite Hd in Hd'. injection Hd' as <-.
      constructor; cbn; (done || lia).
    + rewrite lookup_insert_ne by done. by exists d'.
  - intros id' d'. cbn. unfold Storage.update_compressed. rewrite Hd. cbn.
    destruct (decide (id = id')) as [<-|Hne].
    + rewrite lookup_insert_eq. intros [= <-]. exists d. split; [done|]. constructor; cbn; (done || lia).
    + rewrite lookup_insert_ne by done. intros ?. by exists d'.
  - intros Ha. cbn. eapply compressed_accounted; [exact Hd|lia|done].
Qed.
Lemma cycle_rel_unregister now c id :
  (∀ d, documents (storage c) !! id = Some d → ¬ spared c now id d) →
  cycle_rel now c (Controller.set_storage c (Storage.unregister_document (storage c) id).1).
Proof.
  intros Hsp. unfold Storage.unregister_document.
  destruct (documents (storage c) !! id) as [d|] eqn:Hd; [|by apply cycle_rel_storage].
  constructor; [done|done|done| | |].
  - intros id' d' Hd' Hs'. cbn. rewrite lookup_delete_ne; [by exists d'|]. intros <-.
    rewrite Hd in Hd'. injection Hd' as <-. by destruct (Hsp d).
  - intros id' d'. cbn. intros [_ Hd']%lookup_delete_Some. by exists d'.
  - intros Ha. pose proof (unregister_accounted (storage c) id Ha) as Hu.
    unfold Storage.unregister_document in Hu. by rewrite Hd in Hu.
Qed.

Section Candidates.
Context {DO : DocumentOrder}.
Lemma insert_candidate_perm a l : Storage.insert_candidate a l ≡ₚ a :: l.
Proof. induction l as [|b l IH]; cbn; [done|]. case_match; [done|]. rewrite IH. constructor. Qed.
Lemma sort_candidates_perm l : Storage.sort_candidates l ≡ₚ l.
Proof.
  unfold Storage.sort_candidates.
  assert (∀ acc, foldl (λ acc a, Storage.insert_candidate a acc) acc l ≡ₚ l ++ acc) as H.
  { induction l as [|a l IH]; intros acc; cbn; [done|]. rewrite IH, insert_candidate_perm.
    by rewrite Permutation_middle. }
  rewrite H. by rewrite app_nil_r.
Qed.
Lemma select_subset needed total l : Storage.select needed total l ⊆ l.
Proof.
  revert total. induction l as [|a l IH]; intros total; cbn; [done|].
  case_decide; [set_solver|]. specialize (IH (total + cand_size a)). set_solver.
Qed.
Lemma candidates_evictable s needed now cand :
  cand ∈ Storage.get_eviction_candidates s needed now →
  ∃ d, documents s !! cand_id cand = Some d ∧ cand_class cand = doc_class d
  ∧ Storage.evictable s (Storage.storage_pressure s) now d = true.
Proof.
  unfold Storage.get_eviction_candidates. intros Hin%select_subset.
  rewrite sort_candidates_perm in Hin.
  apply list_elem_of_fmap in Hin as ([id d] & -> & [Hev Hin]%list_elem_of_filter). cbn in *.
  rewrite document_iter_perm, elem_of_map_to_list in Hin. by exists d.
Qed.
Lemma evictable_not_spared c now id d p :
  Storage.evictable (storage c) p now d = true → spared c now id d → id ∈ protected_docs c.
Proof.
  unfold Storage.evictable. intros [[Hc%bool_decide_eq_true Hp%negb_true_iff]%andb_true_iff He]%andb_true_iff.
  intros [?|[?|[?|Hage]]]; [done|congruence|done|]. exfalso.
  unfold Retention.should_evict, Retention.should_retain in He. by rewrite decide_True in He.
Qed.
End Candidates.

Section Cycle.
Context {DO : DocumentOrder} {X : Type} (Inv : X → Prop).
Context (ecb : option (bytes → stm X bytes unit)) (ccb : option (bytes → stm X bytes Z)).
Implicit Types (c : EvictionController) (x : X).
(** Compression keeps the invariant of the callbacks' state. *)
Context (Hccb : ∀ cb, ccb = Some cb → ∀ id x, Inv x → Inv (cb id x).2).

Lemma compress_loop_rel now ids cb r saved c x o c' x' :
  ccb = Some cb → Controller.compress_loop ids cb r saved now (c, x) = (o, (c', x')) → Inv x →
  cycle_rel now c c' ∧ Inv x' ∧ ∀ r' s', o = Ok (r', s') → docs_evicted r' = docs_evicted r.
Proof using Hccb.
  intros Hcb. revert r saved c x. induction ids as [|id ids IH]; intros r saved c x Hl Hx;
    cbn [Controller.compress_loop] in Hl.
  { injection Hl as <- <- <-. split_and!; [done|done|]. by intros r' s' [= <- _]. }
  destruct (documents (storage c) !! id) as [d|] eqn:Hd; [|by eapply IH].
  pose proof (Hccb cb Hcb id x Hx) as Hx1. destruct (cb id x) as [[n|e|] x1]; cbn [snd] in Hx1.
  - case_decide as Hn; [|by eapply IH]. apply IH in Hl as (Hrel & Hx' & Hr); [|done].
    split_and!; [|done|done]. etrans; [by eapply cycle_rel_compress|].
    etrans; [|exact Hrel]. by apply cycle_rel_storage.
  - apply IH in Hl as (Hrel & Hx' & Hr); [|done]. split_and!; [|done|done].
    etrans; [|exact Hrel]. by apply cycle_rel_storage.
  - injection Hl as <- <- <-. done.
Qed.

(** The candidate may be removed from the storage and handed to the callback. *)
Definition may_evict now c (cand : EvictionCandidate) : Prop :=
  (∀ d, documents (storage c) !! cand_id cand = Some d → spared c now (cand_id cand) d →
        cand_id cand ∈ protected_docs c)
  ∧ (cand_id cand ∉ protected_docs c → ∀ cb, ecb = Some cb → ∀ x, Inv x → Inv (cb (cand_id cand) x).2).

Lemma may_evict_rel now c c' cand :
  cycle_rel now c c' → may_evict now c cand → may_evict now c' cand.
Proof.
  intros Hrel [Hm Hcb]. split.
  - intros d' Hd' Hs. destruct (cr_adds_none _ _ _ Hrel _ _ Hd') as (d & Hd & Hsame).
    rewrite (cr_protected _ _ _ Hrel). apply (Hm d Hd).
    by apply (spared_same c c' now _ d d' (cr_protected _ _ _ Hrel) (cr_policies _ _ _ Hrel) Hsame).
  - by rewrite (cr_protected _ _ _ Hrel).
Qed.

Lemma evict_document_rel now cand c x o c' x' :
  Controller.evict_document ecb cand now (c, x) = (o, (c', x')) →
  may_evict now c cand → cand_id cand ∉ protected_docs c → Inv x → cycle_rel now c c' ∧ Inv x'.
Proof.
  unfold Controller.evict_document. intros He [Hm Hcb] Hp Hx.
  destruct ecb as [cb|]; [|by injection He as <- <- <-].
  specialize (Hcb Hp cb eq_refl x Hx). destruct (cb (cand_id cand) x) as [[[]|e|] x1]; cbn [snd] in Hcb;
    [|by injection He as <- <- <-..].
  assert (cycle_rel now c (Controller.set_storage c (Storage.unregister_document (storage c) (cand_id cand)).1)) as Hrel.
  { apply cycle_rel_unregister. intros d Hd Hs. by apply Hp, (Hm d Hd). }
  destruct (Storage.unregister_document (storage c) (cand_id cand)) as [s [d|]]; injection He as <- <- <-;
    [|done]. split; [|done]. etrans; [exact Hrel|]. by apply cycle_rel_storage.
Qed.

Lemma evict_loop_rel now elapsed needed cands i r c x o c' x' :
  Controller.evict_loop ecb elapsed i needed cands r now (c, x) = (o, (c', x')) →
  Forall (may_evict now c) cands → Inv x → (docs_evicted r ≤ max_evictions_per_cycle (config c))%nat →
  cycle_rel now c c' ∧ Inv x'
  ∧ ∀ r', o = Ok r' → (docs_evicted r' ≤ max_evictions_per_cycle (config c))%nat.
Proof.
  revert i r c x. induction cands as [|cand cands IH]; intros i r c x Hl Hm Hx Hr;
    cbn [Controller.evict_loop fst] in Hl.
  { injection Hl as <- <- <-. split_and!; [done|done|]. by intros r' [= <-]. }
  apply Forall_cons in Hm as [Hcand Hm].
  case_decide; [injection Hl as <- <- <-; split_and!; [done|done|]; by intros r' [= <-]|].
  case_decide as Hmax; [injection Hl as <- <- <-; split_and!; [done|done|]; by intros r' [= <-]|].
  case_decide as Hp; [by eapply IH|].
  destruct (Controller.evict_document ecb cand now (c, x)) as [o1 [c1 x1]] eqn:He.
  apply evict_document_rel in He as [Hrel Hx1]; [|done..].
  assert (Forall (may_evict now c1) cands) as Hm1
    by (eapply Forall_impl; [exact Hm|]; intros a; by apply may_evict_rel).
  destruct o1 as [n|e|].
  - case_decide; [injection Hl as <- <- <-; split_and!; [done|done|]; intros r' [= <-]; cbn; lia|].
    apply IH in Hl as (Hrel2 & Hx2 & Hr2); [|done|done|rewrite (cr_config _ _ _ Hrel); cbn; lia].
    split_and!; [by etrans|done|]. by rewrite (cr_config _ _ _ Hrel) in Hr2.
  - apply IH in Hl as (Hrel2 & Hx2 & Hr2); [| |done|cbn; by rewrite (cr_config _ _ _ Hrel)].
    + split_and!; [|done|]; [|cbn in Hr2; by rewrite (cr_config _ _ _ Hrel) in Hr2].
      etrans; [exact Hrel|]. etrans; [|exact Hrel2]. by apply cycle_rel_storage.
    + eapply Forall_impl; [exact Hm1|]. intros a. apply may_evict_rel. by apply cycle_rel_storage.
  - injection Hl as <- <- <-. done.
Qed.

Lemma execute_cycle_rel target elapsed took now c x o c' x' :
  Controller.execute_eviction_cycle ecb ccb target elapsed took now (c, x) = (o, (c', x')) →
  (∀ id d, documents (storage c) !! id = Some d → ¬ spared c now id d →
     ∀ cb, ecb = Some cb → ∀ x, Inv x → Inv (cb id x).2) →
  Inv x →
  cycle_rel now c c' ∧ Inv x'
  ∧ ∀ r, o = Ok r → (docs_evicted r ≤ max_evictions_per_cycle (config c))%nat.
Proof using Hccb.
  unfold Controller.execute_eviction_cycle. cbn [fst]. intros He Hcb Hx.
  case_decide; [injection He as <- <- <-; split_and!; [done|done|]; intros r [= <-]; cbn; lia|].
  set (r0 := Result.start _) in He.
  destruct (if compress_before_eviction (config c) then _ else _) as [o1 [c1 x1]] eqn:Hc.
  assert (cycle_rel now c c1 ∧ Inv x1 ∧ ∀ r' s', o1 = Ok (r', s') → docs_evicted r' = 0%nat) as (Hrel & Hx1 & Hr1).
  { destruct (compress_before_eviction (config c)).
    - unfold Controller.compress_eligible_documents in Hc.
      assert (ccb = None ∨ ∃ cb, ccb = Some cb) as [Hn|[cb Hcc]] by (clear; destruct ccb; eauto).
      2: { rewrite Hcc in Hc. by eapply compress_loop_rel in Hc as (? & ? & ?). }
      rewrite Hn in Hc. injection Hc as <- <- <-. split_and!; [done|done|]. by intros r' s' [= <- _].
    - injection Hc as <- <- <-. split_and!; [done|done|]. by intros r' s' [= <- _]. }
  destruct o1 as [[r1 saved]|e|]; [|by injection He as <- <- <-..].
  specialize (Hr1 r1 saved eq_refl).
  destruct (_ && _).
  { injection He as <- <- <-. split_and!; [|done|intros r [= <-]; cbn; lia].
    etrans; [exact Hrel|]. by apply cycle_rel_storage. }
  destruct (Controller.evict_loop _ _ _ _ _ _ _ _) as [o2 [c2 x2]] eqn:Hl.
  apply evict_loop_rel in Hl as (Hrel2 & Hx2 & Hr2); [| |done|lia].
  - assert (cycle_rel now c c2) as Hrel3 by by etrans.
    destruct o2 as [r2|e|]; injection He as <- <- <-; [|by split_and!..].
    split_and!; [|done|].
    + etrans; [exact Hrel3|]. by apply cycle_rel_storage.
    + intros r [= <-]. cbn. rewrite <- (cr_config _ _ _ Hrel). by apply Hr2.
  - apply Forall_forall. intros cand (d & Hd & _ & Hev)%candidates_evictable. split.
    + intros d' Hd'. rewrite Hd in Hd'. injection Hd' as <-. by apply evictable_not_spared with (p := Storage.storage_pressure (storage c1)).
    + intros Hp. destruct (cr_adds_none _ _ _ Hrel _ _ Hd) as (d0 & Hd0 & Hsame).
      apply (Hcb _ d0 Hd0). intros Hs.
      apply (spared_same c c1 now _ d0 d (cr_protected _ _ _ Hrel) (cr_policies _ _ _ Hrel) Hsame) in Hs.
      by apply Hp, (evictable_not_spared _ _ _ _ _ Hev).
Qed.
End Cycle.

(** C10.  An eviction cycle removes no document it must spare: a critical one, one
    protected in the storage or by the operator, or one younger than its class's
    minimum retention time.  This holds for every callback and target, however the
    cycle ends; it evicts no more documents than configured, adds none, and keeps the
    byte counter equal to the sum of the tracked sizes. *)
Theorem eviction_cycle_safe {DO : DocumentOrder} {X : Type}
    (ecb : option (bytes → stm X bytes unit)) (ccb : option (bytes → stm X bytes Z))
    target elapsed took now c x o c' x' :
  Controller.execute_eviction_cycle ecb ccb target elapsed took now (c, x) = (o, (c', x')) →
  cycle_rel now c c' ∧ ∀ r, o = Ok r → (docs_evicted r ≤ max_evictions_per_cycle (config c))%nat.
Proof.
  intros He. destruct (execute_cycle_rel (λ _, True) ecb ccb) with (2 := He) as (Hrel & _ & Hr); done.
Qed.

Section ServiceSafe.
Context {AM : Automerge} {AML : AutomergeLaws} {RD : Redb} {RDL : RedbLaws} {LR : Lru doc}
  {LRL : LruLaws doc} {DO : DocumentOrder}.

Definition key_class (key : bytes) : QoSClass :=
  Class.for_collection (take (default (length key) (find_byte is_colon key)) key).
(** Documents are tracked with the class of their collection. *)
Definition classified (c : EvictionController) : Prop :=
  map_Forall (λ key d, doc_class d = key_class key) (documents (storage c)).

(** The eviction service keeps critical documents: over any number of
    registrations, removals and ticks of its task, the documents of the critical
    collections stay in the store as they are, whatever the pressure and whichever
    deletions fail. *)
Theorem service_keeps_critical_documents events c s key :
  classified c → store_ok s → key_class key = Critical →
  let run := foldl (λ x e, match e with
    | inl (k, size, now) => (EvictionService.register_document x.1 k size now, x.2)
    | inr (inl k) => (EvictionService.unregister_document x.1 k, x.2)
    | inr (inr (elapsed, took, now)) => (EvictionService.tick elapsed took now x).2
    end) (c, s) events in
  classified run.1 ∧ store_ok run.2 ∧ contents run.2 !! key = contents s !! key.
Proof.
  intros Hc Hs Hkey. cbv zeta. revert c s Hc Hs.
  induction events as [|e events IH]; intros c s Hc Hs; [done|]. cbn [foldl].
  match goal with |- context [foldl _ ?m events] => set (x1 := m) end.
  assert (classified x1.1 ∧ store_ok x1.2 ∧ contents x1.2 !! key = contents s !! key) as (Hc1 & Hs1 & Hk1).
  { subst x1. destruct e as [[[k size] now]|[k|[[elapsed took] now]]]; cbn [fst snd].
    - split_and!; [|done..]. by apply map_Forall_insert_2.
    - split_and!; [|done..]. unfold classified, EvictionService.unregister_document, Storage.unregister_document.
      destruct (documents (storage c) !! k); [by apply map_Forall_delete|done].
    - unfold EvictionService.tick. cbn [fst]. destruct (Storage.should_evict _); [|done].
      unfold Controller.run_eviction_cycle. cbn [fst]. destruct (flt _ _); [done|].
      unfold mbind, stm_bind.
      destruct (Controller.execute_eviction_cycle _ _ _ _ _ _ _) as [o [c' s']] eqn:He.
      apply (execute_cycle_rel (λ s', store_ok s' ∧ contents s' !! key = contents s !! key)) in He
        as (Hrel & [Hs' Hk'] & _); [|done| |done].
      + assert (classified c') as Hc'.
        { intros k d' Hd'. destruct (cr_adds_none _ _ _ Hrel _ _ Hd') as (d & Hd & Hsame).
          rewrite (same_class _ _ Hsame). by apply Hc. }
        by destruct o.
      + intros id d Hd Hsp cb [= <-] s0 [Hs0 Hk0]. unfold EvictionService.delete_callback.
        destruct (delete_doc id s0) as [r0 s1] eqn:Hdel. cbn [snd].
        destruct (delete_doc_ok id s0 r0 s1 Hdel Hs0) as [(_ & Hs1 & Hc1 & _)|[_ ->]]; [|done].
        split; [done|]. rewrite Hc1, lookup_delete_ne; [done|]. intros ->. apply Hsp. left.
        rewrite (Hc key d Hd). exact Hkey. }
  destruct x1 as [c1 s1]. cbn [fst snd] in *. rewrite <- Hk1. by apply IH.
Qed.
End ServiceSafe.

(** ** Instances *)
#[local] Instance toy_document_order : DocumentOrder :=
  {| document_iter := map_to_list; document_iter_perm m := reflexivity _ |}.
Definition ex_service : EvictionController :=
  EvictionService.register_document
    (EvictionService.register_document (EvictionService.new 1000 default_eviction) (str "notes:1") 500 0)
    (str "commands:1") 450 0.
Definition ex_db : toy_db :=
  {| toy_docs := {[ str "notes:1" := toy_save toy_note; str "commands:1" := toy_save toy_note ]};
     toy_tombs := ∅; toy_bad := ∅ |}.
Definition ex_store : AutomergeStore := opened (ex_db : @database toy_redb).
Lemma ex_store_ok : store_ok ex_store.
Proof.
  apply opened_ok. rewrite toy_db_view. apply map_Forall_insert_2; [done|by apply map_Forall_singleton].
Qed.
Definition ex_tick := (EvictionService.tick (λ _, 0) 1 400 (ex_service, ex_store)).2.

(** The tick deletes the note, which is bulk data, and keeps the command. *)
Lemma service_keeps_critical_documents_witness :
  contents ex_tick.2 !! str "notes:1" = None
  ∧ contents ex_tick.2 !! str "commands:1" = contents ex_store !! str "commands:1"
  ∧ is_Some (contents ex_store !! str "commands:1").
Proof.
  split_and!; [vm_eq| |exists toy_note; vm_eq].
  apply (service_keeps_critical_documents [inr (inr (λ _, 0, 1, 400))] ex_service ex_store (str "commands:1")).
  - intros k d Hd. cbn in Hd. apply lookup_insert_Some in Hd as [[<- <-]|[_ Hd]]; [done|].
    apply lookup_insert_Some in Hd as [[<- <-]|[_ Hd]]; [done|]. done.
  - apply ex_store_ok.
  - vm_eq.
Defined.

Definition ex_cycle := Controller.execute_eviction_cycle
  (Some (λ id x, (Ok tt, x + 1)%nat)) None (Some 100) (λ _, 0) 1 400 (ex_service, 0%nat).
Definition ex_result : EvictionResult :=
  match ex_cycle.1 with Ok r => r | _ => Result.start (pct 0) end.
Lemma eviction_cycle_safe_witness :
  docs_evicted ex_result = 1%nat ∧ cycle_rel 400 ex_service ex_cycle.2.1.
Proof.
  split; [vm_eq|].
  apply (eviction_cycle_safe (Some (λ id x, (Ok tt, x + 1)%nat)) None (Some 100) (λ _, 0) 1 400 ex_service 0%nat
           (Ok ex_result) ex_cycle.2.1 ex_cycle.2.2).
  vm_eq.
Defined.
