(* ===== verification/Negentropy.v ===== *)
(** Set reconciliation sessions ([src/storage/negentropy_sync.rs]).  The negentropy
    crate is an interface; counters are 64-bit and wrap. *)
From Stdlib Require Import ZArith Lia Strings.Byte Strings.String.
From stdpp Require Import prelude gmap.
From S2P Require Import Prelude Wire Device.

Set Default Proof Using "Type".
#[local] Open Scope Z_scope.

(** The negentropy crate; [None] is an error. *)
Class NegentropyCrate := {
  neg_storage : Type;
  storage_new : neg_storage;
  storage_insert : neg_storage → Z → bytes → option neg_storage;
  storage_seal : neg_storage → option neg_storage;
  neg_state : Type;
  neg_owned : neg_storage → option neg_state;
  neg_initiate : neg_state → option bytes * neg_state;
  neg_reconcile : neg_state → bytes → option bytes * neg_state;
  (** the next message, the ids only we have, the ids only the peer has *)
  neg_reconcile_with_ids : neg_state → bytes
    → option (option bytes * list bytes * list bytes) * neg_state
}.

Record SyncItem := { item_key : bytes; item_timestamp : Z; item_id : bytes }.

Record ReconcileResult := {
  have_keys : list bytes;
  need_keys : list bytes;
  is_complete : bool;
  next_message : option bytes
}.

Inductive NegentropyError := InvalidId | StorageRefused | StorageConsumed | CreateFailed
  | InitiateFailed | NotInitiated | ReconcileFailed.

Record NegentropyStats := {
  sessions_initiated : Z;
  sessions_completed : Z;
  docs_have : Z;
  docs_need : Z;
  bytes_exchanged : Z;
  round_trips : Z
}.

Definition from_doc_key `{!Sha256} (key : bytes) (timestamp : Z) : SyncItem :=
  {| item_key := key; item_timestamp := timestamp; item_id := sha256 key |}.

Record SyncSession `{!NegentropyCrate} := {
  sess_storage : option neg_storage;
  sess_negentropy : option neg_state;
  id_to_key : gmap bytes bytes;
  is_initiator : bool
}.

Module Session.
Section session.
Context {NC : NegentropyCrate}.
Definition set_negentropy (s : SyncSession) (n : neg_state) : SyncSession := {|
  sess_storage := None; sess_negentropy := Some n; id_to_key := id_to_key s;
  is_initiator := is_initiator s |}.

Fixpoint insert_items (items : list SyncItem) (st : neg_storage) (m : gmap bytes bytes)
    : outcome NegentropyError (neg_storage * gmap bytes bytes) :=
  match items with
  | [] => Ok (st, m)
  | i :: items =>
      bail! negb (bool_decide (length (item_id i) = 32%nat)) with InvalidId;
      st ← ok_or (storage_insert st (item_timestamp i) (item_id i)) StorageRefused;
      insert_items items st (<[item_id i := item_key i]> m)
  end.
Definition new_session (initiator : bool) (items : list SyncItem)
    : outcome NegentropyError SyncSession :=
  '(st, m) ← insert_items items storage_new ∅;
  st ← ok_or (storage_seal st) StorageRefused;
  Ok {| sess_storage := Some st; sess_negentropy := None; id_to_key := m; is_initiator := initiator |}.
Definition new_initiator : list SyncItem → outcome NegentropyError SyncSession := new_session true.
Definition new_responder : list SyncItem → outcome NegentropyError SyncSession := new_session false.

Definition take_storage (s : SyncSession) : SyncSession := {|
  sess_storage := None; sess_negentropy := sess_negentropy s; id_to_key := id_to_key s;
  is_initiator := is_initiator s |}.

(** The storage moves into the reconciler. *)
Definition start : stm SyncSession NegentropyError neg_state :=
  st ← gets sess_storage;
  _ ← modify take_storage;
  st ← lift (ok_or st StorageConsumed);
  lift (ok_or (neg_owned st) CreateFailed).

Definition initiate : stm SyncSession NegentropyError bytes :=
  neg ← start;
  let '(m, neg) := neg_initiate neg in
  m ← lift (ok_or m InitiateFailed);
  _ ← modify (λ s, set_negentropy s neg);
  mret m.

Definition keys_of (m : gmap bytes bytes) (ids : list bytes) : list bytes := omap (λ id, m !! id) ids.

Definition reconcile_initiator (msg : bytes) : stm SyncSession NegentropyError ReconcileResult :=
  neg ← gets sess_negentropy;
  neg ← lift (ok_or neg NotInitiated);
  let '(answer, neg) := neg_reconcile_with_ids neg msg in
  _ ← modify (λ s, set_negentropy s neg);
  '(response, have_ids, need_ids) ← lift (ok_or answer ReconcileFailed);
  m ← gets id_to_key;
  mret {| have_keys := keys_of m have_ids; need_keys := keys_of m need_ids;
          is_complete := bool_decide (response = None); next_message := response |}.

Definition reconcile_responder (msg : bytes) : stm SyncSession NegentropyError ReconcileResult :=
  known ← gets sess_negentropy;
  neg ← match known with Some neg => mret neg | None => start end;
  _ ← modify (λ s, set_negentropy s neg);
  let '(answer, neg) := neg_reconcile neg msg in
  _ ← modify (λ s, set_negentropy s neg);
  response ← lift (ok_or answer ReconcileFailed);
  mret {| have_keys := []; need_keys := []; is_complete := false; next_message := Some response |}.

Definition reconcile (msg : bytes) : stm SyncSession NegentropyError ReconcileResult :=
  initiator ← gets is_initiator;
  if initiator : bool then reconcile_initiator msg else reconcile_responder msg.
End session.
End Session.

(** * The manager *)
Record NegentropySync `{!NegentropyCrate} := { sessions : gmap bytes SyncSession; neg_stats : NegentropyStats }.

Module Manager.
Section manager.
Context {NC : NegentropyCrate}.
Definition new : NegentropySync := {|
  sessions := ∅;
  neg_stats := {| sessions_initiated := 0; sessions_completed := 0; docs_have := 0; docs_need := 0;
                  bytes_exchanged := 0; round_trips := 0 |} |}.
Definition set_session (n : NegentropySync) (p : bytes) (s : SyncSession) : NegentropySync :=
  {| sessions := <[p := s]> (sessions n); neg_stats := neg_stats n |}.
Definition count_init (st : NegentropyStats) (m : bytes) : NegentropyStats := {|
  sessions_initiated := wrap 64 (sessions_initiated st + 1);
  sessions_completed := sessions_completed st; docs_have := docs_have st; docs_need := docs_need st;
  bytes_exchanged := wrap 64 (bytes_exchanged st + zlen m); round_trips := round_trips st |}.

Definition initiate_sync (p : bytes) (items : list SyncItem)
    : stm NegentropySync NegentropyError bytes :=
  session ← lift (Session.new_initiator items);
  let '(r, session) := Session.initiate session in
  m ← lift r;
  _ ← modify (λ n, set_session n p session);
  _ ← modify (λ n, {| sessions := sessions n; neg_stats := count_init (neg_stats n) m |});
  mret m.

Definition count_message (st : NegentropyStats) (m : bytes) (r : ReconcileResult) : NegentropyStats := {|
  sessions_initiated := sessions_initiated st;
  sessions_completed := wrap 64 (sessions_completed st + if is_complete r then 1 else 0);
  docs_have := wrap 64 (docs_have st + Z.of_nat (length (have_keys r)));
  docs_need := wrap 64 (docs_need st + Z.of_nat (length (need_keys r)));
  bytes_exchanged := wrap 64 (bytes_exchanged st + zlen m
    + match next_message r with Some next => zlen next | None => 0 end);
  round_trips := wrap 64 (round_trips st + 1) |}.

(** The session of the peer, created as a responder if there is none. *)
Definition session_for (p : bytes) (items : list SyncItem) : stm NegentropySync NegentropyError SyncSession :=
  known ← gets (λ n, sessions n !! p);
  match known with
  | Some s => mret s
  | None =>
      s ← lift (Session.new_responder items);
      _ ← modify (λ n, set_session n p s);
      mret s
  end.
Definition handle_message (p m : bytes) (items : list SyncItem)
    : stm NegentropySync NegentropyError ReconcileResult :=
  session ← session_for p items;
  let '(r, session) := Session.reconcile m session in
  _ ← modify (λ n, set_session n p session);
  result ← lift r;
  _ ← modify (λ n, {|
    sessions := if is_complete result then delete p (sessions n) else sessions n;
    neg_stats := count_message (neg_stats n) m result |});
  mret result.

Definition has_session (n : NegentropySync) (p : bytes) : bool := bool_decide (is_Some (sessions n !! p)).
Definition cancel_session (n : NegentropySync) (p : bytes) : NegentropySync :=
  {| sessions := delete p (sessions n); neg_stats := neg_stats n |}.
End manager.
End Manager.

(** * What a session can name *)
Section Within.
Context {NC : NegentropyCrate}.

(** Every session's table of ids holds only keys of [keys]. *)
Definition session_within (keys : list bytes) (s : SyncSession) : Prop :=
  map_Forall (λ _ k, k ∈ keys) (id_to_key s).
Definition sessions_within (keys : list bytes) (n : NegentropySync) : Prop :=
  map_Forall (λ _ s, session_within keys s) (sessions n).
Definition result_within (keys : list bytes) (r : ReconcileResult) : Prop :=
  have_keys r ⊆ keys ∧ need_keys r ⊆ keys.

Lemma insert_items_within items st m st' m' keys :
  Session.insert_items items st m = Ok (st', m') → map_Forall (λ _ k, k ∈ keys) m →
  (item_key <$> items) ⊆ keys → map_Forall (λ _ k, k ∈ keys) m'.
Proof.
  revert st m. induction items as [|i items IH]; intros st m; cbn [Session.insert_items].
  - by intros [= _ <-].
  - destruct (negb _); [done|]. intros (st1 & _ & Hr)%bind_Ok_inv Hm Hk. eapply IH; [exact Hr| |set_solver].
    apply map_Forall_insert_2; [|done]. apply Hk. cbn. left.
Qed.
Lemma new_session_within b items s :
  Session.new_session b items = Ok s → session_within (item_key <$> items) s.
Proof.
  unfold Session.new_session. intros ([st m] & Hi & (st' & _ & [= <-])%bind_Ok_inv)%bind_Ok_inv.
  eapply insert_items_within; [exact Hi|apply map_Forall_empty|done].
Qed.
Lemma keys_of_within m ids keys :
  map_Forall (λ _ k, k ∈ keys) m → Session.keys_of m ids ⊆ keys.
Proof. intros Hm k (id & _ & Hk)%list_elem_of_omap. by eapply Hm. Qed.

Lemma start_table s r s' : Session.start s = (r, s') → id_to_key s' = id_to_key s ∧ is_initiator s' = is_initiator s.
Proof.
  unfold Session.start, mbind, stm_bind, gets, modify, lift. cbn.
  destruct (sess_storage s) as [st|]; cbn; [|by intros [= _ <-]].
  destruct (neg_owned st); cbn; by intros [= _ <-].
Qed.
Lemma initiate_table s r s' : Session.initiate s = (r, s') → id_to_key s' = id_to_key s.
Proof.
  unfold Session.initiate. intros [(neg & s1 & Hs & H)|[(e & s1 & Hs & [= _ ->])|(s1 & Hs & [= _ ->])]]%stm_bind_inv;
    apply start_table in Hs as [Ht _]; [|done..].
  destruct (neg_initiate neg) as [[m|] neg']; by injection H as _ <-.
Qed.
Lemma reconcile_within keys m s r s' :
  Session.reconcile m s = (r, s') → session_within keys s →
  session_within keys s' ∧ ∀ x, r = Ok x → result_within keys x.
Proof.
  unfold Session.reconcile, session_within. intros H Hs.
  change ((if is_initiator s then Session.reconcile_initiator m else Session.reconcile_responder m) s
          = (r, s')) in H. destruct (is_initiator s).
  - unfold Session.reconcile_initiator, mbind, stm_bind, gets, modify, lift, mret, stm_ret in H. cbn in H.
    destruct (sess_negentropy s) as [neg|]; cbn in H; [|by injection H as <- <-].
    destruct (neg_reconcile_with_ids neg m) as [[[[resp hv] nd]|] neg']; cbn in H; injection H as <- <-; [|done].
    split; [done|]. intros x [= <-]. split; by apply keys_of_within.
  - unfold Session.reconcile_responder in H.
    apply stm_bind_inv in H as [(known & s1 & [= <- <-] & H)|[(e & s1 & [=] & _)|(s1 & [=] & _)]].
    apply stm_bind_inv in H as [(neg & s2 & Hst & H)|[(e & s2 & Hst & [= -> ->])|(s2 & Hst & [= -> ->])]].
    all: assert (id_to_key s2 = id_to_key s) as Ht
      by (destruct (sess_negentropy s); [unfold mret, stm_ret in Hst; congruence|by apply start_table in Hst as [? _]]).
    2,3: by rewrite Ht.
    unfold mbind, stm_bind, modify, lift, mret, stm_ret in H. cbn in H.
    destruct (neg_reconcile neg m) as [[resp|] neg']; cbn in H; injection H as <- <-; cbn; rewrite Ht; [|done].
    split; [done|]. intros x [= <-]. split; apply list_subseteq_nil.
Qed.

Lemma sessions_within_mono keys keys' n : sessions_within keys n → keys ⊆ keys' → sessions_within keys' n.
Proof. intros Hn Hk p s Hp id k Hid. apply Hk. by eapply (Hn p s Hp). Qed.
Lemma set_session_within keys n p s :
  sessions_within keys n → session_within keys s → sessions_within keys (Manager.set_session n p s).
Proof. intros Hn Hs. by apply map_Forall_insert_2. Qed.

Lemma initiate_sync_within keys p items n r n' :
  Manager.initiate_sync p items n = (r, n') → sessions_within keys n → (item_key <$> items) ⊆ keys →
  sessions_within keys n'.
Proof.
  unfold Manager.initiate_sync, lift. intros H Hn Hk.
  apply stm_bind_inv in H as [(s & n1 & [= Hs <-] & H)|[(e & n1 & [= _ <-] & [= _ ->])|(n1 & [= _ <-] & [= _ ->])]];
    [|done..].
  destruct (Session.initiate s) as [r0 s0] eqn:Hi. apply initiate_table in Hi.
  assert (session_within keys s0) as Hs0.
  { unfold session_within. rewrite Hi. apply new_session_within in Hs. intros id k Hid. apply Hk. by eapply Hs. }
  apply stm_bind_inv in H as [(m & n1 & [= -> <-] & H)|[(e & n1 & [= _ <-] & [= _ ->])|(n1 & [= _ <-] & [= _ ->])]];
    [|done..].
  injection H as _ <-. by apply (set_session_within keys n p s0).
Qed.

Lemma handle_message_within keys p m items n r n' :
  Manager.handle_message p m items n = (r, n') → sessions_within keys n → (item_key <$> items) ⊆ keys →
  sessions_within keys n' ∧ ∀ x, r = Ok x → result_within keys x.
Proof.
  unfold Manager.handle_message. intros H Hn Hk.
  assert (∀ r1 n1, Manager.session_for p items n = (r1, n1) →
    sessions_within keys n1 ∧ ∀ s, r1 = Ok s → session_within keys s) as Hfor.
  { unfold Manager.session_for. intros r1 n1 Hf.
    apply stm_bind_inv in Hf as [(known & n2 & [= <- <-] & Hf)|[(e & n2 & [=] & _)|(n2 & [=] & _)]].
    destruct (sessions n !! p) as [s|] eqn:Hp; [injection Hf as <- <-; split; [done|]; intros s' [= <-]; by eapply Hn|].
    unfold lift in Hf.
    apply stm_bind_inv in Hf as [(s & n2 & [= Hs <-] & Hf)|[(e & n2 & [= _ <-] & [= -> ->])|(n2 & [= _ <-] & [= -> ->])]];
      [|done..].
    assert (session_within keys s) by (intros id k Hid; by eapply Hk, (new_session_within _ _ _ Hs)).
    injection Hf as <- <-. split; [by apply set_session_within|]. by intros s' [= <-]. }
  apply stm_bind_inv in H as [(s & n1 & Hs & H)|[(e & n1 & Hs & [= -> ->])|(n1 & Hs & [= -> ->])]];
    destruct (Hfor _ _ Hs) as [Hn1 Hs1]; [|done..].
  destruct (Session.reconcile m s) as [r0 s0] eqn:Hr.
  destruct (reconcile_within keys m s r0 s0 Hr (Hs1 s eq_refl)) as [Hs0 Hres].
  pose proof (set_session_within keys n1 p s0 Hn1 Hs0) as Hset.
  unfold mbind, stm_bind, modify, lift, mret, stm_ret in H. cbn -[Manager.set_session] in H.
  destruct r0 as [x|e|]; injection H as <- <-; [|done..].
  split; [|intros ? [= <-]; by apply Hres].
  unfold sessions_within. cbn -[Manager.set_session].
  destruct (is_complete x); [by apply map_Forall_delete|done].
Qed.

(** The calls of the coordinator. *)
Inductive neg_op := NegInit (p : bytes) (items : list SyncItem)
  | NegMessage (p m : bytes) (items : list SyncItem) | NegCancel (p : bytes).
Definition offered (o : neg_op) : list bytes :=
  match o with
  | NegInit _ items | NegMessage _ _ items => item_key <$> items
  | NegCancel _ => []
  end.
Fixpoint run_neg (ops : list neg_op) (n : NegentropySync) : list ReconcileResult * NegentropySync :=
  match ops with
  | [] => ([], n)
  | NegInit p items :: ops => run_neg ops (Manager.initiate_sync p items n).2
  | NegCancel p :: ops => run_neg ops (Manager.cancel_session n p)
  | NegMessage p m items :: ops =>
      let '(r, n) := Manager.handle_message p m items n in
      let '(rs, n) := run_neg ops n in
      (match r with Ok x => x :: rs | _ => rs end, n)
  end.

Lemma run_neg_within keys ops n :
  sessions_within keys n → (ops ≫= offered) ⊆ keys → Forall (result_within keys) (run_neg ops n).1.
Proof.
  revert n. induction ops as [|o ops IH]; intros n Hn Hk; [constructor|].
  rewrite bind_cons in Hk. apply list_subseteq_app_iff_l in Hk as [Ho Hk].
  destruct o as [p items|p m items|p]; cbn [run_neg].
  - apply IH; [|done]. destruct (Manager.initiate_sync p items n) as [r n'] eqn:Hi.
    by eapply initiate_sync_within.
  - destruct (Manager.handle_message p m items n) as [r n'] eqn:Hh.
    destruct (handle_message_within keys p m items n r n' Hh Hn Ho) as [Hn' Hx].
    specialize (IH n' Hn' Hk). destruct (run_neg ops n') as [rs n2].
    destruct r as [x|e|]; [|done..]. constructor; [by apply Hx|done].
  - apply IH; [|done]. by apply map_Forall_delete.
Qed.

(** C39.  Reconciliation never names a document the node does not have.  Whatever the
    peer sends and in whatever order sessions are started, cancelled and continued,
    every key a result lists, in particular every one of [need_keys], is the key of a
    document of the node itself; the documents only the peer has are dropped. *)
Theorem reconciliation_names_own_documents ops :
  Forall (result_within (ops ≫= offered)) (run_neg ops Manager.new).1.
Proof. apply run_neg_within; [apply map_Forall_empty|done]. Qed.
End Within.
