(* ===== verification/SyncProtocol.v ===== *)
(** The sync coordinator's handlers ([src/storage/automerge_sync.rs]) on the document
    store: sync modes ([src/qos/sync_mode.rs]), delta messages, state snapshots,
    tombstones and their propagation, batches and hierarchical routing.

    A handler runs on the state of its node and appends what it sends to the node's
    outbox; sending fails for peers without a link.  The protocol state machine of
    Automerge and the router are interfaces; the persistent channels and the
    negentropy handlers are not part of the model.  Counters are 64-bit and wrap. *)
From Stdlib Require Import ZArith Lia Strings.Byte Strings.String.
From stdpp Require Import prelude gmap.
From S2P Require Import Prelude Wire Text Device Deletion Store Float Ttl.
From S2P Require Import FlowControl SyncErrors SyncCoordinator Qos Bandwidth.
From S2P Require Import Negentropy SyncWire.

Set Default Proof Using "Type".

(** * Sync modes *)
Inductive SyncMode := FullHistory | LatestOnly | WindowedHistoryMode (window_seconds : Z).

Module Modes.
Definition default_for_collection (c : bytes) : SyncMode :=
  if decide (c = str "beacons" ∨ c = str "platforms" ∨ c = str "tracks" ∨ c = str "nodes"
             ∨ c = str "cells") then LatestOnly
  else if decide (c = str "node_states" ∨ c = str "squad_summaries"
                  ∨ c = str "platoon_summaries" ∨ c = str "company_summaries") then LatestOnly
  else if decide (c = str "contact_reports" ∨ c = str "commands" ∨ c = str "audit_logs"
                  ∨ c = str "alerts") then FullHistory
  else if decide (c = str "track_history" ∨ c = str "capability_history")
    then WindowedHistoryMode 300
  else FullHistory.

Record SyncModeRegistry := { mode_overrides : gmap bytes SyncMode }.
Definition new : SyncModeRegistry := {| mode_overrides := ∅ |}.
Definition set (r : SyncModeRegistry) (c : bytes) (m : SyncMode) : SyncModeRegistry :=
  {| mode_overrides := <[c := m]> (mode_overrides r) |}.
Definition get (r : SyncModeRegistry) (c : bytes) : SyncMode :=
  default (default_for_collection c) (mode_overrides r !! c).
Definition remove (r : SyncModeRegistry) (c : bytes) : SyncModeRegistry * option SyncMode :=
  ({| mode_overrides := delete c (mode_overrides r) |}, mode_overrides r !! c).
Definition defaults : list (bytes * SyncMode) := [
  (str "beacons", LatestOnly); (str "platforms", LatestOnly); (str "tracks", LatestOnly);
  (str "nodes", LatestOnly); (str "cells", LatestOnly); (str "node_states", LatestOnly);
  (str "squad_summaries", LatestOnly); (str "platoon_summaries", LatestOnly);
  (str "company_summaries", LatestOnly); (str "contact_reports", FullHistory);
  (str "commands", FullHistory); (str "audit_logs", FullHistory); (str "alerts", FullHistory);
  (str "track_history", WindowedHistoryMode 300);
  (str "capability_history", WindowedHistoryMode 300)
].
Definition with_defaults : SyncModeRegistry := foldl (λ r e, set r e.1 e.2) new defaults.
End Modes.

(** * The node *)
Abbreviation peer := bytes (only parsing).

(** Automerge's sync protocol and merge. *)
Class AutomergeSync `{!Automerge, !SyncMessages} := {
  sync_state : Type;
  state_new : sync_state;
  (** a fresh state that keeps the shared heads *)
  state_converged : sync_state → sync_state;
  generate_sync_message : doc → sync_state → option sync_msg * sync_state;
  am_receive : doc → sync_state → sync_msg → option (doc * sync_state);
  am_merge : doc → doc → option doc
}.

(** The router of [with_sync_router]. *)
Class SyncRouter := get_targets : SyncDirection → list peer → list peer.

Record PeerSyncStats := {
  bytes_sent : Z;
  bytes_received : Z;
  sync_count : Z;
  last_sync : option Z;
  failure_count : Z;
  latest_only_count : Z;
  full_history_count : Z;
  windowed_count : Z
}.
Definition no_stats : PeerSyncStats := {|
  bytes_sent := 0; bytes_received := 0; sync_count := 0; last_sync := None; failure_count := 0;
  latest_only_count := 0; full_history_count := 0; windowed_count := 0
|}.

Inductive NodeError := StoreFailure (e : StoreError) | NotConnected | MergeFailed | NotFound
  | NothingToSend | NoBandwidth (c : QoSClass) | WireFailure (e : SyncWireError)
  | Refused (e : SyncRefusal) | NegentropyFailure (e : NegentropyError).

Section Node.
Context {AM : Automerge} {RD : Redb} {LR : Lru doc} {TJ : TombstoneJson} {SM : SyncMessages}
  {AS : AutomergeSync} {GO : GroupOrder} {Sha : Sha256} {NC : NegentropyCrate}.

Record SyncNode := {
  store : AutomergeStore;
  peer_states : gmap bytes (gmap peer sync_state);
  peer_stats : gmap peer PeerSyncStats;
  total_bytes_sent : Z;
  total_bytes_received : Z;
  ttl_manager : option TtlManager;
  sync_mode_registry : Modes.SyncModeRegistry;
  next_batch_id : Z;
  connected_peers : list peer;
  outbox : list (peer * bytes);   (* frames on new streams *)
  replies : list (peer * bytes);  (* frames on the stream being handled *)
  guards : SyncCoordinator;
  bandwidth : option BandwidthAllocation;
  negentropy : NegentropySync
}.
Implicit Types n : SyncNode.

Definition set_store n (s : AutomergeStore) : SyncNode := {|
  store := s; peer_states := peer_states n; peer_stats := peer_stats n;
  total_bytes_sent := total_bytes_sent n; total_bytes_received := total_bytes_received n;
  ttl_manager := ttl_manager n; sync_mode_registry := sync_mode_registry n;
  next_batch_id := next_batch_id n; connected_peers := connected_peers n; outbox := outbox n;
  replies := replies n; guards := guards n; bandwidth := bandwidth n; negentropy := negentropy n |}.
Definition set_states n (m : gmap bytes (gmap peer sync_state)) : SyncNode := {|
  store := store n; peer_states := m; peer_stats := peer_stats n;
  total_bytes_sent := total_bytes_sent n; total_bytes_received := total_bytes_received n;
  ttl_manager := ttl_manager n; sync_mode_registry := sync_mode_registry n;
  next_batch_id := next_batch_id n; connected_peers := connected_peers n; outbox := outbox n;
  replies := replies n; guards := guards n; bandwidth := bandwidth n; negentropy := negentropy n |}.
Definition set_ttl_manager n (m : option TtlManager) : SyncNode := {|
  store := store n; peer_states := peer_states n; peer_stats := peer_stats n;
  total_bytes_sent := total_bytes_sent n; total_bytes_received := total_bytes_received n;
  ttl_manager := m; sync_mode_registry := sync_mode_registry n; next_batch_id := next_batch_id n;
  connected_peers := connected_peers n; outbox := outbox n; replies := replies n;
  guards := guards n; bandwidth := bandwidth n; negentropy := negentropy n |}.
Definition set_guards n (g : SyncCoordinator) : SyncNode := {|
  store := store n; peer_states := peer_states n; peer_stats := peer_stats n;
  total_bytes_sent := total_bytes_sent n; total_bytes_received := total_bytes_received n;
  ttl_manager := ttl_manager n; sync_mode_registry := sync_mode_registry n;
  next_batch_id := next_batch_id n; connected_peers := connected_peers n; outbox := outbox n;
  replies := replies n; guards := g; bandwidth := bandwidth n; negentropy := negentropy n |}.
Definition set_bandwidth n (b : option BandwidthAllocation) : SyncNode := {|
  store := store n; peer_states := peer_states n; peer_stats := peer_stats n;
  total_bytes_sent := total_bytes_sent n; total_bytes_received := total_bytes_received n;
  ttl_manager := ttl_manager n; sync_mode_registry := sync_mode_registry n;
  next_batch_id := next_batch_id n; connected_peers := connected_peers n; outbox := outbox n;
  replies := replies n; guards := guards n; bandwidth := b; negentropy := negentropy n |}.
Definition set_negentropy_sync n (m : NegentropySync) : SyncNode := {|
  store := store n; peer_states := peer_states n; peer_stats := peer_stats n;
  total_bytes_sent := total_bytes_sent n; total_bytes_received := total_bytes_received n;
  ttl_manager := ttl_manager n; sync_mode_registry := sync_mode_registry n;
  next_batch_id := next_batch_id n; connected_peers := connected_peers n; outbox := outbox n;
  replies := replies n; guards := guards n; bandwidth := bandwidth n; negentropy := m |}.
Definition bump_batch_id n : SyncNode := {|
  store := store n; peer_states := peer_states n; peer_stats := peer_stats n;
  total_bytes_sent := total_bytes_sent n; total_bytes_received := total_bytes_received n;
  ttl_manager := ttl_manager n; sync_mode_registry := sync_mode_registry n;
  next_batch_id := wrap 64 (next_batch_id n + 1); connected_peers := connected_peers n;
  outbox := outbox n; replies := replies n; guards := guards n; bandwidth := bandwidth n;
  negentropy := negentropy n |}.
(** A stream written or read outside a handler of a document: totals only. *)
Definition count_totals n (sent received : Z) : SyncNode := {|
  store := store n; peer_states := peer_states n; peer_stats := peer_stats n;
  total_bytes_sent := wrap 64 (total_bytes_sent n + sent);
  total_bytes_received := wrap 64 (total_bytes_received n + received);
  ttl_manager := ttl_manager n; sync_mode_registry := sync_mode_registry n;
  next_batch_id := next_batch_id n; connected_peers := connected_peers n; outbox := outbox n;
  replies := replies n; guards := guards n; bandwidth := bandwidth n; negentropy := negentropy n |}.
Definition add_reply n (p : peer) (frame : bytes) : SyncNode := {|
  store := store n; peer_states := peer_states n; peer_stats := peer_stats n;
  total_bytes_sent := total_bytes_sent n; total_bytes_received := total_bytes_received n;
  ttl_manager := ttl_manager n; sync_mode_registry := sync_mode_registry n;
  next_batch_id := next_batch_id n; connected_peers := connected_peers n; outbox := outbox n;
  replies := replies n ++ [(p, frame)]; guards := guards n; bandwidth := bandwidth n;
  negentropy := negentropy n |}.
Definition set_stats n (st : gmap peer PeerSyncStats) (sent received : Z) (out : list (peer * bytes))
    : SyncNode := {|
  store := store n; peer_states := peer_states n; peer_stats := st;
  total_bytes_sent := wrap 64 (total_bytes_sent n + sent);
  total_bytes_received := wrap 64 (total_bytes_received n + received);
  ttl_manager := ttl_manager n; sync_mode_registry := sync_mode_registry n;
  next_batch_id := next_batch_id n; connected_peers := connected_peers n;
  outbox := outbox n ++ out; replies := replies n; guards := guards n; bandwidth := bandwidth n;
  negentropy := negentropy n |}.

Abbreviation action := (stm SyncNode NodeError).

(** An operation of the store, run on the node. *)
Definition on_store {A} (m : stm AutomergeStore StoreError A) : action A := λ n,
  let '(r, s) := m (store n) in (map_err StoreFailure r, set_store n s).

(** ** Statistics *)
Definition add_received (p : peer) (size syncs : Z) (now : option Z) : action unit := modify (λ n,
  let st := default no_stats (peer_stats n !! p) in
  set_stats n (<[p := {| bytes_sent := bytes_sent st;
    bytes_received := wrap 64 (bytes_received st + size);
    sync_count := wrap 64 (sync_count st + syncs);
    last_sync := match now with Some _ => now | None => last_sync st end;
    failure_count := failure_count st; latest_only_count := latest_only_count st;
    full_history_count := full_history_count st; windowed_count := windowed_count st |}]>
    (peer_stats n)) 0 size []).

(** Write a frame to a peer and count it; without a link it fails. *)
Definition send_frame (p : peer) (frame : bytes) (syncs : Z) (now : option Z) : action unit := λ n,
  if decide (p ∈ connected_peers n) then
    let st := default no_stats (peer_stats n !! p) in
    (Ok tt, set_stats n (<[p := {| bytes_sent := wrap 64 (bytes_sent st + zlen frame);
        bytes_received := bytes_received st;
        sync_count := wrap 64 (sync_count st + syncs);
        last_sync := match now with Some _ => now | None => last_sync st end;
        failure_count := failure_count st; latest_only_count := latest_only_count st;
        full_history_count := full_history_count st; windowed_count := windowed_count st |}]>
        (peer_stats n)) (zlen frame) 0 [(p, frame)])
  else (Err NotConnected, n).

(** Log and continue. *)
Definition ignore_error {A} (m : action A) : action unit := λ n,
  match m n with
  | (Ok _, n) | (Err _, n) => (Ok tt, n)
  | (Panic, n) => (Panic, n)
  end.

(** ** Sync state per document and peer *)
Definition get_or_create_sync_state (key : bytes) (p : peer) : action sync_state := λ n,
  let m := default ∅ (peer_states n !! key) in
  let st := default state_new (m !! p) in
  (Ok st, set_states n (<[key := <[p := st]> m]> (peer_states n))).
Definition update_sync_state (key : bytes) (p : peer) (st : sync_state) : action unit :=
  modify (λ n, set_states n (<[key := <[p := st]> (default ∅ (peer_states n !! key))]> (peer_states n))).
Definition clear_sync_state_for_document (key : bytes) : action unit :=
  modify (λ n, set_states n (delete key (peer_states n))).
Definition clear_peer_sync_state (p : peer) : action unit :=
  modify (λ n, set_states n (delete p <$> peer_states n)).

(** ** Writing received documents *)
Definition put_with_ttl (key : bytes) (d : doc) (now : Z) : action unit := λ n,
  match ttl_manager n with
  | Some m =>
      let '(r, s) := Ttl.put_with_ttl key d m now (store n) in
      match r with
      | Ok m' => (Ok tt, set_ttl_manager (set_store n s) (Some m'))
      | Err e => (Err (StoreFailure e), set_store n s)
      | Panic => (Panic, set_store n s)
      end
  | None => on_store (put key d) n
  end.

(** The guard at the head of both receivers: an error reading the tombstone counts
    as no tombstone. *)
Definition tombstoned_key (key : bytes) : action bool := λ n,
  match find_byte is_colon key with
  | Some pos =>
      match has_tombstone (take pos key) (drop (pos + 1) key) (store n) with
      | (Ok b, s) => (Ok b, set_store n s)
      | (_, s) => (Ok false, set_store n s)
      end
  | None => (Ok false, n)
  end.

(** The critical section of [receive_sync_message], under the document's lock. *)
Definition apply_delta (key : bytes) (p : peer) (m : sync_msg) (now : Z) : action (option sync_msg) :=
  found ← on_store (get key);
  let d := default am_new found in
  st ← get_or_create_sync_state key p;
  match am_receive d st m with
  | None => lift (Err MergeFailed)
  | Some (d, st) =>
      _ ← put_with_ttl key d now;
      let '(response, st) := generate_sync_message d st in
      _ ← update_sync_state key p (match response with Some _ => st | None => state_converged st end);
      mret response
  end.
Definition receive_sync_message (key : bytes) (p : peer) (m : sync_msg) (size now : Z) : action unit :=
  dead ← tombstoned_key key;
  if dead : bool then mret tt
  else
    _ ← add_received p size 0 None;
    response ← apply_delta key p m now;
    match response with
    | Some r => send_frame p (send_sync_message_for_doc key r) 1 (Some now)
    | None => mret tt
    end.

(** The critical section of [apply_state_snapshot]. *)
Definition merge_snapshot (key : bytes) (received : doc) (now : Z) : action unit := λ n,
  match on_store (get key) n with
  | (Ok (Some existing), n) =>
      match am_merge existing received with
      | Some d => put_with_ttl key d now n
      | None => (Err MergeFailed, n)
      end
  | (Ok None, n) | (Err _, n) => put_with_ttl key received now n
  | (Panic, n) => (Panic, n)
  end.
Definition apply_state_snapshot (key : bytes) (p : peer) (state : bytes) (size now : Z) : action unit :=
  dead ← tombstoned_key key;
  if dead : bool then mret tt
  else
    _ ← add_received p size 1 (Some now);
    received ← lift (ok_or (am_load state) (StoreFailure LoadError));
    merge_snapshot key received now.

(** ** Tombstones *)
Definition apply_tombstone (t : Tombstone) : action bool :=
  existed ← on_store (has_tombstone (collection t) (document_id t));
  if existed : bool then mret false
  else
    _ ← on_store (put_tombstone t);
    let key := Store.doc_key (collection t) (document_id t) in
    found ← on_store (get key);
    _ ← match found with Some _ => on_store (delete_doc key) | None => mret tt end;
    mret true.

Definition send_all (ps : list peer) (frame : bytes) (syncs : Z) (now : option Z) : action unit :=
  foldr (λ p rest, _ ← ignore_error (send_frame p frame syncs now); rest) (mret tt) ps.

(** The peers a tombstone goes to; [None] is a coordinator without a router. *)
Definition tombstone_targets (router : option SyncRouter) (d : PropagationDirection)
    (ps : list peer) : list peer :=
  match d with
  | SystemWide | Bidirectional => ps
  | UpOnly => match router with Some r => @get_targets r Upward ps | None => ps end
  | DownOnly => match router with Some r => @get_targets r Downward ps | None => ps end
  end.
Definition propagate_tombstone_to_peers (router : option SyncRouter) (m : TombstoneSyncMessage)
    (source : peer) : action unit := λ n,
  let target_peers := filter (λ p, p ≠ source) (connected_peers n) in
  send_all (tombstone_targets router (direction m) target_peers)
    (send_single_tombstone_to_peer m) 0 None n.
Definition propagate_tombstone_to_all (router : option SyncRouter) (m : TombstoneSyncMessage)
    : action unit := λ n,
  send_all (tombstone_targets router (direction m) (connected_peers n))
    (send_single_tombstone_to_peer m) 0 None n.
Definition handle_incoming_tombstone (router : option SyncRouter) (p : peer)
    (m : TombstoneSyncMessage) (size now : Z) : action unit :=
  _ ← add_received p size 1 (Some now);
  applied ← apply_tombstone (tombstone m);
  if applied : bool then propagate_tombstone_to_peers router m p else mret tt.
Definition handle_incoming_tombstone_batch (p : peer) (b : Batch.TombstoneBatch) (size now : Z)
    : action unit :=
  _ ← add_received p size 1 (Some now);
  foldr (λ m rest, _ ← ignore_error (apply_tombstone (tombstone m)); rest) (mret tt)
    (Batch.tombstones b).

(** ** Batches *)
Definition receive_entry (router : option SyncRouter) (p : peer) (now : Z) (e : SyncEntry)
    : action unit :=
  match sync_type e with
  | DeltaSync =>
      match msg_decode (payload e) with
      | Some m => ignore_error (receive_sync_message (SyncWire.doc_key e) p m (zlen (payload e)) now)
      | None => mret tt
      end
  | StateSnapshot =>
      ignore_error (apply_state_snapshot (SyncWire.doc_key e) p (payload e) (zlen (payload e)) now)
  | TombstoneMsg =>
      match SyncMessage.decode (payload e) with
      | Ok m => ignore_error (handle_incoming_tombstone router p m (zlen (payload e)) now)
      | _ => mret tt
      end
  | _ => mret tt
  end.
Definition receive_batch_message (router : option SyncRouter) (p : peer) (b : SyncBatch) (size now : Z)
    : action unit :=
  _ ← add_received p size (zlen (entries b)) (Some now);
  foldr (λ e rest, _ ← receive_entry router p now e; rest) (mret tt) (entries b).

(** ** Sending documents *)
Definition sync_mode_for_doc (key : bytes) : action SyncMode := λ n,
  (Ok (Modes.get (sync_mode_registry n) (collection_from_doc_key key)), n).

Definition count_mode (p : peer) (mode : SyncMode) : action unit := modify (λ n,
  let st := default no_stats (peer_stats n !! p) in
  set_stats n (<[p := {| bytes_sent := bytes_sent st; bytes_received := bytes_received st;
    sync_count := sync_count st; last_sync := last_sync st; failure_count := failure_count st;
    latest_only_count := wrap 64 (latest_only_count st
      + match mode with LatestOnly => 1 | _ => 0 end);
    full_history_count := wrap 64 (full_history_count st
      + match mode with FullHistory => 1 | _ => 0 end);
    windowed_count := wrap 64 (windowed_count st
      + match mode with WindowedHistoryMode _ => 1 | _ => 0 end) |}]> (peer_stats n)) 0 0 []).

Definition initiate_delta_sync (key : bytes) (p : peer) (d : doc) (now : Z) : action unit :=
  st ← get_or_create_sync_state key p;
  let '(message, st) := generate_sync_message d st in
  match message with
  | None => lift (Err NothingToSend)
  | Some m =>
      _ ← send_frame p (send_sync_message_for_doc key m) 1 (Some now);
      update_sync_state key p st
  end.

(** The permit is dropped as soon as it is granted; without an allocation everything
    passes. *)
Definition acquire_bandwidth (pr : profile) (key : bytes) (size now : Z) (locked : bool)
    : action unit := λ n,
  match bandwidth n with
  | None => (Ok tt, n)
  | Some a =>
      let c := Class.for_collection (collection_from_doc_key key) in
      let '(r, a) := Allocation.acquire pr c size now locked a in
      match r with
      | Ok true => (Ok tt, set_bandwidth n (Some (Allocation.release a)))
      | Ok false => (Err (NoBandwidth c), set_bandwidth n (Some a))
      | Err e => (Err e, n)
      | Panic => (Panic, n)
      end
  end.

(** The delta sync is counted whether it succeeds or not. *)
Definition delta_sync_counted (key : bytes) (p : peer) (d : doc) (now : Z) : action unit := λ n,
  match initiate_delta_sync key p d now n with
  | (Panic, n) => (Panic, n)
  | (r, n) => (r, (count_mode p FullHistory n).2)
  end.
Definition initiate_sync_inner (pr : profile) (key : bytes) (p : peer) (now : Z) (locked : bool)
    : action unit :=
  mode ← sync_mode_for_doc key;
  found ← on_store (get key);
  match found with
  | None => lift (Err NotFound)
  | Some d =>
      let doc_bytes := am_save d in
      _ ← acquire_bandwidth pr key (zlen doc_bytes) now locked;
      match mode with
      | LatestOnly | WindowedHistoryMode _ =>
          _ ← send_frame p (send_state_snapshot key doc_bytes) 1 (Some now);
          count_mode p mode
      | FullHistory => delta_sync_counted key p d now
      end
  end.

(** ** Syncs under the circuit breaker and flow control

    [delay] is the retry delay with its jitter; [text] gives the message of an error
    of a library. *)
Section guarded.
Context (delay : RetryPolicy → Z → Z) (text : NodeError → bytes).

Definition class_name (c : QoSClass) : bytes :=
  match c with
  | Critical => str "P1:Critical" | High => str "P2:High" | Normal => str "P3:Normal"
  | Low => str "P4:Low" | Bulk => str "P5:Bulk"
  end.
Definition error_message (e : NodeError) : bytes :=
  match e with
  | NotFound => str "Document not found for sync"
  | NothingToSend => str "No initial sync message to send"
  | NoBandwidth c => str "Bandwidth exhausted for " ++ class_name c
  | e => text e
  end.
(** The operation is over. *)
Definition landed (g : SyncCoordinator) : SyncCoordinator :=
  Coordinator.set_in_flight g (tail (in_flight g)).

Definition initiate_sync (pr : profile) (key : bytes) (p : peer) (now : Z) (locked : bool)
    : action unit := λ n,
  let '(g, allowed) := Coordinator.begin_sync pr (guards n) p key now in
  let n := set_guards n g in
  match allowed with
  | Ok _ =>
      match initiate_sync_inner pr key p now locked n with
      | (Ok _, n) =>
          (Ok tt, set_guards n (Coordinator.end_sync delay (landed (guards n)) p key None now))
      | (Err e, n) =>
          (Err e, set_guards n (Coordinator.end_sync delay (landed (guards n)) p key
                                  (Some (error_message e)) now))
      | (Panic, n) => (Panic, n)
      end
  | Err e => (Err (Refused e), n)
  | Panic => (Panic, n)
  end.
Definition sync_document_with_all_peers (pr : profile) (key : bytes) (now : Z) (locked : bool)
    : action unit := λ n,
  let ps := connected_peers n in
  (_ ← clear_sync_state_for_document key;
   foldr (λ p rest, _ ← ignore_error (initiate_sync pr key p now locked); rest) (mret tt) ps) n.

(** [sort_by_key] by class and mode: a stable insertion sort. *)
Definition sync_order (r : Modes.SyncModeRegistry) (key : bytes) : Z :=
  let c := collection_from_doc_key key in
  2 * Class.as_u8 (Class.for_collection c)
  + match Modes.get r c with FullHistory => 1 | _ => 0 end.
Fixpoint insert_key (rank : bytes → Z) (k : bytes) (l : list bytes) : list bytes :=
  match l with
  | [] => [k]
  | x :: l' => if (rank k <? rank x)%Z then k :: l else x :: insert_key rank k l'
  end.
Definition sort_keys (rank : bytes → Z) (l : list bytes) : list bytes :=
  foldl (λ acc k, insert_key rank k acc) [] l.
Definition sync_all_documents_with_peer (pr : profile) (p : peer) (now : Z) (locked : bool)
    : action unit := λ n,
  (all_docs ← on_store (scan_prefix []);
   foldr (λ key rest, _ ← ignore_error (initiate_sync pr key p now locked); rest) (mret tt)
     (sort_keys (sync_order (sync_mode_registry n)) all_docs.*1)) n.
End guarded.

Fixpoint batch_loop (keys : list bytes) (b : SyncBatch) : action SyncBatch :=
  match keys with
  | [] => mret b
  | key :: keys =>
      found ← on_store (get key);
      match found with
      | None => batch_loop keys b
      | Some d =>
          mode ← sync_mode_for_doc key;
          match mode with
          | LatestOnly | WindowedHistoryMode _ =>
              batch_loop keys (SyncBatches.add_snapshot b key (am_save d))
          | FullHistory =>
              match fst (generate_sync_message d state_new) with
              | Some m => batch_loop keys (SyncBatches.add_delta b key (msg_encode m))
              | None => batch_loop keys b
              end
          end
      end
  end.
Definition create_batch_for_documents (keys : list bytes) (now : Z) : action SyncBatch := λ n,
  (b ← lift (map_err WireFailure (SyncBatches.with_id (next_batch_id n) now));
   batch_loop keys b) (bump_batch_id n).

(** [send_batch_message]: an empty batch is not sent. *)
Definition send_batch (p : peer) (b : SyncBatch) (now : Z) : action unit :=
  match send_batch_message b with
  | None => mret tt
  | Some frame => send_frame p frame (zlen (entries b)) (Some now)
  end.
Definition send_batch_to_peers (b : SyncBatch) (ps : list peer) (now : Z) : action unit :=
  foldr (λ p rest, _ ← ignore_error (send_batch p b now); rest) (mret tt) ps.

Definition entries_of (d : SyncDirection) (es : list SyncEntry) : list SyncEntry :=
  filter (λ e, from_doc_key (SyncWire.doc_key e) = d) es.
Definition route_direction (r : SyncRouter) (es : list SyncEntry) (now : Z) (d : SyncDirection)
    : action unit := λ n,
  if decide (entries_of d es = []) then (Ok tt, n)
  else
    (b ← lift (map_err WireFailure (SyncBatches.with_entries (entries_of d es) now));
     send_batch_to_peers b (@get_targets r d (connected_peers n)) now) n.
Definition sync_batch_with_hierarchical_routing (router : option SyncRouter) (b : SyncBatch)
    (now : Z) : action unit :=
  match router with
  | None => λ n, send_batch_to_peers b (connected_peers n) now n
  | Some r =>
      _ ← route_direction r (entries b) now Upward;
      _ ← route_direction r (entries b) now Downward;
      _ ← route_direction r (entries b) now Lateral;
      route_direction r (entries b) now Broadcast
  end.

Definition sync_documents_batch (delay : RetryPolicy → Z → Z) (text : NodeError → bytes)
    (keys : list bytes) (p : peer) (now : Z) : action unit := λ n,
  let '(g, allowed) := Coordinator.begin_batch (guards n) p in
  let n := set_guards n g in
  match allowed with
  | Ok _ =>
      let n := foldl (λ n k, (clear_sync_state_for_document k n).2) n keys in
      match create_batch_for_documents keys now n with
      | (Ok b, n) =>
          if decide (entries b = []) then (Ok tt, set_guards n (landed (guards n)))
          else
            match send_batch p b now n with
            | (Ok _, n) =>
                (Ok tt, set_guards n (Coordinator.end_batch delay (landed (guards n)) p keys None now))
            | (Err e, n) =>
                (Err e, set_guards n (Coordinator.end_batch delay (landed (guards n)) p keys
                                        (Some (error_message text e)) now))
            | (Panic, n) => (Panic, n)
            end
      | (Err e, n) => (Err e, set_guards n (landed (guards n)))
      | (Panic, n) => (Panic, n)
      end
  | Err e => (Err (Refused e), n)
  | Panic => (Panic, n)
  end.
Definition sync_documents_batch_with_all_peers (delay : RetryPolicy → Z → Z) (text : NodeError → bytes)
    (keys : list bytes) (now : Z) : action unit := λ n,
  let ps := connected_peers n in
  let n := foldl (λ n k, (clear_sync_state_for_document k n).2) n keys in
  foldr (λ p rest, _ ← ignore_error (sync_documents_batch delay text keys p now); rest) (mret tt) ps n.

(** ** Set reconciliation *)
Definition on_negentropy {A} (m : stm NegentropySync NegentropyError A) : action A := λ n,
  let '(r, s) := m (negentropy n) in (map_err NegentropyFailure r, set_negentropy_sync n s).
(** The inventory, stamped with the current time; a failed scan counts as empty. *)
Definition get_local_sync_items (now : Z) : action (list SyncItem) := λ n,
  match scan_prefix [] (store n) with
  | (Ok l, s) => (Ok ((λ e, Negentropy.from_doc_key e.1 (now / 1000000000)) <$> l), set_store n s)
  | (Err _, s) => (Ok [], set_store n s)
  | (Panic, s) => (Panic, set_store n s)
  end.
Definition negentropy_key : bytes := str "_negentropy".
Definition initiate_negentropy_sync (p : peer) (now : Z) : action bytes :=
  items ← get_local_sync_items now;
  on_negentropy (Manager.initiate_sync p items).
Definition handle_negentropy_message (p : peer) (m : bytes) (now : Z) : action ReconcileResult :=
  items ← get_local_sync_items now;
  on_negentropy (Manager.handle_message p m items).
(** Write on the stream being handled. *)
Definition reply (p : peer) (frame : bytes) : action unit := λ n,
  if decide (p ∈ connected_peers n) then (Ok tt, count_totals (add_reply n p frame) (zlen frame) 0)
  else (Err NotConnected, n).

Definition handle_negentropy_init (delay : RetryPolicy → Z → Z) (text : NodeError → bytes)
    (p : peer) (m : bytes) (now : Z) : action unit :=
  items ← get_local_sync_items now;
  _ ← on_negentropy (Manager.initiate_sync p items);
  result ← on_negentropy (Manager.handle_message p m items);
  match next_message result with
  | Some next => reply p (write_frame negentropy_key NegentropyResponse next)
  | None =>
      if decide (have_keys result = []) then mret tt
      else sync_documents_batch delay text (have_keys result) p now
  end.
Definition handle_negentropy_response (delay : RetryPolicy → Z → Z) (text : NodeError → bytes)
    (p : peer) (m : bytes) (now : Z) : action unit :=
  result ← handle_negentropy_message p m now;
  if is_complete result then
    if decide (have_keys result = []) then mret tt
    else sync_documents_batch delay text (have_keys result) p now
  else
    match next_message result with
    | Some next => reply p (write_frame negentropy_key NegentropyResponse next)
    | None => mret tt
    end.

(** [sync_with_peer_negentropy]: the message it opens the stream with, the loop over
    what the peer answers on it, and the documents it then sends. *)
Definition negentropy_open (p : peer) (now : Z) : action bytes :=
  m ← initiate_negentropy_sync p now;
  let frame := write_frame negentropy_key NegentropyInit m in
  _ ← modify (λ n, count_totals n (zlen frame) 0);
  mret frame.
(** A frame of the answers; its key and type are not looked at. *)
Definition read_answer (recv : bytes) : outcome SyncWireError (bytes * bytes * nat) :=
  '(l, recv) ← read_exact 2 recv;
  let key_len := Z.to_nat (from_be l) in
  '(_, recv) ← read_exact key_len recv;
  '(_, recv) ← read_exact 1 recv;
  '(l, recv) ← read_exact 4 recv;
  let len := Z.to_nat (from_be l) in
  '(payload, recv) ← read_exact len recv;
  Ok (payload, recv, (2 + key_len + 1 + 4 + len)%nat).
(** Each round reads at least seven bytes, so [fuel] need not exceed the length of
    [recv]. *)
Fixpoint negentropy_loop (fuel : nat) (p : peer) (recv : bytes) (have : list bytes) (now : Z)
    : action (list bytes) :=
  match fuel with
  | O => lift (Err (WireFailure Truncated))
  | S fuel =>
      '(payload, recv, size) ← lift (map_err WireFailure (read_answer recv));
      _ ← modify (λ n, count_totals n 0 (Z.of_nat size));
      result ← handle_negentropy_message p payload now;
      let have := have ++ have_keys result in
      if is_complete result then mret have
      else
        _ ← match next_message result with
            | Some next => reply p (write_frame negentropy_key NegentropyResponse next)
            | None => mret tt
            end;
        negentropy_loop fuel p recv have now
  end.
Definition negentropy_close (delay : RetryPolicy → Z → Z) (text : NodeError → bytes)
    (p : peer) (recv : bytes) (now : Z) : action unit :=
  have ← negentropy_loop (S (length recv)) p recv [] now;
  if decide (have = []) then mret tt else sync_documents_batch delay text have p now.

(** ** The dispatcher *)
Section dispatch.
Context (router : option SyncRouter) (delay : RetryPolicy → Z → Z) (text : NodeError → bytes).
Definition handle_payload (p : peer) (key : bytes) (received : ReceivedSyncPayload) (size now : Z)
    : action unit :=
  match received with
  | RDelta m => receive_sync_message key p m size now
  | RStateSnapshot state => apply_state_snapshot key p state size now
  | RTombstone m => handle_incoming_tombstone router p m size now
  | RTombstoneBatch b => handle_incoming_tombstone_batch p b size now
  | RBatch b => receive_batch_message router p b size now
  | RNegentropyInit m => handle_negentropy_init delay text p m now
  | RNegentropyResponse m => handle_negentropy_response delay text p m now
  end.
Definition handle_incoming_sync_stream (p : peer) (stream : bytes) (now : Z) : action unit :=
  '(key, received, size) ← lift (map_err WireFailure (receive_sync_payload_from_stream stream));
  handle_payload p key received (Z.of_nat size) now.
End dispatch.
End Node.

(** * Deleted documents stay deleted *)
Section Deleted.
Context {AM : Automerge} {AML : AutomergeLaws} {RD : Redb} {RDL : RedbLaws}
  {LR : Lru doc} {LRL : LruLaws doc} {TJ : TombstoneJson} {TJL : TombstoneJsonLaws}
  {SM : SyncMessages} {AS : AutomergeSync} {Sha : Sha256} {NC : NegentropyCrate}.
Implicit Types (s : AutomergeStore) (n : SyncNode).

(** A consistent store with a database. *)
Record disk_ok s : Prop := {
  dk_store : store_ok s;
  dk_tombs : tombs_ok s;
  dk_db : is_Some (db s)
}.
(** The document has a tombstone and is not stored. *)
Definition deleted s (k : bytes) : Prop := is_Some (tombs s !! k) ∧ contents s !! k = None.

(** Programs that keep the store consistent and the document deleted. *)
Definition keeps_deleted {A} (k : bytes) (m : stm AutomergeStore StoreError A) : Prop := ∀ s r s',
  m s = (r, s') → disk_ok s → deleted s k → disk_ok s' ∧ deleted s' k.
Definition respects {A} (k : bytes) (m : stm SyncNode NodeError A) : Prop := ∀ n r n',
  m n = (r, n') → disk_ok (store n) → deleted (store n) k →
  disk_ok (store n') ∧ deleted (store n') k.

Lemma keeps_reads {A} k (m : stm AutomergeStore StoreError A) :
  (∀ s r s', m s = (r, s') → store_ok s → tombs_ok s → reads s s') → keeps_deleted k m.
Proof.
  intros Hm s r s' Hrun [Hok Hto Hdb] [Ht Hc]. pose proof (Hm s r s' Hrun Hok Hto) as Hr.
  destruct (reads_tombs _ _ Hr) as [Htombs Hto']. split.
  - split; [apply Hr|by apply Hto'|by rewrite (reads_db _ _ Hr)].
  - by split; rewrite ?Htombs, ?(reads_contents _ _ Hr).
Qed.
Lemma keeps_get_doc k k' : keeps_deleted k (get k').
Proof. apply keeps_reads. intros s r s' Hg Hok _. by apply (get_ok k' s r s'). Qed.
Lemma keeps_has_tombstone k coll id : keeps_deleted k (has_tombstone coll id).
Proof.
  apply keeps_reads. intros s r s' Hg Hok Hto. unfold has_tombstone in Hg.
  apply stm_bind_inv in Hg as [(o & s1 & Hg & [= _ <-])|[(e & s1 & Hg & [= _ ->])|(s1 & Hg & [= _ ->])]];
    apply get_tombstone_ok in Hg as [-> _]; try done; by apply reads_refl.
Qed.
Lemma keeps_put_tombstone k t : keeps_deleted k (put_tombstone t).
Proof using TJL.
  intros s r s' Hp [Hok Hto Hdb] [Ht Hc].
  assert (is_Some (db s')) as Hdb'.
  { unfold put_tombstone in Hp. destruct Hdb as [d0 Hd0]. rewrite Hd0 in Hp.
    destruct (to_json t); [|injection Hp as _ <-; by rewrite Hd0].
    destruct (db_insert _ _ _ _); injection Hp as _ <-; [done|by rewrite Hd0]. }
  destruct (put_tombstone_ok _ _ _ _ Hp Hok Hto Hdb) as [(_ & Hok' & Hto' & Hc' & Ht')|[_ ->]];
    [|done]. split; [done|]. split; [|by rewrite Hc'].
  rewrite Ht'. by apply lookup_insert_is_Some', or_intror.
Qed.
Lemma keeps_delete_doc k k' : keeps_deleted k (delete_doc k').
Proof.
  intros s r s' Hd [Hok Hto Hdb] [Ht Hc]. destruct (delete_doc_tombs _ _ _ _ Hd) as [Htombs Hto'].
  destruct (delete_doc_ok _ _ _ _ Hd Hok) as [(_ & Hok' & Hc' & _ & _ & Hn)|[_ ->]]; [|done]. split.
  - split; [done|by apply Hto'|]. destruct (db s'); [done|]. destruct Hdb as [? Hdb].
    destruct Hn as [Hn _]. by rewrite Hn in Hdb.
  - split; [by rewrite Htombs|]. rewrite Hc'. destruct (decide (k' = k)) as [->|Hne];
      [by rewrite lookup_delete_eq|by rewrite lookup_delete_ne].
Qed.
Lemma keeps_put k k' d b : k' ≠ k → utf8_valid k' = true → keeps_deleted k (put_inner k' d b).
Proof using AML.
  intros Hne Hu s r s' Hp [Hok Hto Hdb] [Ht Hc]. destruct (put_inner_tombs _ _ _ _ _ _ Hp) as [Htombs Hto'].
  assert (room s k') as Hroom by (intros Hn; rewrite Hn in Hdb; by destruct Hdb).
  destruct (put_inner_ok _ _ _ _ _ _ Hp Hok Hroom Hu) as [(_ & Hok' & Hc' & _ & _ & Hn)|[_ ->]]; [|done].
  split.
  - split; [done|by apply Hto'|]. destruct (db s'); [done|]. destruct Hdb as [? Hdb].
    destruct Hn as [Hn _]. by rewrite Hn in Hdb.
  - split; [by rewrite Htombs|]. specialize (Hc' k). rewrite lookup_insert_ne, Hc in Hc' by done.
    by inversion Hc'.
Qed.

Lemma respects_on_store {A} k (m : stm AutomergeStore StoreError A) :
  keeps_deleted k m → respects k (on_store m).
Proof.
  intros Hm n r n' Hrun Hok Hd. unfold on_store in Hrun.
  destruct (m (store n)) as [r0 s'] eqn:Hs. injection Hrun as _ <-. by eapply Hm.
Qed.
Lemma respects_ret {A} k (a : A) : respects k (mret a).
Proof. by intros n r n' [= _ <-]. Qed.
Lemma respects_lift {A} k (o : outcome NodeError A) : respects k (lift o).
Proof. by intros n r n' [= _ <-]. Qed.
Lemma respects_bind {A B} k (m : stm SyncNode NodeError A) (f : A → stm SyncNode NodeError B) :
  respects k m → (∀ a, respects k (f a)) → respects k (a ← m; f a).
Proof.
  intros Hm Hf n r n' Hb Hok Hd.
  apply stm_bind_inv in Hb as [(a & n1 & Hr & Hb)|[(e & n1 & Hr & [= _ ->])|(n1 & Hr & [= _ ->])]];
    destruct (Hm _ _ _ Hr Hok Hd) as [Hok1 Hd1]; [|done..]. by eapply Hf.
Qed.
Lemma respects_ignore {A} k (m : stm SyncNode NodeError A) : respects k m → respects k (ignore_error m).
Proof.
  intros Hm n r n' Hi Hok Hd. unfold ignore_error in Hi. destruct (m n) as [r0 n0] eqn:Hr.
  destruct (Hm _ _ _ Hr Hok Hd) as [Hok1 Hd1]. by destruct r0; injection Hi as _ <-.
Qed.
Lemma respects_store_eq {A} k (m : stm SyncNode NodeError A) :
  (∀ n r n', m n = (r, n') → store n' = store n) → respects k m.
Proof. intros Hm n r n' Hr Hok Hd. by rewrite (Hm _ _ _ Hr). Qed.
Lemma respects_foldr {A} k (f : A → stm SyncNode NodeError unit) l :
  (∀ a, a ∈ l → respects k (f a)) →
  respects k (foldr (λ a rest, _ ← f a; rest) (mret tt) l).
Proof.
  induction l as [|a l IH]; intros Hf; [apply respects_ret|]. apply respects_bind.
  - apply Hf. constructor.
  - intros _. apply IH. intros b Hb. apply Hf. by constructor.
Qed.
Lemma respects_send k p frame c now : respects k (send_frame p frame c now).
Proof.
  apply respects_store_eq. intros n r n' Hs. unfold send_frame in Hs. case_decide; by injection Hs as _ <-.
Qed.
Lemma respects_received k p size c now : respects k (add_received p size c now).
Proof. apply respects_store_eq. by intros n r n' [= _ <-]. Qed.

Lemma respects_put k k' d now : k' ≠ k → utf8_valid k' = true → respects k (put_with_ttl k' d now).
Proof using AML.
  intros Hne Hu n r n' Hp Hok Hd. unfold put_with_ttl in Hp.
  destruct (ttl_manager n) as [m|]; [|by eapply respects_on_store; [apply (keeps_put k k' d true)|..]].
  destruct (Ttl.put_with_ttl k' d m now (store n)) as [r0 s'] eqn:Hs.
  assert (disk_ok s' ∧ deleted s' k) as [Hok' Hd'].
  { unfold Ttl.put_with_ttl in Hs.
    apply stm_bind_inv in Hs as [([] & s1 & Hr & Hs)|[(e & s1 & Hr & [= _ ->])|(s1 & Hr & [= _ ->])]];
      destruct (keeps_put k k' d true Hne Hu _ _ _ Hr Hok Hd) as [Hok1 Hd1]; [|done..].
    destruct (Config.get_collection_ttl _ _); by injection Hs as _ <-. }
  by destruct r0; injection Hp as _ <-.
Qed.

(** Reading a tombstone does not fail. *)
Definition tombstone_reads_ok : Prop := ∀ d k, is_Some (db_get d TOMBSTONES_TABLE k).

Lemma split_key k pos : find_byte is_colon k = Some pos → Store.doc_key (take pos k) (drop (pos + 1) k) = k.
Proof.
  intros Hf. destruct (find_byte_inv _ _ _ Hf) as (b & r & Hk & Hb & _).
  unfold Store.doc_key. change (str ":") with [Byte.x3a].
  assert (b = Byte.x3a) as -> by (apply u8_inj; by apply bool_decide_eq_true in Hb).
  assert (drop (pos + 1) k = r) as ->.
  { assert (pos ≤ length k).
    { apply (f_equal length) in Hk. rewrite length_app, length_take in Hk. cbn in Hk. lia. }
    rewrite Hk at 1. rewrite drop_app_ge; rewrite length_take_le by done; [|lia].
    by replace (pos + 1 - pos) with 1 by lia. }
  by symmetry.
Qed.

Lemma tombstoned_key_respects k key : respects k (tombstoned_key key).
Proof.
  intros n r n' Ht Hok Hd. unfold tombstoned_key in Ht.
  destruct (find_byte is_colon key) as [pos|]; [|by injection Ht as _ <-].
  destruct (has_tombstone _ _ (store n)) as [r0 s'] eqn:Hs.
  destruct (keeps_has_tombstone k _ _ _ _ _ Hs Hok Hd) as [Hok' Hd'].
  by destruct r0; injection Ht as _ <-.
Qed.
Lemma tombstoned_key_dead k n r n' :
  tombstone_reads_ok → is_Some (find_byte is_colon k) → disk_ok (store n) → deleted (store n) k →
  tombstoned_key k n = (r, n') → r = Ok true.
Proof.
  intros Hreads [pos Hf] [_ Hto [d0 Hdb]] [Ht _] Hg. unfold tombstoned_key in Hg. rewrite Hf in Hg.
  unfold has_tombstone, mbind, stm_bind, get_tombstone in Hg. rewrite (split_key k pos Hf), Hdb in Hg.
  unfold tombs in Ht. rewrite Hdb, lookup_omap in Ht.
  destruct (Hreads d0 k) as [o Ho]. rewrite Ho in Hg. apply db_get_view in Ho.
  destruct Ht as [t (v & Hv & Hj)%bind_Some]. rewrite Hv in Ho. subst o.
  rewrite Hj in Hg. cbn in Hg. by injection Hg as <- <-.
Qed.

(** The guard protects the dead key; other keys are not it. *)
Lemma respects_guarded k key (m : stm SyncNode NodeError unit) :
  tombstone_reads_ok → is_Some (find_byte is_colon k) → (key ≠ k → respects k m) →
  respects k (dead ← tombstoned_key key; if dead : bool then mret tt else m).
Proof.
  intros Hreads Hcolon Hm n r n' Hb Hok Hd.
  destruct (decide (key = k)) as [->|Hne].
  - unfold mbind, stm_bind in Hb. destruct (tombstoned_key k n) as [r0 n0] eqn:Hg.
    pose proof (tombstoned_key_dead k n r0 n0 Hreads Hcolon Hok Hd Hg) as ->.
    injection Hb as _ <-. by eapply tombstoned_key_respects.
  - refine (respects_bind k _ _ (tombstoned_key_respects k key) _ n r n' Hb Hok Hd).
    intros [|]; [apply respects_ret|by apply Hm].
Qed.

Lemma respects_receive_sync_message k key p m size now :
  tombstone_reads_ok → is_Some (find_byte is_colon k) → utf8_valid key = true →
  respects k (receive_sync_message key p m size now).
Proof using AML.
  intros Hreads Hcolon Hu. apply respects_guarded; [done..|]. intros Hne.
  apply respects_bind; [apply respects_received|]. intros _. apply respects_bind.
  - apply respects_bind; [apply respects_on_store, keeps_get_doc|]. intros found.
    apply respects_bind; [apply respects_store_eq; by intros n r n' [= _ <-]|]. intros st.
    destruct (am_receive _ st m) as [[d st']|]; [|apply respects_lift].
    apply respects_bind; [by apply respects_put|]. intros _.
    destruct (generate_sync_message d st') as [response st''].
    apply respects_bind; [apply respects_store_eq; by intros n r n' [= _ <-]|].
    intros _. apply respects_ret.
  - intros [r|]; [apply respects_send|apply respects_ret].
Qed.

Lemma respects_apply_state_snapshot k key p state size now :
  tombstone_reads_ok → is_Some (find_byte is_colon k) → utf8_valid key = true →
  respects k (apply_state_snapshot key p state size now).
Proof using AML.
  intros Hreads Hcolon Hu. apply respects_guarded; [done..|]. intros Hne.
  apply respects_bind; [apply respects_received|]. intros _.
  apply respects_bind; [apply respects_lift|]. intros d n r n' Hm Hok Hd.
  unfold merge_snapshot in Hm. destruct (on_store (get key) n) as [r0 n0] eqn:Hg.
  destruct (respects_on_store k _ (keeps_get_doc k key) _ _ _ Hg Hok Hd) as [Hok0 Hd0].
  destruct r0 as [[existing|]|e|]; [|by eapply respects_put|by eapply respects_put|by injection Hm as _ <-].
  destruct (am_merge existing d); [by eapply respects_put|by injection Hm as _ <-].
Qed.

Lemma respects_apply_tombstone k t : respects k (apply_tombstone t).
Proof using TJL.
  apply respects_bind; [apply respects_on_store, keeps_has_tombstone|]. intros [|]; [apply respects_ret|].
  apply respects_bind; [apply respects_on_store, keeps_put_tombstone|]. intros _.
  apply respects_bind; [apply respects_on_store, keeps_get_doc|]. intros found.
  apply respects_bind; [|intros _; apply respects_ret].
  destruct found; [apply respects_on_store, keeps_delete_doc|apply respects_ret].
Qed.
Lemma respects_send_all k ps frame c now : respects k (send_all ps frame c now).
Proof.
  apply (respects_foldr k (λ p, ignore_error (send_frame p frame c now))).
  intros p _. apply respects_ignore, respects_send.
Qed.
Lemma respects_handle_tombstone k router p m size now :
  respects k (handle_incoming_tombstone router p m size now).
Proof using TJL.
  apply respects_bind; [apply respects_received|]. intros _.
  apply respects_bind; [apply respects_apply_tombstone|]. intros [|]; [|apply respects_ret].
  intros n r n' Hp. by eapply respects_send_all.
Qed.

Lemma respects_items k now : respects k (get_local_sync_items now).
Proof.
  intros n r n' Hg Hok Hd. unfold get_local_sync_items in Hg.
  destruct (scan_prefix [] (store n)) as [r0 s'] eqn:Hs.
  assert (disk_ok s' ∧ deleted s' k) as [Hok' Hd'].
  { apply scan_prefix_ok in Hs as [-> _]; [done|apply Hok]. }
  by destruct r0; injection Hg as _ <-.
Qed.
Lemma respects_negentropy k {A} (m : stm NegentropySync NegentropyError A) : respects k (on_negentropy m).
Proof.
  apply respects_store_eq. intros n r n' Hm. unfold on_negentropy in Hm.
  destruct (m (negentropy n)). by injection Hm as _ <-.
Qed.
Lemma respects_reply k p frame : respects k (reply p frame).
Proof. apply respects_store_eq. intros n r n' Hm. unfold reply in Hm. case_decide; by injection Hm as _ <-. Qed.

Lemma respects_batch_loop k keys b : respects k (batch_loop keys b).
Proof.
  revert b. induction keys as [|key keys IH]; intros b; cbn [batch_loop]; [apply respects_ret|].
  apply respects_bind; [apply respects_on_store, keeps_get_doc|]. intros [d|]; [|apply IH].
  apply respects_bind; [apply respects_store_eq; by intros n r n' [= _ <-]|].
  intros []; [|apply IH..]. destruct (generate_sync_message d state_new).1; apply IH.
Qed.
Lemma respects_create_batch k keys now : respects k (create_batch_for_documents keys now).
Proof.
  intros n r n' Hc Hok Hd. unfold create_batch_for_documents in Hc.
  eapply (respects_bind k _ _ (respects_lift k _)); [|exact Hc|done..].
  intros b. apply respects_batch_loop.
Qed.
Lemma respects_documents_batch k delay text keys p now :
  respects k (sync_documents_batch delay text keys p now).
Proof.
  intros n r n' Hs Hok Hd. unfold sync_documents_batch in Hs.
  destruct (Coordinator.begin_batch (guards n) p) as [g [[]|e|]]; [|by injection Hs as _ <-..].
  set (n0 := foldl _ _ keys) in Hs.
  assert (store n0 = store n) as H0.
  { subst n0. change (store n) with (store (set_guards n g)). generalize (set_guards n g). clear.
    induction keys as [|key keys IH]; intros n; [done|]. cbn [foldl]. by rewrite IH. }
  destruct (create_batch_for_documents keys now n0) as [rb n1] eqn:Hc.
  destruct (respects_create_batch k keys now n0 rb n1 Hc) as [Hok1 Hd1]; [by rewrite H0..|].
  destruct rb as [b|e|]; [|by injection Hs as _ <-..].
  case_decide; [by injection Hs as _ <-|].
  destruct (send_batch p b now n1) as [r2 n2] eqn:Hb.
  assert (respects k (send_batch p b now)) as Hsend.
  { unfold send_batch. destruct (send_batch_message b); [apply respects_send|apply respects_ret]. }
  destruct (Hsend n1 r2 n2 Hb Hok1 Hd1) as [Hok2 Hd2]. by destruct r2; injection Hs as _ <-.
Qed.
Lemma respects_negentropy_handlers k delay text p m now :
  respects k (handle_negentropy_init delay text p m now)
  ∧ respects k (handle_negentropy_response delay text p m now).
Proof.
  split; unfold handle_negentropy_init, handle_negentropy_response, handle_negentropy_message;
    repeat (apply respects_bind; [|intros ?]);
    auto using respects_items, respects_negentropy, respects_reply, respects_documents_batch, respects_ret.
  all: repeat case_match; auto using respects_reply, respects_documents_batch, respects_ret.
Qed.

Definition payload_ok (received : ReceivedSyncPayload) : Prop :=
  match received with
  | RBatch b => Forall (λ e, utf8_valid (SyncWire.doc_key e) = true) (entries b)
  | _ => True
  end.
Lemma receive_stream_ok stream key received size :
  receive_sync_payload_from_stream stream = Ok (key, received, size) →
  utf8_valid key = true ∧ payload_ok received.
Proof.
  unfold receive_sync_payload_from_stream. intros H.
  apply bind_Ok_inv in H as ([l1 s1] & _ & H). cbv zeta in H.
  apply bind_Ok_inv in H as ([k1 s2] & _ & H).
  apply bind_Ok_inv in H as (k2 & Hk%ok_or_inv & H). apply from_utf8_inv in Hk as [-> Hk].
  apply bind_Ok_inv in H as ([t1 s3] & _ & H). apply bind_Ok_inv in H as ([l2 s4] & _ & H). cbv zeta in H.
  apply bind_Ok_inv in H as ([buf s5] & _ & H). apply bind_Ok_inv in H as (q & Hq & [= <- <- _]).
  split; [done|]. unfold parse_payload in Hq.
  destruct (default Byte.x00 (head t1)); try done;
    try (apply bind_Ok_inv in Hq as (x & Hx & [= <-])); try (injection Hq as <-); try done.
  apply SyncBatches.sync_batch_decode_inv in Hx as [[_ _ _ _ Hes] _].
  eapply Forall_impl; [exact Hes|]. by intros e [].
Qed.

Lemma respects_handle_payload k router delay text p key received size now :
  tombstone_reads_ok → is_Some (find_byte is_colon k) → utf8_valid key = true → payload_ok received →
  respects k (handle_payload router delay text p key received size now).
Proof using AML TJL.
  intros Hreads Hcolon Hu Hp.
  destruct received as [m|state|m|b|b|m|m]; cbn [handle_payload].
  - by apply respects_receive_sync_message.
  - by apply respects_apply_state_snapshot.
  - apply respects_handle_tombstone.
  - apply respects_bind; [apply respects_received|]. intros _.
    apply (respects_foldr k (λ m, ignore_error (apply_tombstone (tombstone m)))).
    intros m _. apply respects_ignore, respects_apply_tombstone.
  - apply respects_bind; [apply respects_received|]. intros _.
    apply (respects_foldr k (receive_entry router p now)). intros e He.
    cbn in Hp. rewrite Forall_forall in Hp. specialize (Hp e He). unfold receive_entry.
    destruct (sync_type e); try apply respects_ret.
    + destruct (msg_decode _); [|apply respects_ret]. by apply respects_ignore, respects_receive_sync_message.
    + by apply respects_ignore, respects_apply_state_snapshot.
    + destruct (SyncMessage.decode _); [|apply respects_ret..]. apply respects_ignore, respects_handle_tombstone.
  - apply respects_negentropy_handlers.
  - apply respects_negentropy_handlers.
Qed.

(** C2.  Deleted documents stay deleted.  While a document's tombstone is stored, no
    stream of bytes from any peer, whatever it contains, brings the document back:
    neither deltas nor snapshots nor batches of them, whatever errors occur in the
    database except in reading the tombstone (the guard takes such an error as the
    absence of a tombstone). *)
Theorem deleted_stays_deleted router delay text k streams n :
  tombstone_reads_ok → is_Some (find_byte is_colon k) → disk_ok (store n) → deleted (store n) k →
  ∀ r n', foldr (λ x rest, _ ← ignore_error (handle_incoming_sync_stream router delay text x.1 x.2.1 x.2.2);
                            rest) (mret tt) streams n = (r, n') →
  deleted (store n') k.
Proof using AML TJL.
  intros Hreads Hcolon Hok Hd r n' Hrun.
  eapply (respects_foldr k (λ x, ignore_error (handle_incoming_sync_stream router delay text x.1 x.2.1 x.2.2)));
    [|done..].
  intros [p [stream now]] _. apply respects_ignore. cbn [fst snd]. intros n0 r0 n1 Hh.
  unfold handle_incoming_sync_stream, mbind, stm_bind, lift in Hh.
  destruct (receive_sync_payload_from_stream stream) as [[[key received] size]| |] eqn:Hrecv;
    cbn in Hh; [|by injection Hh as _ <-..].
  apply receive_stream_ok in Hrecv as [Hu Hp].
  by eapply respects_handle_payload.
Qed.
End Deleted.

(** * A concrete node

    Documents are sent whole, once per peer; merging takes the received document.
    Reconciliation compares the lists of ids. *)
#[export] Instance toy_automerge_sync : AutomergeSync := {|
  sync_state := bool;
  state_new := false;
  state_converged st := st;
  generate_sync_message d (st : bool) := if st then (None, st) else (Some (am_save d), true);
  am_receive d st m := match am_load m with Some d => Some (d, true) | None => None end;
  am_merge d d' := Some d'
|}.
#[export] Instance toy_sha256 : Sha256 := λ m, take 32 (m ++ replicate 32 Byte.x00).
Definition ids_of (m : bytes) : list bytes :=
  (λ i, take 32 (drop (32 * i) m)) <$> seq 0 (length m `div` 32).
#[export] Instance toy_negentropy : NegentropyCrate := {|
  neg_storage := list bytes;
  storage_new := [];
  storage_insert s _ id := Some (s ++ [id]);
  storage_seal := Some;
  neg_state := list bytes;
  neg_owned := Some;
  neg_initiate s := (Some (mjoin s), s);
  neg_reconcile s m := (Some (mjoin s), s);
  neg_reconcile_with_ids s m :=
    (Some (None, filter (λ i, i ∉ ids_of m) s, filter (λ i, i ∉ s) (ids_of m)), s)
|}.

Definition toy_guards : SyncCoordinator := {|
  error_handler := Handler.with_policies Policy.default_policy default_circuit;
  flow_controller := Controller.with_config default_config; in_flight := [] |}.
Definition toy_node (s : AutomergeStore) (ps : list peer) : SyncNode := {|
  store := s; peer_states := ∅; peer_stats := ∅; total_bytes_sent := 0; total_bytes_received := 0;
  ttl_manager := None; sync_mode_registry := Modes.with_defaults; next_batch_id := 1;
  connected_peers := ps; outbox := []; replies := []; guards := toy_guards; bandwidth := None;
  negentropy := Manager.new |}.
Definition no_delay (p : RetryPolicy) (attempt : Z) : Z := 0.
Definition no_text (e : NodeError) : bytes := [].

Definition note_tombstone : Tombstone := Tomb.new (str "1") (str "notes") (str "a") 1 0.
Definition dead_store : AutomergeStore := (put_tombstone note_tombstone empty_store).2.
Lemma dead_store_ok : disk_ok dead_store ∧ deleted dead_store (str "notes:1").
Proof.
  assert (put_tombstone note_tombstone empty_store = (Ok tt, dead_store)) as Hp by vm_eq.
  destruct (put_tombstone_ok _ _ _ _ Hp toy_empty_ok toy_empty_tombs) as [(_ & Hok & Hto & Hc & Ht)|[[?|?] _]];
    [by eexists| |done..].
  split; [split; [done|done|by eexists]|]. split; [|by rewrite Hc].
  rewrite Ht. by rewrite (lookup_insert_eq _ (Tomb.key note_tombstone)).
Qed.

Definition note_stream : bytes := send_state_snapshot (str "notes:1") (am_save toy_note).
Lemma deleted_stays_deleted_witness :
  deleted (store (handle_incoming_sync_stream None no_delay no_text (str "b") note_stream 0
                    (toy_node dead_store [str "b"])).2) (str "notes:1").
Proof.
  destruct (handle_incoming_sync_stream None no_delay no_text (str "b") note_stream 0
              (toy_node dead_store [str "b"])) as [r n'] eqn:Hrun.
  assert (r = Ok tt) as ->.
  { apply (f_equal fst) in Hrun. cbn [fst] in Hrun. rewrite <- Hrun. vm_eq. }
  apply (deleted_stays_deleted None no_delay no_text (str "notes:1") [(str "b", (note_stream, 0%Z))]
           (toy_node dead_store [str "b"])) with (r := Ok tt).
  - intros d k. by eexists.
  - by eexists.
  - apply dead_store_ok.
  - apply dead_store_ok.
  - cbn [foldr fst snd]. unfold mbind, stm_bind, ignore_error. by rewrite Hrun.
Defined.
