(* ===== verification/Network.v ===== *)
(** Networks of sync nodes: tombstones flood a network of nodes
    ([handle_incoming_tombstone] and its propagation, [src/storage/automerge_sync.rs]),
    delivered in any order. *)
From Stdlib Require Import ZArith Lia Strings.Byte Strings.String.
From stdpp Require Import prelude gmap relations.
From S2P Require Import Prelude Wire Text Device Deletion Store Float Ttl.
From S2P Require Import FlowControl SyncErrors SyncCoordinator Qos Bandwidth.
From S2P Require Import Negentropy SyncWire SyncProtocol.

Set Default Proof Using "Type".

Section Flood.
Context {AM : Automerge} {AML : AutomergeLaws} {RD : Redb} {RDL : RedbLaws}
  {LR : Lru doc} {LRL : LruLaws doc} {TJ : TombstoneJson} {TJL : TombstoneJsonLaws}
  {SM : SyncMessages} {AS : AutomergeSync} {Sha : Sha256} {NC : NegentropyCrate}.
Implicit Types (s : AutomergeStore) (n : SyncNode).

(** ** Databases that do not fail *)
Context (reliable : database → Prop).


(** ** A tombstone at a node *)
Definition knows (k : bytes) n : Prop := is_Some (tombs (store n) !! k).
Global Instance knows_dec k n : Decision (knows k n).
Proof. unfold knows. apply _. Defined.



Context (router : option SyncRouter) (delay : RetryPolicy → Z → Z) (text : NodeError → bytes)
  (m : TombstoneSyncMessage).

Abbreviation frame := (send_single_tombstone_to_peer m).
Abbreviation the_key := (Tomb.key (tombstone m)).



(** ** The network *)
Abbreviation net := (gmap peer SyncNode).














End Flood.





