(* ===== verification/Health.v ===== *)
(** Connection health ([src/transport/health.rs]): the heartbeat monitor with its
    per-peer state machine (healthy, degraded, suspect, dead), round-trip times in
    [f64], and the timeouts. *)
From Stdlib Require Import ZArith Lia Strings.Byte Strings.String.
From stdpp Require Import prelude gmap.
From S2P Require Import Prelude Wire Float Transport.

Set Default Proof Using "Type".

Record HeartbeatConfig := {
  interval : Z;
  suspect_threshold : Z;
  dead_threshold : Z;
  degraded_rtt_threshold_ms : Z;
  degraded_loss_threshold_percent : Z;
  enabled : bool
}.

Definition default_heartbeat : HeartbeatConfig := {|
  interval := from_secs 5; suspect_threshold := 2; dead_threshold := 4;
  degraded_rtt_threshold_ms := 1000; degraded_loss_threshold_percent := 10; enabled := true
|}.
Definition aggressive_heartbeat : HeartbeatConfig := {|
  interval := from_secs 2; suspect_threshold := 2; dead_threshold := 3;
  degraded_rtt_threshold_ms := 500; degraded_loss_threshold_percent := 5; enabled := true
|}.
Definition relaxed_heartbeat : HeartbeatConfig := {|
  interval := from_secs 15; suspect_threshold := 3; dead_threshold := 6;
  degraded_rtt_threshold_ms := 2000; degraded_loss_threshold_percent := 20; enabled := true
|}.

Record PeerHealthState := {
  last_response : Z;
  missed_heartbeats : Z;
  smoothed_rtt_ms : float;
  rtt_variance : float;
  pings_sent : Z;
  pongs_received : Z;
  state : ConnectionState;
  pending_ping : option (Z * Z);
  next_seq : Z
}.

Module PeerHealth.
Definition new (now : Z) : PeerHealthState := {|
  last_response := now; missed_heartbeats := 0; smoothed_rtt_ms := F64.of_Z 0;
  rtt_variance := F64.of_Z 0; pings_sent := 0; pongs_received := 0; state := Healthy;
  pending_ping := None; next_seq := 0
|}.

Definition packet_loss_percent (s : PeerHealthState) : Z :=
  if decide (pings_sent s = 0%Z) then 0
  else
    let loss_ratio := F64.sub (F64.of_Z 1)
      (F64.div (F64.of_Z (pongs_received s)) (F64.of_Z (pings_sent s))) in
    as_u 8 (fmin (F64.round (F64.mul loss_ratio (F64.of_Z 100))) (F64.of_Z 100)).

Definition to_connection_health (s : PeerHealthState) : ConnectionHealth := {|
  rtt_ms := as_u 32 (F64.round (smoothed_rtt_ms s));
  rtt_variance_ms := as_u 32 (F64.round (rtt_variance s));
  Transport.packet_loss_percent := packet_loss_percent s;
  health_state := state s;
  last_activity := last_response s
|}.

(** The new smoothed value and variance for a sample. *)
Definition update_rtt (s : PeerHealthState) (sample : float) : float * float :=
  let ALPHA := F64.of_ZE 1 (-3) in
  let BETA := F64.of_ZE 1 (-2) in
  if feq (smoothed_rtt_ms s) (F64.of_Z 0) then (sample, F64.div sample (F64.of_Z 2))
  else
    let diff := SpecFloat.SFabs (F64.sub sample (smoothed_rtt_ms s)) in
    (F64.add (F64.mul (F64.sub (F64.of_Z 1) ALPHA) (smoothed_rtt_ms s)) (F64.mul ALPHA sample),
     F64.add (F64.mul (F64.sub (F64.of_Z 1) BETA) (rtt_variance s)) (F64.mul BETA diff)).

Definition set_state (s : PeerHealthState) (st : ConnectionState) : PeerHealthState := {|
  last_response := last_response s; missed_heartbeats := missed_heartbeats s;
  smoothed_rtt_ms := smoothed_rtt_ms s; rtt_variance := rtt_variance s;
  pings_sent := pings_sent s; pongs_received := pongs_received s; state := st;
  pending_ping := pending_ping s; next_seq := next_seq s
|}.
Definition set_pending (s : PeerHealthState) (pp : option (Z * Z)) (missed : Z)
    : PeerHealthState := {|
  last_response := last_response s; missed_heartbeats := missed;
  smoothed_rtt_ms := smoothed_rtt_ms s; rtt_variance := rtt_variance s;
  pings_sent := pings_sent s; pongs_received := pongs_received s; state := state s;
  pending_ping := pp; next_seq := next_seq s
|}.
End PeerHealth.

Record HealthMonitor := { config : HeartbeatConfig; health : gmap bytes PeerHealthState }.

(** The order in which the map of peers is iterated. *)
Class HealthOrder := {
  health_iter : gmap bytes PeerHealthState → list (bytes * PeerHealthState);
  health_iter_perm m : health_iter m ≡ₚ map_to_list m
}.

Module Monitor.
Section with_order.
Context {HO : HealthOrder}.

Definition new (c : HeartbeatConfig) : HealthMonitor := {| config := c; health := ∅ |}.
Definition set_health (m : HealthMonitor) (h : gmap bytes PeerHealthState) : HealthMonitor :=
  {| config := config m; health := h |}.

Definition start_monitoring (m : HealthMonitor) (peer : bytes) (now : Z) : HealthMonitor :=
  if negb (enabled (config m)) then m
  else match health m !! peer with
       | Some _ => m
       | None => set_health m (<[peer := PeerHealth.new now]> (health m))
       end.
Definition stop_monitoring (m : HealthMonitor) (peer : bytes) : HealthMonitor :=
  set_health m (delete peer (health m)).

Definition get_health (m : HealthMonitor) (peer : bytes) : option ConnectionHealth :=
  PeerHealth.to_connection_health <$> health m !! peer.
Definition unhealthy_peers (m : HealthMonitor) : list bytes :=
  (filter (λ e, state e.2 ≠ Healthy) (health_iter (health m))).*1.
Definition dead_peers (m : HealthMonitor) : list bytes :=
  (filter (λ e, state e.2 = Dead) (health_iter (health m))).*1.

Definition needs_ping (c : HeartbeatConfig) (now : Z) (s : PeerHealthState) : bool :=
  if decide (state s = Dead) then false
  else match pending_ping s with
       | Some (sent_at, _) => bool_decide (saturating_sub now sent_at > interval c * 2)%Z
       | None => bool_decide (interval c ≤ saturating_sub now (last_response s))%Z
       end.
Definition peers_needing_ping (m : HealthMonitor) (now : Z) : list bytes :=
  if negb (enabled (config m)) then []
  else (filter (λ e, needs_ping (config m) now e.2 = true) (health_iter (health m))).*1.

Definition record_ping_sent (p : profile) (m : HealthMonitor) (peer : bytes) (now : Z)
    : outcome unit (option Z * HealthMonitor) :=
  match health m !! peer with
  | Some s =>
      n ← checked p 64 (next_seq s + 1);
      sent ← checked p 64 (pings_sent s + 1);
      Ok (Some (next_seq s), set_health m (<[peer := {|
        last_response := last_response s; missed_heartbeats := missed_heartbeats s;
        smoothed_rtt_ms := smoothed_rtt_ms s; rtt_variance := rtt_variance s;
        pings_sent := sent; pongs_received := pongs_received s; state := state s;
        pending_ping := Some (now, next_seq s); next_seq := n |}]> (health m)))
  | None => Ok (None, m)
  end.

Definition evaluate_state (c : HeartbeatConfig) (s : PeerHealthState) : ConnectionState :=
  if decide (dead_threshold c ≤ missed_heartbeats s)%Z then Dead
  else if decide (suspect_threshold c ≤ missed_heartbeats s)%Z then Suspect
  else if fgt (smoothed_rtt_ms s) (F64.of_Z (degraded_rtt_threshold_ms c)) then Degraded
  else if decide (PeerHealth.packet_loss_percent s > degraded_loss_threshold_percent c)%Z
  then Degraded
  else Healthy.

Definition record_pong_received (p : profile) (m : HealthMonitor) (peer : bytes) (seq now : Z)
    : outcome unit HealthMonitor :=
  match health m !! peer with
  | None => Ok m
  | Some s =>
      match pending_ping s with
      | None => Ok m
      | Some (sent_at, expected_seq) =>
          let s := PeerHealth.set_pending s None (missed_heartbeats s) in
          if decide (seq = expected_seq) then
            let rtt := F64.mul (F64.as_secs_f64 (saturating_sub now sent_at)) (F64.of_Z 1000) in
            let '(smoothed, variance) := PeerHealth.update_rtt s rtt in
            received ← checked p 64 (pongs_received s + 1);
            let s := {|
              last_response := now; missed_heartbeats := 0; smoothed_rtt_ms := smoothed;
              rtt_variance := variance; pings_sent := pings_sent s;
              pongs_received := received; state := state s; pending_ping := None;
              next_seq := next_seq s |} in
            Ok (set_health m (<[peer := PeerHealth.set_state s (evaluate_state (config m) s)]>
                  (health m)))
          else Ok (set_health m (<[peer := s]> (health m)))
      end
  end.

(** One entry of the loop of [check_timeouts]. *)
Definition check_timeout (p : profile) (c : HeartbeatConfig) (now : Z) (s : PeerHealthState)
    : outcome unit PeerHealthState :=
  s ← match pending_ping s with
      | Some (sent_at, _) =>
          if decide (interval c ≤ saturating_sub now sent_at)%Z then
            missed ← checked p 32 (missed_heartbeats s + 1);
            Ok (PeerHealth.set_pending s None missed)
          else Ok s
      | None => Ok s
      end;
  Ok (PeerHealth.set_state s (evaluate_state c s)).

(** The loop over the entries: the new map, the peers that have become dead, and
    the degradation events. *)
Fixpoint check_entries (p : profile) (c : HeartbeatConfig) (now : Z)
    (entries : list (bytes * PeerHealthState)) (h : gmap bytes PeerHealthState)
    : outcome unit (gmap bytes PeerHealthState * list bytes * list PeerEvent) :=
  match entries with
  | [] => Ok (h, [], [])
  | (peer, s) :: entries =>
      s' ← check_timeout p c now s;
      r ← check_entries p c now entries (<[peer := s']> h);
      let '(h, dead, events) := r in
      let changed := bool_decide (state s ≠ state s') in
      Ok (h,
          if changed && bool_decide (state s' = Dead) then peer :: dead else dead,
          if changed && bool_decide (state s' = Degraded)
          then DegradedEvent peer (PeerHealth.to_connection_health s') :: events else events)
  end.

Definition check_timeouts (p : profile) (m : HealthMonitor) (now : Z)
    : outcome unit (HealthMonitor * list bytes * list PeerEvent) :=
  if negb (enabled (config m)) then Ok (m, [], [])
  else
    r ← check_entries p (config m) now (health_iter (health m)) (health m);
    let '(h, dead, events) := r in
    Ok (set_health m h, dead, events).

Definition clear (m : HealthMonitor) : HealthMonitor := set_health m ∅.

(** ** The timeout check of a release build *)
Lemma checked_release {E} w z : checked (E:=E) Release w z = Ok (if decide (in_u w z) then z else wrap w z).
Proof.
  destruct (decide (in_u w z)); [by rewrite checked_in|]. unfold checked.
  destruct (_ && _) eqn:Hb; [|done]. destruct n. unfold in_u.
  apply andb_true_iff in Hb as [?%Z.leb_le ?%Z.ltb_lt]. lia.
Qed.

Definition timeout_step (c : HeartbeatConfig) (now : Z) (s : PeerHealthState) : PeerHealthState :=
  match check_timeout Release c now s with Ok s' => s' | _ => s end.

Lemma check_timeout_release c now s : check_timeout Release c now s = Ok (timeout_step c now s).
Proof.
  unfold timeout_step, check_timeout. destruct (pending_ping s) as [[t q]|]; [|done].
  case_decide; [|done]. by rewrite checked_release.
Qed.

Lemma check_entries_spec c now entries h :
  NoDup entries.*1 →
  ∃ h' dead events, check_entries Release c now entries h = Ok (h', dead, events)
    ∧ (∀ peer s, (peer, s) ∈ entries → h' !! peer = Some (timeout_step c now s))
    ∧ (∀ peer, peer ∉ entries.*1 → h' !! peer = h !! peer)
    ∧ (∀ peer, peer ∈ dead ↔ ∃ s, (peer, s) ∈ entries ∧ state s ≠ Dead
                                ∧ state (timeout_step c now s) = Dead).
Proof.
  revert h. induction entries as [|[q s] entries IH]; intros h Hnd.
  { exists h, [], []. split_and!; [done|set_solver|done|set_solver]. }
  cbn in Hnd. apply NoDup_cons in Hnd as [Hq Hnd]. cbn [check_entries].
  rewrite check_timeout_release. cbn [mbind outcome_bind].
  destruct (IH (<[q := timeout_step c now s]> h) Hnd) as (h' & dead & events & -> & Hin & Hout & Hd).
  cbn [mbind outcome_bind]. eexists _, _, _. split_and!; [done| | |].
  - intros peer s' [[= -> ->]|Hin']%elem_of_cons; [|by apply Hin].
    rewrite Hout by done. apply lookup_insert_eq.
  - intros peer Hp. cbn in Hp. rewrite Hout by set_solver. apply lookup_insert_ne. set_solver.
  - intros peer. split.
    + intros Hp. destruct (bool_decide (state s ≠ _) && _) eqn:Hb.
      * apply andb_true_iff in Hb as [Hb1%bool_decide_eq_true Hb2%bool_decide_eq_true].
        apply elem_of_cons in Hp as [->|Hp].
        -- exists s. split; [by left|]. split; [congruence|done].
        -- apply Hd in Hp as (s' & ? & ?). exists s'. split; [by right|done].
      * apply Hd in Hp as (s' & ? & ?). exists s'. split; [by right|done].
    + intros (s' & [[= -> ->]|Hin']%elem_of_cons & H1 & H2).
      * rewrite !bool_decide_eq_true_2 by congruence. cbn. by left.
      * assert (peer ∈ dead) by (apply Hd; eauto). case_match; [by right|done].
Qed.

Lemma check_timeouts_spec m now :
  enabled (config m) = true →
  ∃ m' dead events, check_timeouts Release m now = Ok (m', dead, events)
    ∧ config m' = config m
    ∧ (∀ peer, health m' !! peer = timeout_step (config m) now <$> health m !! peer)
    ∧ (∀ peer, peer ∈ dead ↔ ∃ s, health m !! peer = Some s ∧ state s ≠ Dead
                                ∧ state (timeout_step (config m) now s) = Dead).
Proof.
  intros He. unfold check_timeouts. rewrite He. cbn.
  destruct (check_entries_spec (config m) now (health_iter (health m)) (health m))
    as (h' & dead & events & -> & Hin & Hout & Hd).
  { rewrite health_iter_perm. apply NoDup_fst_map_to_list. }
  cbn. eexists _, _, _. split_and!; [done|done| |].
  - intros peer. cbn. destruct (health m !! peer) as [s|] eqn:Hs; cbn.
    + apply Hin. by rewrite health_iter_perm, elem_of_map_to_list.
    + rewrite Hout; [done|]. rewrite health_iter_perm. intros [[k s'] [-> Hs']]%list_elem_of_fmap.
      apply elem_of_map_to_list in Hs'. cbn in Hs. congruence.
  - intros peer. rewrite Hd. setoid_rewrite health_iter_perm.
    by setoid_rewrite elem_of_map_to_list.
Qed.

Lemma timeout_step_state c now s :
  state (timeout_step c now s) = evaluate_state c (timeout_step c now s).
Proof.
  pose proof (check_timeout_release c now s) as H. unfold check_timeout in H.
  apply bind_Ok_inv in H as (s1 & _ & [= <-]). done.
Qed.
Lemma timeout_step_missed c now s t q :
  pending_ping s = Some (t, q) → (t + interval c ≤ now)%Z → (0 ≤ interval c)%Z →
  in_u 32 (missed_heartbeats s + 1) →
  missed_heartbeats (timeout_step c now s) = (missed_heartbeats s + 1)%Z
  ∧ pending_ping (timeout_step c now s) = None.
Proof.
  intros Hp Ht Hi Hm. unfold timeout_step, check_timeout. rewrite Hp.
  rewrite decide_True by (unfold saturating_sub; lia). rewrite checked_in by done. done.
Qed.

(** ** Rounds of a heartbeat without an answer: a ping at [t1], a check at [t2] *)
Fixpoint rounds (m : HealthMonitor) (peer : bytes) (times : list (Z * Z))
    : outcome unit (HealthMonitor * list (list bytes)) :=
  match times with
  | [] => Ok (m, [])
  | (t1, t2) :: times =>
      r ← record_ping_sent Release m peer t1;
      c ← check_timeouts Release r.2 t2;
      let '(m, dead, _) := c in
      r' ← rounds m peer times;
      Ok (r'.1, dead :: r'.2)
  end.

Lemma evaluate_state_dead c s :
  evaluate_state c s = Dead ↔ (dead_threshold c ≤ missed_heartbeats s)%Z.
Proof. unfold evaluate_state. repeat case_decide; try case_match; split; (done || lia). Qed.

Lemma rounds_cons m peer t1 t2 times s :
  enabled (config m) = true → health m !! peer = Some s → state s ≠ Dead →
  (0 ≤ interval (config m))%Z → (t1 + interval (config m) ≤ t2)%Z →
  in_u 32 (missed_heartbeats s + 1) →
  ∃ m' dead s',
    rounds m peer ((t1, t2) :: times)
    = (r ← rounds m' peer times; Ok (r.1, dead :: r.2))
    ∧ config m' = config m ∧ health m' !! peer = Some s'
    ∧ missed_heartbeats s' = (missed_heartbeats s + 1)%Z
    ∧ state s' = evaluate_state (config m) s'
    ∧ (peer ∈ dead ↔ state s' = Dead).
Proof.
  intros He Hs Hst Hi Ht Hm. cbn [rounds]. unfold record_ping_sent. rewrite Hs.
  rewrite !checked_release. cbn [mbind outcome_bind snd].
  match goal with |- context [set_health m (<[peer := ?s1]> _)] => set (s1' := s1) end.
  destruct (check_timeouts_spec (set_health m (<[peer := s1']> (health m))) t2 He)
    as (m' & dead & ev & -> & Hc & Hl & Hd).
  cbn [mbind outcome_bind]. cbn [config health set_health] in *.
  specialize (Hl peer). rewrite lookup_insert_eq in Hl.
  destruct (timeout_step_missed (config m) t2 s1' t1 (next_seq s)) as [Hmiss _]; [done..|].
  exists m', dead, (timeout_step (config m) t2 s1').
  split_and!; [done|done|done|done|apply timeout_step_state|].
  rewrite Hd, lookup_insert_eq. split; [by intros (? & [= <-] & _ & ?)|].
  intros Hdead. by exists s1'.
Qed.

(** C38.  Failure detection: when a monitored peer leaves every ping unanswered for an
    interval, the check that follows the ping number [dead_threshold] (counting
    heartbeats missed before) marks it dead and reports it, and no earlier check
    reports it; whatever the round-trip times and the other peers. *)
Theorem unanswered_pings_kill m peer s times :
  enabled (config m) = true → health m !! peer = Some s → state s ≠ Dead →
  (0 ≤ interval (config m))%Z → in_u 32 (dead_threshold (config m)) →
  (0 ≤ missed_heartbeats s < dead_threshold (config m))%Z →
  Forall (λ t, t.1 + interval (config m) ≤ t.2)%Z times →
  (missed_heartbeats s + Z.of_nat (length times) = dead_threshold (config m))%Z →
  ∃ m' early final s', rounds m peer times = Ok (m', early ++ [final])
    ∧ Forall (λ dead, peer ∉ dead) early ∧ peer ∈ final
    ∧ health m' !! peer = Some s' ∧ state s' = Dead.
Proof.
  intros He Hs Hst Hi Hu Hmi Ht. revert m s He Hs Hst Hi Hu Hmi Ht.
  induction times as [|[t1 t2] times IH]; intros m s He Hs Hst Hi Hu Hmi Ht Hn;
    [cbn in Hn; lia|].
  apply Forall_cons in Ht as [Ht1 Ht]. rewrite length_cons in Hn. cbn in Ht1.
  destruct (rounds_cons m peer t1 t2 times s) as (m1 & dead & s1 & -> & Hc & Hs1 & Hm1 & Hst1 & Hd);
    [done..|unfold in_u in *; lia|].
  assert (state s1 = Dead ↔ (dead_threshold (config m) ≤ missed_heartbeats s + 1)%Z) as Hdead.
  { by rewrite Hst1, evaluate_state_dead, Hm1. }
  destruct times as [|t times].
  - cbn in Hn. exists m1, [], dead, s1. assert (state s1 = Dead) by (apply Hdead; lia).
    split_and!; [done|constructor|by apply Hd|done|done].
  - assert (state s1 ≠ Dead) as Hns by (rewrite Hdead; cbn in Hn; lia).
    destruct (IH m1 s1) as (m' & early & final & s' & -> & Hearly & Hfinal & Hs' & Hst');
      rewrite ?Hc, ?Hm1; try done; [cbn in Hn |-*; lia|cbn in Hn |-*; lia|].
    exists m', (dead :: early), final, s'. split_and!; [done| |done|done|done].
    constructor; [by rewrite Hd|done].
Qed.

(** A dead peer stays dead: it is never pinged again, a pong from it changes
    nothing, and no timeout check brings it back, as long as monitoring is not
    restarted.  And a pong with another sequence number cancels the ping that is
    still pending: the missed answer is then never counted. *)
Theorem dead_and_stale_pongs m peer s :
  enabled (config m) = true → health m !! peer = Some s →
  (state s = Dead → pending_ping s = None →
   (dead_threshold (config m) ≤ missed_heartbeats s)%Z →
   (∀ now, peer ∉ peers_needing_ping m now)
   ∧ (∀ p seq now, record_pong_received p m peer seq now = Ok m)
   ∧ (∀ now, ∃ m' dead ev, check_timeouts Release m now = Ok (m', dead, ev)
        ∧ health m' !! peer = Some s))
  ∧ (∀ sent q seq now later, pending_ping s = Some (sent, q) → seq ≠ q →
       ∃ m', record_pong_received Release m peer seq now = Ok m'
         ∧ ∃ m'' dead ev s'', check_timeouts Release m' later = Ok (m'', dead, ev)
           ∧ health m'' !! peer = Some s''
           ∧ missed_heartbeats s'' = missed_heartbeats s).
Proof.
  intros He Hs. split.
  - intros Hdead Hpend Hmiss. split_and!.
    + intros now. unfold peers_needing_ping. rewrite He. cbn.
      intros ([k s'] & -> & [Hn Hin]%list_elem_of_filter)%list_elem_of_fmap.
      rewrite health_iter_perm, elem_of_map_to_list in Hin. cbn in *. simplify_eq.
      unfold needs_ping in Hn. by rewrite decide_True in Hn.
    + intros p seq now. unfold record_pong_received. by rewrite Hs, Hpend.
    + intros now. destruct (check_timeouts_spec m now He) as (m' & dead & ev & Hrun & _ & Hl & _).
      exists m', dead, ev. split; [done|]. rewrite Hl, Hs. cbn. f_equal.
      unfold timeout_step, check_timeout. rewrite Hpend. cbn.
      rewrite (proj2 (evaluate_state_dead _ _) Hmiss), <- Hdead. by destruct s.
  - intros sent q seq now later Hp Hne.
    exists (set_health m (<[peer := PeerHealth.set_pending s None (missed_heartbeats s)]> (health m))).
    split. { unfold record_pong_received. rewrite Hs, Hp. by rewrite decide_False. }
    destruct (check_timeouts_spec
      (set_health m (<[peer := PeerHealth.set_pending s None (missed_heartbeats s)]> (health m)))
      later He) as (m'' & dead & ev & Hrun & _ & Hl & _).
    eexists _, _, _, _. split; [exact Hrun|]. rewrite Hl. cbn [health set_health].
    rewrite lookup_insert_eq. by split.
Qed.
End with_order.
End Monitor.

(** * Witnesses *)
#[local] Instance toy_health_order : HealthOrder := {
  health_iter m := map_to_list m;
  health_iter_perm m := reflexivity _
}.
Definition ex_monitor : HealthMonitor :=
  Monitor.start_monitoring (Monitor.new default_heartbeat) (str "peer") 0.

Lemma unanswered_pings_kill_witness :
  ∃ m' early final s',
    Monitor.rounds ex_monitor (str "peer")
      ((λ i, (from_secs (6 * Z.of_nat i), from_secs (6 * Z.of_nat i + 5))) <$> seq 0 4)
    = Ok (m', early ++ [final]) ∧ str "peer" ∈ final
    ∧ health m' !! str "peer" = Some s' ∧ state s' = Dead.
Proof.
  destruct (Monitor.unanswered_pings_kill ex_monitor (str "peer") (PeerHealth.new 0)
    ((λ i, (from_secs (6 * Z.of_nat i), from_secs (6 * Z.of_nat i + 5))) <$> seq 0 4))
    as (m' & early & final & s' & H & _ & Hf & Hs & Hd);
    [vm_eq|vm_eq|done|done|done|done|by repeat constructor|vm_eq|].
  exists m', early, final, s'. by split_and!.
Defined.

Lemma dead_and_stale_pongs_witness :
  ∃ m', Monitor.record_pong_received Release
          (Monitor.set_health ex_monitor
             {[ str "peer" := PeerHealth.set_pending (PeerHealth.new 0) (Some (3, 1)%Z) 1 ]})
          (str "peer") 0 9 = Ok m'.
Proof.
  destruct (Monitor.dead_and_stale_pongs
    (Monitor.set_health ex_monitor
       {[ str "peer" := PeerHealth.set_pending (PeerHealth.new 0) (Some (3, 1)%Z) 1 ]})
    (str "peer") (PeerHealth.set_pending (PeerHealth.new 0) (Some (3, 1)%Z) 1)) as [_ H];
    [vm_eq|vm_eq|].
  destruct (H 3%Z 1%Z 0%Z 9%Z 99%Z) as (m' & Hm & _); [done|done|]. exists m'. exact Hm.
Defined.
