(* ===== verification/Beacon.v ===== *)
(** Beacons ([src/beacon/types.rs], [src/beacon/config.rs]): hierarchy levels, positions
    and their distance, the record by which a node announces its presence, node profiles
    and the configurations. *)
From Stdlib Require Import ZArith Lia Strings.Byte Strings.String.
From stdpp Require Import prelude gmap.
From S2P Require Import Prelude Wire Float Geohash.

Set Default Proof Using "Type".

Inductive HierarchyLevel := Platform | Squad | Platoon | Company.
Global Instance HierarchyLevel_eq_dec : EqDecision HierarchyLevel.
Proof. solve_decision. Defined.

Module Level.
Definition rank (l : HierarchyLevel) : Z :=
  match l with Platform => 0 | Squad => 1 | Platoon => 2 | Company => 3 end.
Definition parent (l : HierarchyLevel) : option HierarchyLevel :=
  match l with
  | Platform => Some Squad | Squad => Some Platoon | Platoon => Some Company | Company => None
  end.
Definition child (l : HierarchyLevel) : option HierarchyLevel :=
  match l with
  | Platform => None | Squad => Some Platform | Platoon => Some Squad | Company => Some Platoon
  end.
(** [self > child] by the derived order. *)
Definition can_be_parent_of (l c : HierarchyLevel) : bool := (rank c <? rank l)%Z.

Lemma parent_child l c : parent c = Some l ↔ child l = Some c.
Proof. destruct l, c; cbn; split; congruence. Qed.
End Level.

Record GeoPosition := { lat : float; lon : float; alt : option float }.
Inductive NodeMobility := Static | Mobile | SemiMobile.
Record NodeResources := {
  cpu_cores : Z;
  memory_mb : Z;
  bandwidth_mbps : Z;
  cpu_usage_percent : Z;
  memory_usage_percent : Z;
  battery_percent : option Z
}.

Record GeographicBeacon := {
  beacon_node_id : bytes;
  position : GeoPosition;
  geohash : bytes;
  hierarchy_level : HierarchyLevel;
  beacon_capabilities : list bytes;
  operational : bool;
  timestamp : Z;
  mobility : option NodeMobility;
  can_parent : bool;
  parent_priority : Z;
  resources : option NodeResources;
  metadata : gmap bytes bytes
}.

Module Position.
Definition new (lat lon : float) : GeoPosition := {| lat := lat; lon := lon; alt := None |}.
Definition with_altitude (p : GeoPosition) (a : float) : GeoPosition :=
  {| lat := lat p; lon := lon p; alt := Some a |}.

Section distance.
Context {Pw : Powi} {Lm : Libm}.
(** [f64::to_radians]: a multiplication by the constant [PI / 180.0]. *)
Definition to_radians (x : float) : float :=
  F64.mul x (F64.div (F64.of_ZE 884279719003555 (-48)) (F64.of_Z 180)).
Definition distance_to (self other : GeoPosition) : float :=
  let r := F64.of_Z 6371000 in
  let two := F64.of_Z 2 in
  let lat1 := to_radians (lat self) in
  let lat2 := to_radians (lat other) in
  let delta_lat := to_radians (F64.sub (lat other) (lat self)) in
  let delta_lon := to_radians (F64.sub (lon other) (lon self)) in
  let a := F64.add (powi (fsin (F64.div delta_lat two)) 2)
             (F64.mul (F64.mul (fcos lat1) (fcos lat2)) (powi (fsin (F64.div delta_lon two)) 2)) in
  let c := F64.mul two (fatan2 (F64.sqrt a) (F64.sqrt (F64.sub (F64.of_Z 1) a))) in
  F64.mul r c.
End distance.
End Position.

(** * Beacons *)
(** Seconds since the epoch; a clock before it reads zero. *)
Definition unix_secs (now : Z) : Z := if (now <? 0)%Z then 0 else (now / 1000000000)%Z.

Module Beacon.
Definition hash_of (p : GeoPosition) : bytes :=
  match Geohash.encode (lon p) (lat p) 7 with Ok h => h | _ => str "invalid" end.
Definition new (node_id : bytes) (p : GeoPosition) (l : HierarchyLevel) (now : Z)
    : GeographicBeacon := {|
  beacon_node_id := node_id; position := p; geohash := hash_of p; hierarchy_level := l;
  beacon_capabilities := []; operational := true; timestamp := unix_secs now; mobility := None;
  can_parent := false; parent_priority := 0; resources := None; metadata := ∅ |}.
Definition update_timestamp (b : GeographicBeacon) (now : Z) : GeographicBeacon := {|
  beacon_node_id := beacon_node_id b; position := position b; geohash := geohash b;
  hierarchy_level := hierarchy_level b; beacon_capabilities := beacon_capabilities b;
  operational := operational b; timestamp := unix_secs now; mobility := mobility b;
  can_parent := can_parent b; parent_priority := parent_priority b; resources := resources b;
  metadata := metadata b |}.
Definition set_position (b : GeographicBeacon) (p : GeoPosition) : GeographicBeacon := {|
  beacon_node_id := beacon_node_id b; position := p; geohash := hash_of p;
  hierarchy_level := hierarchy_level b; beacon_capabilities := beacon_capabilities b;
  operational := operational b; timestamp := timestamp b; mobility := mobility b;
  can_parent := can_parent b; parent_priority := parent_priority b; resources := resources b;
  metadata := metadata b |}.
Definition has_capability (b : GeographicBeacon) (c : bytes) : bool :=
  bool_decide (c ∈ beacon_capabilities b).
Definition add_capability (b : GeographicBeacon) (c : bytes) : GeographicBeacon := {|
  beacon_node_id := beacon_node_id b; position := position b; geohash := geohash b;
  hierarchy_level := hierarchy_level b;
  beacon_capabilities :=
    if has_capability b c then beacon_capabilities b else beacon_capabilities b ++ [c];
  operational := operational b; timestamp := timestamp b; mobility := mobility b;
  can_parent := can_parent b; parent_priority := parent_priority b; resources := resources b;
  metadata := metadata b |}.
Definition age_seconds (b : GeographicBeacon) (now : Z) : Z :=
  saturating_sub (unix_secs now) (timestamp b).
Definition is_expired (b : GeographicBeacon) (ttl_seconds now : Z) : bool :=
  (ttl_seconds <? age_seconds b now)%Z.
End Beacon.

(** * Profiles *)
Record ParentingRequirements := {
  min_cpu_cores : Z;
  min_memory_mb : Z;
  min_bandwidth_mbps : Z;
  max_cpu_usage_percent : Z;
  max_memory_usage_percent : Z;
  min_battery_percent : option Z
}.
Record NodeProfile := {
  profile_mobility : NodeMobility;
  profile_resources : NodeResources;
  profile_can_parent : bool;
  prefer_leaf : bool;
  profile_parent_priority : Z
}.

Module Profile.
Definition default_requirements : ParentingRequirements := {|
  min_cpu_cores := 2; min_memory_mb := 512; min_bandwidth_mbps := 10;
  max_cpu_usage_percent := 80; max_memory_usage_percent := 80; min_battery_percent := Some 20%Z |}.
Definition has_sufficient_battery (r : NodeResources) (min_battery : option Z) : bool :=
  match battery_percent r, min_battery with
  | Some battery, Some min => (min <=? battery)%Z
  | None, _ => true
  | Some _, None => true
  end.
Definition can_parent (r : NodeResources) (c : ParentingRequirements) : bool :=
  (min_cpu_cores c <=? cpu_cores r)%Z && (min_memory_mb c <=? memory_mb r)%Z
  && (min_bandwidth_mbps c <=? bandwidth_mbps r)%Z
  && (cpu_usage_percent r <? max_cpu_usage_percent c)%Z
  && (memory_usage_percent r <? max_memory_usage_percent c)%Z
  && has_sufficient_battery r (min_battery_percent c).
Definition static_node (r : NodeResources) : NodeProfile := {|
  profile_mobility := Static; profile_resources := r; profile_can_parent := true;
  prefer_leaf := false; profile_parent_priority := 255 |}.
Definition mobile_node (r : NodeResources) : NodeProfile := {|
  profile_mobility := Mobile; profile_resources := r; profile_can_parent := false;
  prefer_leaf := true; profile_parent_priority := 0 |}.
Definition semi_mobile_node (r : NodeResources) : NodeProfile := {|
  profile_mobility := SemiMobile; profile_resources := r; profile_can_parent := true;
  prefer_leaf := false; profile_parent_priority := 128 |}.
Definition is_parent_candidate (p : NodeProfile) (c : ParentingRequirements) : bool :=
  if prefer_leaf p || negb (profile_can_parent p) then false
  else match profile_mobility p with
       | Static => can_parent (profile_resources p) c
       | Mobile => false
       | SemiMobile => can_parent (profile_resources p) c
       end.
End Profile.

Record BeaconConfig := {
  geohash_precision : nat;
  track_all : bool;
  config_max_distance_meters : option float;
  broadcast_interval_secs : Z;
  ttl_secs : Z;
  cleanup_interval_secs : Z
}.
Module BeaconPresets.
Definition default_config : BeaconConfig := {|
  geohash_precision := 7; track_all := false; config_max_distance_meters := Some (F64.of_Z 5000);
  broadcast_interval_secs := 5; ttl_secs := 30; cleanup_interval_secs := 5 |}.
Definition tactical : BeaconConfig := {|
  geohash_precision := 8; track_all := false; config_max_distance_meters := Some (F64.of_Z 2000);
  broadcast_interval_secs := 3; ttl_secs := 15; cleanup_interval_secs := 3 |}.
Definition distributed : BeaconConfig := {|
  geohash_precision := 5; track_all := true; config_max_distance_meters := None;
  broadcast_interval_secs := 10; ttl_secs := 60; cleanup_interval_secs := 10 |}.
Definition hybrid : BeaconConfig := {|
  geohash_precision := 6; track_all := false; config_max_distance_meters := Some (F64.of_Z 10000);
  broadcast_interval_secs := 5; ttl_secs := 30; cleanup_interval_secs := 5 |}.
End BeaconPresets.
