(* ===== verification/BeaconTasks.v ===== *)
(** The tasks around beacons: the storage they go through ([src/beacon/storage.rs]), the
    broadcaster ([src/beacon/broadcaster.rs]), the observer with its cache of the beacons
    of the neighbouring cells ([src/beacon/observer.rs]) and the janitor
    ([src/beacon/janitor.rs]).  A spawned loop is a program counter; the [running] flag
    it polls is shared with [start] and [stop]. *)
From Stdlib Require Import ZArith Lia Strings.Byte Strings.String.
From stdpp Require Import prelude gmap.
From S2P Require Import Prelude Wire Float Geohash Beacon.

Set Default Proof Using "Type".

Inductive StorageError :=
| SaveFailed (msg : bytes)
| QueryFailed (msg : bytes)
| SubscribeFailed (msg : bytes)
| StorageOther (msg : bytes).
Inductive BeaconChangeEvent :=
| Inserted (b : GeographicBeacon)
| Updated (b : GeographicBeacon)
| Removed (node_id : bytes).

(** A backend; [subscribe] is the answer to a subscription, the events of its stream
    are the inputs of the observer's loop. *)
Class BeaconStorage (St : Type) := {
  save_beacon : GeographicBeacon → stm St StorageError unit;
  subscribe : stm St StorageError unit
}.

(** Where a spawned loop stands: before it reads the flag, or waiting. *)
Inductive pc := AtCheck | Waiting | Stopped.
Global Instance pc_eq_dec : EqDecision pc.
Proof. solve_decision. Defined.
Definition check_running (running : bool) (c : pc) : pc :=
  match c with AtCheck => if running then Waiting else Stopped | _ => c end.

(** * The broadcaster *)
Record BeaconBroadcaster := {
  own_beacon : GeographicBeacon;
  broadcast_interval : Z;
  broadcasting : bool;
  broadcast_loops : list pc
}.
Module Broadcaster.
Definition new (node_id : bytes) (p : GeoPosition) (l : HierarchyLevel)
    (profile : option NodeProfile) (interval now : Z) : BeaconBroadcaster :=
  let b := Beacon.new node_id p l now in
  {| own_beacon :=
       match profile with
       | Some pr => {|
           beacon_node_id := beacon_node_id b; position := position b; geohash := geohash b;
           hierarchy_level := hierarchy_level b; beacon_capabilities := beacon_capabilities b;
           operational := operational b; timestamp := timestamp b;
           mobility := Some (profile_mobility pr); can_parent := profile_can_parent pr;
           parent_priority := profile_parent_priority pr;
           resources := Some (profile_resources pr); metadata := metadata b |}
       | None => b
       end;
     broadcast_interval := interval; broadcasting := false; broadcast_loops := [] |}.
Definition set (b : BeaconBroadcaster) own run loops : BeaconBroadcaster := {|
  own_beacon := own; broadcast_interval := broadcast_interval b; broadcasting := run;
  broadcast_loops := loops |}.
Definition start (b : BeaconBroadcaster) : BeaconBroadcaster :=
  if broadcasting b then b else set b (own_beacon b) true (broadcast_loops b ++ [AtCheck]).
Definition stop (b : BeaconBroadcaster) : BeaconBroadcaster :=
  set b (own_beacon b) false (broadcast_loops b).
Definition update_position (b : BeaconBroadcaster) (p : GeoPosition) : BeaconBroadcaster :=
  set b (Beacon.set_position (own_beacon b) p) (broadcasting b) (broadcast_loops b).

Section with_storage.
Context {St : Type} `{!BeaconStorage St}.
(** Loop [i] reads the flag, or its interval ticks and it saves the beacon with a new
    timestamp; an error of the storage is only logged. *)
Definition loop_check (b : BeaconBroadcaster) (i : nat) : BeaconBroadcaster :=
  set b (own_beacon b) (broadcasting b) (alter (check_running (broadcasting b)) i (broadcast_loops b)).
Definition loop_tick (b : BeaconBroadcaster) (st : St) (i : nat) (now : Z) : BeaconBroadcaster * St :=
  match broadcast_loops b !! i with
  | Some Waiting =>
      let own := Beacon.update_timestamp (own_beacon b) now in
      (set b own (broadcasting b) (<[i := AtCheck]> (broadcast_loops b)), (save_beacon own st).2)
  | _ => (b, st)
  end.
End with_storage.
End Broadcaster.

(** * The observer *)
Record BeaconObserver := {
  my_geohash : bytes;
  nearby_beacons : gmap bytes GeographicBeacon;
  observing : bool;
  observer_loops : list pc
}.
Module Observer.
Import Geohash.Compass.
Definition directions : list Direction := [N; NE; E; SE; Geohash.Compass.S; SW; W; NW].
Section with_powi.
Context {Pw : Powi}.

Fixpoint any_neighbor (p : profile) (mine other : bytes) (ds : list Direction) : outcome unit bool :=
  match ds with
  | [] => Ok false
  | d :: ds =>
      match Geohash.neighbor p mine d with
      | Ok neighbor => if bool_decide (neighbor = other) then Ok true else any_neighbor p mine other ds
      | Err _ => any_neighbor p mine other ds
      | Panic => Panic
      end
  end.
Definition is_nearby_geohash (p : profile) (mine other : bytes) : outcome unit bool :=
  if bool_decide (mine = other) then Ok true else any_neighbor p mine other directions.

Definition new (h : bytes) : BeaconObserver :=
  {| my_geohash := h; nearby_beacons := ∅; observing := false; observer_loops := [] |}.
Definition set (o : BeaconObserver) cache run loops : BeaconObserver := {|
  my_geohash := my_geohash o; nearby_beacons := cache; observing := run; observer_loops := loops |}.

Definition start {St} `{!BeaconStorage St} (o : BeaconObserver) (st : St) : BeaconObserver * St :=
  if observing o then (o, st)
  else match subscribe st with
       | (Ok _, st) => (set o (nearby_beacons o) true (observer_loops o ++ [AtCheck]), st)
       | (_, st) => (set o (nearby_beacons o) false (observer_loops o), st)
       end.
Definition stop (o : BeaconObserver) : BeaconObserver :=
  set o (nearby_beacons o) false (observer_loops o).
Definition get_nearby_beacons (order : gmap bytes GeographicBeacon → list (bytes * GeographicBeacon))
    (o : BeaconObserver) : list GeographicBeacon := (order (nearby_beacons o)).*2.

(** What an event does to the cache. *)
Definition apply_event (p : profile) (mine : bytes) (cache : gmap bytes GeographicBeacon)
    (ev : BeaconChangeEvent) : outcome unit (gmap bytes GeographicBeacon) :=
  match ev with
  | Inserted b | Updated b =>
      near ← is_nearby_geohash p mine (geohash b);
      Ok (if near : bool then <[beacon_node_id b := b]> cache else cache)
  | Removed id => Ok (delete id cache)
  end.

Inductive input := Check (i : nat) | Event (i : nat) (ev : BeaconChangeEvent) | Timeout (i : nat).
(** A panic of the handler ends the loop. *)
Definition step (p : profile) (o : BeaconObserver) (inp : input) : BeaconObserver :=
  match inp with
  | Check i => set o (nearby_beacons o) (observing o) (alter (check_running (observing o)) i (observer_loops o))
  | Event i ev =>
      match observer_loops o !! i with
      | Some Waiting =>
          match apply_event p (my_geohash o) (nearby_beacons o) ev with
          | Ok cache => set o cache (observing o) (<[i := AtCheck]> (observer_loops o))
          | _ => set o (nearby_beacons o) (observing o) (<[i := Stopped]> (observer_loops o))
          end
      | _ => o
      end
  | Timeout i =>
      match observer_loops o !! i with
      | Some Waiting => set o (nearby_beacons o) (observing o) (<[i := AtCheck]> (observer_loops o))
      | _ => o
      end
  end.
End with_powi.
End Observer.

(** * The janitor *)
Record BeaconJanitor := {
  ttl : Z;
  cleanup_interval : Z;
  cleaning : bool;
  janitor_loops : list pc
}.
Module Janitor.
Definition new (ttl interval : Z) : BeaconJanitor :=
  {| ttl := ttl; cleanup_interval := interval; cleaning := false; janitor_loops := [] |}.
Definition set (j : BeaconJanitor) run loops : BeaconJanitor :=
  {| ttl := ttl j; cleanup_interval := cleanup_interval j; cleaning := run; janitor_loops := loops |}.
Definition start (j : BeaconJanitor) : BeaconJanitor :=
  if cleaning j then j else set j true (janitor_loops j ++ [AtCheck]).
Definition stop (j : BeaconJanitor) : BeaconJanitor := set j false (janitor_loops j).
Definition ttl_secs (j : BeaconJanitor) : Z := (ttl j / 1000000000)%Z.
Definition loop_check (j : BeaconJanitor) (i : nat) : BeaconJanitor :=
  set j (cleaning j) (alter (check_running (cleaning j)) i (janitor_loops j)).
(** The interval ticks: the expired beacons leave the shared cache. *)
Definition loop_tick (j : BeaconJanitor) (cache : gmap bytes GeographicBeacon) (i : nat) (now : Z)
    : BeaconJanitor * gmap bytes GeographicBeacon :=
  match janitor_loops j !! i with
  | Some Waiting =>
      (set j (cleaning j) (<[i := AtCheck]> (janitor_loops j)),
       filter (λ kb, Beacon.is_expired kb.2 (ttl_secs j) now = false) cache)
  | _ => (j, cache)
  end.
End Janitor.

Import Observer.

Section observer.
Context {Pw : Powi}.
Implicit Types o : BeaconObserver.

Definition near (p : profile) (mine other : bytes) : bool :=
  match is_nearby_geohash p mine other with Ok r => r | _ => false end.
(** The cached beacons are those of this cell and its neighbours, under their node's id. *)
Definition cache_ok (p : profile) o : Prop :=
  map_Forall (λ id b, beacon_node_id b = id ∧ near p (my_geohash o) (geohash b) = true)
    (nearby_beacons o).

Lemma apply_event_ok p mine cache ev cache' :
  apply_event p mine cache ev = Ok cache' →
  map_Forall (λ id b, beacon_node_id b = id ∧ near p mine (geohash b) = true) cache →
  map_Forall (λ id b, beacon_node_id b = id ∧ near p mine (geohash b) = true) cache'.
Proof.
  intros E H. unfold near in *. destruct ev as [b|b|id]; cbn in E;
    [destruct (is_nearby_geohash p mine (geohash b)) as [[]| |] eqn:N; cbn in E; simplify_eq..|].
  all: try done; try (apply map_Forall_insert_2; [by rewrite N|done]).
  simplify_eq. by apply map_Forall_delete.
Qed.

(** The cache as the events of one node leave it: the latest event counts, except that a
    beacon from elsewhere is ignored. *)
Fixpoint latest (p : profile) (mine id : bytes) (rev_events : list BeaconChangeEvent)
    : option GeographicBeacon :=
  match rev_events with
  | [] => None
  | (Inserted b | Updated b) :: evs =>
      if bool_decide (beacon_node_id b = id) && near p mine (geohash b)
      then Some b else latest p mine id evs
  | Removed id' :: evs => if bool_decide (id' = id) then None else latest p mine id evs
  end.

(** The steps of the observer: its loops, and its owner starting and stopping it. *)
Inductive action := Loop (inp : input) | Start (subscribed : bool) | Stop.
#[local] Instance answering : BeaconStorage bool := {
  save_beacon _ := mret tt;
  subscribe := λ ok, (if ok then Ok tt else Err (SubscribeFailed []), ok)
}.
Definition act (p : profile) o (a : action) : BeaconObserver :=
  match a with
  | Loop inp => step p o inp
  | Start subscribed => (start o subscribed).1
  | Stop => stop o
  end.
(** The event an action delivers to a waiting loop whose handler does not panic. *)
Definition delivered (p : profile) o (a : action) : list BeaconChangeEvent :=
  match a with
  | Loop (Event i ev) =>
      if bool_decide (observer_loops o !! i = Some Waiting)
         && is_ok (apply_event p (my_geohash o) (nearby_beacons o) ev) then [ev] else []
  | _ => []
  end.
Fixpoint run (p : profile) o (acts : list action) : BeaconObserver * list BeaconChangeEvent :=
  match acts with
  | [] => (o, [])
  | a :: acts =>
      let r := run p (act p o a) acts in (r.1, delivered p o a ++ r.2)
  end.

Lemma act_cases p o a :
  my_geohash (act p o a) = my_geohash o
  ∧ ((delivered p o a = [] ∧ nearby_beacons (act p o a) = nearby_beacons o)
     ∨ ∃ ev, delivered p o a = [ev]
         ∧ apply_event p (my_geohash o) (nearby_beacons o) ev = Ok (nearby_beacons (act p o a))).
Proof.
  destruct a as [[i|i ev|i]|[]|]; cbn; auto.
  - destruct (observer_loops o !! i) as [[]|]; cbn; auto.
    destruct (apply_event p (my_geohash o) (nearby_beacons o) ev) eqn:E; cbn; naive_solver.
  - destruct (observer_loops o !! i) as [[]|]; cbn; auto.
  - unfold start. destruct (observing o); cbn; auto.
  - unfold start. destruct (observing o); cbn; auto.
Qed.
Lemma latest_event p mine cache ev cache' evs id :
  apply_event p mine cache ev = Ok cache' → cache !! id = latest p mine id evs →
  cache' !! id = latest p mine id (ev :: evs).
Proof.
  intros E H. destruct ev as [b|b|id']; cbn in *.
  3: { simplify_eq. case_bool_decide; [by subst; rewrite lookup_delete_eq|by rewrite lookup_delete_ne]. }
  all: unfold near; destruct (is_nearby_geohash p mine (geohash b)) as [[]| |] eqn:N;
    cbn in E; simplify_eq; rewrite ?andb_false_r, ?andb_true_r.
  all: try done.
  all: case_bool_decide; [by subst; rewrite lookup_insert_eq|by rewrite lookup_insert_ne].
Qed.

(** However the observer is started and stopped and its loops are scheduled, its
    cache is what the delivered events make of it, node by node: the latest beacon from
    this cell or one of its eight neighbours that no removal followed.  It holds nothing
    else. *)
Theorem observer_cache_is_latest p h acts o evs :
  run p (new h) acts = (o, evs) →
  cache_ok p o ∧ ∀ id, nearby_beacons o !! id = latest p h id (reverse evs).
Proof.
  cut (∀ acts o0 o evs0 evs, run p o0 acts = (o, evs) → cache_ok p o0 → my_geohash o0 = h →
    (∀ id, nearby_beacons o0 !! id = latest p h id evs0) →
    cache_ok p o ∧ ∀ id, nearby_beacons o !! id = latest p h id (reverse evs ++ evs0)).
  { intros H E. specialize (H acts (new h) o [] evs E). rewrite app_nil_r in H.
    apply H; [apply map_Forall_empty|done|done]. }
  clear. intros acts. induction acts as [|a acts IH]; intros o0 o evs0 evs E Hok Hh H; cbn in E.
  - by simplify_eq.
  - destruct (run p (act p o0 a) acts) as [o' evs'] eqn:R. cbn in E. simplify_eq.
    destruct (act_cases p o0 a) as (Hg & [(-> & Hn)|(ev & -> & Hap)]); cbn [app].
    + apply (IH _ _ _ _ R); [|done|by rewrite Hn]. unfold cache_ok. by rewrite Hn, Hg.
    + rewrite reverse_cons, <-(assoc_L (++)). cbn [app].
      apply (IH _ _ (ev :: evs0) _ R); [|done|].
      * unfold cache_ok. rewrite Hg. eapply apply_event_ok; [exact Hap|exact Hok].
      * intros id. eapply latest_event; [exact Hap|apply H].
Qed.

(** A node that moved out of the neighbourhood stays in the cache with its old position. *)
Lemma moved_away_stays p mine cache b :
  is_nearby_geohash p mine (geohash b) = Ok false → apply_event p mine cache (Updated b) = Ok cache.
Proof. intros E. cbn. by rewrite E. Qed.

(** ** Stopping *)
Definition waiting o : nat := length (filter (λ c, c = Waiting) (observer_loops o)).
Lemma waiting_insert (l : list pc) i c :
  l !! i = Some Waiting → c ≠ Waiting →
  Datatypes.S (length (filter (λ c, c = Waiting) (<[i := c]> l))) = length (filter (λ c, c = Waiting) l).
Proof.
  revert i. induction l as [|d l IH]; intros [|i] E Hc; cbn in E; simplify_eq.
  - change (<[0 := c]> (Waiting :: l)) with (c :: l).
    by rewrite filter_cons_False, filter_cons_True.
  - change (<[Datatypes.S i := c]> (d :: l)) with (d :: <[i := c]> l).
    rewrite !filter_cons. destruct (decide (d = Waiting)); cbn [length]; by rewrite <-(IH i).
Qed.
Lemma waiting_check (l : list pc) i :
  filter (λ c, c = Waiting) (alter (check_running false) i l) = filter (λ c, c = Waiting) l.
Proof.
  revert i. induction l as [|d l IH]; intros [|i]; [done..| |].
  - change (alter (check_running false) 0 (d :: l)) with (check_running false d :: l). by destruct d.
  - change (alter (check_running false) (Datatypes.S i) (d :: l)) with (d :: alter (check_running false) i l).
    by rewrite !filter_cons, IH.
Qed.

Lemma step_event p o i ev :
  (if bool_decide (observer_loops o !! i = Some Waiting)
   then Datatypes.S (waiting (step p o (Event i ev))) = waiting o else step p o (Event i ev) = o)
  ∧ observing (step p o (Event i ev)) = observing o.
Proof.
  unfold waiting. cbn [step]. case_bool_decide as W.
  - rewrite W. by destruct (apply_event _ _ _ _); cbn; rewrite waiting_insert.
  - by destruct (observer_loops o !! i) as [[]|].
Qed.
Lemma step_timeout p o i :
  waiting (step p o (Timeout i)) ≤ waiting o ∧ observing (step p o (Timeout i)) = observing o.
Proof.
  unfold waiting. cbn [step]. destruct (observer_loops o !! i) as [[]|] eqn:W; try done. cbn.
  split; [|done]. pose proof (waiting_insert _ _ AtCheck W ltac:(done)). lia.
Qed.
Lemma step_check p o i :
  observing o = false → waiting (step p o (Check i)) = waiting o ∧ observing (step p o (Check i)) = false.
Proof. intros Hs. unfold waiting. cbn. by rewrite Hs, waiting_check. Qed.

(** A stopped observer comes to rest: without another start each of its loops
    handles at most the one event it is already waiting for. *)
Theorem stopped_observer_rests p o inputs :
  length (run p (stop o) (Loop <$> inputs)).2 ≤ waiting o.
Proof.
  change (waiting o) with (waiting (stop o)).
  assert (observing (stop o) = false) as Hs by done. revert Hs. generalize (stop o). clear o.
  induction inputs as [|inp inputs IH]; intros o Hs; cbn [fmap list_fmap run snd length]; [lia|].
  rewrite length_app. unfold act. specialize (IH (step p o inp)).
  destruct inp as [i|i ev|i]; cbn [delivered length].
  - destruct (step_check p o i Hs) as [<- Hs']. by apply IH.
  - destruct (step_event p o i ev) as [H Hs']. rewrite Hs' in IH. specialize (IH Hs). fold list_fmap.
    case_bool_decide; cbn [andb length]; [|by rewrite H in *].
    destruct (is_ok _); cbn [length]; unfold fmap in *; lia.
  - destruct (step_timeout p o i) as [H Hs']. rewrite Hs' in IH. specialize (IH Hs). unfold fmap in *. lia.
Qed.
End observer.

(** * Witnesses *)
#[local] Instance exact_powi : Powi := λ _ k, F64.of_ZE 1 k.
(** A neighbour's beacon is received, and one from the other side of the world. *)
Definition beacon_at (id : bytes) (lat lon : Z) : GeographicBeacon :=
  Beacon.new id (Position.new (F64.of_Z lat) (F64.of_Z lon)) Squad 0.
Definition neighbour_cell : bytes := geohash (beacon_at (str "a") 37 (-122)).
Definition watch : list action :=
  [Start true; Loop (Check 0); Loop (Event 0 (Inserted (beacon_at (str "a") 37 (-122))));
   Loop (Check 0); Loop (Event 0 (Inserted (beacon_at (str "b") (-37) 122)))].
Definition watched : BeaconObserver * list BeaconChangeEvent :=
  Eval vm_compute in run Debug (Observer.new neighbour_cell) watch.
Lemma observer_cache_is_latest_witness :
  (cache_ok Debug watched.1
   ∧ ∀ id, nearby_beacons watched.1 !! id = latest Debug neighbour_cell id (reverse watched.2))
  ∧ (beacon_node_id <$> nearby_beacons watched.1 !! str "a") = Some (str "a")
  ∧ (beacon_node_id <$> nearby_beacons watched.1 !! str "b") = None.
Proof.
  split; [|split; vm_eq].
  assert (run Debug (Observer.new neighbour_cell) watch = (watched.1, watched.2)) as E by vm_eq.
  exact (observer_cache_is_latest Debug neighbour_cell watch watched.1 watched.2 E).
Defined.
