(* ===== verification/GeohashIndex.v ===== *)
(** The spatial index of documents ([src/storage/geohash_index.rs]): cells by geohash, and
    the cell of every document.  [insert] takes its locks three times; its phases are
    separate steps ([detach], [attach], [settle]), so that executions can interleave
    them. *)
From Stdlib Require Import ZArith Lia Strings.Byte Strings.String.
From stdpp Require Import prelude gmap.
From S2P Require Import Prelude Wire Iteration Float Geohash.

Set Default Proof Using "Type".

Record GeohashIndex := {
  index : gmap bytes (gset bytes);
  doc_locations : gmap bytes bytes;
  precision : nat
}.
Inductive IndexError := EncodeFailed | NeighborsFailed.

Module Index.
Import Geohash Compass.
Definition DEFAULT_GEOHASH_PRECISION : nat := 7.
Definition new (precision : nat) : GeohashIndex :=
  {| index := ∅; doc_locations := ∅; precision := precision |}.
Definition default_precision : GeohashIndex := new DEFAULT_GEOHASH_PRECISION.
Definition set (s : GeohashIndex) idx locs : GeohashIndex :=
  {| index := idx; doc_locations := locs; precision := precision s |}.
Definition encode (s : GeohashIndex) (lat lon : float) : outcome IndexError bytes :=
  map_err (λ _, EncodeFailed) (Geohash.encode lon lat (precision s)).

(** A document leaves a cell; an empty cell is dropped. *)
Definition unlink (id h : bytes) (idx : gmap bytes (gset bytes)) : gmap bytes (gset bytes) :=
  match idx !! h with
  | Some cell =>
      let cell := cell ∖ {[id]} in
      if decide (cell = ∅) then delete h idx else <[h := cell]> idx
  | None => idx
  end.
Definition link (id h : bytes) (idx : gmap bytes (gset bytes)) : gmap bytes (gset bytes) :=
  <[h := default ∅ (idx !! h) ∪ {[id]}]> idx.

(** The three critical sections of [insert]. *)
Definition detach (id : bytes) (s : GeohashIndex) : GeohashIndex :=
  match doc_locations s !! id with
  | Some h => set s (unlink id h (index s)) (delete id (doc_locations s))
  | None => s
  end.
Definition attach (id h : bytes) (s : GeohashIndex) : GeohashIndex :=
  set s (link id h (index s)) (doc_locations s).
Definition settle (id h : bytes) (s : GeohashIndex) : GeohashIndex :=
  set s (index s) (<[id := h]> (doc_locations s)).
Definition insert (id : bytes) (lat lon : float) : stm GeohashIndex IndexError unit :=
  h ← (λ s, (encode s lat lon, s));
  modify (settle id h ∘ attach id h ∘ detach id).
Definition remove (id : bytes) : stm GeohashIndex IndexError bool := λ s,
  (Ok (bool_decide (is_Some (doc_locations s !! id))), detach id s).
Definition update (id : bytes) (old_lat old_lon new_lat new_lon : float)
    : stm GeohashIndex IndexError unit := insert id new_lat new_lon.
Definition clear (s : GeohashIndex) : GeohashIndex := set s ∅ ∅.

Definition contains (s : GeohashIndex) (id : bytes) : bool :=
  bool_decide (is_Some (doc_locations s !! id)).
Definition get_cell (s : GeohashIndex) (id : bytes) : option bytes := doc_locations s !! id.
Definition len (s : GeohashIndex) : nat := size (doc_locations s).
Definition is_empty (s : GeohashIndex) : bool := len s =? 0.
Definition cell_count (s : GeohashIndex) : nat := size (index s).

Section find.
Context {Pw : Powi} {SO : SetOrder} {LO : IterOrder bytes bytes}.
Definition all_doc_ids (s : GeohashIndex) : list bytes := (iter (doc_locations s)).*1.
Definition find_in_cell (s : GeohashIndex) (h : bytes) : list bytes :=
  match index s !! h with Some docs => set_iter docs | None => [] end.
End find.
End Index.
Import Index.

(** * Executions *)
(** Operations one after the other. *)
Inductive index_op :=
| Insert (id : bytes) (lat lon : float)
| Remove (id : bytes)
| ClearIndex.
Definition apply_index_op (s : GeohashIndex) (o : index_op) : GeohashIndex :=
  match o with
  | Insert id lat lon => (insert id lat lon s).2
  | Remove id => (remove id s).2
  | ClearIndex => clear s
  end.
Definition run_index (precision : nat) : list index_op → GeohashIndex :=
  foldl apply_index_op (new precision).

(** The two tables agree, and no cell is empty. *)
Record index_ok (s : GeohashIndex) : Prop := {
  located id h : doc_locations s !! id = Some h ↔ id ∈ default ∅ (index s !! h);
  not_empty h cell : index s !! h = Some cell → cell ≠ ∅
}.
Lemma elem_of_unlink id h idx id' h' :
  id' ∈ default ∅ (unlink id h idx !! h')
  ↔ id' ∈ default ∅ (idx !! h') ∧ (h' = h → id' ≠ id).
Proof.
  unfold unlink. destruct (idx !! h) as [cell|] eqn:Hh; [case_decide as D|]; cbn zeta.
  - destruct (decide (h' = h)) as [->|].
    + rewrite lookup_delete_eq, Hh. cbn. set_solver.
    + rewrite lookup_delete_ne by done. naive_solver.
  - destruct (decide (h' = h)) as [->|].
    + rewrite lookup_insert_eq, Hh. cbn. set_solver.
    + rewrite lookup_insert_ne by done. naive_solver.
  - destruct (decide (h' = h)) as [->|]; [rewrite Hh; cbn; set_solver|naive_solver].
Qed.
Lemma elem_of_link id h idx id' h' :
  id' ∈ default ∅ (link id h idx !! h') ↔ id' ∈ default ∅ (idx !! h') ∨ id' = id ∧ h' = h.
Proof.
  unfold link. destruct (decide (h' = h)) as [->|].
  - rewrite lookup_insert_eq. cbn. set_solver.
  - rewrite lookup_insert_ne by done. naive_solver.
Qed.
Lemma detach_ok id s :
  index_ok s → index_ok (detach id s) ∧ doc_locations (detach id s) = delete id (doc_locations s).
Proof.
  intros [Hl Hn]. unfold detach. destruct (doc_locations s !! id) as [h|] eqn:Hid.
  - split; [|done]. split; cbn.
    + intros id' h'. rewrite elem_of_unlink, <-Hl, lookup_delete_Some. naive_solver.
    + intros h' cell'. unfold unlink. destruct (index s !! h) as [cell|] eqn:Hh; [|by apply Hn].
      cbn zeta. case_decide as D.
      * intros [_ H]%lookup_delete_Some. by eapply Hn.
      * intros [[<- <-]|[_ H]]%lookup_insert_Some; [done|by eapply Hn].
  - split; [done|]. by rewrite delete_id.
Qed.
Lemma insert_ok id h s :
  index_ok s → index_ok (settle id h (attach id h (detach id s))).
Proof.
  intros [[Hl Hn] Hd]%(detach_ok id). split; cbn.
  - intros id' h'. rewrite elem_of_link, <-Hl, Hd, lookup_insert_Some, lookup_delete_Some. naive_solver.
  - intros h' cell. unfold link. intros [[<- <-]|[_ H]]%lookup_insert_Some; [set_solver|by eapply Hn].
Qed.
Lemma index_step_ok s o : index_ok s → index_ok (apply_index_op s o).
Proof.
  intros Hok. destruct o as [id lat lon|id|]; cbn.
  - unfold insert, mbind, stm_bind. destruct (encode s lat lon); [|done|done]. cbn. by apply insert_ok.
  - by apply detach_ok.
  - split; cbn; [|by intros h cell; rewrite lookup_empty]. intros id h. rewrite !lookup_empty. cbn. set_solver.
Qed.

(** * What is found *)
(** Where a document was last put. *)
Fixpoint last_position (id : bytes) (precision : nat) (rev_ops : list index_op) : option bytes :=
  match rev_ops with
  | [] => None
  | Insert id' lat lon :: ops =>
      match Geohash.encode lon lat precision with
      | Ok h => if decide (id' = id) then Some h else last_position id precision ops
      | _ => last_position id precision ops
      end
  | Remove id' :: ops => if decide (id' = id) then None else last_position id precision ops
  | ClearIndex :: _ => None
  end.
Lemma run_index_ok k ops :
  index_ok (run_index k ops) ∧ precision (run_index k ops) = k
  ∧ ∀ id, doc_locations (run_index k ops) !! id = last_position id k (reverse ops).
Proof.
  unfold run_index. induction ops as [|o ops (IH & Hp & Hl)] using rev_ind.
  - split; [|split; [done|]]; [|intros id; cbn; apply lookup_empty].
    split; cbn; [|by intros h cell; rewrite lookup_empty]. intros id h. rewrite !lookup_empty. cbn. set_solver.
  - rewrite foldl_app, reverse_app. cbn [foldl]. set (s := foldl _ _ _) in *.
    split; [by apply index_step_ok|].
    destruct o as [id' lat lon|id'|]; cbn -[Geohash.encode].
    + unfold insert, mbind, stm_bind, encode. rewrite Hp.
      destruct (Geohash.encode lon lat k) as [h| |]; cbn; [|done|done].
      pose proof (proj2 (detach_ok id' s IH)) as Hd. split.
      * unfold detach. by destruct (doc_locations s !! id').
      * intros id. rewrite Hd. case_decide as D; [rewrite D; apply lookup_insert_eq|].
        by rewrite lookup_insert_ne, lookup_delete_ne.
    + pose proof (proj2 (detach_ok id' s IH)) as Hd. split.
      * unfold detach. by destruct (doc_locations s !! id').
      * intros id. rewrite Hd. case_decide as D; [rewrite D; apply lookup_delete_eq|].
        by rewrite lookup_delete_ne.
    + split; [done|]. intros id. apply lookup_empty.
Qed.

Section properties.
Context {Pw : Powi} {SO : SetOrder} {LO : IterOrder bytes bytes}.


(** The same document is in at most one cell, whatever the order of operations. *)
Lemma one_cell k ops id h h' :
  let s := run_index k ops in
  id ∈ find_in_cell s h → id ∈ find_in_cell s h' → h = h'.
Proof.
  cbn zeta. destruct (run_index_ok k ops) as (Hok & _ & _). unfold find_in_cell.
  assert (∀ h, id ∈ match index (run_index k ops) !! h with Some docs => set_iter docs | None => [] end
            → doc_locations (run_index k ops) !! id = Some h) as H.
  { intros h0 Hin. apply (located _ Hok). destruct (index (run_index k ops) !! h0); cbn; [|by apply elem_of_nil in Hin].
    by apply elem_of_set_iter in Hin. }
  intros H1%H H2%H. congruence.
Qed.
End properties.

(** * Witnesses *)
#[local] Instance exact_powi : Powi := λ _ k, F64.of_ZE 1 k.
#[local] Instance set_by_key : SetOrder := {| set_iter := elements; set_iter_perm s := reflexivity _ |}.

(** Two tasks that insert the same document at once, each between the phases of the
    other, leave it in both cells: the first cell keeps it for ever, since only the
    second is recorded as its location. *)
Lemma concurrent_inserts_leave_a_ghost :
  let s := settle (str "a") (str "h2") (settle (str "a") (str "h1")
             (attach (str "a") (str "h2") (attach (str "a") (str "h1")
               (detach (str "a") (detach (str "a") (new 7)))))) in
  let s' := (remove (str "a") s).2 in
  find_in_cell s (str "h1") = [str "a"] ∧ find_in_cell s (str "h2") = [str "a"]
  ∧ find_in_cell s' (str "h1") = [str "a"] ∧ contains s' (str "a") = false.
Proof. split_and!; vm_eq. Qed.
