(* ===== verification/Hierarchy.v ===== *)
(** Roles and levels ([src/hierarchy]): the strategy interface, the static, the dynamic
    (election by score) and the hybrid strategy. *)
From Stdlib Require Import ZArith Lia Strings.Byte Strings.String SpecFloat.
From stdpp Require Import prelude gmap.
From S2P Require Import Prelude Wire Float Geohash Beacon BeaconTasks.

Set Default Proof Using "Type".

Inductive NodeRole := Leader | Member | Standalone.
Global Instance NodeRole_eq_dec : EqDecision NodeRole.
Proof. solve_decision. Defined.

(** The trait [HierarchyStrategy], as the object the builder holds. *)
Record HierarchyStrategy := {
  determine_level : NodeProfile → HierarchyLevel;
  determine_role : NodeProfile → list GeographicBeacon → outcome unit NodeRole;
  can_transition : HierarchyLevel → HierarchyLevel → bool
}.

(** * Fixed assignment *)
Record StaticHierarchyStrategy := {
  assigned_level : HierarchyLevel;
  assigned_role : NodeRole
}.
Definition static_strategy (s : StaticHierarchyStrategy) : HierarchyStrategy := {|
  determine_level _ := assigned_level s;
  determine_role _ _ := Ok (assigned_role s);
  can_transition _ _ := false
|}.

(** * Election *)
Record ElectionWeights := {
  weight_mobility : float;
  weight_resources : float;
  weight_battery : float
}.
Record ElectionConfig := {
  priority_weights : ElectionWeights;
  hysteresis : float
}.
Record DynamicHierarchyStrategy := {
  base_level : HierarchyLevel;
  election_config : ElectionConfig;
  allow_level_transitions : bool
}.

Definition default_weights : ElectionWeights := {|
  weight_mobility := F64.dec 4 1; weight_resources := F64.dec 4 1; weight_battery := F64.dec 2 1 |}.
Definition default_election : ElectionConfig := {|
  priority_weights := default_weights; hysteresis := F64.dec 1 1 |}.

Module Score.
Definition one : float := F64.of_Z 1.
Definition percent (z : Z) : float := F64.div (F64.of_Z z) (F64.of_Z 100).
Definition mobility_score (m : NodeMobility) : float :=
  match m with Static => one | SemiMobile => F64.dec 6 1 | Mobile => F64.dec 3 1 end.
(** [1 - usage / 100] *)
Definition free (usage : Z) : float := F64.sub one (percent usage).
Definition battery_score (r : NodeResources) : float :=
  match battery_percent r with Some b => percent b | None => one end.
End Score.

Module Dynamic.
Import Score.
Definition resource_score (r : NodeResources) : float :=
  F64.div (F64.add (free (cpu_usage_percent r)) (free (memory_usage_percent r))) (F64.of_Z 2).
(** The boost of a parent, and the priority. *)
Definition boost (score : float) (can_parent : bool) (priority : Z) : float :=
  let score := if can_parent then F64.mul score (F64.dec 11 1) else score in
  F64.mul score (F64.add one (F64.div (F64.of_Z priority) (F64.of_Z 255))).

Definition calculate_leadership_score (s : DynamicHierarchyStrategy) (p : NodeProfile) : float :=
  let w := priority_weights (election_config s) in
  let score := F64.of_Z 0 in
  let score := F64.add score (F64.mul (mobility_score (profile_mobility p)) (weight_mobility w)) in
  let score := F64.add score (F64.mul (resource_score (profile_resources p)) (weight_resources w)) in
  let score := F64.add score (F64.mul (battery_score (profile_resources p)) (weight_battery w)) in
  boost score (profile_can_parent p) (profile_parent_priority p).

Definition calculate_leadership_score_from_beacon (s : DynamicHierarchyStrategy)
    (b : GeographicBeacon) : float :=
  let w := priority_weights (election_config s) in
  let half := F64.dec 5 1 in
  let score := F64.of_Z 0 in
  let score := match mobility b with
               | Some m => F64.add score (F64.mul (mobility_score m) (weight_mobility w))
               | None => F64.add score (F64.mul half (weight_mobility w))
               end in
  let score := match resources b with
               | Some r =>
                   let score := F64.add score (F64.mul (resource_score r) (weight_resources w)) in
                   F64.add score (F64.mul (battery_score r) (weight_battery w))
               | None => F64.add score (F64.mul half (F64.add (weight_resources w) (weight_battery w)))
               end in
  boost score (can_parent b) (parent_priority b).

(** [max_by] with [partial_cmp(..).unwrap()]: a comparison with a NaN panics. *)
Fixpoint max_score (acc : float) (l : list float) : outcome unit float :=
  match l with
  | [] => Ok acc
  | y :: l =>
      match SFcompare acc y with
      | Some Gt => max_score acc l
      | Some _ => max_score y l
      | None => Panic
      end
  end.
Definition best_peer_score (l : list float) : outcome unit float :=
  match l with [] => Ok (F64.of_Z 0) | x :: l => max_score x l end.

Definition determine_role (s : DynamicHierarchyStrategy) (p : NodeProfile)
    (nearby_peers : list GeographicBeacon) : outcome unit NodeRole :=
  let same_level_peers := filter (λ b, hierarchy_level b = base_level s) nearby_peers in
  if decide (same_level_peers = []) then Ok Standalone
  else
    let my_score := calculate_leadership_score s p in
    best ← best_peer_score (calculate_leadership_score_from_beacon s <$> same_level_peers);
    let threshold := F64.mul best (F64.add one (hysteresis (election_config s))) in
    Ok (if fle threshold my_score then Leader else Member).
End Dynamic.
Definition dynamic_strategy (s : DynamicHierarchyStrategy) : HierarchyStrategy := {|
  determine_level _ := base_level s;
  determine_role := Dynamic.determine_role s;
  can_transition _ _ := allow_level_transitions s
|}.

(** * Static baseline with elections *)
Record TransitionRules := {
  allow_promotion : bool;
  allow_demotion : bool;
  max_promotion_levels : Z;
  max_demotion_levels : Z;
  min_peers_for_promotion : nat
}.
Record HybridHierarchyStrategy := {
  baseline_level : HierarchyLevel;
  baseline_role : NodeRole;
  hybrid_election : ElectionConfig;
  transition_rules : TransitionRules
}.
Module Hybrid.
Definition default_rules : TransitionRules := {|
  allow_promotion := true; allow_demotion := true; max_promotion_levels := 1;
  max_demotion_levels := 1; min_peers_for_promotion := 0 |}.
Definition with_static_level_dynamic_role (l : HierarchyLevel) (c : ElectionConfig)
    : HybridHierarchyStrategy := {|
  baseline_level := l; baseline_role := Member; hybrid_election := c;
  transition_rules := {|
    allow_promotion := false; allow_demotion := false; max_promotion_levels := 0;
    max_demotion_levels := 0; min_peers_for_promotion := 0 |} |}.
Definition with_adaptive_promotion (l : HierarchyLevel) (r : NodeRole) (c : ElectionConfig)
    : HybridHierarchyStrategy := {|
  baseline_level := l; baseline_role := r; hybrid_election := c;
  transition_rules := {|
    allow_promotion := true; allow_demotion := false; max_promotion_levels := 1;
    max_demotion_levels := 0; min_peers_for_promotion := 2 |} |}.
Definition count_level (peers : list GeographicBeacon) (l : HierarchyLevel) : nat :=
  length (filter (λ b, hierarchy_level b = l) peers).
Definition should_promote (s : HybridHierarchyStrategy) (peers : list GeographicBeacon)
    (current : HierarchyLevel) : bool :=
  if negb (allow_promotion (transition_rules s)) then false
  else match Level.parent current with
       | None => false
       | Some higher =>
           if existsb (λ b, bool_decide (hierarchy_level b = higher)) peers then false
           else (min_peers_for_promotion (transition_rules s) <=? count_level peers current)
       end.
Definition should_demote (s : HybridHierarchyStrategy) (peers : list GeographicBeacon)
    (current : HierarchyLevel) : bool :=
  if negb (allow_demotion (transition_rules s)) then false
  else match Level.parent current with
       | Some parent_level => (2 <=? count_level peers parent_level)
       | None => false
       end.
Definition dynamic_role_determination (s : HybridHierarchyStrategy) (p : NodeProfile)
    (peers : list GeographicBeacon) : outcome unit NodeRole :=
  Dynamic.determine_role {| base_level := baseline_level s; election_config := hybrid_election s;
                            allow_level_transitions := false |} p peers.
Definition determine_role (s : HybridHierarchyStrategy) (p : NodeProfile)
    (peers : list GeographicBeacon) : outcome unit NodeRole :=
  let same_level_peers := filter (λ b, hierarchy_level b = baseline_level s) peers in
  if decide (same_level_peers = []) then Ok (baseline_role s)
  else dynamic_role_determination s p peers.
Definition can_transition (s : HybridHierarchyStrategy) (current new : HierarchyLevel) : bool :=
  if decide (current = new) then true
  else
    let level_diff := Z.abs (Level.rank new - Level.rank current) in
    if (Level.rank current <? Level.rank new)%Z
    then allow_promotion (transition_rules s)
         && (level_diff <=? max_promotion_levels (transition_rules s))%Z
    else allow_demotion (transition_rules s)
         && (level_diff <=? max_demotion_levels (transition_rules s))%Z.
End Hybrid.
Definition hybrid_strategy (s : HybridHierarchyStrategy) : HierarchyStrategy := {|
  determine_level _ := baseline_level s;
  determine_role := Hybrid.determine_role s;
  can_transition := Hybrid.can_transition s
|}.

(** * Elections *)
Section election.
Context (s : DynamicHierarchyStrategy).
Import Dynamic.

(** [b] announces a node of profile [p] at the level of the election. *)
Definition announces (p : NodeProfile) (b : GeographicBeacon) : Prop :=
  hierarchy_level b = base_level s ∧ mobility b = Some (profile_mobility p)
  ∧ resources b = Some (profile_resources p) ∧ can_parent b = profile_can_parent p
  ∧ parent_priority b = profile_parent_priority p.
Definition score_of : NodeProfile → float := calculate_leadership_score s.

(** A node computes for a peer the score the peer computes for itself. *)
Lemma score_from_beacon p b :
  announces p b → calculate_leadership_score_from_beacon s b = score_of p.
Proof.
  intros (_ & E1 & E2 & E3 & E4). unfold calculate_leadership_score_from_beacon.
  by rewrite E1, E2, E3, E4.
Qed.
(** What the broadcaster sends announces its profile. *)
Lemma broadcast_announces node_id pos p interval now :
  announces p (own_beacon (Broadcaster.new node_id pos (base_level s) (Some p) interval now)).
Proof. by repeat split. Qed.

(** The maximum of scores that are numbers. *)
Lemma max_score_spec acc l r :
  is_nan acc = false → Forall (λ x, is_nan x = false) l → max_score acc l = Ok r →
  r ∈ acc :: l ∧ ∀ x, x ∈ acc :: l → key_le (fkey x) (fkey r).
Proof.
  revert acc. induction l as [|y l IH]; intros acc Ha Hl E; cbn in E.
  - simplify_eq. split; [by left|]. intros x ->%list_elem_of_singleton. unfold key_le. lia.
  - apply Forall_cons in Hl as [Hy Hl]. destruct (SFcompare acc y) as [c|] eqn:C; [|done].
    pose proof (fcompare_key _ _ _ C) as K.
    assert (SFcompare y acc = Some (CompOpp c)) as C' by by rewrite fcompare_opp, C.
    pose proof (fcompare_key _ _ _ C') as K'.
    destruct (decide (c = Gt)) as [->|Hc].
    + destruct (IH acc Ha Hl E) as [Hin Hall]. split; [set_solver|].
      intros x [->|[->|Hx]%elem_of_cons]%elem_of_cons; [apply Hall; by left| |apply Hall; by right].
      eapply key_le_trans; [by apply K'|apply Hall; by left].
    + assert (max_score y l = Ok r) as E' by by destruct c.
      destruct (IH y Hy Hl E') as [Hin Hall]. split; [set_solver|].
      intros x [->|[->|Hx]%elem_of_cons]%elem_of_cons; [|apply Hall; by left|apply Hall; by right].
      eapply key_le_trans; [by apply K|apply Hall; by left].
Qed.
Lemma max_score_total acc l :
  is_nan acc = false → Forall (λ x, is_nan x = false) l → ∃ r, max_score acc l = Ok r.
Proof.
  revert acc. induction l as [|y l IH]; intros acc Ha Hl; cbn; [by eexists|].
  apply Forall_cons in Hl as [Hy Hl]. destruct (fcompare_total acc y Ha Hy) as [c ->].
  destruct c; by apply IH.
Qed.

(** The hysteresis factor; a score grows when it is multiplied by it, as every positive
    normal one does for a positive hysteresis. *)
Definition factor : float := F64.add Score.one (hysteresis (election_config s)).
Definition grows (x : float) : Prop := flt x (F64.mul x factor) = true.
(** What a node sees of the others of its level. *)
Definition sees (peers : list NodeProfile) (nearby : list GeographicBeacon) : Prop :=
  (∀ p, p ∈ peers → ∃ b, b ∈ nearby ∧ announces p b)
  ∧ ∀ b, b ∈ nearby → hierarchy_level b = base_level s → ∃ p, p ∈ peers ∧ announces p b.

Lemma sees_scores peers nearby x :
  sees peers nearby →
  x ∈ calculate_leadership_score_from_beacon s <$> filter (λ b, hierarchy_level b = base_level s) nearby
  ↔ x ∈ score_of <$> peers.
Proof.
  intros [H1 H2]. rewrite !list_elem_of_fmap. split.
  - intros (b & -> & [Hl Hb]%list_elem_of_filter). destruct (H2 b Hb Hl) as (p & Hp & A).
    exists p. by rewrite (score_from_beacon p).
  - intros (p & -> & Hp). destruct (H1 p Hp) as (b & Hb & A). exists b.
    rewrite (score_from_beacon p) by done. split; [done|]. apply list_elem_of_filter. by destruct A.
Qed.

Lemma same_elements_nil {A} (l k : list A) : (∀ x, x ∈ l ↔ x ∈ k) → l = [] ↔ k = [].
Proof.
  intros H. split; intros ->; apply elem_of_nil_inv; intros x Hx; apply H in Hx;
    by apply elem_of_nil in Hx.
Qed.
Lemma fmap_nil_iff {A B} (f : A → B) (l : list A) : f <$> l = [] ↔ l = [].
Proof. by destruct l. Qed.
Lemma elem_of_delete_other {A} (l : list A) i j x : l !! j = Some x → j ≠ i → x ∈ delete i l.
Proof.
  intros E H. apply list_elem_of_lookup. destruct (decide (j < i)).
  - exists j. by rewrite list_lookup_delete_lt.
  - exists (j - 1). rewrite list_lookup_delete_ge by lia. by replace (S (j - 1)) with j by lia.
Qed.
Lemma best_spec scores :
  scores ≠ [] → Forall (λ x, is_nan x = false) scores →
  ∃ r, best_peer_score scores = Ok r ∧ r ∈ scores ∧ ∀ x, x ∈ scores → key_le (fkey x) (fkey r).
Proof.
  destruct scores as [|x l]; [done|]. intros _ [Hx Hl]%Forall_cons. cbn.
  destruct (max_score_total x l Hx Hl) as [r E]. exists r.
  by destruct (max_score_spec x l r Hx Hl E).
Qed.

(** The role of a node among peers whose scores are positive. *)
Lemma role_spec p peers nearby :
  sees peers nearby → Forall (λ q, grows (score_of q)) peers →
  ∃ r, determine_role s p nearby = Ok r
    ∧ (r = Standalone ↔ peers = [])
    ∧ (r = Leader → ∀ q, q ∈ peers → flt (score_of q) (score_of p) = true).
Proof.
  intros Hs Hg. unfold determine_role.
  pose proof (λ x, sees_scores peers nearby x Hs) as Hx.
  set (same := filter (λ b, hierarchy_level b = base_level s) nearby) in *.
  assert (peers = [] ↔ same = []) as Hnil.
  { pose proof (same_elements_nil _ _ Hx) as H. rewrite !fmap_nil_iff in H. naive_solver. }
  case_decide as D; [exists Standalone; naive_solver|]. cbv zeta.
  destruct (best_spec (calculate_leadership_score_from_beacon s <$> same)) as (best & -> & Hin & Hmax).
  { by rewrite fmap_nil_iff. }
  { apply Forall_forall. intros x (q & -> & Hq)%Hx%list_elem_of_fmap.
    rewrite Forall_forall in Hg. by apply Hg, flt_key in Hq as (? & _). }
  cbn [mbind outcome_bind]. eexists. split; [done|]. split; [case_match; naive_solver|].
  case_match eqn:L; [|done]. intros _ q Hq. apply fle_key in L as (_ & Hn & Hle).
  apply Hx, list_elem_of_fmap in Hin as (b & -> & Hb). rewrite Forall_forall in Hg.
  pose proof (Hg b Hb) as (_ & _ & Hgt)%flt_key. pose proof (Hg q Hq) as (Hqn & _ & _)%flt_key.
  apply flt_key_2; [done|done|]. intros K. apply Hgt. eapply key_le_trans; [exact Hle|].
  eapply key_le_trans; [exact K|]. apply Hmax, Hx, list_elem_of_fmap. by exists q.
Qed.

(** C28.  An election has at most one winner.  In a group of nodes whose scores the
    hysteresis factor increases, let every node see the beacons of all the others: each
    node finds a role, it is standalone only in a group of one, a leader's score is
    strictly above every other node's, and no two nodes lead. *)
Theorem at_most_one_leader nodes views :
  Forall (λ q, grows (score_of q)) nodes →
  (∀ i, i < length nodes → sees (delete i nodes) (views i)) →
  ∀ i p, nodes !! i = Some p →
    ∃ r, determine_role s p (views i) = Ok r
      ∧ (r = Standalone ↔ length nodes = 1)
      ∧ (r = Leader → ∀ j q, j ≠ i → nodes !! j = Some q →
           flt (score_of q) (score_of p) = true ∧ determine_role s q (views j) ≠ Ok Leader).
Proof.
  intros Hg Hv. assert (∀ i p, nodes !! i = Some p → ∃ r, determine_role s p (views i) = Ok r
      ∧ (r = Standalone ↔ length nodes = 1)
      ∧ (r = Leader → ∀ j q, j ≠ i → nodes !! j = Some q → flt (score_of q) (score_of p) = true)) as H.
  { intros i p Hi. pose proof (lookup_lt_Some _ _ _ Hi) as Hl.
    destruct (role_spec p (delete i nodes) (views i)) as (r & E & Hr & HL); [by apply Hv| |].
    { by apply Forall_delete. }
    exists r. split_and!; [done| |].
    - rewrite Hr, <-length_zero_iff_nil, length_delete by by eexists. lia.
    - intros -> j q Hj Hq. apply HL; [done|]. by eapply elem_of_delete_other. }
  intros i p Hi. destruct (H i p Hi) as (r & E & Hr & HL). exists r. split_and!; [done|done|].
  intros -> j q Hj Hq. pose proof (HL eq_refl j q Hj Hq) as Hlt. split; [done|]. intros E'.
  destruct (H j q Hq) as (r' & E'' & _ & HL'). rewrite E' in E''. injection E'' as <-.
  pose proof (HL' eq_refl i p (not_eq_sym Hj) Hi) as (_ & _ & H1)%flt_key.
  apply flt_key in Hlt as (_ & _ & H2). by destruct (key_le_total (fkey (score_of p)) (fkey (score_of q))).
Qed.
End election.

(** Peers of equal standing elect nobody: of two like nodes each finds itself below the
    threshold. *)
Definition twin : NodeProfile := Profile.static_node {|
  cpu_cores := 4; memory_mb := 4096; bandwidth_mbps := 100; cpu_usage_percent := 10;
  memory_usage_percent := 20; battery_percent := None |}.
Definition weaker : NodeProfile := Profile.mobile_node (profile_resources twin).
Definition squad_election : DynamicHierarchyStrategy := {|
  base_level := Squad; election_config := default_election; allow_level_transitions := false |}.
Definition beacon_of (id : bytes) (p : NodeProfile) : GeographicBeacon :=
  own_beacon (Broadcaster.new id (Position.new (F64.of_Z 37) (F64.of_Z (-122))) Squad (Some p) 0 0).
Lemma twins_have_no_leader :
  Dynamic.determine_role squad_election twin [beacon_of (str "b") twin] = Ok Member
  ∧ Dynamic.determine_role squad_election twin [beacon_of (str "a") twin] = Ok Member.
Proof. split; vm_eq. Qed.

Lemma sees_one s p id pos interval now :
  sees s [p] [own_beacon (Broadcaster.new id pos (base_level s) (Some p) interval now)].
Proof.
  split.
  - intros q ->%list_elem_of_singleton. eexists. split; [by left|apply broadcast_announces].
  - intros b ->%list_elem_of_singleton _. exists p. split; [by left|apply broadcast_announces].
Qed.
Lemma at_most_one_leader_witness :
  (∃ r, Dynamic.determine_role squad_election twin [beacon_of (str "b") weaker] = Ok r
    ∧ (r = Standalone ↔ 2 = 1)
    ∧ (r = Leader → ∀ j q, j ≠ 0 → [twin; weaker] !! j = Some q →
         flt (score_of squad_election q) (score_of squad_election twin) = true
         ∧ Dynamic.determine_role squad_election q [beacon_of (str "a") twin] ≠ Ok Leader))
  ∧ Dynamic.determine_role squad_election twin [beacon_of (str "b") weaker] = Ok Leader.
Proof.
  split; [|vm_eq].
  destruct (at_most_one_leader squad_election [twin; weaker]
    (λ i, match i with 0 => [beacon_of (str "b") weaker] | _ => [beacon_of (str "a") twin] end))
    with (i := 0) (p := twin) as (r & E & H1 & H2).
  - constructor; [unfold grows; vm_eq|]. constructor; [unfold grows; vm_eq|constructor].
  - intros [|[|i]] Hi; [apply sees_one..|cbn in Hi; lia].
  - reflexivity.
  - exists r. split; [exact E|]. split; [exact H1|]. intros Hr [|j] q Hj Hq; [exfalso; exact (Hj eq_refl)|].
    exact (H2 Hr (S j) q Hj Hq).
Defined.
