(* ===== verification/Selection.v ===== *)
(** Peer selection ([src/topology/selection.rs]): the candidates a node may report to,
    their scores, and the best of them. *)
From Stdlib Require Import ZArith Lia Strings.Byte Strings.String SpecFloat.
From stdpp Require Import prelude gmap.
From S2P Require Import Prelude Wire Iteration Float Geohash Beacon Hierarchy.

Set Default Proof Using "Type".

Record SelectionConfig := {
  mobility_weight : float;
  resource_weight : float;
  battery_weight : float;
  proximity_weight : float;
  max_distance_meters : option float;
  max_children_per_parent : option nat
}.
Record PeerCandidate := { candidate_beacon : GeographicBeacon; candidate_score : float }.
Record PeerSelector := {
  selector_config : SelectionConfig;
  own_position : GeoPosition;
  own_level : HierarchyLevel
}.

Module Selector.
Import Score.
Definition default_config : SelectionConfig := {|
  mobility_weight := F64.dec 3 1; resource_weight := F64.dec 3 1; battery_weight := F64.dec 2 1;
  proximity_weight := F64.dec 2 1; max_distance_meters := Some (F64.of_Z 10000);
  max_children_per_parent := Some 10 |}.
Definition tactical : SelectionConfig := {|
  mobility_weight := F64.dec 4 1; resource_weight := F64.dec 25 2; battery_weight := F64.dec 15 2;
  proximity_weight := F64.dec 2 1; max_distance_meters := Some (F64.of_Z 2000);
  max_children_per_parent := Some 5 |}.
Definition distributed : SelectionConfig := {|
  mobility_weight := F64.dec 2 1; resource_weight := F64.dec 4 1; battery_weight := F64.dec 2 1;
  proximity_weight := F64.dec 2 1; max_distance_meters := None;
  max_children_per_parent := Some 15 |}.

Definition mobility_score : NodeMobility → float := Score.mobility_score.
Definition resource_score (r : NodeResources) : float :=
  let bandwidth_score := F64.div (fmin (F64.of_Z (bandwidth_mbps r)) (F64.of_Z 100)) (F64.of_Z 100) in
  F64.div (F64.add (F64.add (free (cpu_usage_percent r)) (free (memory_usage_percent r)))
             bandwidth_score) (F64.of_Z 3).
Definition battery_score : NodeResources → float := Score.battery_score.

Section with_params.
Context {Pw : Powi} {Lm : Libm} {SS : SliceSort}.
Implicit Types (s : PeerSelector) (b : GeographicBeacon).

Definition proximity_score s b : float :=
  let distance := Position.distance_to (own_position s) (position b) in
  let scale := F64.div (fmax (default (F64.of_Z 10000) (max_distance_meters (selector_config s)))
                          (F64.of_Z 1000)) (F64.of_Z 3) in
  fexp (F64.div (fneg distance) scale).
Definition is_valid_peer s b : bool :=
  if negb (Level.can_be_parent_of (hierarchy_level b) (own_level s)) then false
  else if match max_distance_meters (selector_config s) with
          | Some max_dist => fgt (Position.distance_to (own_position s) (position b)) max_dist
          | None => false
          end then false
  else can_parent b.
Definition score_candidate s b : float :=
  let c := selector_config s in
  let half := F64.dec 5 1 in
  let score := F64.of_Z 0 in
  let score := match mobility b with
               | Some m => F64.add score (F64.mul (mobility_score m) (mobility_weight c))
               | None => F64.add score (F64.mul half (mobility_weight c))
               end in
  let score := match resources b with
               | Some r =>
                   let score := F64.add score (F64.mul (resource_score r) (resource_weight c)) in
                   F64.add score (F64.mul (battery_score r) (battery_weight c))
               | None =>
                   let score := F64.add score (F64.mul half (resource_weight c)) in
                   F64.add score (F64.mul half (battery_weight c))
               end in
  F64.add score (F64.mul (proximity_score s b) (proximity_weight c)).
(** Highest score first; a comparison with a NaN counts as equal. *)
Definition by_score (a b : PeerCandidate) : comparison :=
  default Eq (SFcompare (candidate_score b) (candidate_score a)).
Definition select_peer s (candidates : list GeographicBeacon) : outcome unit (option PeerCandidate) :=
  let scored := (λ b, {| candidate_beacon := b; candidate_score := score_candidate s b |})
                  <$> filter (λ b, is_valid_peer s b = true) candidates in
  match slice_sort by_score scored with
  | Some sorted => Ok (head sorted)
  | None => Panic
  end.

(** The scores of the valid candidates are numbers. *)
Definition scores_ok s (candidates : list GeographicBeacon) : Prop :=
  ∀ b, b ∈ candidates → is_valid_peer s b = true → is_nan (score_candidate s b) = false.

Lemma by_score_preorder l :
  Forall (λ c, is_nan (candidate_score c) = false) l → total_preorder by_score l.
Proof.
  rewrite Forall_forall. intros Hl. unfold by_score. split.
  - intros x y Hx Hy. rewrite (fcompare_opp (candidate_score y) (candidate_score x)).
    by destruct (SFcompare _ _).
  - intros x y z Hx Hy Hz.
    destruct (fcompare_total (candidate_score y) (candidate_score x)) as [c1 E1]; [by apply Hl..|].
    destruct (fcompare_total (candidate_score z) (candidate_score y)) as [c2 E2]; [by apply Hl..|].
    destruct (fcompare_total (candidate_score z) (candidate_score x)) as [c3 E3]; [by apply Hl..|].
    rewrite E1, E2, E3. cbn [default].
    rewrite (fcompare_key _ _ _ E1), (fcompare_key _ _ _ E2), (fcompare_key _ _ _ E3).
    intros. by eapply key_le_trans.
Qed.

Lemma select_peer_spec s candidates :
  scores_ok s candidates →
  ∃ r, select_peer s candidates = Ok r
    ∧ match r with
      | None => ∀ b, b ∈ candidates → is_valid_peer s b = false
      | Some c => candidate_beacon c ∈ candidates ∧ is_valid_peer s (candidate_beacon c) = true
          ∧ candidate_score c = score_candidate s (candidate_beacon c)
          ∧ ∀ b, b ∈ candidates → is_valid_peer s b = true →
              flt (candidate_score c) (score_candidate s b) = false
      end.
Proof.
  intros Hs. unfold select_peer. set (f := λ b, {| candidate_beacon := b; candidate_score := _ |}).
  set (scored := f <$> _).
  assert (∀ c, c ∈ scored ↔ ∃ b, c = f b ∧ is_valid_peer s b = true ∧ b ∈ candidates) as Hin.
  { intros c. unfold scored. rewrite list_elem_of_fmap. by setoid_rewrite list_elem_of_filter. }
  pose proof (slice_sort_head by_score scored) as H.
  destruct (slice_sort by_score scored) as [[|c l]|]; (assert (total_preorder by_score scored) as T;
    [apply by_score_preorder, Forall_forall; intros c' (b & -> & Hv & Hb)%Hin; by apply Hs|]);
    specialize (H T); [| |done].
  - exists None. split; [done|]. intros b Hb. destruct (is_valid_peer s b) eqn:Hv; [|done].
    assert (f b ∈ scored) as Hf by (apply Hin; by exists b). rewrite H in Hf. by apply elem_of_nil in Hf.
  - destruct H as [(b & -> & Hv & Hb)%Hin Hmax]. exists (Some (f b)). split_and!; try done.
    intros b' Hb' Hv'. assert (f b' ∈ scored) as Hf by (apply Hin; by exists b').
    apply Hmax in Hf. unfold by_score in Hf. cbn in Hf |- *. unfold flt, SFltb.
    rewrite fcompare_opp. destruct (SFcompare _ _) as [[]|]; done.
Qed.
(** Whatever the scores, a selected peer is valid. *)
Lemma select_peer_valid s candidates c :
  select_peer s candidates = Ok (Some c) →
  candidate_beacon c ∈ candidates ∧ is_valid_peer s (candidate_beacon c) = true.
Proof.
  unfold select_peer. destruct (slice_sort _ _) as [l|] eqn:E; [|done]. intros [= H].
  apply slice_sort_perm in E. assert (c ∈ l) as Hc by (destruct l; [done|]; cbn in H; simplify_eq; by left).
  rewrite E, list_elem_of_fmap in Hc. destruct Hc as (b & -> & [Hv Hb]%list_elem_of_filter). done.
Qed.
Lemma valid_peer_level s b :
  is_valid_peer s b = true → (Level.rank (own_level s) < Level.rank (hierarchy_level b))%Z ∧ can_parent b = true.
Proof.
  unfold is_valid_peer, Level.can_be_parent_of. destruct (_ <? _)%Z eqn:E; [|done]. cbn [negb].
  apply Z.ltb_lt in E. by case_match.
Qed.
(** A distance that is not a number passes the limit. *)
Lemma nan_distance_is_valid s b :
  Level.can_be_parent_of (hierarchy_level b) (own_level s) = true → can_parent b = true →
  Position.distance_to (own_position s) (position b) = S754_nan → is_valid_peer s b = true.
Proof. intros H1 H2 H3. unfold is_valid_peer. rewrite H1, H2, H3. by destruct (max_distance_meters _) as [[]|]. Qed.
End with_params.
End Selector.
