(* ===== verification/Reconnection.v ===== *)
(** Automatic reconnection ([src/transport/reconnection.rs]): the retry policy with
    its backoff delays in [f64], and the manager of pending reconnections. *)
From Stdlib Require Import ZArith Lia Strings.Byte Strings.String.
From stdpp Require Import prelude gmap.
From S2P Require Import Prelude Wire Float.

Set Default Proof Using "Type".

Record ReconnectionPolicy := {
  enabled : bool;
  initial_delay : Z;
  max_delay : Z;
  backoff_multiplier : float;
  max_retries : option Z;
  jitter : float
}.

Record ReconnectionState := {
  attempts : Z;
  next_attempt : Z;
  last_error : option bytes;
  is_static_peer : bool
}.

Record ReconnectionManager := {
  policy : ReconnectionPolicy;
  pending : gmap bytes ReconnectionState
}.

(** The order in which the pending reconnections are iterated. *)
Class PendingOrder := {
  pending_iter : gmap bytes ReconnectionState → list (bytes * ReconnectionState);
  pending_iter_perm m : pending_iter m ≡ₚ map_to_list m
}.

Module Reconnect.
Section with_params.
Context {Pw : Powi} {PO : PendingOrder}.

(** Policies; the literals 2.0, 0.2, 1.5, 0.1 and 0.3 are the nearest doubles. *)
Definition default_policy : ReconnectionPolicy := {|
  enabled := true; initial_delay := from_secs 1; max_delay := from_secs 60;
  backoff_multiplier := F64.of_Z 2; max_retries := Some 10%Z;
  jitter := F64.div (F64.of_Z 2) (F64.of_Z 10)
|}.
Definition disabled : ReconnectionPolicy := {|
  enabled := false; initial_delay := from_secs 1; max_delay := from_secs 60;
  backoff_multiplier := F64.of_Z 2; max_retries := Some 10%Z;
  jitter := F64.div (F64.of_Z 2) (F64.of_Z 10)
|}.
Definition aggressive : ReconnectionPolicy := {|
  enabled := true; initial_delay := from_millis 100; max_delay := from_secs 10;
  backoff_multiplier := F64.div (F64.of_Z 3) (F64.of_Z 2); max_retries := Some 20%Z;
  jitter := F64.div (F64.of_Z 1) (F64.of_Z 10)
|}.
Definition conservative : ReconnectionPolicy := {|
  enabled := true; initial_delay := from_secs 5; max_delay := from_secs 300;
  backoff_multiplier := F64.of_Z 2; max_retries := Some 5%Z;
  jitter := F64.div (F64.of_Z 3) (F64.of_Z 10)
|}.

Definition pseudo_random (seed : Z) : float :=
  let hash := wrap 32 (seed * 2654435761) in
  F64.div (F64.of_Z hash) (F64.of_Z (umax 32)).

(** [attempt as i32] *)
Definition as_i32 (z : Z) : Z := if (z <? 2 ^ 31)%Z then z else (z - 2 ^ 32)%Z.

Definition calculate_delay (p : ReconnectionPolicy) (attempt : Z) : outcome unit Z :=
  let base_delay := F64.mul (F64.as_secs_f64 (initial_delay p))
    (powi (backoff_multiplier p) (as_i32 attempt)) in
  let capped_delay := fmin base_delay (F64.as_secs_f64 (max_delay p)) in
  let jitter_factor := F64.add (F64.sub (F64.of_Z 1) (jitter p))
    (F64.mul (F64.mul (jitter p) (F64.of_Z 2)) (pseudo_random attempt)) in
  let final_delay := F64.mul capped_delay jitter_factor in
  from_secs_f64 (fmax final_delay (F64.of_Z 0)).

Definition should_retry (p : ReconnectionPolicy) (n : Z) : bool :=
  if negb (enabled p) then false
  else match max_retries p with
       | Some max => bool_decide (n < max)%Z
       | None => true
       end.

Definition new (p : ReconnectionPolicy) : ReconnectionManager := {| policy := p; pending := ∅ |}.
Definition set_pending (m : ReconnectionManager) (l : gmap bytes ReconnectionState) :=
  {| policy := policy m; pending := l |}.

Definition schedule_reconnect (m : ReconnectionManager) (peer : bytes) (is_static : bool)
    (now : Z) : ReconnectionManager :=
  if negb (enabled (policy m)) then m
  else if negb is_static then m
  else match pending m !! peer with
       | Some _ => m
       | None =>
           set_pending m (<[peer := {|
             attempts := 0; next_attempt := now + initial_delay (policy m);
             last_error := None; is_static_peer := is_static |}]> (pending m))
       end.

Definition due_reconnections (m : ReconnectionManager) (now : Z) : list bytes :=
  (filter (λ e, next_attempt e.2 ≤ now)%Z (pending_iter (pending m))).*1.

Definition is_pending (m : ReconnectionManager) (peer : bytes) : bool :=
  bool_decide (is_Some (pending m !! peer)).
Definition reconnected (m : ReconnectionManager) (peer : bytes) : ReconnectionManager :=
  set_pending m (delete peer (pending m)).

Definition failed (p : profile) (m : ReconnectionManager) (peer error : bytes) (now : Z)
    : outcome unit (bool * ReconnectionManager) :=
  match pending m !! peer with
  | Some s =>
      n ← checked p 32 (attempts s + 1);
      if should_retry (policy m) n then
        delay ← calculate_delay (policy m) n;
        Ok (true, set_pending m (<[peer := {|
          attempts := n; next_attempt := now + delay; last_error := Some error;
          is_static_peer := is_static_peer s |}]> (pending m)))
      else
        Ok (false, set_pending m (<[peer := {|
          attempts := n; next_attempt := next_attempt s; last_error := Some error;
          is_static_peer := is_static_peer s |}]> (pending m)))
  | None => Ok (false, m)
  end.

Definition remove (m : ReconnectionManager) (peer : bytes)
    : option ReconnectionState * ReconnectionManager :=
  (pending m !! peer, set_pending m (delete peer (pending m))).
Definition clear (m : ReconnectionManager) : ReconnectionManager := set_pending m ∅.

(** ** The driver of the module's documentation: failing attempts for a due peer *)
Fixpoint fail_all (p : profile) (m : ReconnectionManager) (peer : bytes)
    (tries : list (bytes * Z)) : outcome unit (list bool * ReconnectionManager) :=
  match tries with
  | [] => Ok ([], m)
  | (error, now) :: tries =>
      r ← failed p m peer error now;
      r' ← fail_all p r.2 peer tries;
      Ok (r.1 :: r'.1, r'.2)
  end.

Lemma due_spec m now peer :
  peer ∈ due_reconnections m now ↔ ∃ s, pending m !! peer = Some s ∧ (next_attempt s ≤ now)%Z.
Proof.
  unfold due_reconnections. rewrite list_elem_of_fmap. setoid_rewrite list_elem_of_filter.
  setoid_rewrite pending_iter_perm. split.
  - intros ([k s] & -> & Hn & Hs%elem_of_map_to_list). eauto.
  - intros (s & Hs & Hn). exists (peer, s). by rewrite elem_of_map_to_list.
Qed.

Lemma failed_spec p m peer error now r m' s :
  pending m !! peer = Some s → failed p m peer error now = Ok (r, m') → in_u 32 (attempts s + 1) →
  policy m' = policy m ∧ r = should_retry (policy m) (attempts s + 1)
  ∧ ∃ s', pending m' !! peer = Some s' ∧ attempts s' = (attempts s + 1)%Z
      ∧ (r = false → next_attempt s' = next_attempt s).
Proof.
  intros Hs Hf Hu. unfold failed in Hf. rewrite Hs, checked_in in Hf by done.
  cbn [mbind outcome_bind] in Hf. destruct (should_retry _ _).
  - apply bind_Ok_inv in Hf as (d & _ & [= <- <-]). split_and!; [done|done|].
    eexists. split; [apply lookup_insert_eq|]. by split.
  - injection Hf as <- <-. split_and!; [done|done|].
    eexists. split; [apply lookup_insert_eq|]. by split.
Qed.

Lemma fail_all_spec p m peer tries s rs m' :
  pending m !! peer = Some s → fail_all p m peer tries = Ok (rs, m') →
  (0 ≤ attempts s)%Z → (attempts s + Z.of_nat (length tries) < 2 ^ 32)%Z →
  rs = (λ i, should_retry (policy m) (attempts s + 1 + Z.of_nat i)) <$> seq 0 (length tries)
  ∧ policy m' = policy m
  ∧ ∃ s', pending m' !! peer = Some s'
      ∧ attempts s' = (attempts s + Z.of_nat (length tries))%Z.
Proof.
  revert m s rs m'. induction tries as [|[e t] tries IH]; intros m s rs m' Hs Hf Ha Hb.
  { injection Hf as <- <-. split_and!; [done|done|]. exists s. cbn. split; [done|lia]. }
  cbn [fail_all] in Hf. rewrite length_cons in Hb.
  apply bind_Ok_inv in Hf as ([r m1] & Hf1 & Hf). apply bind_Ok_inv in Hf as ([rs1 m2] & Hf2 & [= <- <-]).
  destruct (failed_spec _ _ _ _ _ _ _ _ Hs Hf1) as (Hp & -> & s1 & Hs1 & Ha1 & _);
    [unfold in_u; lia|].
  destruct (IH m1 s1 rs1 m2 Hs1 Hf2) as (-> & Hp2 & s2 & Hs2 & Ha2); [lia|lia|].
  split_and!.
  - cbn. rewrite Z.add_0_r. f_equal. rewrite <- seq_shift, <- list_fmap_compose, Hp, Ha1.
    apply list_fmap_ext. intros i k _. cbn. f_equal. lia.
  - congruence.
  - exists s2. split; [done|]. rewrite Ha2, Ha1, length_cons. lia.
Qed.

(** Retry limit: for a peer that has not failed yet, the failures numbered below
    [max_retries] announce another retry and no later one does; but a peer whose
    retries are used up is not removed: it stays pending, and at every later time it
    is among the reconnections that are due. *)
Theorem exhausted_peer_stays_due p m peer tries s rs m' max :
  pending m !! peer = Some s → attempts s = 0%Z →
  enabled (policy m) = true → max_retries (policy m) = Some max →
  fail_all p m peer tries = Ok (rs, m') → (Z.of_nat (length tries) < 2 ^ 32)%Z →
  rs = (λ i, bool_decide (Z.of_nat i + 1 < max)%Z) <$> seq 0 (length tries)
  ∧ ∃ s', pending m' !! peer = Some s' ∧ attempts s' = Z.of_nat (length tries)
      ∧ ∀ now, (next_attempt s' ≤ now)%Z → peer ∈ due_reconnections m' now.
Proof.
  intros Hs Ha He Hm Hf Hl.
  destruct (fail_all_spec p m peer tries s rs m' Hs Hf) as (-> & _ & s' & Hs' & Ha'); [lia|lia|].
  split.
  - apply list_fmap_ext. intros i k _. unfold should_retry. rewrite He, Hm. cbn.
    apply bool_decide_ext. rewrite Ha. lia.
  - exists s'. split_and!; [done|by rewrite Ha', Ha|]. intros now Hn. apply due_spec. eauto.
Qed.
End with_params.
End Reconnect.

(** * Witness *)
#[local] Instance toy_powi : Powi := λ _ _, F64.of_Z 1.
#[local] Instance toy_pending_order : PendingOrder := {
  pending_iter m := map_to_list m;
  pending_iter_perm m := reflexivity _
}.
Definition ex_manager : ReconnectionManager :=
  Reconnect.schedule_reconnect (Reconnect.new Reconnect.conservative) (str "peer") true 0.
Definition ex_tries : list (bytes * Z) := (λ i, (str "refused", Z.of_nat i)) <$> seq 0 5.
Definition ex_failed : list bool * ReconnectionManager :=
  match Reconnect.fail_all Debug ex_manager (str "peer") ex_tries with
  | Ok r => r | _ => ([], ex_manager) end.

Lemma exhausted_peer_stays_due_witness :
  ex_failed.1 = [true; true; true; true; false]
  ∧ ∃ s, pending ex_failed.2 !! str "peer" = Some s
      ∧ ∀ now, (next_attempt s ≤ now)%Z → str "peer" ∈ Reconnect.due_reconnections ex_failed.2 now.
Proof.
  destruct (Reconnect.exhausted_peer_stays_due Debug ex_manager (str "peer") ex_tries
    {| attempts := 0; next_attempt := from_secs 5; last_error := None; is_static_peer := true |}
    ex_failed.1 ex_failed.2 5) as (Hr & s & Hs & _ & Hd); [vm_eq|done|done|done|vm_eq|done|].
  split; [rewrite Hr; vm_eq|]. exists s. split; [exact Hs|exact Hd].
Defined.
