(* ===== verification/Partition.v ===== *)
(** Network partitions: the detector that watches the beacons of higher hierarchy
    levels ([src/topology/partition.rs]), the handler that switches a partitioned
    node to autonomous operation ([src/topology/autonomous.rs]), and the heartbeat
    detector of the sync layer ([src/storage/partition_detection.rs]). *)
From Stdlib Require Import ZArith Lia Strings.Byte Strings.String.
From stdpp Require Import prelude gmap.
From S2P Require Import Prelude Wire Float Beacon.

Set Default Proof Using "Type".

(** * Isolation from higher levels *)
Record PartitionConfig := {
  min_detection_attempts : Z;
  initial_backoff : Z;
  max_backoff : Z;
  backoff_multiplier : float;
  min_higher_level_beacons : nat
}.

Inductive PartitionEvent :=
| PartitionDetected (attempts detection_duration : Z)
| PartitionHealed (visible_beacons : nat) (partition_duration : Z).

(** The trait of the handlers; a handler of type [H] is told the time. *)
Class PartitionHandler (H : Type) := {
  on_partition_detected : H → PartitionEvent → Z → H;
  on_partition_healed : H → PartitionEvent → Z → H
}.

Record PartitionDetector (H : Type) := {
  config : PartitionConfig;
  current_level : HierarchyLevel;
  handler : option H;
  partitioned : bool;
  detection_attempts : Z;
  last_detection_attempt : option Z;
  partition_start : option Z
}.
Arguments config {H}. Arguments current_level {H}. Arguments handler {H}.
Arguments partitioned {H}. Arguments detection_attempts {H}.
Arguments last_detection_attempt {H}. Arguments partition_start {H}.

Module Detector.
Section with_handler.
Context {Pw : Powi} {H : Type} `{!PartitionHandler H}.
Implicit Types d : PartitionDetector H.

Definition default_config : PartitionConfig := {|
  min_detection_attempts := 3; initial_backoff := from_secs 2; max_backoff := from_secs 30;
  backoff_multiplier := F64.of_Z 2; min_higher_level_beacons := 1
|}.

Definition as_i32 (z : Z) : Z := if (z <? 2 ^ 31)%Z then z else (z - 2 ^ 32)%Z.
Definition calculate_backoff (c : PartitionConfig) (attempt : Z) : outcome unit Z :=
  let multiplier := powi (backoff_multiplier c) (as_i32 attempt) in
  let backoff_secs := F64.mul (F64.as_secs_f64 (initial_backoff c)) multiplier in
  let max_secs := F64.as_secs_f64 (max_backoff c) in
  from_secs_f64 (fmin backoff_secs max_secs).

Definition new (level : HierarchyLevel) (c : PartitionConfig) : PartitionDetector H := {|
  config := c; current_level := level; handler := None; partitioned := false;
  detection_attempts := 0; last_detection_attempt := None; partition_start := None
|}.
Definition with_handler d (h : H) : PartitionDetector H := {|
  config := config d; current_level := current_level d; handler := Some h;
  partitioned := partitioned d; detection_attempts := detection_attempts d;
  last_detection_attempt := last_detection_attempt d; partition_start := partition_start d
|}.

Definition count_higher_level_beacons d (beacons : gmap bytes GeographicBeacon) : nat :=
  size (filter (λ e, operational e.2 && Level.can_be_parent_of (hierarchy_level e.2)
                       (current_level d) = true) beacons).

Definition should_attempt_detection d (now : Z) : outcome unit bool :=
  match last_detection_attempt d with
  | None => Ok true
  | Some last =>
      backoff ← calculate_backoff (config d) (detection_attempts d);
      Ok (bool_decide (backoff ≤ saturating_sub now last)%Z)
  end.

Definition reset_detection_state d : PartitionDetector H := {|
  config := config d; current_level := current_level d; handler := handler d;
  partitioned := false; detection_attempts := 0; last_detection_attempt := None;
  partition_start := None
|}.

Definition set_handler d (h : option H) : PartitionDetector H := {|
  config := config d; current_level := current_level d; handler := h;
  partitioned := partitioned d; detection_attempts := detection_attempts d;
  last_detection_attempt := last_detection_attempt d; partition_start := partition_start d
|}.

Definition handle_partition_detected d (now : Z) : PartitionDetector H * option PartitionEvent :=
  if partitioned d then (d, None)
  else
    let start := default now (last_detection_attempt d) in
    let event := PartitionDetected (detection_attempts d) (saturating_sub now start) in
    ({| config := config d; current_level := current_level d;
        handler := (λ h, on_partition_detected h event now) <$> handler d;
        partitioned := true; detection_attempts := detection_attempts d;
        last_detection_attempt := last_detection_attempt d; partition_start := Some start |},
     Some event).

Definition handle_partition_healed d (visible : nat) (now : Z)
    : PartitionDetector H * option PartitionEvent :=
  if negb (partitioned d) then (d, None)
  else
    let duration := match partition_start d with
                    | Some start => saturating_sub now start
                    | None => 0%Z
                    end in
    let event := PartitionHealed visible duration in
    (set_handler (reset_detection_state d)
       ((λ h, on_partition_healed h event now) <$> handler d), Some event).

Definition has_connectivity d (beacons : gmap bytes GeographicBeacon) : bool :=
  bool_decide (min_higher_level_beacons (config d) ≤ count_higher_level_beacons d beacons).

Definition check_partition (p : profile) d (beacons : gmap bytes GeographicBeacon) (now : Z)
    : outcome unit (PartitionDetector H * option PartitionEvent) :=
  if has_connectivity d beacons then
    if partitioned d then
      Ok (handle_partition_healed d (count_higher_level_beacons d beacons) now)
    else Ok (reset_detection_state d, None)
  else
    attempt ← should_attempt_detection d now;
    if negb attempt then Ok (d, None)
    else
      n ← checked p 32 (detection_attempts d + 1);
      let d := {| config := config d; current_level := current_level d; handler := handler d;
                  partitioned := partitioned d; detection_attempts := n;
                  last_detection_attempt := Some now; partition_start := partition_start d |} in
      if decide (min_detection_attempts (config d) ≤ n)%Z then
        Ok (handle_partition_detected d now)
      else Ok (d, None).
End with_handler.
End Detector.

(** * Autonomous operation *)
Inductive AutonomousState :=
| Normal
| Autonomous (entered_at detection_attempts : Z).

Module AutonomousHandler.
Definition is_autonomous (s : AutonomousState) : bool :=
  match s with Autonomous _ _ => true | Normal => false end.
Definition enter_autonomous_mode (s : AutonomousState) (attempts now : Z) : AutonomousState :=
  match s with Autonomous _ _ => s | Normal => Autonomous now attempts end.
Definition exit_autonomous_mode (s : AutonomousState) : AutonomousState :=
  match s with Normal => s | Autonomous _ _ => Normal end.
End AutonomousHandler.

Global Instance autonomous_partition_handler : PartitionHandler AutonomousState := {|
  on_partition_detected s e now :=
    match e with
    | PartitionDetected attempts _ => AutonomousHandler.enter_autonomous_mode s attempts now
    | PartitionHealed _ _ => s
    end;
  on_partition_healed s e now :=
    match e with
    | PartitionHealed _ _ => AutonomousHandler.exit_autonomous_mode s
    | PartitionDetected _ _ => s
    end
|}.

(** * Runs of the detector *)
Section Runs.
Context {Pw : Powi}.
Abbreviation detector := (PartitionDetector AutonomousState).
Implicit Types d : detector.

(** A sequence of checks: what each of them sees, and when. *)
Fixpoint checks (p : profile) d (obs : list (gmap bytes GeographicBeacon * Z))
    : outcome unit (detector * list (option PartitionEvent)) :=
  match obs with
  | [] => Ok (d, [])
  | (beacons, now) :: obs =>
      r ← Detector.check_partition p d beacons now;
      r' ← checks p r.1 obs;
      Ok (r'.1, r.2 :: r'.2)
  end.

(** A detector with an autonomous-operation handler, as the documentation builds it. *)
Definition fresh (level : HierarchyLevel) (c : PartitionConfig) : detector :=
  Detector.with_handler (Detector.new level c) Normal.

Definition isolated_obs (level : HierarchyLevel) (c : PartitionConfig)
    (o : gmap bytes GeographicBeacon * Z) : bool :=
  negb (Detector.has_connectivity (fresh level c) o.1).
(** The number of checks at the end of the sequence that saw no connectivity. *)
Fixpoint trailing (level : HierarchyLevel) (c : PartitionConfig)
    (rev_obs : list (gmap bytes GeographicBeacon * Z)) : nat :=
  match rev_obs with
  | [] => 0
  | o :: l => if isolated_obs level c o then S (trailing level c l) else 0
  end.

Definition is_detected (e : option PartitionEvent) : bool :=
  match e with Some (PartitionDetected _ _) => true | _ => false end.
Definition is_healed (e : option PartitionEvent) : bool :=
  match e with Some (PartitionHealed _ _) => true | _ => false end.
Definition count (f : option PartitionEvent → bool) (l : list (option PartitionEvent)) : nat :=
  length (filter (λ e, f e = true) l).

(** The state of a detector after the observations [obs] (latest first). *)
Record detector_ok (level : HierarchyLevel) (c : PartitionConfig)
    (rev_obs : list (gmap bytes GeographicBeacon * Z)) d : Prop := {
  dok_config : config d = c;
  dok_level : current_level d = level;
  dok_handler : ∃ s, handler d = Some s ∧ AutonomousHandler.is_autonomous s = partitioned d;
  dok_start : is_Some (partition_start d) ↔ partitioned d = true;
  dok_attempts : (0 ≤ detection_attempts d ≤ Z.of_nat (trailing level c rev_obs))%Z;
  dok_min : partitioned d = true → (min_detection_attempts c ≤ detection_attempts d)%Z
}.

Lemma connectivity_same level c rev_obs d beacons now :
  detector_ok level c rev_obs d →
  Detector.has_connectivity d beacons = negb (isolated_obs level c (beacons, now)).
Proof.
  intros Hok. unfold isolated_obs. rewrite negb_involutive. cbn [fst].
  unfold Detector.has_connectivity, Detector.count_higher_level_beacons.
  by rewrite (dok_config _ _ _ _ Hok), (dok_level _ _ _ _ Hok).
Qed.

Lemma trailing_le level c l : trailing level c l ≤ length l.
Proof. induction l as [|o l IH]; cbn; [lia|]. case_match; lia. Qed.

(** What one check did, given the invariant before it. *)
Record check_ok (level : HierarchyLevel) (c : PartitionConfig)
    (rev_obs : list (gmap bytes GeographicBeacon * Z)) d d' (e : option PartitionEvent) : Prop := {
  cok_inv : detector_ok level c rev_obs d';
  cok_detected : is_detected e = negb (partitioned d) && partitioned d';
  cok_healed : is_healed e = partitioned d && negb (partitioned d');
  cok_attempts a dur : e = Some (PartitionDetected a dur) →
    (min_detection_attempts c ≤ a ≤ Z.of_nat (trailing level c rev_obs))%Z
}.

Ltac dok Htr :=
  split; cbn [config current_level handler partitioned partition_start detection_attempts
              Detector.set_handler Detector.reset_detection_state fmap option_fmap option_map];
  rewrite ?Htr; eauto; try lia.

Lemma check_isolated_ok p level c rev_obs d beacons now d' e :
  (Z.of_nat (length rev_obs) < 2 ^ 32 - 1)%Z → detector_ok level c rev_obs d →
  isolated_obs level c (beacons, now) = true →
  Detector.check_partition p d beacons now = Ok (d', e) →
  check_ok level c ((beacons, now) :: rev_obs) d d' e.
Proof.
  intros Hlen Hok Hi Hc. unfold Detector.check_partition in Hc.
  rewrite (connectivity_same level c rev_obs d beacons now Hok), Hi in Hc.
  pose proof (trailing_le level c rev_obs) as Htl.
  assert (trailing level c ((beacons, now) :: rev_obs) = S (trailing level c rev_obs)) as Htr.
  { cbn. by rewrite Hi. }
  destruct Hok as [Hcfg Hlev (s & Hh & Hs) Hst Hatt Hmin].
  cbn [negb] in Hc. apply bind_Ok_inv in Hc as ([|] & _ & Hc); cbn [negb] in Hc.
  - rewrite checked_in in Hc by (unfold in_u; lia). cbn [mbind outcome_bind] in Hc. cbv zeta in Hc.
    cbn [config] in Hc. rewrite Hcfg in Hc. unfold Detector.handle_partition_detected in Hc.
    cbn [partitioned handler detection_attempts] in Hc. rewrite Hh in Hc.
    case_decide as Hn; [destruct (partitioned d) eqn:Hp|]; injection Hc as <- <-.
    + split; [dok Htr|by cbn; rewrite Hp..|done].
    + split; [dok Htr|by cbn; rewrite Hp..|].
      * destruct s; [by eexists|done].
      * done.
      * intros a dur [= <- <-]. rewrite Htr. lia.
    + split; [dok Htr|by cbn; destruct (partitioned d)..|done].
      intros Hp. specialize (Hmin Hp). lia.
  - injection Hc as <- <-. split; [dok Htr|by destruct (partitioned d)..|done].
Qed.

Lemma check_connected_ok p level c rev_obs d beacons now d' e :
  detector_ok level c rev_obs d → isolated_obs level c (beacons, now) = false →
  Detector.check_partition p d beacons now = Ok (d', e) →
  check_ok level c ((beacons, now) :: rev_obs) d d' e ∧ partitioned d' = false.
Proof.
  intros Hok Hi Hc. unfold Detector.check_partition in Hc.
  rewrite (connectivity_same level c rev_obs d beacons now Hok), Hi in Hc. cbn [negb] in Hc.
  assert (trailing level c ((beacons, now) :: rev_obs) = 0) as Htr by (cbn; by rewrite Hi).
  destruct Hok as [Hcfg Hlev (s & Hh & Hs) Hst Hatt Hmin].
  unfold Detector.handle_partition_healed in Hc.
  destruct (partitioned d) eqn:Hp; cbn [negb] in Hc; injection Hc as <- <-.
  - split; [|done]. split; [dok Htr|by rewrite Hp..|done].
    + rewrite Hh. destruct s; [done|]. by eexists.
    + by split; [intros []|].
  - split; [|done]. split; [dok Htr|by rewrite Hp..|done].
    by split; [intros []|].
Qed.

Lemma checks_ok p level c obs : ∀ rev_obs d d' es,
  (Z.of_nat (length rev_obs + length obs) < 2 ^ 32)%Z → detector_ok level c rev_obs d →
  checks p d obs = Ok (d', es) →
  detector_ok level c (reverse obs ++ rev_obs) d'
  ∧ (count is_detected es + (if partitioned d then 1 else 0)
     = count is_healed es + (if partitioned d' then 1 else 0))
  ∧ ∀ i a dur, es !! i = Some (Some (PartitionDetected a dur)) →
      (min_detection_attempts c ≤ a
       ≤ Z.of_nat (trailing level c (reverse (take (S i) obs) ++ rev_obs)))%Z.
Proof.
  induction obs as [|[beacons now] obs IH]; intros rev_obs d d' es Hlen Hok Hc.
  { injection Hc as <- <-. split_and!; [done|done|done]. }
  cbn [checks] in Hc. apply bind_Ok_inv in Hc as ([d1 e] & Hc1 & Hc).
  apply bind_Ok_inv in Hc as ([d2 es2] & Hc2 & [= <- <-]). rewrite length_cons in Hlen.
  assert (check_ok level c ((beacons, now) :: rev_obs) d d1 e) as [Hok1 Hdet Hheal Hatt].
  { destruct (isolated_obs level c (beacons, now)) eqn:Hi.
    - by eapply check_isolated_ok; [lia|..].
    - by eapply check_connected_ok. }
  destruct (IH ((beacons, now) :: rev_obs) d1 d2 es2) as (Hok2 & Hcount & Hes);
    [cbn in *; lia|done|done|].
  split_and!.
  - by rewrite reverse_cons, <- (assoc_L (++)).
  - unfold count in *. rewrite !filter_cons, Hdet, Hheal.
    destruct (partitioned d), (partitioned d1); cbn [negb andb] in *;
      repeat case_decide; try done; rewrite ?length_cons; lia.
  - intros [|i] a dur Hi; cbn in Hi; [injection Hi as ->; by eapply Hatt|].
    specialize (Hes i a dur Hi). cbn [take]. by rewrite reverse_cons, <- (assoc_L (++)).
Qed.

Lemma fresh_ok level c : detector_ok level c [] (fresh level c).
Proof. split; cbn; eauto; done. Qed.

(** C24.  Partition handling: after any sequence of checks the node operates
    autonomously exactly when the detector is in the partitioned state, detections
    and healings alternate, and a detection is only reported at a check that ends a
    series of at least [min_detection_attempts] consecutive checks without a
    sufficient number of operational beacons of a higher level. *)
Theorem autonomous_iff_partitioned p level c obs d es :
  checks p (fresh level c) obs = Ok (d, es) → (Z.of_nat (length obs) < 2 ^ 32)%Z →
  (∃ s, handler d = Some s ∧ AutonomousHandler.is_autonomous s = partitioned d)
  ∧ count is_detected es = count is_healed es + (if partitioned d then 1 else 0)
  ∧ ∀ i a dur, es !! i = Some (Some (PartitionDetected a dur)) →
      (min_detection_attempts c ≤ a ≤ Z.of_nat (trailing level c (reverse (take (S i) obs))))%Z.
Proof.
  intros Hc Hl. destruct (checks_ok p level c obs [] (fresh level c) d es) as (Hok & Hcount & Hes);
    [done|apply fresh_ok|done|].
  split_and!; [apply Hok|cbn in Hcount; lia|].
  intros i a dur Hi. specialize (Hes i a dur Hi). by rewrite app_nil_r in Hes.
Qed.

(** ** Detection happens *)

(** Consecutive checks lie at least [gap] apart, the first at least [gap] after
    the last attempt. *)
Fixpoint paced (gap : Z) (last : option Z) (times : list Z) : Prop :=
  match times with
  | [] => True
  | now :: times =>
      match last with Some l => (l + gap ≤ now)%Z | None => True end ∧ paced gap (Some now) times
  end.

Lemma check_attempts p d beacons now gap :
  Detector.has_connectivity d beacons = false → partitioned d = false →
  (∀ a, ∃ b, Detector.calculate_backoff (config d) a = Ok b ∧ (b ≤ gap)%Z) → (0 ≤ gap)%Z →
  match last_detection_attempt d with Some l => (l + gap ≤ now)%Z | None => True end →
  in_u 32 (detection_attempts d + 1) →
  ∃ d' e, Detector.check_partition p d beacons now = Ok (d', e)
    ∧ config d' = config d ∧ current_level d' = current_level d
    ∧ detection_attempts d' = (detection_attempts d + 1)%Z
    ∧ last_detection_attempt d' = Some now
    ∧ partitioned d' = bool_decide (min_detection_attempts (config d) ≤ detection_attempts d + 1)%Z
    ∧ is_detected e = partitioned d'.
Proof.
  intros Hc Hp Hb Hg Hl Hu. unfold Detector.check_partition. rewrite Hc.
  assert (Detector.should_attempt_detection d now = Ok true) as ->.
  { unfold Detector.should_attempt_detection. destruct (last_detection_attempt d) as [l|]; [|done].
    destruct (Hb (detection_attempts d)) as (b & -> & Hle). cbn [mbind outcome_bind]. f_equal.
    apply bool_decide_eq_true. unfold saturating_sub. lia. }
  cbn [mbind outcome_bind negb]. rewrite checked_in by done. cbn [mbind outcome_bind].
  cbv zeta. cbn [config]. case_decide as Hn.
  - unfold Detector.handle_partition_detected. cbn [partitioned]. rewrite Hp.
    eexists _, _. split; [done|]. by rewrite bool_decide_eq_true_2.
  - eexists _, _. split; [done|]. cbn. rewrite Hp. by rewrite bool_decide_eq_false_2.
Qed.

Lemma isolation_loop p gap obs : ∀ d,
  partitioned d = false →
  (∀ a, ∃ b, Detector.calculate_backoff (config d) a = Ok b ∧ (b ≤ gap)%Z) → (0 ≤ gap)%Z →
  (0 ≤ detection_attempts d)%Z → in_u 32 (min_detection_attempts (config d)) →
  (0 < length obs) →
  (detection_attempts d + Z.of_nat (length obs) = min_detection_attempts (config d))%Z →
  Forall (λ o, Detector.has_connectivity d o.1 = false) obs →
  paced gap (last_detection_attempt d) (obs.*2) →
  ∃ d' es e, checks p d obs = Ok (d', es ++ [e]) ∧ is_detected e = true ∧ partitioned d' = true.
Proof.
  induction obs as [|[beacons now] obs IH]; intros d Hp Hb Hg Ha Hu Hpos Hlen Hiso Hpace;
    [cbn in Hpos; lia|].
  apply Forall_cons in Hiso as [Hc Hiso]. cbn in Hpace. destruct Hpace as [Hl Hpace].
  rewrite length_cons in Hlen. cbn in Hc.
  destruct (check_attempts p d beacons now gap) as (d1 & e & Hrun & Hcfg & Hlev & Ha1 & Hl1 & Hp1 & He);
    [done..|unfold in_u in *; lia|].
  cbn [checks]. rewrite Hrun. cbn [mbind outcome_bind fst snd].
  destruct obs as [|o obs].
  - cbn in Hlen |- *. exists d1, [], e. rewrite bool_decide_eq_true_2 in Hp1 by lia.
    split_and!; [done|congruence|done].
  - rewrite bool_decide_eq_false_2 in Hp1 by (cbn in Hlen; lia).
    destruct (IH d1) as (d' & es & e' & -> & He' & Hp'); rewrite ?Hcfg, ?Ha1, ?Hl1; auto;
      try (cbn in Hlen |- *; lia).
    + eapply Forall_impl; [exact Hiso|]. intros [b t] Hbt. cbn in *.
      unfold Detector.has_connectivity, Detector.count_higher_level_beacons in *.
      by rewrite Hcfg, Hlev.
    + cbn [mbind outcome_bind fst snd]. exists d', (e :: es), e'. by split_and!.
Qed.

(** Liveness of partition detection: when no check sees enough higher-level
    beacons and the checks lie at least one backoff apart, the check number
    [min_detection_attempts] reports the partition and the node is then in
    autonomous operation. *)
Theorem isolation_is_detected p level c gap obs :
  (∀ a, ∃ b, Detector.calculate_backoff c a = Ok b ∧ (b ≤ gap)%Z) → (0 ≤ gap)%Z →
  in_u 32 (min_detection_attempts c) → (0 < min_detection_attempts c)%Z →
  Z.of_nat (length obs) = min_detection_attempts c →
  Forall (λ o, isolated_obs level c o = true) obs → paced gap None (obs.*2) →
  ∃ d es e s, checks p (fresh level c) obs = Ok (d, es ++ [e]) ∧ is_detected e = true
    ∧ handler d = Some s ∧ AutonomousHandler.is_autonomous s = true.
Proof.
  intros Hb Hg Hu Hpos Hlen Hiso Hpace.
  destruct (isolation_loop p gap obs (fresh level c)) as (d & es & e & Hrun & He & Hp);
    [done|done|done|done|done|lia|cbn; lia| |done|].
  { eapply Forall_impl; [exact Hiso|]. intros o Ho. cbn. unfold isolated_obs in Ho.
    by apply negb_true_iff in Ho. }
  destruct (checks_ok p level c obs [] (fresh level c) d (es ++ [e])) as (Hok & _);
    [cbn; unfold in_u in Hu; lia|apply fresh_ok|done|].
  destruct (dok_handler _ _ _ _ Hok) as (s & Hs & Ha). exists d, es, e, s.
  split_and!; [done|done|done|congruence].
Qed.
End Runs.

(** * Heartbeats of the sync peers *)
Inductive PeerPartitionState := Connected | Partitioned | Recovering.
Global Instance PeerPartitionState_eq_dec : EqDecision PeerPartitionState.
Proof. solve_decision. Defined.

Inductive HeartbeatEvent :=
| HbPartitionDetected (peer : bytes) (consecutive_failures : Z)
| HbPartitionHealed (peer : bytes) (partition_duration : Z)
| HbPeerRecovered (peer : bytes)
| HbSuccess (peer : bytes)
| HbFailure (peer : bytes) (consecutive_failures : Z).

Record PeerHeartbeat := {
  hb_state : PeerPartitionState;
  last_heartbeat : Z;
  partition_detected_at : option Z;
  consecutive_failures : Z
}.
Record HeartbeatConfig := {
  heartbeat_interval : Z;
  heartbeat_timeout : Z;
  failure_threshold : Z
}.
Record HeartbeatDetector := {
  heartbeats : gmap bytes PeerHeartbeat;
  hb_config : HeartbeatConfig
}.

Module Heartbeat.
Definition default_config : HeartbeatConfig := {|
  heartbeat_interval := from_secs 5; heartbeat_timeout := from_secs 5 * 3; failure_threshold := 3
|}.
Definition new (now : Z) : PeerHeartbeat := {|
  hb_state := Connected; last_heartbeat := now; partition_detected_at := None;
  consecutive_failures := 0
|}.

(** [duration_since] of the system clock is an error when the clock went back. *)
Definition duration_since (now t : Z) : option Z :=
  if decide (t ≤ now)%Z then Some (now - t)%Z else None.

Definition record_success (hb : PeerHeartbeat) (peer : bytes) (now : Z)
    : PeerHeartbeat * option HeartbeatEvent :=
  match hb_state hb with
  | Partitioned =>
      let duration := default 0%Z (t ← partition_detected_at hb; duration_since now t) in
      ({| hb_state := Recovering; last_heartbeat := now; partition_detected_at := None;
          consecutive_failures := 0 |}, Some (HbPartitionHealed peer duration))
  | Recovering =>
      ({| hb_state := Connected; last_heartbeat := now;
          partition_detected_at := partition_detected_at hb; consecutive_failures := 0 |},
       Some (HbPeerRecovered peer))
  | Connected =>
      ({| hb_state := Connected; last_heartbeat := now;
          partition_detected_at := partition_detected_at hb; consecutive_failures := 0 |},
       Some (HbSuccess peer))
  end.

Definition record_failure (p : profile) (hb : PeerHeartbeat) (peer : bytes) (threshold now : Z)
    : outcome unit (PeerHeartbeat * option HeartbeatEvent) :=
  n ← checked p 64 (consecutive_failures hb + 1);
  if decide ((threshold ≤ n)%Z ∧ hb_state hb ≠ Partitioned) then
    Ok ({| hb_state := Partitioned; last_heartbeat := last_heartbeat hb;
           partition_detected_at := Some now; consecutive_failures := n |},
        Some (HbPartitionDetected peer n))
  else
    let hb' := {| hb_state := hb_state hb; last_heartbeat := last_heartbeat hb;
                  partition_detected_at := partition_detected_at hb;
                  consecutive_failures := n |} in
    if decide (hb_state hb = Connected) then Ok (hb', Some (HbFailure peer n))
    else Ok (hb', None).

Definition is_timeout (hb : PeerHeartbeat) (timeout now : Z) : bool :=
  match duration_since now (last_heartbeat hb) with
  | Some elapsed => bool_decide (elapsed > timeout)%Z
  | None => false
  end.
Definition partition_duration (hb : PeerHeartbeat) (now : Z) : option Z :=
  t ← partition_detected_at hb; duration_since now t.

(** ** The detector over all peers *)
Definition set_heartbeats (d : HeartbeatDetector) (m : gmap bytes PeerHeartbeat) :=
  {| heartbeats := m; hb_config := hb_config d |}.

Definition register_peer (d : HeartbeatDetector) (peer : bytes) (now : Z) : HeartbeatDetector :=
  match heartbeats d !! peer with
  | Some _ => d
  | None => set_heartbeats d (<[peer := new now]> (heartbeats d))
  end.
Definition unregister_peer (d : HeartbeatDetector) (peer : bytes) : HeartbeatDetector :=
  set_heartbeats d (delete peer (heartbeats d)).

Definition record_heartbeat_success (d : HeartbeatDetector) (peer : bytes) (now : Z)
    : HeartbeatDetector * option HeartbeatEvent :=
  match heartbeats d !! peer with
  | Some hb =>
      let '(hb, e) := record_success hb peer now in
      (set_heartbeats d (<[peer := hb]> (heartbeats d)), e)
  | None => (d, None)
  end.
Definition record_heartbeat_failure (p : profile) (d : HeartbeatDetector) (peer : bytes) (now : Z)
    : outcome unit (HeartbeatDetector * option HeartbeatEvent) :=
  match heartbeats d !! peer with
  | Some hb =>
      r ← record_failure p hb peer (failure_threshold (hb_config d)) now;
      Ok (set_heartbeats d (<[peer := r.1]> (heartbeats d)), r.2)
  | None => Ok (d, None)
  end.

(** One entry of the loop of [check_timeouts]. *)
Definition timed_out (d : HeartbeatDetector) (now : Z) (hb : PeerHeartbeat) : bool :=
  negb (bool_decide (hb_state hb = Partitioned))
  && is_timeout hb (heartbeat_timeout (hb_config d)) now.
Definition mark_timeout (d : HeartbeatDetector) (now : Z) (hb : PeerHeartbeat) : PeerHeartbeat :=
  if timed_out d now hb then
    {| hb_state := Partitioned; last_heartbeat := last_heartbeat hb;
       partition_detected_at := Some now; consecutive_failures := consecutive_failures hb |}
  else hb.
(** [order] is the map's content in its iteration order. *)
Definition check_timeouts (d : HeartbeatDetector) (order : list (bytes * PeerHeartbeat)) (now : Z)
    : HeartbeatDetector * list HeartbeatEvent :=
  (set_heartbeats d (mark_timeout d now <$> heartbeats d),
   (λ e, HbPartitionDetected e.1 (consecutive_failures e.2))
     <$> filter (λ e, timed_out d now e.2 = true) order).

Definition get_partitioned_peers (order : list (bytes * PeerHeartbeat)) : list bytes :=
  (filter (λ e, hb_state e.2 = Partitioned) order).*1.

(** ** The life of one peer *)
Inductive hb_op := Success (now : Z) | Failure (now : Z) | CheckTimeouts (now : Z).

(** The state of the peer and the number of partitions detected and healed. *)
Definition hb_apply (p : profile) (peer : bytes) (d : HeartbeatDetector) (o : hb_op)
    : outcome unit (HeartbeatDetector * list HeartbeatEvent) :=
  match o with
  | Success now => let '(d, e) := record_heartbeat_success d peer now in Ok (d, option_list e)
  | Failure now =>
      r ← record_heartbeat_failure p d peer now;
      Ok (r.1, option_list r.2)
  | CheckTimeouts now => Ok (check_timeouts d (map_to_list (heartbeats d)) now)
  end.
Fixpoint hb_run (p : profile) (peer : bytes) (d : HeartbeatDetector) (ops : list hb_op)
    : outcome unit (HeartbeatDetector * list HeartbeatEvent) :=
  match ops with
  | [] => Ok (d, [])
  | o :: ops =>
      r ← hb_apply p peer d o;
      r' ← hb_run p peer r.1 ops;
      Ok (r'.1, r.2 ++ r'.2)
  end.

Definition opens (peer : bytes) (e : HeartbeatEvent) : Z :=
  match e with
  | HbPartitionDetected q _ => if decide (q = peer) then 1 else 0
  | HbPartitionHealed q _ => if decide (q = peer) then -1 else 0
  | _ => 0
  end.
Definition balance (peer : bytes) (l : list HeartbeatEvent) : Z := foldr Z.add 0%Z (opens peer <$> l).
Definition level (hb : PeerHeartbeat) : Z := if decide (hb_state hb = Partitioned) then 1 else 0.

Definition hb_ok (hb : PeerHeartbeat) : Prop :=
  (is_Some (partition_detected_at hb) ↔ hb_state hb = Partitioned)
  ∧ (0 ≤ consecutive_failures hb)%Z.

Lemma balance_app peer l1 l2 : balance peer (l1 ++ l2) = (balance peer l1 + balance peer l2)%Z.
Proof.
  unfold balance. rewrite fmap_app, foldr_app.
  induction (opens peer <$> l1) as [|x l IH]; cbn; [done|]. rewrite IH. lia.
Qed.

Lemma record_success_ok hb peer now hb' e :
  record_success hb peer now = (hb', e) → hb_ok hb →
  hb_ok hb' ∧ balance peer (option_list e) = (level hb' - level hb)%Z
  ∧ hb_state hb' ≠ Partitioned ∧ consecutive_failures hb' = 0%Z
  ∧ (hb_state hb ≠ Partitioned → hb_state hb' = Connected).
Proof.
  unfold record_success, hb_ok, level, balance. intros Hr [Hok Hf].
  destruct (hb_state hb) eqn:Hs; injection Hr as <- <-; cbn;
    rewrite ?decide_True by done; (split_and!; try done); try naive_solver;
    by split; [intros []|].
Qed.

Lemma record_failure_ok p hb peer threshold now hb' e :
  record_failure p hb peer threshold now = Ok (hb', e) → hb_ok hb →
  in_u 64 (consecutive_failures hb + 1) →
  hb_ok hb' ∧ balance peer (option_list e) = (level hb' - level hb)%Z
  ∧ consecutive_failures hb' = (consecutive_failures hb + 1)%Z
  ∧ ((threshold ≤ consecutive_failures hb + 1)%Z → hb_state hb' = Partitioned).
Proof.
  unfold record_failure, hb_ok, level, balance. intros Hr [Hok Hf] Hu.
  rewrite checked_in in Hr by done. cbn [mbind outcome_bind] in Hr.
  destruct (hb_state hb) eqn:Hs; repeat case_decide; cbn in Hr; injection Hr as <- <-; cbn;
    rewrite ?Hs; repeat case_decide; (split_and!; try done; try lia); try naive_solver.
Qed.

Lemma timeout_events_balance d now l peer :
  NoDup l.*1 →
  balance peer ((λ e, HbPartitionDetected e.1 (consecutive_failures e.2))
                  <$> filter (λ e, timed_out d now e.2 = true) l)
  = match (list_to_map l : gmap bytes PeerHeartbeat) !! peer with
    | Some hb => if timed_out d now hb then 1%Z else 0%Z
    | None => 0%Z
    end.
Proof.
  induction l as [|[q hb] l IH]; [done|]. cbn [fmap list_fmap]. intros [Hq Hnd]%NoDup_cons.
  specialize (IH Hnd). cbn [list_to_map foldr fst snd]. rewrite filter_cons. cbn [snd].
  assert (q ∉ l.*1) as Hnot by done. apply not_elem_of_list_to_map in Hnot.
  destruct (decide (q = peer)) as [->|Hne].
  - rewrite lookup_insert_eq. rewrite Hnot in IH. case_decide as Ht.
    + rewrite Ht. unfold balance in *. cbn. rewrite decide_True by done. cbn in IH. lia.
    + apply not_true_is_false in Ht. by rewrite Ht.
  - rewrite lookup_insert_ne by done. case_decide; [|done].
    unfold balance in *. cbn. by rewrite decide_False.
Qed.

Lemma hb_apply_ok p peer d o d' es hb :
  hb_apply p peer d o = Ok (d', es) → heartbeats d !! peer = Some hb → hb_ok hb →
  in_u 64 (consecutive_failures hb + 1) →
  ∃ hb', heartbeats d' !! peer = Some hb' ∧ hb_ok hb' ∧ hb_config d' = hb_config d
    ∧ balance peer es = (level hb' - level hb)%Z
    ∧ (consecutive_failures hb' ≤ consecutive_failures hb + 1)%Z
    ∧ match o with
      | Success _ => hb_state hb' ≠ Partitioned ∧ consecutive_failures hb' = 0%Z
          ∧ (hb_state hb ≠ Partitioned → hb_state hb' = Connected)
      | Failure _ => consecutive_failures hb' = (consecutive_failures hb + 1)%Z
          ∧ ((failure_threshold (hb_config d) ≤ consecutive_failures hb')%Z →
             hb_state hb' = Partitioned)
      | CheckTimeouts now => hb_state hb' ≠ Partitioned →
          is_timeout hb' (heartbeat_timeout (hb_config d)) now = false
      end.
Proof.
  intros Ha Hl Hok Hu. pose proof (proj2 Hok) as Hnn. destruct o as [now|now|now]; cbn in Ha.
  - unfold record_heartbeat_success in Ha. rewrite Hl in Ha.
    destruct (record_success hb peer now) as [hb' e] eqn:Hr. injection Ha as <- <-.
    destruct (record_success_ok _ _ _ _ _ Hr Hok) as (Hok' & Hb & Hs & Hf & Hc).
    exists hb'. split_and!; [apply lookup_insert_eq|done|done|done|lia|done|done|done].
  - apply bind_Ok_inv in Ha as ([d1 e] & Hr & [= <- <-]).
    unfold record_heartbeat_failure in Hr. rewrite Hl in Hr.
    apply bind_Ok_inv in Hr as ([hb' e'] & Hr & [= <- <-]).
    destruct (record_failure_ok _ _ _ _ _ _ _ Hr Hok Hu) as (Hok' & Hb & Hf & Ht).
    exists hb'. split_and!; [apply lookup_insert_eq|done|done|done|lia|done|].
    rewrite Hf. done.
  - injection Ha as <- <-. exists (mark_timeout d now hb).
    rewrite timeout_events_balance by apply NoDup_fst_map_to_list.
    rewrite list_to_map_to_list, Hl. cbn [heartbeats set_heartbeats].
    rewrite lookup_fmap, Hl. cbn [fmap option_fmap option_map]. unfold mark_timeout, level.
    destruct (timed_out d now hb) eqn:Ht; cbn.
    + apply andb_true_iff in Ht as [Ht%negb_true_iff%bool_decide_eq_false _].
      rewrite (decide_False (P := hb_state hb = Partitioned)) by done.
      split_and!; [done|by split|done|done|lia|done].
    + split_and!; try done; try lia. intros Hs. unfold timed_out in Ht.
      rewrite bool_decide_eq_false_2 in Ht by done. done.
Qed.

Lemma hb_run_app p peer d ops1 ops2 :
  hb_run p peer d (ops1 ++ ops2) =
  (r ← hb_run p peer d ops1; r' ← hb_run p peer r.1 ops2; Ok (r'.1, r.2 ++ r'.2)).
Proof.
  revert d. induction ops1 as [|o ops1 IH]; intros d; cbn [app hb_run].
  - cbn. destruct (hb_run p peer d ops2) as [[]| |]; done.
  - destruct (hb_apply p peer d o) as [[d1 e1]| |]; [|done..]. cbn [mbind outcome_bind fst snd].
    rewrite IH. destruct (hb_run p peer d1 ops1) as [[d2 e2]| |]; [|done..].
    cbn [mbind outcome_bind fst snd].
    destruct (hb_run p peer d2 ops2) as [[d3 e3]| |]; [|done..]. cbn. by rewrite (assoc_L (++)).
Qed.

Lemma hb_run_ok p peer ops : ∀ d d' es hb,
  hb_run p peer d ops = Ok (d', es) → heartbeats d !! peer = Some hb → hb_ok hb →
  (consecutive_failures hb + Z.of_nat (length ops) < 2 ^ 64)%Z →
  ∃ hb', heartbeats d' !! peer = Some hb' ∧ hb_ok hb' ∧ hb_config d' = hb_config d
    ∧ balance peer es = (level hb' - level hb)%Z
    ∧ (consecutive_failures hb' ≤ consecutive_failures hb + Z.of_nat (length ops))%Z
    ∧ (∀ times, ops = Failure <$> times →
         consecutive_failures hb' = (consecutive_failures hb + Z.of_nat (length ops))%Z
         ∧ (ops ≠ [] → (failure_threshold (hb_config d) ≤ consecutive_failures hb')%Z →
            hb_state hb' = Partitioned)).
Proof.
  induction ops as [|o ops IH]; intros d d' es hb Hr Hl Hok Hb.
  { injection Hr as <- <-. exists hb. unfold balance. cbn. split_and!; try done; try lia.
    intros _ _. split; [lia|done]. }
  cbn [hb_run] in Hr. apply bind_Ok_inv in Hr as ([d1 e1] & Ha & Hr).
  apply bind_Ok_inv in Hr as ([d2 e2] & Hr & [= <- <-]). rewrite length_cons in *.
  pose proof (proj2 Hok) as Hnn.
  destruct (hb_apply_ok _ _ _ _ _ _ _ Ha Hl Hok) as (hb1 & Hl1 & Hok1 & Hc1 & Hb1 & Hf1 & Ho1);
    [unfold in_u; lia|].
  destruct (IH d1 d2 e2 hb1 Hr Hl1 Hok1) as (hb2 & Hl2 & Hok2 & Hc2 & Hb2 & Hf2 & Ho2); [lia|].
  exists hb2. cbn [fst snd]. rewrite balance_app. split_and!; [done|done|congruence|lia|lia|].
  intros [|t times] Hops; [done|]. injection Hops as -> Hops. destruct Ho1 as [Hf Hp].
  destruct (Ho2 times Hops) as [Hf' Hp']. split; [lia|]. intros _ Hth.
  destruct ops as [|o' ops']; [|by apply Hp'; [|rewrite Hc1]].
  cbn in Hr. injection Hr as <- <-. rewrite Hl1 in Hl2. injection Hl2 as <-. by apply Hp.
Qed.

Lemma hb_apply_total p peer d o hb :
  heartbeats d !! peer = Some hb → in_u 64 (consecutive_failures hb + 1) →
  ∃ d' es, hb_apply p peer d o = Ok (d', es).
Proof.
  intros Hl Hu. destruct o as [now|now|now]; cbn; [by destruct record_heartbeat_success; eauto| |eauto].
  unfold record_heartbeat_failure. rewrite Hl. unfold record_failure. rewrite checked_in by done.
  cbn. case_decide; [|destruct (hb_state hb)]; eauto.
Qed.

Lemma hb_run_total p peer ops : ∀ d hb,
  heartbeats d !! peer = Some hb → hb_ok hb →
  (consecutive_failures hb + Z.of_nat (length ops) < 2 ^ 64)%Z →
  ∃ d' es, hb_run p peer d ops = Ok (d', es).
Proof.
  induction ops as [|o ops IH]; intros d hb Hl Hok Hb; [cbn; eauto|].
  rewrite length_cons in Hb. pose proof (proj2 Hok) as Hnn.
  destruct (hb_apply_total p peer d o hb Hl) as (d1 & e1 & Ha); [unfold in_u; lia|].
  destruct (hb_apply_ok _ _ _ _ _ _ _ Ha Hl Hok) as (hb1 & Hl1 & Hok1 & _ & _ & Hf1 & _);
    [unfold in_u; lia|].
  destruct (IH d1 hb1 Hl1 Hok1) as (d2 & e2 & Hr); [lia|].
  cbn [hb_run]. rewrite Ha. cbn [mbind outcome_bind fst snd]. rewrite Hr. cbn. eauto.
Qed.

(** The life of a sync peer: after any sequence of heartbeats, failures and
    timeout checks, the detection time is recorded exactly in the partitioned
    state, and the reported detections exceed the healings by one exactly then.  A
    number of consecutive failures that reaches the threshold leaves the peer
    partitioned, two consecutive heartbeats leave it connected, and a timeout check
    leaves no peer unpartitioned that has been silent for longer than the timeout. *)
Theorem heartbeat_lifecycle p peer d ops now0 :
  heartbeats d !! peer = Some (new now0) → (Z.of_nat (length ops) < 2 ^ 64)%Z →
  ∃ d' es hb, hb_run p peer d ops = Ok (d', es) ∧ heartbeats d' !! peer = Some hb
    ∧ (is_Some (partition_detected_at hb) ↔ hb_state hb = Partitioned)
    ∧ balance peer es = (if decide (hb_state hb = Partitioned) then 1 else 0)%Z
    ∧ (∀ ops0 times, ops = ops0 ++ (Failure <$> times) → times ≠ [] →
         (failure_threshold (hb_config d) ≤ Z.of_nat (length times))%Z →
         hb_state hb = Partitioned)
    ∧ (∀ ops0 t1 t2, ops = ops0 ++ [Success t1; Success t2] → hb_state hb = Connected)
    ∧ (∀ ops0 now, ops = ops0 ++ [CheckTimeouts now] → hb_state hb ≠ Partitioned →
         is_timeout hb (heartbeat_timeout (hb_config d)) now = false).
Proof.
  intros Hl Hb.
  assert (hb_ok (new now0)) as Hok by (split; [by split; [intros []|]|done]).
  destruct (hb_run_total p peer ops d _ Hl Hok) as (d' & es & Hr); [cbn; lia|].
  destruct (hb_run_ok p peer ops d d' es _ Hr Hl Hok) as (hb & Hl' & Hok' & _ & Hbal & _);
    [cbn; lia|].
  assert (∀ ops0 ops1, ops = ops0 ++ ops1 → ∃ d0 hb0 es1,
    hb_run p peer d0 ops1 = Ok (d', es1) ∧ heartbeats d0 !! peer = Some hb0 ∧ hb_ok hb0
    ∧ hb_config d0 = hb_config d
    ∧ (consecutive_failures hb0 + Z.of_nat (length ops1) < 2 ^ 64)%Z) as Hsplit.
  { intros ops0 ops1 ->. rewrite hb_run_app in Hr. rewrite length_app in Hb.
    apply bind_Ok_inv in Hr as ([d0 e0] & Hr0 & Hr).
    apply bind_Ok_inv in Hr as ([d1 e1] & Hr1 & [= <- <-]).
    destruct (hb_run_ok p peer ops0 d d0 e0 _ Hr0 Hl Hok) as (hb0 & ? & ? & ? & _ & Hf & _);
      [cbn; lia|]. exists d0, hb0, e1. cbn in *. split_and!; try done. lia. }
  exists d', es, hb. split_and!; [done|done|apply Hok'| | | |].
  - rewrite Hbal. unfold level. cbn. repeat case_decide; (done || lia).
  - intros ops0 times Hops Hne Hth. destruct (Hsplit _ _ Hops) as (d0 & hb0 & es1 & Hr1 & Hl0 & Hok0 & Hc0 & Hb0).
    destruct (hb_run_ok _ _ _ _ _ _ _ Hr1 Hl0 Hok0 Hb0) as (hb' & Hl1 & _ & _ & _ & _ & Hall).
    simplify_eq. destruct (Hall times eq_refl) as [Hf Hp]. rewrite length_fmap in Hf.
    pose proof (proj2 Hok0). apply Hp; [by destruct times|]. rewrite Hc0. lia.
  - intros ops0 t1 t2 Hops. destruct (Hsplit _ _ Hops) as (d0 & hb0 & es1 & Hr1 & Hl0 & Hok0 & Hc0 & Hb0).
    cbn [hb_run] in Hr1. apply bind_Ok_inv in Hr1 as ([da ea] & Ha & Hr1).
    apply bind_Ok_inv in Hr1 as ([db eb] & Hr2 & [= <- <-]).
    apply bind_Ok_inv in Hr2 as ([dc ec] & Hc & Hr2). cbn in Hr2. injection Hr2 as <- <-.
    pose proof (proj2 Hok0). cbn in Hb0.
    destruct (hb_apply_ok _ _ _ _ _ _ _ Ha Hl0 Hok0) as (hba & Hla & Hoka & _ & _ & _ & Hna & Hfa & _);
      [unfold in_u; lia|].
    destruct (hb_apply_ok _ _ _ _ _ _ _ Hc Hla Hoka) as (hbb & Hlb & _ & _ & _ & _ & _ & _ & Hcon);
      [unfold in_u; cbn [fst]; lia|]. cbn in Hl'. simplify_eq. by apply Hcon.
  - intros ops0 now Hops Hs. destruct (Hsplit _ _ Hops) as (d0 & hb0 & es1 & Hr1 & Hl0 & Hok0 & Hc0 & Hb0).
    cbn [hb_run] in Hr1. apply bind_Ok_inv in Hr1 as ([da ea] & Ha & Hr1).
    cbn in Hr1. injection Hr1 as <- <-. pose proof (proj2 Hok0). cbn in Hb0.
    destruct (hb_apply_ok _ _ _ _ _ _ _ Ha Hl0 Hok0) as (hba & Hla & _ & _ & _ & _ & Hto);
      [unfold in_u; lia|]. cbn in Hl'. simplify_eq. rewrite <- Hc0. by apply Hto.
Qed.
End Heartbeat.

(** * Concrete runs *)
#[local] Instance toy_powi : Powi := λ _ _, F64.of_Z 1.
Definition three_silent_checks : list (gmap bytes GeographicBeacon * Z) :=
  [(∅, from_secs 100); (∅, from_secs 110); (∅, from_secs 120)].

Lemma isolation_is_detected_witness :
  ∃ d es e s, checks Release (fresh Platform Detector.default_config) three_silent_checks
              = Ok (d, es ++ [e]) ∧ is_detected e = true
    ∧ handler d = Some s ∧ AutonomousHandler.is_autonomous s = true.
Proof.
  apply (isolation_is_detected Release Platform Detector.default_config (from_secs 2)).
  - intros a. exists (from_secs 2). split; [vm_compute; reflexivity|done].
  - done.
  - done.
  - done.
  - done.
  - repeat constructor.
  - cbn. done.
Defined.

Definition isolation_run : PartitionDetector AutonomousState * list (option PartitionEvent) :=
  match checks Release (fresh Platform Detector.default_config) three_silent_checks with
  | Ok r => r
  | _ => (fresh Platform Detector.default_config, [])
  end.

Lemma autonomous_iff_partitioned_witness :
  checks Release (fresh Platform Detector.default_config) three_silent_checks
    = Ok (isolation_run.1, isolation_run.2)
  ∧ partitioned isolation_run.1 = true
  ∧ ∃ s, handler isolation_run.1 = Some s
    ∧ AutonomousHandler.is_autonomous s = partitioned isolation_run.1.
Proof.
  assert (checks Release (fresh Platform Detector.default_config) three_silent_checks
    = Ok (isolation_run.1, isolation_run.2)) as Hr by (vm_compute; reflexivity).
  split_and!; [exact Hr|vm_compute; reflexivity|].
  apply (autonomous_iff_partitioned Release Platform Detector.default_config
           three_silent_checks _ _ Hr). done.
Defined.

Definition watched : HeartbeatDetector :=
  Heartbeat.register_peer {| hb_config := Heartbeat.default_config; heartbeats := ∅ |} (str "peer") 0.
Lemma heartbeat_lifecycle_witness :
  ∃ d es hb, Heartbeat.hb_run Release (str "peer") watched
      ([] ++ (Heartbeat.Failure <$> [1; 2; 3]%Z)) = Ok (d, es)
    ∧ heartbeats d !! str "peer" = Some hb ∧ hb_state hb = Partitioned.
Proof.
  destruct (Heartbeat.heartbeat_lifecycle Release (str "peer") watched
    ([] ++ (Heartbeat.Failure <$> [1; 2; 3]%Z)) 0) as (d & es & hb & Hr & Hl & _ & _ & Hf & _);
    [vm_compute; reflexivity|done|].
  exists d, es, hb. split_and!; [exact Hr|exact Hl|].
  apply (Hf [] [1; 2; 3]%Z); [done|done|done].
Defined.
