(* ===== verification/Topology.v ===== *)
(** The topology builder ([src/topology/builder.rs]): one evaluation of the nearby
    beacons, the selected peer, the linked and the lateral peers, the events it sends, and
    the forced re-evaluation. *)
From Stdlib Require Import ZArith Lia Strings.Byte Strings.String SpecFloat.
From stdpp Require Import prelude gmap.
From S2P Require Import Prelude Wire Iteration Float Geohash Beacon Hierarchy Selection Partition.

Set Default Proof Using "Type".

Inductive TopologyEvent :=
| PeerSelected (selected_peer_id : bytes) (peer_beacon : GeographicBeacon)
| PeerChanged (old_peer_id new_peer_id : bytes) (new_peer_beacon : GeographicBeacon)
| PeerLost (lost_peer_id : bytes)
| PeerAdded (linked_peer_id : bytes)
| PeerRemoved (linked_peer_id : bytes)
| LateralPeerDiscovered (peer_id : bytes) (peer_beacon : GeographicBeacon)
| LateralPeerLost (peer_id : bytes)
| RoleChanged (old_role new_role : NodeRole)
| LevelChanged (old_level new_level : HierarchyLevel).

Record SelectedPeer := {
  selected_id : bytes;
  selected_beacon : GeographicBeacon;
  selected_at : Z
}.
Record TopologyState := {
  selected_peer : option SelectedPeer;
  linked_peers : gmap bytes Z;
  lateral_peers : gmap bytes Z;
  role : NodeRole;
  state_level : HierarchyLevel
}.
Record TopologyConfig := {
  selection : SelectionConfig;
  reevaluation_interval : option Z;
  peer_change_cooldown : Z;
  peer_timeout : Z;
  hierarchy_strategy : option HierarchyStrategy;
  max_lateral_connections : option nat;
  max_retries : Z;
  initial_backoff : Z;
  max_backoff : Z;
  backoff_multiplier : float;
  max_telemetry_buffer_size : nat
}.
(** The builder: [event_queue] holds the events sent and not yet received; the shared
    partition detector is part of its state. *)
Record TopologyBuilder (H : Type) := {
  builder_config : TopologyConfig;
  builder_position : GeoPosition;
  builder_level : HierarchyLevel;
  builder_profile : option NodeProfile;
  state : TopologyState;
  event_queue : list TopologyEvent;
  subscribed : bool;
  running : bool;
  partition_detector : option (PartitionDetector H)
}.
Arguments builder_config {H}. Arguments builder_position {H}. Arguments builder_level {H}.
Arguments builder_profile {H}. Arguments state {H}. Arguments event_queue {H}.
Arguments subscribed {H}. Arguments running {H}. Arguments partition_detector {H}.

Definition default_state : TopologyState := {|
  selected_peer := None; linked_peers := ∅; lateral_peers := ∅; role := Standalone;
  state_level := Squad |}.
Definition default_topology_config : TopologyConfig := {|
  selection := Selector.default_config; reevaluation_interval := Some (from_secs 30);
  peer_change_cooldown := from_secs 60; peer_timeout := from_secs 180;
  hierarchy_strategy := None; max_lateral_connections := Some 10; max_retries := 3;
  initial_backoff := from_secs 1; max_backoff := from_secs 60;
  backoff_multiplier := F64.of_Z 2; max_telemetry_buffer_size := 100 |}.

Module Builder.
(** ** Updates of the state; each returns the events it sends *)
Section state.
Implicit Types (st : TopologyState) (c : TopologyConfig).
Definition set_selected st p : TopologyState := {|
  selected_peer := p; linked_peers := linked_peers st; lateral_peers := lateral_peers st;
  role := role st; state_level := state_level st |}.
Definition set_linked st m : TopologyState := {|
  selected_peer := selected_peer st; linked_peers := m; lateral_peers := lateral_peers st;
  role := role st; state_level := state_level st |}.
Definition set_lateral st m : TopologyState := {|
  selected_peer := selected_peer st; linked_peers := linked_peers st; lateral_peers := m;
  role := role st; state_level := state_level st |}.

(** [Instant::elapsed] *)
Definition elapsed (since now : Z) : Z := saturating_sub now since.
Definition visible (id : bytes) (nearby : list GeographicBeacon) : bool :=
  existsb (λ b, bool_decide (beacon_node_id b = id)) nearby.

Definition check_peer_status c (nearby : list GeographicBeacon) (now : Z) st
    : bool * TopologyState * list TopologyEvent :=
  match selected_peer st with
  | Some sp =>
      if visible (selected_id sp) nearby then (false, st, [])
      else if (peer_timeout c <? elapsed (selected_at sp) now)%Z
      then (true, set_selected st None, [PeerLost (selected_id sp)])
      else (false, st, [])
  | None => (true, st, [])
  end.
Definition update_selected_peer (b : GeographicBeacon) (now : Z) st : TopologyState * list TopologyEvent :=
  let ev := match selected_peer st with
            | Some current => PeerChanged (selected_id current) (beacon_node_id b) b
            | None => PeerSelected (beacon_node_id b) b
            end in
  (set_selected st (Some {| selected_id := beacon_node_id b; selected_beacon := b; selected_at := now |}),
   [ev]).

(** Refreshing the time the visible peers were seen; a new one sends an event. *)
Fixpoint see_peers (new_event : GeographicBeacon → TopologyEvent) (now : Z)
    (peers : gmap bytes Z) (potential : list GeographicBeacon) : gmap bytes Z * list TopologyEvent :=
  match potential with
  | [] => (peers, [])
  | b :: potential =>
      let id := beacon_node_id b in
      let r := see_peers new_event now (<[id := now]> peers) potential in
      (r.1, match peers !! id with Some _ => [] | None => [new_event b] end ++ r.2)
  end.
Section expiry.
Context {IO : IterOrder bytes Z}.
(** The peers that are not visible and were not seen for longer than the timeout. *)
Definition expired_peers (timeout now : Z) (peers : gmap bytes Z) (potential : list GeographicBeacon)
    : list bytes :=
  (filter (λ e, negb (visible e.1 potential) && (timeout <? elapsed e.2 now)%Z = true) (iter peers)).*1.
Definition update_linked_peers c (nearby : list GeographicBeacon) (own : HierarchyLevel) (now : Z) st
    : TopologyState * list TopologyEvent :=
  let potential := filter (λ b, Level.can_be_parent_of own (hierarchy_level b) = true) nearby in
  let '(peers, added) := see_peers (λ b, PeerAdded (beacon_node_id b)) now (linked_peers st) potential in
  let expired := expired_peers (peer_timeout c) now peers potential in
  (set_linked st (foldr delete peers expired), added ++ (PeerRemoved <$> expired)).
Definition update_lateral_peers c (nearby : list GeographicBeacon) (own : HierarchyLevel) (now : Z) st
    : TopologyState * list TopologyEvent :=
  let potential := filter (λ b, hierarchy_level b = own) nearby in
  let '(peers, found) :=
    see_peers (λ b, LateralPeerDiscovered (beacon_node_id b) b) now (lateral_peers st) potential in
  let expired := expired_peers (peer_timeout c) now peers potential in
  (set_lateral st (foldr delete peers expired), found ++ (LateralPeerLost <$> expired)).
End expiry.

(** Level and role from the strategy, when there is one and a profile. *)
Definition update_level (new_level : HierarchyLevel) st : TopologyState * list TopologyEvent :=
  if decide (new_level = state_level st) then (st, [])
  else ({| selected_peer := selected_peer st; linked_peers := linked_peers st;
           lateral_peers := lateral_peers st; role := role st; state_level := new_level |},
        [LevelChanged (state_level st) new_level]).
Definition update_role (new_role : NodeRole) st : TopologyState * list TopologyEvent :=
  if decide (new_role = role st) then (st, [])
  else ({| selected_peer := selected_peer st; linked_peers := linked_peers st;
           lateral_peers := lateral_peers st; role := new_role; state_level := state_level st |},
        [RoleChanged (role st) new_role]).
End state.

(** ** The evaluation *)
Section evaluation.
Context {Pw : Powi} {Lm : Libm} {SS : SliceSort} {IO : IterOrder bytes Z}.
(** The state behind the lock, with the events sent so far. *)
Definition locked (A : Type) : Type := stm (TopologyState * list TopologyEvent) unit A.
Definition send (f : TopologyState → TopologyState * list TopologyEvent) : locked unit :=
  λ s, let r := f s.1 in (Ok tt, (r.1, s.2 ++ r.2)).

Definition apply_strategy (c : TopologyConfig) (prof : option NodeProfile) (fixed : HierarchyLevel)
    (nearby : list GeographicBeacon) : locked HierarchyLevel :=
  match hierarchy_strategy c, prof with
  | Some strategy, Some prof =>
      let new_level := determine_level strategy prof in
      new_role ← lift (determine_role strategy prof nearby);
      send (update_level new_level);; send (update_role new_role);; mret new_level
  | _, _ => mret fixed
  end.
Definition needs_peer (c : TopologyConfig) (nearby : list GeographicBeacon) (now : Z) : locked bool :=
  λ s, let '(needed, st, evs) := check_peer_status c nearby now s.1 in (Ok needed, (st, s.2 ++ evs)).
Definition select_new (sel : PeerSelector) (nearby : list GeographicBeacon) (now : Z) : locked unit :=
  r ← lift (Selector.select_peer sel nearby);
  match r with
  | Some cand => send (update_selected_peer (candidate_beacon cand) now)
  | None => mret tt
  end.
Definition evaluate_state (c : TopologyConfig) (sel : PeerSelector) (prof : option NodeProfile)
    (nearby : list GeographicBeacon) (now : Z) : locked unit :=
  current ← apply_strategy c prof (own_level sel) nearby;
  needed ← needs_peer c nearby now;
  (if needed : bool then select_new sel nearby now else mret tt);;
  send (update_linked_peers c nearby current now);;
  send (update_lateral_peers c nearby current now).

(** The forced re-evaluation. *)
Definition should_switch (c : TopologyConfig) (sel : PeerSelector) (nearby : list GeographicBeacon)
    (now : Z) (cand : PeerCandidate) (st : TopologyState) : outcome unit bool :=
  match selected_peer st with
  | Some current =>
      if (elapsed (selected_at current) now <? peer_change_cooldown c)%Z then Ok false
      else
        current_score ←
          match find (λ b, bool_decide (beacon_node_id b = selected_id current)) nearby with
          | Some b =>
              r ← Selector.select_peer sel [b];
              Ok (match r with Some c => candidate_score c | None => F64.of_Z 0 end)
          | None => Ok (F64.of_Z 0)
          end;
        Ok (fgt (candidate_score cand) (F64.mul current_score (F64.dec 11 1)))
  | None => Ok true
  end.
Definition reevaluate_state (c : TopologyConfig) (sel : PeerSelector)
    (nearby : list GeographicBeacon) (now : Z) : locked unit :=
  r ← lift (Selector.select_peer sel nearby);
  match r with
  | None => mret tt
  | Some cand =>
      st ← gets fst;
      switch ← lift (should_switch c sel nearby now cand st);
      if switch : bool then send (update_selected_peer (candidate_beacon cand) now) else mret tt
  end.
End evaluation.

(** ** The builder and its task *)
Section builder.
Context {Pw : Powi} {Lm : Libm} {SS : SliceSort} {IO : IterOrder bytes Z}
  {H : Type} `{!PartitionHandler H}.
Implicit Types b : TopologyBuilder H.
Definition new (c : TopologyConfig) (p : GeoPosition) (l : HierarchyLevel) (prof : option NodeProfile)
    (d : option (PartitionDetector H)) : TopologyBuilder H := {|
  builder_config := c; builder_position := p; builder_level := l; builder_profile := prof;
  state := default_state; event_queue := []; subscribed := false; running := false;
  partition_detector := d |}.
Definition set b st q run d : TopologyBuilder H := {|
  builder_config := builder_config b; builder_position := builder_position b;
  builder_level := builder_level b; builder_profile := builder_profile b; state := st;
  event_queue := q; subscribed := subscribed b; running := run; partition_detector := d |}.
Definition start b : TopologyBuilder H := set b (state b) (event_queue b) true (partition_detector b).
Definition stop b : TopologyBuilder H := set b (state b) (event_queue b) false (partition_detector b).
Definition subscribe b : bool * TopologyBuilder H :=
  (negb (subscribed b),
   {| builder_config := builder_config b; builder_position := builder_position b;
      builder_level := builder_level b; builder_profile := builder_profile b; state := state b;
      event_queue := event_queue b; subscribed := true; running := running b;
      partition_detector := partition_detector b |}).
Definition update_position b (p : GeoPosition) : TopologyBuilder H := {|
  builder_config := builder_config b; builder_position := p; builder_level := builder_level b;
  builder_profile := builder_profile b; state := state b; event_queue := event_queue b;
  subscribed := subscribed b; running := running b; partition_detector := partition_detector b |}.
Definition selector b : PeerSelector := {|
  selector_config := selection (builder_config b); own_position := builder_position b;
  own_level := builder_level b |}.
(** The map the partition detector is given. *)
Definition beacons_map (nearby : list GeographicBeacon) : gmap bytes GeographicBeacon :=
  foldl (λ m x, <[beacon_node_id x := x]> m) ∅ nearby.
(** One turn of the task; a panic ends it, after what it changed. *)
Definition evaluate (p : profile) b (nearby : list GeographicBeacon) (now : Z) : TopologyBuilder H :=
  if negb (running b) then b
  else
    let '(r, (st, evs)) :=
      evaluate_state (builder_config b) (selector b) (builder_profile b) nearby now (state b, []) in
    let q := event_queue b ++ evs in
    match r with
    | Ok _ =>
        match partition_detector b with
        | Some d =>
            match Detector.check_partition p d (beacons_map nearby) now with
            | Ok (d, _) => set b st q true (Some d)
            | _ => set b st q false (Some d)
            end
        | None => set b st q true None
        end
    | _ => set b st q false (partition_detector b)
    end.
Definition reevaluate_peer b (nearby : list GeographicBeacon) (now : Z) : outcome unit unit * TopologyBuilder H :=
  let '(r, (st, evs)) :=
    reevaluate_state (builder_config b) (selector b) nearby now (state b, []) in
  (r, set b st (event_queue b ++ evs) (running b) (partition_detector b)).
End builder.
End Builder.
Import Builder.

(** * The events are a log of the state *)
(** What a subscriber can know: the selected peer, the linked and the lateral peers, role
    and level. *)
Record view := {
  v_selected : option bytes;
  v_linked : gset bytes;
  v_lateral : gset bytes;
  v_role : NodeRole;
  v_level : HierarchyLevel
}.
Definition view_of (st : TopologyState) : view := {|
  v_selected := selected_id <$> selected_peer st; v_linked := dom (linked_peers st);
  v_lateral := dom (lateral_peers st); v_role := role st; v_level := state_level st |}.
(** An event updates the view; one that does not fit it is refused. *)
Definition replay_event (v : view) (ev : TopologyEvent) : option view :=
  let with_selected s := {| v_selected := s; v_linked := v_linked v; v_lateral := v_lateral v;
                            v_role := v_role v; v_level := v_level v |} in
  let with_linked l := {| v_selected := v_selected v; v_linked := l; v_lateral := v_lateral v;
                          v_role := v_role v; v_level := v_level v |} in
  let with_lateral l := {| v_selected := v_selected v; v_linked := v_linked v; v_lateral := l;
                           v_role := v_role v; v_level := v_level v |} in
  match ev with
  | PeerSelected id b =>
      guard (v_selected v = None ∧ beacon_node_id b = id);; Some (with_selected (Some id))
  | PeerChanged old id b =>
      guard (v_selected v = Some old ∧ beacon_node_id b = id);; Some (with_selected (Some id))
  | PeerLost id => guard (v_selected v = Some id);; Some (with_selected None)
  | PeerAdded id => guard (id ∉ v_linked v);; Some (with_linked ({[id]} ∪ v_linked v))
  | PeerRemoved id => guard (id ∈ v_linked v);; Some (with_linked (v_linked v ∖ {[id]}))
  | LateralPeerDiscovered id b =>
      guard (id ∉ v_lateral v ∧ beacon_node_id b = id);; Some (with_lateral ({[id]} ∪ v_lateral v))
  | LateralPeerLost id => guard (id ∈ v_lateral v);; Some (with_lateral (v_lateral v ∖ {[id]}))
  | RoleChanged old new =>
      guard (v_role v = old ∧ old ≠ new);;
      Some {| v_selected := v_selected v; v_linked := v_linked v; v_lateral := v_lateral v;
              v_role := new; v_level := v_level v |}
  | LevelChanged old new =>
      guard (v_level v = old ∧ old ≠ new);;
      Some {| v_selected := v_selected v; v_linked := v_linked v; v_lateral := v_lateral v;
              v_role := v_role v; v_level := new |}
  end.
Fixpoint replay (v : view) (evs : list TopologyEvent) : option view :=
  match evs with
  | [] => Some v
  | ev :: evs => v ← replay_event v ev; replay v evs
  end.

Lemma replay_app v evs evs' : replay v (evs ++ evs') = replay v evs ≫= λ v, replay v evs'.
Proof. revert v. induction evs as [|ev evs IH]; intros v; cbn; [done|]. destruct (replay_event v ev); [apply IH|done]. Qed.

Section log.
Context {Pw : Powi} {Lm : Libm} {SS : SliceSort} {IO : IterOrder bytes Z}.

(** A computation that logs what it does to the state. *)
Definition logs {A} (m : locked A) : Prop :=
  ∀ st l, ∃ evs, (m (st, l)).2.2 = l ++ evs ∧ replay (view_of st) evs = Some (view_of (m (st, l)).2.1).
Lemma logs_ret {A} (a : A) : logs (mret a).
Proof. intros st l. exists []. by rewrite app_nil_r. Qed.
Lemma logs_lift {A} (o : outcome unit A) : logs (lift o).
Proof. intros st l. exists []. by rewrite app_nil_r. Qed.
Lemma logs_gets {A} (f : _ → A) : logs (gets f).
Proof. intros st l. exists []. by rewrite app_nil_r. Qed.
Lemma logs_bind {A B} (m : locked A) (k : A → locked B) :
  logs m → (∀ a, logs (k a)) → logs (a ← m; k a).
Proof.
  intros Hm Hk st l. destruct (Hm st l) as (evs & E1 & E2). unfold mbind, stm_bind.
  destruct (m (st, l)) as [[a| |] [st' l']]; cbn in *; subst; [|by exists evs..].
  destruct (Hk a st' (l ++ evs)) as (evs' & E3 & E4). exists (evs ++ evs').
  by rewrite E3, (assoc_L (++)), replay_app, E2.
Qed.
Lemma logs_send f : (∀ st, replay (view_of st) (f st).2 = Some (view_of (f st).1)) → logs (send f).
Proof. intros H st l. by exists (f st).2. Qed.
End log.
Create HintDb topo.
#[export] Hint Resolve logs_ret logs_lift logs_gets logs_bind logs_send : topo.

(** ** The updates *)
Ltac fits := rewrite option_guard_True by (done || set_solver || naive_solver).
Lemma replay_selected b now st :
  replay (view_of st) (update_selected_peer b now st).2 = Some (view_of (update_selected_peer b now st).1).
Proof. unfold update_selected_peer. destruct st as [[sp|] ln lt r l]; cbn; by fits. Qed.
Lemma replay_level l st : replay (view_of st) (update_level l st).2 = Some (view_of (update_level l st).1).
Proof. unfold update_level. case_decide; cbn; [done|]. by fits. Qed.
Lemma replay_role r st : replay (view_of st) (update_role r st).2 = Some (view_of (update_role r st).1).
Proof. unfold update_role. case_decide; cbn; [done|]. by fits. Qed.
Lemma logs_needs_peer c nearby now : logs (needs_peer c nearby now).
Proof.
  intros st l. unfold needs_peer, check_peer_status. cbn.
  destruct (selected_peer st) as [sp|] eqn:E; [|exists []; by rewrite app_nil_r].
  destruct (visible _ _); [exists []; by rewrite app_nil_r|].
  destruct (_ <? _)%Z; [|exists []; by rewrite app_nil_r]. eexists. split; [done|]. cbn.
  rewrite E. cbn. by fits.
Qed.

(** The sets of linked and of lateral peers, updated alike. *)
Section peers.
Context (added : GeographicBeacon → TopologyEvent) (removed : bytes → TopologyEvent)
  (get : view → gset bytes) (put : view → gset bytes → view).
Context (get_put : ∀ v l, get (put v l) = l) (put_put : ∀ v l l', put (put v l) l' = put v l')
  (put_get : ∀ v, put v (get v) = v)
  (replay_added : ∀ v b, beacon_node_id b ∉ get v →
     replay_event v (added b) = Some (put v ({[beacon_node_id b]} ∪ get v)))
  (replay_removed : ∀ v id, id ∈ get v → replay_event v (removed id) = Some (put v (get v ∖ {[id]}))).

Lemma replay_see now peers potential v :
  get v = dom peers →
  replay v (see_peers added now peers potential).2
  = Some (put v (dom (see_peers added now peers potential).1)).
Proof using All.
  revert peers v. induction potential as [|b potential IH]; intros peers v Hv; cbn.
  - by rewrite <-Hv, put_get.
  - destruct (peers !! beacon_node_id b) eqn:L; cbn.
    + apply IH. rewrite dom_insert_L, Hv. apply elem_of_dom_2 in L. set_solver.
    + rewrite replay_added by (rewrite Hv; by apply not_elem_of_dom). cbn.
      rewrite IH by (by rewrite get_put, Hv, dom_insert_L). by rewrite put_put.
Qed.
Lemma replay_expired (ids : list bytes) (peers : gmap bytes Z) v :
  NoDup ids → (∀ id : bytes, id ∈ ids → id ∈ (dom peers : gset bytes)) → get v = dom peers →
  replay v (removed <$> ids) = Some (put v (dom (foldr delete peers ids))).
Proof using All.
  revert v peers. induction ids as [|id ids IH]; intros v peers Hn Hin Hv; cbn.
  - by rewrite <-Hv, put_get.
  - apply NoDup_cons in Hn as [Hid Hn]. rewrite replay_removed by (rewrite Hv; apply Hin; by left).
    cbn. rewrite (IH (put v (get v ∖ {[id]})) (delete id peers)).
    + rewrite put_put. do 2 f_equal. apply set_eq. intros x. rewrite !elem_of_dom.
      assert (∀ (m : gmap bytes Z) l, foldr delete (delete id m) l = delete id (foldr delete m l)) as ->; [|done].
      intros m l. induction l as [|y l IHl]; cbn; [done|]. by rewrite IHl, delete_delete.
    + done.
    + intros x Hx. rewrite dom_delete_L. assert (x ∈ dom peers) by (apply Hin; by right).
      assert (x ≠ id) by naive_solver. set_solver.
    + by rewrite get_put, Hv, dom_delete_L.
Qed.
Lemma replay_update `{!IterOrder bytes Z} timeout now peers potential v :
  get v = dom peers →
  let seen := see_peers added now peers potential in
  let expired := expired_peers timeout now seen.1 potential in
  replay v (seen.2 ++ (removed <$> expired)) = Some (put v (dom (foldr delete seen.1 expired))).
Proof using All.
  intros Hv seen expired. rewrite replay_app. unfold seen at 1. rewrite (replay_see _ _ _ _ Hv).
  fold seen. cbn.
  rewrite (replay_expired expired seen.1).
  - by rewrite put_put.
  - unfold expired, expired_peers. eapply sublist_NoDup; [apply (NoDup_iter_fst seen.1)|].
    apply fmap_sublist, sublist_filter.
  - intros id (e & -> & [_ He]%list_elem_of_filter)%list_elem_of_fmap. destruct e as [k t].
    apply elem_of_iter in He. by apply elem_of_dom_2 in He.
  - apply get_put.
Qed.
End peers.

Section log_theorem.
Context {Pw : Powi} {Lm : Libm} {SS : SliceSort} {IO : IterOrder bytes Z}.

Lemma replay_linked c nearby own now st :
  replay (view_of st) (update_linked_peers c nearby own now st).2
  = Some (view_of (update_linked_peers c nearby own now st).1).
Proof.
  unfold update_linked_peers. rewrite (surjective_pairing (see_peers _ _ _ _)). cbn [fst snd].
  rewrite (replay_update (λ b, PeerAdded (beacon_node_id b)) PeerRemoved v_linked
    (λ v l, {| v_selected := v_selected v; v_linked := l; v_lateral := v_lateral v;
               v_role := v_role v; v_level := v_level v |})); try done.
  - by intros [].
  - intros v b Hb. cbn. by fits.
  - intros v id Hid. cbn. by fits.
Qed.
Lemma replay_lateral c nearby own now st :
  replay (view_of st) (update_lateral_peers c nearby own now st).2
  = Some (view_of (update_lateral_peers c nearby own now st).1).
Proof.
  unfold update_lateral_peers. rewrite (surjective_pairing (see_peers _ _ _ _)). cbn [fst snd].
  rewrite (replay_update (λ b, LateralPeerDiscovered (beacon_node_id b) b) LateralPeerLost v_lateral
    (λ v l, {| v_selected := v_selected v; v_linked := v_linked v; v_lateral := l;
               v_role := v_role v; v_level := v_level v |})); try done.
  - by intros [].
  - intros v b Hb. cbn. by fits.
  - intros v id Hid. cbn. by fits.
Qed.
#[local] Hint Resolve replay_selected replay_level replay_role replay_linked replay_lateral
  logs_needs_peer : topo.
Lemma logs_evaluate c sel prof nearby now : logs (evaluate_state c sel prof nearby now).
Proof.
  unfold evaluate_state. apply logs_bind; [|intros current; apply logs_bind; [auto with topo|]].
  - unfold apply_strategy. destruct (hierarchy_strategy c), prof; eauto 6 with topo.
  - intros needed. apply logs_bind; [|eauto with topo]. destruct needed; [|eauto with topo].
    unfold select_new. apply logs_bind; [eauto with topo|]. intros [cand|]; eauto with topo.
Qed.
Lemma logs_reevaluate c sel nearby now : logs (reevaluate_state c sel nearby now).
Proof.
  unfold reevaluate_state. apply logs_bind; [eauto with topo|]. intros [cand|]; [|eauto with topo].
  apply logs_bind; [eauto with topo|]. intros st. apply logs_bind; [eauto with topo|].
  intros []; eauto with topo.
Qed.
End log_theorem.

(** * Runs of the builder *)
Inductive builder_op :=
| Evaluate (nearby : list GeographicBeacon) (now : Z)
| Reevaluate (nearby : list GeographicBeacon) (now : Z)
| Move (p : GeoPosition)
| StartBuilder
| StopBuilder.

Section runs.
Context {Pw : Powi} {Lm : Libm} {SS : SliceSort} {IO : IterOrder bytes Z}
  {H : Type} `{!PartitionHandler H}.
Implicit Types b : TopologyBuilder H.

Definition apply_op (p : profile) b (o : builder_op) : TopologyBuilder H :=
  match o with
  | Evaluate nearby now => evaluate p b nearby now
  | Reevaluate nearby now => (reevaluate_peer b nearby now).2
  | Move pos => update_position b pos
  | StartBuilder => start b
  | StopBuilder => stop b
  end.
Definition run_ops (p : profile) b (ops : list builder_op) : TopologyBuilder H := foldl (apply_op p) b ops.

(** What an operation does to the state and the events. *)
Lemma apply_op_locked p b o :
  builder_level (apply_op p b o) = builder_level b
  ∧ ((state (apply_op p b o) = state b ∧ event_queue (apply_op p b o) = event_queue b)
     ∨ ∃ m : locked unit,
         (∃ nearby now, m = evaluate_state (builder_config b) (selector b) (builder_profile b) nearby now
                        ∨ m = reevaluate_state (builder_config b) (selector b) nearby now)
         ∧ state (apply_op p b o) = (m (state b, [])).2.1
         ∧ event_queue (apply_op p b o) = event_queue b ++ (m (state b, [])).2.2).
Proof.
  destruct o as [nearby now|nearby now| | |]; cbn; auto.
  - unfold evaluate. destruct (running b); cbn [negb]; [|auto].
    set (m := evaluate_state _ _ _ _ _).
    destruct (m (state b, [])) as [r [st evs]] eqn:E. split; [|right; exists m; split; [eauto|]].
    + destruct r; [destruct (partition_detector b); [destruct (Detector.check_partition _ _ _ _) as [[]| |]|]|..]; done.
    + rewrite E. destruct r; [destruct (partition_detector b);
        [destruct (Detector.check_partition _ _ _ _) as [[]| |]|]|..]; done.
  - unfold reevaluate_peer. set (m := reevaluate_state _ _ _ _).
    destruct (m (state b, [])) as [r [st evs]] eqn:E. split; [done|]. right. exists m.
    split; [eauto|]. by rewrite E.
Qed.

(** C20.  The events are a complete log of the topology.  However evaluations, forced
    re-evaluations, moves, starts and stops of a builder follow one another, replaying
    the events it sent, each of which must fit the view it changes, yields the selected
    peer, the linked and lateral peers, the role and the level of its state. *)
Theorem events_are_a_log p c pos l prof d ops :
  let b := run_ops p (new c pos l prof d) ops in
  replay (view_of default_state) (event_queue b) = Some (view_of (state b)).
Proof.
  cbn zeta. unfold run_ops.
  cut (∀ ops b, replay (view_of default_state) (event_queue b) = Some (view_of (state b)) →
    replay (view_of default_state) (event_queue (foldl (apply_op p) b ops))
    = Some (view_of (state (foldl (apply_op p) b ops)))).
  { intros HH. by apply HH. }
  clear. intros ops. induction ops as [|o ops IH]; intros b Hb; [done|]. cbn. apply IH.
  destruct (apply_op_locked p b o) as (_ & [(-> & ->)|(m & Hm & -> & ->)]); [done|].
  assert (logs m) as Hl by (destruct Hm as (? & ? & [->| ->]); [apply logs_evaluate|apply logs_reevaluate]).
  destruct (Hl (state b) []) as (evs & E1 & E2). by rewrite E1, replay_app, Hb.
Qed.
End runs.

(** * Parents *)
Section parents.
Context {Pw : Powi} {Lm : Libm} {SS : SliceSort} {IO : IterOrder bytes Z}.



End parents.

Section network.
Context {Pw : Powi} {Lm : Libm} {SS : SliceSort} {IO : IterOrder bytes Z}
  {H : Type} `{!PartitionHandler H}.


(** The nodes of a mesh, each reached by a run of its builder. *)
Context (nodes : gmap bytes (TopologyBuilder H)).


End network.

(** * Tables of recent peers *)
Section recent.
Context {IO : IterOrder bytes Z}.

Lemma see_lookup f now peers potential id :
  (see_peers f now peers potential).1 !! id = if visible id potential then Some now else peers !! id.
Proof.
  revert peers. induction potential as [|b potential IH]; intros peers; cbn; [done|]. rewrite IH.
  unfold visible. cbn. case_bool_decide as E; cbn [orb].
  - subst. rewrite lookup_insert_eq. by destruct (existsb _ _).
  - by rewrite lookup_insert_ne.
Qed.
Lemma lookup_foldr_delete (m : gmap bytes Z) ids id :
  foldr delete m ids !! id = if decide (id ∈ ids) then None else m !! id.
Proof.
  induction ids as [|x ids IH]; cbn; [by rewrite decide_False by apply not_elem_of_nil|].
  destruct (decide (id = x)) as [->|Hne].
  - rewrite lookup_delete_eq, decide_True by by left. done.
  - rewrite lookup_delete_ne, IH by done. destruct (decide (id ∈ ids)).
    + by rewrite decide_True by by right.
    + rewrite decide_False; [done|]. rewrite elem_of_cons. naive_solver.
Qed.
Definition recent (timeout now t : Z) : bool := (elapsed t now <=? timeout)%Z.
(** A table after an evaluation: who is visible, and who was seen recently. *)
Lemma table_lookup f timeout now peers potential id :
  let seen := (see_peers f now peers potential).1 in
  foldr delete seen (expired_peers timeout now seen potential) !! id
  = if visible id potential then Some now
    else match peers !! id with
         | Some t => if recent timeout now t then Some t else None
         | None => None
         end.
Proof.
  intros seen. rewrite lookup_foldr_delete. pose proof (see_lookup f now peers potential id) as L.
  fold seen in L. unfold expired_peers, recent. case_decide as D.
  - apply list_elem_of_fmap in D as ([k t] & -> & [[Hv Ht]%andb_true_iff Hi]%list_elem_of_filter).
    cbn in *. apply negb_true_iff in Hv. rewrite Hv in *. apply elem_of_iter in Hi. rewrite L in Hi.
    rewrite Hi. apply Z.ltb_lt in Ht. by rewrite (proj2 (Z.leb_gt _ _)).
  - rewrite L. destruct (visible id potential) eqn:V; [done|]. destruct (peers !! id) as [t|] eqn:P; [|done].
    case_match eqn:R; [done|]. exfalso. apply D. apply list_elem_of_fmap. exists (id, t). split; [done|].
    apply list_elem_of_filter. split; [|by apply elem_of_iter]. cbn. rewrite V. cbn.
    apply Z.leb_gt in R. by apply Z.ltb_lt.
Qed.

(** The evaluations of one table: the observations and their times. *)
Definition linked_after (c : TopologyConfig) (own : HierarchyLevel)
    (obs : list (list GeographicBeacon * Z)) : TopologyState :=
  foldl (λ st o, (update_linked_peers c o.1 own o.2 st).1) default_state obs.
Definition lateral_after (c : TopologyConfig) (own : HierarchyLevel)
    (obs : list (list GeographicBeacon * Z)) : TopologyState :=
  foldl (λ st o, (update_lateral_peers c o.1 own o.2 st).1) default_state obs.
(** When a peer that satisfies [P] was last seen; the latest observation comes first. *)
Fixpoint last_seen (P : GeographicBeacon → bool) (id : bytes)
    (rev_obs : list (list GeographicBeacon * Z)) : option Z :=
  match rev_obs with
  | [] => None
  | o :: rest =>
      if existsb (λ b, P b && bool_decide (beacon_node_id b = id)) o.1 then Some o.2
      else last_seen P id rest
  end.
(** The times of the observations do not decrease. *)
Fixpoint later_first (now : Z) (rev_obs : list (list GeographicBeacon * Z)) : Prop :=
  match rev_obs with [] => True | o :: rest => (o.2 ≤ now)%Z ∧ later_first o.2 rest end.

Lemma visible_filter (P : GeographicBeacon → bool) id nearby :
  visible id (filter (λ b, P b = true) nearby)
  = existsb (λ b, P b && bool_decide (beacon_node_id b = id)) nearby.
Proof.
  unfold visible. induction nearby as [|b nearby IH]; [done|]. rewrite filter_cons.
  destruct (decide (P b = true)) as [E|E%not_true_is_false]; cbn [existsb]; by rewrite E, IH.
Qed.
Lemma last_seen_le P id now rev_obs t :
  later_first now rev_obs → last_seen P id rev_obs = Some t → (t ≤ now)%Z.
Proof.
  revert now. induction rev_obs as [|o rest IH]; intros now Hl; cbn; [done|]. destruct Hl as [Hle Hl].
  destruct (existsb _ _); [by intros [= <-]|]. intros E. specialize (IH _ Hl E). lia.
Qed.
(** One table over the observations, given what each evaluation does to it. *)
Lemma table_runs (c : TopologyConfig) (P : GeographicBeacon → bool)
    (table : list (list GeographicBeacon * Z) → gmap bytes Z) id :
  (0 ≤ peer_timeout c)%Z → table [] !! id = None →
  (∀ o rest, table (o :: rest) !! id
     = if visible id (filter (λ b, P b = true) o.1) then Some o.2
       else match table rest !! id with
            | Some t => if recent (peer_timeout c) o.2 t then Some t else None
            | None => None
            end) →
  ∀ rev_obs now, later_first now rev_obs →
    table rev_obs !! id
    = match rev_obs, last_seen P id rev_obs with
      | o :: _, Some t => if recent (peer_timeout c) o.2 t then Some t else None
      | _, _ => None
      end.
Proof.
  intros Ht H0 Hs rev_obs.
  induction rev_obs as [|o rest IH]; intros now Hl; [done|]. cbn [last_seen].
  destruct Hl as [Hle Hl]. rewrite Hs, visible_filter. destruct (existsb _ _).
  - unfold recent, elapsed, saturating_sub. by rewrite (proj2 (Z.leb_le _ _)) by lia.
  - rewrite (IH o.2 Hl). destruct rest as [|o' rest]; [done|].
    destruct (last_seen P id (o' :: rest)) as [t|] eqn:E; [|done].
    destruct Hl as [Hle' _]. unfold recent, elapsed, saturating_sub.
    destruct (Z.leb_spec (Z.max 0 (o'.2 - t)) (peer_timeout c)); [done|].
    by rewrite (proj2 (Z.leb_gt _ _)) by lia.
Qed.

(** The tables of linked and of lateral peers hold exactly the peers seen recently:
    after evaluations at times that do not decrease, a peer is in the table with the time
    of its last beacon from the right level, unless that is longer ago than the timeout
    at the last evaluation. *)
Theorem peer_tables_are_recent c own rev_obs now id :
  (0 ≤ peer_timeout c)%Z → later_first now rev_obs →
  let in_time P := match rev_obs, last_seen P id rev_obs with
                   | o :: _, Some t => if recent (peer_timeout c) o.2 t then Some t else None
                   | _, _ => None
                   end in
  linked_peers (linked_after c own (reverse rev_obs)) !! id
    = in_time (λ b, Level.can_be_parent_of own (hierarchy_level b))
  ∧ lateral_peers (lateral_after c own (reverse rev_obs)) !! id
    = in_time (λ b, bool_decide (hierarchy_level b = own)).
Proof.
  intros Ht Hl in_time. split.
  - apply (table_runs c _ (λ obs, linked_peers (linked_after c own (reverse obs))) id Ht) with (now := now);
      [done| |done].
    intros o rest. unfold linked_after. rewrite reverse_cons, foldl_snoc. unfold update_linked_peers at 1.
    rewrite (surjective_pairing (see_peers _ _ _ _)). cbn [fst linked_peers set_linked]. apply table_lookup.
  - apply (table_runs c _ (λ obs, lateral_peers (lateral_after c own (reverse obs))) id Ht) with (now := now);
      [done| |done].
    intros o rest. unfold lateral_after. rewrite reverse_cons, foldl_snoc. unfold update_lateral_peers at 1.
    rewrite (surjective_pairing (see_peers _ _ _ _)). cbn [fst lateral_peers set_lateral].
    rewrite table_lookup. rewrite (list_filter_iff (λ b, hierarchy_level b = own)
      (λ b, bool_decide (hierarchy_level b = own) = true)) by (intros; by rewrite bool_decide_eq_true). done.
Qed.
End recent.

(** * Witnesses *)
#[local] Instance flat_powi : Powi := λ _ _, F64.of_Z 0.
#[local] Instance flat_libm : Libm := {|
  fsin _ := F64.of_Z 0; fcos _ := F64.of_Z 1; fatan2 _ _ := F64.of_Z 0; fasin _ := F64.of_Z 0;
  fexp _ := F64.of_Z 1 |}.
#[local] Existing Instance insertion_sort.
#[local] Instance time_order : IterOrder bytes Z := key_order bytes Z.
#[local] Instance no_handler : PartitionHandler unit := {|
  on_partition_detected h _ _ := h; on_partition_healed h _ _ := h |}.

Definition here : GeoPosition := Position.new (F64.of_Z 37) (F64.of_Z (-122)).
Definition squad_beacon : GeographicBeacon := Hierarchy.beacon_of (str "squad") Hierarchy.twin.
Definition platform_config : TopologyConfig := default_topology_config.


Lemma peer_tables_are_recent_witness :
  (0 ≤ peer_timeout default_topology_config)%Z
  ∧ later_first (from_secs 90) [([], from_secs 90); ([squad_beacon], from_secs 30)]
  ∧ linked_peers (linked_after default_topology_config Platoon
      (reverse [([], from_secs 90); ([squad_beacon], from_secs 30)])) !! str "squad" = Some (from_secs 30)
  ∧ lateral_peers (lateral_after default_topology_config Platoon
      (reverse [([], from_secs 90); ([squad_beacon], from_secs 30)])) !! str "squad" = None.
Proof.
  assert (0 ≤ peer_timeout default_topology_config)%Z as H1 by vm_eq.
  assert (later_first (from_secs 90) [([], from_secs 90); ([squad_beacon], from_secs 30)]) as H2
    by (split; [vm_eq|split; [vm_eq|exact I]]).
  split; [exact H1|]. split; [exact H2|].
  destruct (peer_tables_are_recent default_topology_config Platoon _ _ (str "squad") H1 H2) as [E1 E2].
  rewrite E1, E2. split; vm_eq.
Defined.

(** A selected peer whose beacon is missing from a single evaluation is lost when it was
    selected longer ago than the timeout, although it was visible a moment before. *)
Lemma one_missed_beacon_loses_the_peer :
  let b := run_ops Release (new platform_config here Platform None None)
    [StartBuilder; Evaluate [squad_beacon] 0; Evaluate [squad_beacon] (from_secs 181);
     Evaluate [] (from_secs 182)] in
  selected_peer (state (H:=unit) b) = None
  ∧ event_queue b = [PeerSelected (str "squad") squad_beacon; PeerLost (str "squad")].
Proof. split; vm_eq. Qed.
