(* ===== verification/TopologyManager.v ===== *)
(** The topology manager ([src/topology/manager.rs]): the loop that turns topology events
    into connections, the retry tasks with their backoff, and the telemetry buffer.

    The event loop and the retry tasks run concurrently on the shared state.  The handler
    of one event, one look at the retry state and one connection attempt are the steps
    that interleave; the transport is a parameter, and so is what happens in the network
    between two steps. *)
From Stdlib Require Import ZArith Lia Strings.Byte Strings.String SpecFloat.
From stdpp Require Import prelude gmap.
From S2P Require Import Prelude Wire Iteration Float Geohash Beacon Hierarchy Selection Partition.
From S2P Require Import Routing Transport Topology.

Set Default Proof Using "Type".

(** The trait [MeshTransport], as far as the manager calls it. *)
Class MeshTransport (T Conn : Type) := {
  transport_connect : bytes → stm T TransportError Conn;
  transport_disconnect : bytes → stm T TransportError unit;
  transport_is_connected : T → bytes → bool;
  transport_send_to : bytes → bytes → stm T TransportError nat;
  transport_start : stm T TransportError unit;
  transport_stop : stm T TransportError unit
}.
(** [serde_json::to_vec(packet).unwrap_or_default()] *)
Class PacketJson := packet_json : DataPacket → bytes.

Record RetryState := { attempts : Z; next_retry : Z }.
(** Where a retry task stands: before it reads the retry state, asleep until its next
    attempt, waiting for a lock that it holds itself, or done. *)
Inductive phase := Looking | Sleeping (tried until : Z) | Deadlocked | Finished.
Record RetryTask := { lateral : bool; task_peer : bytes; task_phase : phase }.

Record Shared (T Conn H : Type) := {
  transport : T;
  builder : TopologyBuilder H;
  peer_connection : option Conn;
  selected_peer_id : option bytes;
  lateral_connections : gmap bytes Conn;
  peer_retry_state : option RetryState;
  lateral_retry_state : gmap bytes RetryState;
  telemetry_buffer : list DataPacket
}.
Arguments transport {T Conn H}. Arguments builder {T Conn H}. Arguments peer_connection {T Conn H}.
Arguments selected_peer_id {T Conn H}. Arguments lateral_connections {T Conn H}.
Arguments peer_retry_state {T Conn H}. Arguments lateral_retry_state {T Conn H}.
Arguments telemetry_buffer {T Conn H}.
(** The manager: the shared state, its event loop while it runs, and the retry tasks. *)
Record TopologyManager (T Conn H : Type) := {
  shared : Shared T Conn H;
  event_loop_running : bool;
  tasks : list RetryTask
}.
Arguments shared {T Conn H}. Arguments event_loop_running {T Conn H}. Arguments tasks {T Conn H}.

Definition as_i32 (z : Z) : Z := Detector.as_i32 z.
Definition calculate_backoff {Pw : Powi} (c : TopologyConfig) (attempts : Z) : outcome unit Z :=
  let multiplier := powi (backoff_multiplier c) (as_i32 attempts) in
  let backoff_secs := F64.mul (F64.as_secs_f64 (initial_backoff c)) multiplier in
  let capped_secs := fmin backoff_secs (F64.as_secs_f64 (max_backoff c)) in
  from_secs_f64 capped_secs.

Module Manager.
Section manager.
Context {Pw : Powi} {Lm : Libm} {SS : SliceSort} {IO : IterOrder bytes Z} {PJ : PacketJson}.
Context {T Conn H : Type} `{!PartitionHandler H, !MeshTransport T Conn}.
Context {CO : IterOrder bytes Conn}.
Abbreviation Sh := (Shared T Conn H).
Implicit Types (s : Sh) (m : TopologyManager T Conn H).

(** ** Fields *)
Definition set_transport s t : Sh := {|
  transport := t; builder := builder s; peer_connection := peer_connection s;
  selected_peer_id := selected_peer_id s; lateral_connections := lateral_connections s;
  peer_retry_state := peer_retry_state s; lateral_retry_state := lateral_retry_state s;
  telemetry_buffer := telemetry_buffer s |}.
Definition set_builder s b : Sh := {|
  transport := transport s; builder := b; peer_connection := peer_connection s;
  selected_peer_id := selected_peer_id s; lateral_connections := lateral_connections s;
  peer_retry_state := peer_retry_state s; lateral_retry_state := lateral_retry_state s;
  telemetry_buffer := telemetry_buffer s |}.
Definition set_peer s conn id : Sh := {|
  transport := transport s; builder := builder s; peer_connection := conn;
  selected_peer_id := id; lateral_connections := lateral_connections s;
  peer_retry_state := peer_retry_state s; lateral_retry_state := lateral_retry_state s;
  telemetry_buffer := telemetry_buffer s |}.
Definition set_lateral s conns : Sh := {|
  transport := transport s; builder := builder s; peer_connection := peer_connection s;
  selected_peer_id := selected_peer_id s; lateral_connections := conns;
  peer_retry_state := peer_retry_state s; lateral_retry_state := lateral_retry_state s;
  telemetry_buffer := telemetry_buffer s |}.
Definition set_peer_retry s r : Sh := {|
  transport := transport s; builder := builder s; peer_connection := peer_connection s;
  selected_peer_id := selected_peer_id s; lateral_connections := lateral_connections s;
  peer_retry_state := r; lateral_retry_state := lateral_retry_state s;
  telemetry_buffer := telemetry_buffer s |}.
Definition set_lateral_retry s r : Sh := {|
  transport := transport s; builder := builder s; peer_connection := peer_connection s;
  selected_peer_id := selected_peer_id s; lateral_connections := lateral_connections s;
  peer_retry_state := peer_retry_state s; lateral_retry_state := r;
  telemetry_buffer := telemetry_buffer s |}.
Definition set_buffer s b : Sh := {|
  transport := transport s; builder := builder s; peer_connection := peer_connection s;
  selected_peer_id := selected_peer_id s; lateral_connections := lateral_connections s;
  peer_retry_state := peer_retry_state s; lateral_retry_state := lateral_retry_state s;
  telemetry_buffer := b |}.
Definition config_of s : TopologyConfig := builder_config (builder s).

Definition connect s (peer : bytes) : outcome TransportError Conn * Sh :=
  let r := transport_connect peer (transport s) in (r.1, set_transport s r.2).
(** A failed disconnection is only logged. *)
Definition disconnect s (peer : bytes) : Sh :=
  set_transport s (transport_disconnect peer (transport s)).2.

(** ** Telemetry *)
Definition send_telemetry s (packet : DataPacket) : outcome bytes bool * Sh :=
  let max_buffer_size := max_telemetry_buffer_size (config_of s) in
  if decide (max_buffer_size = 0)
  then (Err (str "Telemetry buffering is disabled (max_telemetry_buffer_size = 0)"), s)
  else
    let buffer := if decide (max_buffer_size ≤ length (telemetry_buffer s))
                  then drop 1 (telemetry_buffer s) else telemetry_buffer s in
    (Ok false, set_buffer s (buffer ++ [packet])).
Fixpoint send_packets (peer : bytes) (packets : list DataPacket) (t : T) : T :=
  match packets with
  | [] => t
  | packet :: packets => send_packets peer packets (transport_send_to peer (packet_json packet) t).2
  end.
Definition flush_buffer s (peer : bytes) : Sh :=
  let packets := telemetry_buffer s in
  let s := set_buffer s [] in
  set_transport s (send_packets peer packets (transport s)).

(** ** Retries *)
Definition new_task (is_lateral : bool) (peer : bytes) : RetryTask :=
  {| lateral := is_lateral; task_peer := peer; task_phase := Looking |}.
Definition retry_state s (t : RetryTask) : option RetryState :=
  if lateral t then lateral_retry_state s !! task_peer t else peer_retry_state s.
Definition set_retry s (t : RetryTask) (r : option RetryState) : Sh :=
  if lateral t then set_lateral_retry s (partial_alter (λ _, r) (task_peer t) (lateral_retry_state s))
  else set_peer_retry s r.
(** The task reads the retry state.  When the limit is reached it asks for the write
    lock while the guard of the read lock is alive. *)
Definition look s (t : RetryTask) : phase :=
  match retry_state s t with
  | None => Finished
  | Some st =>
      if (max_retries (config_of s) <=? attempts st)%Z then Deadlocked
      else Sleeping (attempts st) (next_retry st)
  end.
(** The connection is recorded, the retry state cleared, the buffer flushed. *)
Definition connected s (t : RetryTask) (conn : Conn) : Sh :=
  if lateral t
  then set_retry (set_lateral s (<[task_peer t := conn]> (lateral_connections s))) t None
  else flush_buffer (set_retry (set_peer s (Some conn) (Some (task_peer t))) t None) (task_peer t).
Definition attempt s (t : RetryTask) (tried now : Z) : phase * Sh :=
  match connect s (task_peer t) with
  | (Ok conn, s) => (Finished, connected s t conn)
  | (Err _, s) =>
      let new_attempts := (tried + 1)%Z in
      if (max_retries (config_of s) <=? new_attempts)%Z
      then (Finished, set_retry s t None)
      else match calculate_backoff (config_of s) new_attempts with
           | Ok backoff =>
               (Looking, set_retry s t (Some {| attempts := new_attempts; next_retry := now + backoff |}))
           | _ => (Finished, s)
           end
  | (Panic, s) => (Finished, s)
  end.

(** ** Events *)
(** A failed connection starts a retry task, unless retries are off; a backoff that is
    not a duration panics. *)
Definition schedule_retry s (t : RetryTask) (now : Z) : outcome unit (list RetryTask) * Sh :=
  if (0 <? max_retries (config_of s))%Z then
    match calculate_backoff (config_of s) 0 with
    | Ok backoff => (Ok [t], set_retry s t (Some {| attempts := 0; next_retry := now + backoff |}))
    | _ => (Panic, s)
    end
  else (Ok [], s).
(** What a handler leaves: whether the loop goes on, and the tasks it spawned. *)
Inductive handled := Continue (spawned : list RetryTask) | Return | Unwound.
Definition spawned (r : outcome unit (list RetryTask) * Sh) : handled * Sh :=
  match r with (Ok ts, s) => (Continue ts, s) | (_, s) => (Unwound, s) end.

Definition on_peer_selected s (now : Z) (peer : bytes) : handled * Sh :=
  match connect s peer with
  | (Ok conn, s) =>
      (Continue [], flush_buffer (set_peer_retry (set_peer s (Some conn) (Some peer)) None) peer)
  | (Err _, s) => spawned (schedule_retry s (new_task false peer) now)
  | (Panic, s) => (Unwound, s)
  end.
Definition on_peer_changed s (now : Z) (old peer : bytes) : handled * Sh :=
  let s := set_peer_retry s None in
  let s := disconnect s old in
  match connect s peer with
  | (Ok conn, s) => (Continue [], flush_buffer (set_peer s (Some conn) (Some peer)) peer)
  | (Err _, s) => spawned (schedule_retry s (new_task false peer) now)
  | (Panic, s) => (Unwound, s)
  end.
Definition on_peer_lost s (nearby : list GeographicBeacon) (now : Z) (peer : bytes) : handled * Sh :=
  let s := set_peer s None None in
  let s := disconnect s peer in
  let '(r, b) := Builder.reevaluate_peer (builder s) nearby now in
  (match r with Ok _ => Continue [] | _ => Unwound end, set_builder s b).
Definition on_peer_removed s (peer : bytes) : handled * Sh :=
  (Continue [], if transport_is_connected (transport s) peer then disconnect s peer else s).
(** At the limit the handler returns from the whole loop. *)
Definition on_lateral_discovered s (now : Z) (peer : bytes) : handled * Sh :=
  let current_count := size (lateral_connections s) in
  if match max_lateral_connections (config_of s) with
     | Some max => (max <=? current_count)
     | None => false
     end then (Return, s)
  else match connect s peer with
       | (Ok conn, s) =>
           (Continue [], set_lateral_retry (set_lateral s (<[peer := conn]> (lateral_connections s)))
                           (delete peer (lateral_retry_state s)))
       | (Err _, s) => spawned (schedule_retry s (new_task true peer) now)
       | (Panic, s) => (Unwound, s)
       end.
Definition on_lateral_lost s (peer : bytes) : handled * Sh :=
  let s := set_lateral_retry s (delete peer (lateral_retry_state s)) in
  (Continue [],
   match lateral_connections s !! peer with
   | Some _ => disconnect (set_lateral s (delete peer (lateral_connections s))) peer
   | None => s
   end).
Definition handle_event s (nearby : list GeographicBeacon) (now : Z) (ev : TopologyEvent) : handled * Sh :=
  match ev with
  | PeerSelected peer _ => on_peer_selected s now peer
  | PeerChanged old peer _ => on_peer_changed s now old peer
  | PeerLost peer => on_peer_lost s nearby now peer
  | PeerAdded _ => (Continue [], s)
  | PeerRemoved peer => on_peer_removed s peer
  | LateralPeerDiscovered peer _ => on_lateral_discovered s now peer
  | LateralPeerLost peer => on_lateral_lost s peer
  | RoleChanged _ _ => (Continue [], s)
  | LevelChanged _ _ => (Continue [], s)
  end.

(** ** The manager *)
Definition new (b : TopologyBuilder H) (t : T) : TopologyManager T Conn H := {|
  shared := {| transport := t; builder := b; peer_connection := None; selected_peer_id := None;
               lateral_connections := ∅; peer_retry_state := None; lateral_retry_state := ∅;
               telemetry_buffer := [] |};
  event_loop_running := false; tasks := [] |}.
Definition with_shared m s : TopologyManager T Conn H :=
  {| shared := s; event_loop_running := event_loop_running m; tasks := tasks m |}.
Definition start m : outcome TransportError unit * TopologyManager T Conn H :=
  let r := transport_start (transport (shared m)) in
  let s := set_transport (shared m) r.2 in
  match r.1 with
  | Ok _ =>
      let '(got, b) := Builder.subscribe (Builder.start (builder s)) in
      (Ok tt, {| shared := set_builder s b;
                 event_loop_running := if got : bool then true else event_loop_running m;
                 tasks := tasks m |})
  | o => (o, with_shared m s)
  end.
Definition stop m : outcome TransportError unit * TopologyManager T Conn H :=
  let s := shared m in
  let s := set_builder s (Builder.stop (builder s)) in
  let s := match selected_peer_id s with
           | Some peer => disconnect (set_peer s (peer_connection s) None) peer
           | None => s
           end in
  let s := foldl disconnect s (Iteration.iter (V:=Conn) (lateral_connections s)).*1 in
  let s := set_lateral s ∅ in
  let r := transport_stop (transport s) in
  (r.1, {| shared := set_transport s r.2; event_loop_running := false; tasks := tasks m |}).

(** The event loop receives the next event. *)
Definition receive m (nearby : list GeographicBeacon) (now : Z) : TopologyManager T Conn H :=
  let b := builder (shared m) in
  if negb (event_loop_running m) then m
  else match event_queue b with
       | [] => m
       | ev :: queue =>
           let b := Builder.set b (state b) queue (running b) (partition_detector b) in
           let '(r, s) := handle_event (set_builder (shared m) b) nearby now ev in
           match r with
           | Continue ts => {| shared := s; event_loop_running := true; tasks := tasks m ++ ts |}
           | Return | Unwound => {| shared := s; event_loop_running := false; tasks := tasks m |}
           end
       end.
(** Task [i] goes on. *)
Definition with_phase (t : RetryTask) (ph : phase) : RetryTask :=
  {| lateral := lateral t; task_peer := task_peer t; task_phase := ph |}.
Definition task_step m (i : nat) (now : Z) : TopologyManager T Conn H :=
  match tasks m !! i with
  | None => m
  | Some t =>
      match task_phase t with
      | Looking =>
          {| shared := shared m; event_loop_running := event_loop_running m;
             tasks := <[i := with_phase t (look (shared m) t)]> (tasks m) |}
      | Sleeping tried until =>
          if (now <? until)%Z then m
          else
            let '(ph, s) := attempt (shared m) t tried now in
            {| shared := s; event_loop_running := event_loop_running m;
               tasks := <[i := with_phase t ph]> (tasks m) |}
      | Deadlocked | Finished => m
      end
  end.

Inductive input :=
| Receive (nearby : list GeographicBeacon) (now : Z)
| Task (i : nat) (now : Z)
| BuilderRuns (o : builder_op)
| Telemetry (packet : DataPacket)
| Network (t : T)
| StartManager
| StopManager.
Definition step (p : profile) m (i : input) : TopologyManager T Conn H :=
  match i with
  | Receive nearby now => receive m nearby now
  | Task i now => task_step m i now
  | BuilderRuns o => with_shared m (set_builder (shared m) (apply_op p (builder (shared m)) o))
  | Telemetry packet => with_shared m (send_telemetry (shared m) packet).2
  | Network t => with_shared m (set_transport (shared m) t)
  | StartManager => (start m).2
  | StopManager => (stop m).2
  end.
Definition run (p : profile) m (inputs : list input) : TopologyManager T Conn H :=
  foldl (step p) m inputs.
End manager.
End Manager.

(** * Retries are bounded and never deadlock *)
Module Retries.
Import Manager.
Section invariant.
Context {Pw : Powi} {Lm : Libm} {SS : SliceSort} {IO : IterOrder bytes Z} {PJ : PacketJson}.
Context {T Conn H : Type} `{!PartitionHandler H, !MeshTransport T Conn}.
Context {CO : IterOrder bytes Conn} (c : TopologyConfig).
Abbreviation Sh := (Shared T Conn H).
Implicit Types (s : Sh) (m : TopologyManager T Conn H).

#[local] Hint Resolve Forall_nil_2 : core.




(** ** A task by itself *)
Definition phase_of m (i : nat) : option phase := task_phase <$> tasks m !! i.
(** The task goes on as soon as it may. *)
Definition go (i : nat) m : TopologyManager T Conn H :=
  task_step m i (match phase_of m i with Some (Sleeping _ until) => until | _ => 0%Z end).
Definition backoffs_ok : Prop :=
  ∀ k, (0 ≤ k < max_retries c)%Z → is_ok (calculate_backoff c k) = true.

Lemma go_step i m t :
  tasks m !! i = Some t →
  go i m = match task_phase t with
           | Looking => {| shared := shared m; event_loop_running := event_loop_running m;
                           tasks := <[i := with_phase t (look (shared m) t)]> (tasks m) |}
           | Sleeping tried until =>
               let r := attempt (shared m) t tried until in
               {| shared := r.2; event_loop_running := event_loop_running m;
                  tasks := <[i := with_phase t r.1]> (tasks m) |}
           | _ => m
           end.
Proof.
  intros E. unfold go, phase_of, task_step. rewrite E. cbn [fmap option_fmap option_map].
  destruct (task_phase t) as [|tried until| |]; try done.
  rewrite Z.ltb_irrefl. by destruct (attempt (shared m) t tried until).
Qed.
Lemma retry_state_set s t r : retry_state (set_retry s t r) t = r.
Proof.
  unfold retry_state, set_retry. destruct (lateral t); [|done]. cbn. by rewrite lookup_partial_alter_eq.
Qed.
(** An attempt ends the task and its retry state, or counts one more. *)
Lemma attempt_progress s t tried now :
  backoffs_ok → config_of s = c → (0 ≤ tried)%Z →
  let r := attempt s t tried now in
  (r.1 = Finished ∧ (retry_state r.2 t = None ∨ (connect s (task_peer t)).1 = Panic))
  ∨ (tried + 1 < max_retries c)%Z ∧ r.1 = Looking
    ∧ ∃ next, retry_state r.2 t = Some {| attempts := tried + 1; next_retry := next |}.
Proof.
  intros Hb Hc Ht. cbv zeta. unfold attempt, connect.
  destruct (transport_connect (task_peer t) (transport s)) as [[conn|e|] tr]; cbn.
  - left. split; [done|]. left. unfold connected. destruct (lateral t) eqn:L; [apply retry_state_set|].
    unfold retry_state. rewrite L. cbn. unfold set_retry. by rewrite L.
  - change (config_of (set_transport s tr)) with (config_of s). rewrite Hc.
    destruct (Z.leb_spec (max_retries c) (tried + 1)).
    + left. split; [done|]. left. apply retry_state_set.
    + right. specialize (Hb (tried + 1)%Z ltac:(lia)).
      destruct (calculate_backoff c (tried + 1)); try done. cbn. split_and!; [done|done|].
      eexists. apply retry_state_set.
  - left. split; [done|]. by right.
Qed.
Fixpoint go_n (n : nat) (i : nat) m : TopologyManager T Conn H :=
  match n with O => m | S n => go_n n i (go i m) end.
Lemma go_finished i m t n :
  tasks m !! i = Some t → task_phase t = Finished → go_n n i m = m.
Proof.
  intros E P. induction n as [|n IH]; cbn [go_n]; [done|]. rewrite (go_step i m t E), P. apply IH.
Qed.
Lemma attempt_config s t tried now : config_of (attempt s t tried now).2 = config_of s.
Proof.
  unfold attempt, connect. destruct (transport_connect _ _) as [[conn|e|] tr]; cbn; [|case_match|done].
  - unfold connected, set_retry. by destruct (lateral t).
  - unfold set_retry. by destruct (lateral t).
  - destruct (calculate_backoff _ _); [|done..]. cbn. unfold set_retry. by destruct (lateral t).
Qed.

(** The task from where it looks at its retry state. *)
Lemma task_runs_out n : ∀ m i t st,
  backoffs_ok → (∀ peer (tr : T), (transport_connect (Conn:=Conn) peer tr).1 ≠ Panic) →
  config_of (shared m) = c → tasks m !! i = Some t → task_phase t = Looking →
  retry_state (shared m) t = Some st → (0 ≤ attempts st)%Z → (max_retries c - attempts st ≤ Z.of_nat n)%Z →
  (attempts st < max_retries c)%Z →
  ∃ m', go_n (2 * n) i m = m' ∧ phase_of m' i = Some Finished
    ∧ retry_state (shared m') t = None ∧ config_of (shared m') = c.
Proof.
  induction n as [|n IH]; intros m i t st Hb Hp Hc Ht Hph Hr H0 Hn Hlt; [lia|].
  replace (2 * S n) with (S (S (2 * n))) by lia. cbn [go_n].
  rewrite (go_step i m t Ht), Hph. pose proof (lookup_lt_Some _ _ _ Ht) as Hi.
  unfold look. rewrite Hr, Hc, (proj2 (Z.leb_gt _ _) Hlt).
  rewrite (go_step i _ (with_phase t (Sleeping (attempts st) (next_retry st))))
    by by apply list_lookup_insert_eq.
  cbn [task_phase with_phase shared tasks event_loop_running].
  change (with_phase t (Sleeping _ _)) with (with_phase t (Sleeping (attempts st) (next_retry st))).
  set (t' := with_phase t (Sleeping (attempts st) (next_retry st))).
  destruct (attempt_progress (shared m) t' (attempts st) (next_retry st) Hb Hc H0)
    as [(E1 & [E2|E2])|(E0 & E1 & next & E2)]; [| |].
  - eexists. split; [apply (go_finished _ _ (with_phase t' Finished)); [|done]|].
    + cbn [tasks]. rewrite list_insert_insert_eq, E1. by apply list_lookup_insert_eq.
    + unfold phase_of. cbn [tasks shared]. rewrite list_insert_insert_eq, E1, list_lookup_insert_eq by done.
      split_and!; [done|exact E2|]. by rewrite attempt_config.
  - by destruct (Hp (task_peer t) (transport (shared m))).
  - eapply (IH _ i (with_phase t' Looking)); [done|done| | |done|exact E2|cbn; lia|cbn; lia|done].
    + cbn [shared]. by rewrite attempt_config.
    + cbn [tasks]. rewrite list_insert_insert_eq, E1. by apply list_lookup_insert_eq.
Qed.
End invariant.


(** C29.  A retry task gives up.  Left alone with a connection that may go on failing, a
    task that looks at a retry state below the limit finishes within two steps for each
    attempt that is left, and leaves no retry state behind. *)
Theorem retry_task_ends {Pw : Powi} {PJ : PacketJson} {T Conn H} `{!MeshTransport T Conn}
    (m : TopologyManager T Conn H) i task st :
  let c := config_of (shared m) in
  backoffs_ok c → (∀ peer (tr : T), (transport_connect (Conn:=Conn) peer tr).1 ≠ Panic) →
  tasks m !! i = Some task → task_phase task = Looking →
  retry_state (shared m) task = Some st → (0 ≤ attempts st < max_retries c)%Z →
  let m' := go_n (2 * Z.to_nat (max_retries c - attempts st)) i m in
  phase_of m' i = Some Finished ∧ retry_state (shared m') task = None.
Proof.
  intros c Hb Hp Ht Hph Hr Ha. cbv zeta.
  destruct (task_runs_out c (Z.to_nat (max_retries c - attempts st)) m i task st)
    as (m' & <- & H1 & H2 & _); try done; lia.
Qed.
End Retries.

(** * The end of the event loop *)
Module Loop.
Import Manager.
Section loop.
Context {Pw : Powi} {Lm : Libm} {SS : SliceSort} {IO : IterOrder bytes Z} {PJ : PacketJson}.
Context {T Conn H : Type} `{!PartitionHandler H, !MeshTransport T Conn}.
Context {CO : IterOrder bytes Conn}.
Implicit Types (m : TopologyManager T Conn H) (s : Shared T Conn H).

(** The receiver of the events is handed out once, to the loop that runs. *)
Definition receiver_taken m : Prop := subscribed (builder (shared m)) = true.
Definition loop_ok m : Prop := event_loop_running m = true → receiver_taken m.

Lemma apply_op_subscribed p (b : TopologyBuilder H) o : subscribed (apply_op p b o) = subscribed b.
Proof.
  destruct o as [nearby now|nearby now| | |]; try done; cbn.
  - unfold Builder.evaluate. destruct (running b); [|done]. cbn [negb].
    destruct (Builder.evaluate_state _ _ _ _ _ _) as [r [st evs]].
    destruct r; [|done..]. destruct (partition_detector b); [|done].
    by destruct (Detector.check_partition _ _ _ _) as [[]| |].
  - unfold Builder.reevaluate_peer. by destruct (Builder.reevaluate_state _ _ _ _ _) as [? []].
Qed.
Lemma handle_event_subscribed s nearby now ev :
  subscribed (builder (handle_event s nearby now ev).2) = subscribed (builder s).
Proof.
  assert (∀ s t, subscribed (builder (spawned (schedule_retry s t now)).2) = subscribed (builder s)) as Hs.
  { intros s' t. unfold schedule_retry. case_match; [|done].
    destruct (calculate_backoff _ _); [|done..]. cbn. unfold set_retry. by destruct (lateral t). }
  destruct ev; cbn [handle_event]; try done;
    unfold on_peer_selected, on_peer_changed, on_peer_lost, on_peer_removed, on_lateral_discovered, on_lateral_lost.
  - unfold connect. destruct (transport_connect _ _) as [[]]; cbn; by rewrite ?Hs.
  - unfold connect. destruct (transport_connect _ _) as [[]]; cbn; by rewrite ?Hs.
  - cbv zeta. unfold Builder.reevaluate_peer. by destruct (Builder.reevaluate_state _ _ _ _ _) as [? []].
  - by destruct (transport_is_connected _ _).
  - cbv zeta. destruct (match max_lateral_connections _ with Some _ => _ | None => _ end); [done|].
    unfold connect. destruct (transport_connect _ _) as [[]]; cbn; by rewrite ?Hs.
  - cbv zeta. cbn [snd]. by destruct (_ !! _).
Qed.
Lemma attempt_subscribed s t tried now : subscribed (builder (attempt s t tried now).2) = subscribed (builder s).
Proof.
  unfold attempt, connect. destruct (transport_connect _ _) as [[conn|e|] tr]; cbn; [|case_match|done].
  - unfold connected, set_retry. by destruct (lateral t).
  - unfold set_retry. by destruct (lateral t).
  - destruct (calculate_backoff _ _); [|done..]. cbn. unfold set_retry. by destruct (lateral t).
Qed.
Lemma stop_subscribed m : subscribed (builder (shared (stop m).2)) = subscribed (builder (shared m)).
Proof.
  unfold stop. cbn [snd shared]. cbn [set_transport set_lateral builder].
  match goal with |- context [foldl disconnect ?s0 ?l] =>
    assert (∀ s, subscribed (builder (foldl disconnect s l)) = subscribed (builder s)) as ->;
    [generalize l; intros l'; induction l' as [|x l' IH]; intros s; cbn [foldl]; [done|by rewrite IH]|] end.
  by destruct (selected_peer_id _).
Qed.

(** A step keeps the receiver taken, and starts a loop only by taking it. *)
Lemma step_loop p m i :
  (receiver_taken m → receiver_taken (step p m i))
  ∧ (receiver_taken m → event_loop_running (step p m i) = true → event_loop_running m = true)
  ∧ (loop_ok m → loop_ok (step p m i)).
Proof.
  unfold loop_ok, receiver_taken.
  destruct i as [nearby now|i now|o|packet|t| |]; cbn [step].
  - unfold receive. destruct (event_loop_running m) eqn:R; cbn [negb]; [|by rewrite R].
    destruct (event_queue _) as [|ev q]; [by rewrite R|].
    pose proof (handle_event_subscribed (set_builder (shared m) (Builder.set (builder (shared m))
      (state (builder (shared m))) q (running (builder (shared m))) (partition_detector (builder (shared m)))))
      nearby now ev) as E.
    destruct (handle_event _ _ _ _) as [r s]. cbn in E. destruct r; cbn; rewrite E; naive_solver.
  - unfold task_step. destruct (tasks m !! i) as [t|]; [|done].
    destruct (task_phase t) as [|tried until| |]; try done. destruct (_ <? _)%Z; [done|].
    pose proof (attempt_subscribed (shared m) t tried now) as E.
    destruct (attempt _ _ _ _). cbn in *. by rewrite E.
  - cbn. by rewrite apply_op_subscribed.
  - cbn. unfold send_telemetry. by case_decide.
  - done.
  - unfold start. destruct (transport_start _) as [[] tr]; cbn; [|done..].
    destruct (subscribed (builder (shared m))); naive_solver.
  - rewrite stop_subscribed. naive_solver.
Qed.
Lemma run_loop p m inputs :
  receiver_taken m → event_loop_running m = false → event_loop_running (run p m inputs) = false.
Proof.
  unfold run. revert m. induction inputs as [|i inputs IH]; intros m Ht Hr; [done|]. cbn.
  destruct (step_loop p m i) as (H1 & H2 & _). apply IH; [auto|].
  apply not_true_is_false. intros E. specialize (H2 Ht E). congruence.
Qed.
Lemma run_loop_ok p m inputs : loop_ok m → loop_ok (run p m inputs).
Proof.
  unfold run. revert m. induction inputs as [|i inputs IH]; intros m Hm; [done|].
  apply IH. by apply step_loop.
Qed.

(** One lateral peer too many ends the handling of topology events for good: when
    the loop receives the discovery of a lateral peer while the limit of lateral
    connections is reached, it returns, and whatever follows, a restart included, no
    event is received again. *)
Theorem lateral_limit_ends_loop p b t inputs nearby now peer beacon queue max :
  let m := run p (new b t) inputs in
  event_loop_running m = true →
  event_queue (builder (shared m)) = LateralPeerDiscovered peer beacon :: queue →
  max_lateral_connections (config_of (shared m)) = Some max →
  max ≤ size (lateral_connections (shared m)) →
  ∀ inputs', event_loop_running (run p (step p m (Receive nearby now)) inputs') = false.
Proof.
  intros m Hr Hq Hmax Hsize inputs'.
  assert (receiver_taken m) as Ht by (by apply run_loop_ok).
  apply run_loop; [by apply (proj1 (step_loop p m _))|]. cbn [step]. unfold receive. rewrite Hr, Hq. cbn [negb].
  cbn [handle_event]. unfold on_lateral_discovered. cbv zeta. unfold config_of in *. cbn [set_builder builder Builder.set builder_config
    lateral_connections]. rewrite Hmax, (proj2 (Nat.leb_le _ _) Hsize). done.
Qed.
End loop.
End Loop.

(** * Telemetry *)
Module Buffer.
Import Manager.
Section buffer.
Context {Pw : Powi} {Lm : Libm} {SS : SliceSort} {PJ : PacketJson}.
Context {T Conn H : Type} `{!PartitionHandler H, !MeshTransport T Conn}.
Implicit Types s : Shared T Conn H.

Definition newest (n : nat) (l : list DataPacket) : list DataPacket := drop (length l - n) l.
Definition queue_all s (packets : list DataPacket) : Shared T Conn H :=
  foldl (λ s packet, (send_telemetry s packet).2) s packets.

Lemma send_telemetry_spec s packet :
  0 < max_telemetry_buffer_size (config_of s) →
  length (telemetry_buffer s) ≤ max_telemetry_buffer_size (config_of s) →
  (send_telemetry s packet).2
  = set_buffer s (newest (max_telemetry_buffer_size (config_of s)) (telemetry_buffer s ++ [packet])).
Proof.
  intros H0 Hl. unfold send_telemetry, newest. rewrite decide_False by lia. cbn [snd]. f_equal.
  rewrite length_app. cbn [length]. case_decide.
  - replace (length (telemetry_buffer s) + 1 - max_telemetry_buffer_size (config_of s)) with 1 by lia.
    destruct (telemetry_buffer s); [cbn in *; lia|done].
  - replace (length (telemetry_buffer s) + 1 - max_telemetry_buffer_size (config_of s)) with 0 by lia. done.
Qed.
Lemma newest_app n l l' : newest n (newest n l ++ l') = newest n (l ++ l').
Proof.
  unfold newest. rewrite <-(drop_app_le l l') by lia. rewrite drop_drop. f_equal.
  rewrite length_drop, !length_app. lia.
Qed.
Lemma newest_length n l : length (newest n l) ≤ n.
Proof. unfold newest. rewrite length_drop. lia. Qed.
Lemma newest_all n l : length l ≤ n → newest n l = l.
Proof. intros H0. unfold newest. by replace (length l - n) with 0 by lia. Qed.
Lemma queue_all_spec s packets :
  0 < max_telemetry_buffer_size (config_of s) →
  length (telemetry_buffer s) ≤ max_telemetry_buffer_size (config_of s) →
  queue_all s packets
  = set_buffer s (newest (max_telemetry_buffer_size (config_of s)) (telemetry_buffer s ++ packets)).
Proof.
  intros H0. unfold queue_all. revert s H0. induction packets as [|packet packets IH]; intros s H0 Hl; cbn [foldl].
  - rewrite app_nil_r, newest_all by done. by destruct s.
  - rewrite (send_telemetry_spec s packet H0 Hl). rewrite IH; [|done|apply newest_length].
    change (config_of (set_buffer s _)) with (config_of s). cbn [telemetry_buffer set_buffer].
    by rewrite newest_app, <-(assoc_L (++)).
Qed.

(** C30.  Telemetry survives the loss of the parent.  Packets queued while no parent is
    connected are kept up to the size of the buffer, the newest ones, and the selection of
    a parent that can be connected sends exactly these, in the order they were queued, and
    empties the buffer. *)
Theorem telemetry_survives_failover s packets nearby now peer beacon conn s' :
  0 < max_telemetry_buffer_size (config_of s) →
  length (telemetry_buffer s) ≤ max_telemetry_buffer_size (config_of s) →
  connect (queue_all s packets) peer = (Ok conn, s') →
  let kept := newest (max_telemetry_buffer_size (config_of s)) (telemetry_buffer s ++ packets) in
  let s'' := (handle_event (queue_all s packets) nearby now (PeerSelected peer beacon)).2 in
  telemetry_buffer s'' = [] ∧ selected_peer_id s'' = Some peer ∧ peer_connection s'' = Some conn
  ∧ transport s'' = send_packets peer kept (transport s').
Proof.
  intros H0 Hl E kept. cbn [handle_event]. unfold on_peer_selected. rewrite E. cbn. split_and!; try done.
  rewrite (queue_all_spec s packets H0 Hl) in E. unfold connect in E. injection E as _ <-. done.
Qed.
End buffer.
End Buffer.

(** * Runs *)
Import Manager Retries Loop Buffer.
#[local] Existing Instances flat_powi flat_libm insertion_sort time_order no_handler.
#[local] Instance bytes_json : PacketJson := packet_id.
#[local] Instance conn_order : IterOrder bytes bytes := key_order bytes bytes.
(** A network in which some peers can be reached; it records the packets sent. *)
Record Net := { reachable : list bytes; packets_sent : list (bytes * bytes) }.
#[local] Instance net_transport : MeshTransport Net bytes := {|
  transport_connect peer n :=
    (if bool_decide (peer ∈ reachable n) then Ok peer else Err (ConnectionFailed "unreachable"), n);
  transport_disconnect _ n := (Ok tt, n);
  transport_is_connected n peer := bool_decide (peer ∈ reachable n);
  transport_send_to peer data n :=
    (Ok (length data), {| reachable := reachable n; packets_sent := packets_sent n ++ [(peer, data)] |});
  transport_start n := (Ok tt, n);
  transport_stop n := (Ok tt, n)
|}.
Definition net (l : list bytes) : Net := {| reachable := l; packets_sent := [] |}.
Definition node (id : bytes) : GeographicBeacon := Hierarchy.beacon_of id Hierarchy.twin.
Definition one_lateral : TopologyConfig := {|
  selection := Selector.default_config; reevaluation_interval := Some (from_secs 30);
  peer_change_cooldown := from_secs 60; peer_timeout := from_secs 180;
  hierarchy_strategy := None; max_lateral_connections := Some 1; max_retries := 3;
  initial_backoff := from_secs 1; max_backoff := from_secs 60;
  backoff_multiplier := F64.of_Z 2; max_telemetry_buffer_size := 100 |}.
Definition at_level (l : HierarchyLevel) : TopologyBuilder unit := Builder.new one_lateral here l None None.
Definition run_net (l : HierarchyLevel) (peers : list bytes) (inputs : list (input (T:=Net))) : TopologyManager Net bytes unit :=
  run Release (new (at_level l) (net peers)) inputs.

(** The retry task of a peer that was lost meanwhile replaces the connection of the peer
    that was selected after it. *)
Definition stale_retry : list (input (T:=Net)) :=
  [StartManager; BuilderRuns (Evaluate [node (str "a")] 0); Receive [] 0; Task 0 0;
   BuilderRuns (Evaluate [node (str "b")] (from_secs 200)); Receive [node (str "b")] (from_secs 200);
   Receive [] (from_secs 200); Network (net [str "a"; str "b"]); Task 0 (from_secs 201)].
Lemma stale_retry_replaces_peer :
  let m := run_net Platform [str "b"] stale_retry in
  (selected_id <$> selected_peer (state (builder (shared m)))) = Some (str "b")
  ∧ selected_peer_id (shared m) = Some (str "a").
Proof. split; vm_eq. Qed.
(** A retry task connects a lateral peer without looking at the limit. *)
Lemma retry_exceeds_lateral_limit :
  let m := run_net Squad [str "y"]
    [StartManager; BuilderRuns (Evaluate [node (str "x")] 0); Receive [] 0; Task 0 0;
     BuilderRuns (Evaluate [node (str "x"); node (str "y")] 1); Receive [] 1;
     Network (net [str "x"; str "y"]); Task 0 (from_secs 2)] in
  max_lateral_connections (config_of (shared m)) = Some 1 ∧ size (lateral_connections (shared m)) = 2.
Proof. split; vm_eq. Qed.
(** A stopped manager is connected again by a retry task. *)
Lemma retry_reconnects_after_stop :
  let m := run_net Platform []
    [StartManager; BuilderRuns (Evaluate [node (str "a")] 0); Receive [] 0; Task 0 0; StopManager;
     Network (net [str "a"]); Task 0 (from_secs 2)] in
  event_loop_running m = false ∧ selected_peer_id (shared m) = Some (str "a").
Proof. split; vm_eq. Qed.

(** ** Witnesses *)
Definition full : list (input (T:=Net)) :=
  [StartManager; BuilderRuns (Evaluate [node (str "x")] 0); Receive [] 0;
   BuilderRuns (Evaluate [node (str "x"); node (str "y")] 1)].
Lemma lateral_limit_ends_loop_witness :
  event_queue (builder (shared (run_net Squad [str "x"; str "y"] full)))
    = [LateralPeerDiscovered (str "y") (node (str "y"))]
  ∧ ∀ inputs', event_loop_running
      (run Release (step Release (run_net Squad [str "x"; str "y"] full) (Receive [] 2)) inputs') = false.
Proof.
  assert (event_queue (builder (shared (run_net Squad [str "x"; str "y"] full)))
    = [LateralPeerDiscovered (str "y") (node (str "y"))]) as Hq by vm_eq.
  split; [exact Hq|].
  assert (event_loop_running (run_net Squad [str "x"; str "y"] full) = true) as Hr by vm_eq.
  assert (max_lateral_connections (config_of (shared (run_net Squad [str "x"; str "y"] full))) = Some 1)
    as Hm by vm_eq.
  assert (size (lateral_connections (shared (run_net Squad [str "x"; str "y"] full))) = 1) as Hs by vm_eq.
  exact (lateral_limit_ends_loop Release (at_level Squad) (net [str "x"; str "y"]) full [] 2 (str "y")
    (node (str "y")) [] 1 Hr Hq Hm (Nat.eq_le_incl _ _ (eq_sym Hs))).
Defined.

Definition failing : TopologyManager Net bytes unit := Eval vm_compute in
  run_net Platform [] [StartManager; BuilderRuns (Evaluate [node (str "a")] 0); Receive [] 0].
Lemma retry_task_ends_witness :
  tasks failing = [new_task false (str "a")]
  ∧ (phase_of (go_n 6 0 failing) 0 = Some Finished ∧ retry_state (shared (go_n 6 0 failing)) (new_task false (str "a")) = None).
Proof.
  split; [vm_eq|].
  assert (backoffs_ok (config_of (shared failing))) as Hb.
  { intros k [H0 H1]. change (max_retries (config_of (shared failing))) with 3%Z in H1.
    destruct (decide (k = 0%Z)) as [->|]; [vm_eq|]. destruct (decide (k = 1%Z)) as [->|]; [vm_eq|].
    assert (k = 2%Z) as -> by lia. vm_eq. }
  assert (∀ peer (tr : Net), (transport_connect (Conn:=bytes) peer tr).1 ≠ Panic) as Hp.
  { intros peer tr. cbn. by case_bool_decide. }
  exact (retry_task_ends failing 0 (new_task false (str "a")) {| attempts := 0; next_retry := 0 |}
    Hb Hp eq_refl eq_refl eq_refl (conj (Z.le_refl 0) eq_refl)).
Defined.

Definition idle : Shared Net bytes unit := shared (run_net Platform [str "a"] []).
Definition two_packets : list DataPacket :=
  [Packet.telemetry (str "p1") (str "me") []; Packet.telemetry (str "p2") (str "me") []].
Lemma telemetry_survives_failover_witness :
  let s'' := (handle_event (queue_all idle two_packets) [] 0 (PeerSelected (str "a") (node (str "a")))).2 in
  (telemetry_buffer s'' = [] ∧ selected_peer_id s'' = Some (str "a") ∧ peer_connection s'' = Some (str "a")
   ∧ transport s'' = send_packets (Conn:=bytes) (str "a") (newest 100 ([] ++ two_packets)) (net [str "a"]))
  ∧ packets_sent (transport s'') = [(str "a", str "p1"); (str "a", str "p2")].
Proof.
  split; [|vm_eq].
  assert (0 < max_telemetry_buffer_size (config_of idle)) as H0 by (apply Nat.ltb_lt; vm_eq).
  assert (length (telemetry_buffer idle) ≤ max_telemetry_buffer_size (config_of idle)) as H1 by (apply Nat.leb_le; vm_eq).
  assert (connect (queue_all idle two_packets) (str "a") = (Ok (str "a"), queue_all idle two_packets)) as H2 by vm_eq.
  exact (telemetry_survives_failover idle two_packets [] 0 (str "a") (node (str "a")) (str "a") _ H0 H1 H2).
Defined.
