(* ===== verification/Decoders.v ===== *)
(** The formats that are read from the network or from disk, together: an interface of
    what a format promises, its instances, and that no decoder panics on any input. *)
From Stdlib Require Import Strings.Byte.
From stdpp Require Import prelude.
From S2P Require Import Prelude Wire Crypto Certificate Enrollment Genesis Deletion.
From S2P Require Import Bypass LiteWire SyncWire Encryption Formation.

(** A format whose values can be followed by other bytes: the decoder accepts exactly
    the encodings of the values the format represents and does not look behind them. *)
Class PrefixCodec {E A} (decode : bytes → outcome E A) (encode : A → bytes) (ok : A → Prop)
    : Prop := {
  prefix_exact data x : decode data = Ok x ↔ ok x ∧ ∃ rest, data = encode x ++ rest;
  prefix_no_panic data : no_panic (decode data)
}.
(** A format that takes all of its input. *)
Class WholeCodec {E A} (decode : bytes → outcome E A) (encode : A → bytes) (ok : A → Prop)
    : Prop := {
  whole_exact data x : decode data = Ok x ↔ ok x ∧ data = encode x;
  whole_no_panic data : no_panic (decode data)
}.

(** No encoding begins another one. *)
Lemma prefix_unambiguous {E A} (dec : bytes → outcome E A) enc ok `{!PrefixCodec dec enc ok} x y r1 r2 :
  ok x → ok y → enc x ++ r1 = enc y ++ r2 → x = y ∧ r1 = r2.
Proof.
  intros Hx Hy Heq.
  assert (dec (enc x ++ r1) = Ok x) as H1 by (apply prefix_exact; eauto).
  assert (dec (enc y ++ r2) = Ok y) as H2 by (apply prefix_exact; eauto).
  rewrite Heq, H2 in H1. injection H1 as <-. by apply app_inv_head in Heq.
Qed.

#[export] Instance cert_codec :
  PrefixCodec Cert.decode Cert.encode (λ c, cert_wf c ∧ cert_ids_fit c).
Proof. split; [|auto with wire]. intros. rewrite Cert.cert_decode_exact. naive_solver. Qed.
#[export] Instance request_codec :
  PrefixCodec Request.decode Request.encode (λ r, Request.request_wf r ∧ Request.request_fits r).
Proof. split; [|auto with wire]. intros. rewrite Request.request_decode_exact. naive_solver. Qed.
#[export] Instance credentials_codec :
  PrefixCodec Credentials.decode Credentials.encode Credentials.credentials_wf.
Proof. split; [apply Credentials.credentials_decode_exact|auto with wire]. Qed.
#[export] Instance genesis_codec `{!Ed25519, !Ed25519Laws} :
  PrefixCodec Genesis.decode Genesis.encode Genesis.genesis_wf.
Proof. split; [apply Genesis.genesis_decode_exact|auto with wire]. Qed.
#[export] Instance tombstone_codec :
  PrefixCodec SyncMessage.decode SyncMessage.encode
    (λ m, SyncMessage.message_wf m ∧ SyncMessage.on_wire m = m).
Proof. split; [|auto with wire]. intros. rewrite SyncMessage.tombstone_decode_exact. naive_solver. Qed.
#[export] Instance header_codec : PrefixCodec Header.decode Header.encode Header.header_wf.
Proof. split; [apply Header.header_decode_exact|auto with wire]. Qed.
#[export] Instance sync_batch_codec :
  PrefixCodec SyncBatches.decode SyncBatches.encode SyncBatches.batch_wf.
Proof.
  split; [|apply SyncBatches.sync_batch_decode_no_panic]. intros data b.
  exact (proj2 (SyncBatches.sync_batch_decode_exact data b)).
Qed.
#[export] Instance query_codec `{!PeatLite, !PeatLiteLaws} :
  PrefixCodec query_decode query_encode query_wf.
Proof. split; [apply lite_decode_exact|apply query_decode_no_panic]. Qed.
#[export] Instance challenge_codec :
  PrefixCodec Challenge.from_bytes Challenge.to_bytes Challenge.challenge_wf.
Proof.
  split; [|apply Challenge.challenge_decode_no_panic]. intros data c. split.
  - apply Challenge.challenge_decode_inv.
  - intros [Hc [rest ->]]. by apply (Challenge.challenge_decode_cursor _ _ rest), cursor_start.
Qed.
#[export] Instance lite_codec `{!PeatLite, !PeatLiteLaws} :
  WholeCodec LiteWire.decode LiteWire.encode frame_wf.
Proof. split; [apply lite_decode_exact|apply LiteWire.decode_no_panic]. Qed.
#[export] Instance cell_message_codec :
  WholeCodec CellMessage.from_bytes CellMessage.to_bytes CellMessage.message_wf.
Proof.
  split; [|apply CellMessage.cell_message_no_panic]. intros data m. split.
  - by intros [-> ?]%CellMessage.cell_message_to_from.
  - intros [? ->]. by apply CellMessage.cell_message_from_to.
Qed.
#[export] Instance encrypted_data_codec :
  WholeCodec Data.from_bytes Data.to_bytes (λ e, length (nonce e) = 12).
Proof.
  split; [|apply Data.data_from_no_panic]. intros data e. split.
  - by intros [-> ?]%Data.data_to_from.
  - intros [? ->]. by apply Data.data_from_to.
Qed.

(** C19.  The wire and file formats are exact: certificates, enrollment requests, mesh
    credentials and genesis, tombstones, bypass headers, sync batches, lite queries and
    formation challenges decode exactly from the encodings of the values their format
    represents, followed by anything, and lite frames, encrypted cell messages and
    encrypted data from these encodings alone; no input makes a decoder panic. *)
Theorem codecs_exact {Ed : Ed25519} {EdL : Ed25519Laws} {PL : PeatLite} {PLL : PeatLiteLaws} :
  PrefixCodec Cert.decode Cert.encode (λ c, cert_wf c ∧ cert_ids_fit c)
  ∧ PrefixCodec Request.decode Request.encode (λ r, Request.request_wf r ∧ Request.request_fits r)
  ∧ PrefixCodec Credentials.decode Credentials.encode Credentials.credentials_wf
  ∧ PrefixCodec Genesis.decode Genesis.encode Genesis.genesis_wf
  ∧ PrefixCodec SyncMessage.decode SyncMessage.encode
      (λ m, SyncMessage.message_wf m ∧ SyncMessage.on_wire m = m)
  ∧ PrefixCodec Header.decode Header.encode Header.header_wf
  ∧ PrefixCodec SyncBatches.decode SyncBatches.encode SyncBatches.batch_wf
  ∧ PrefixCodec query_decode query_encode query_wf
  ∧ PrefixCodec Challenge.from_bytes Challenge.to_bytes Challenge.challenge_wf
  ∧ WholeCodec LiteWire.decode LiteWire.encode frame_wf
  ∧ WholeCodec CellMessage.from_bytes CellMessage.to_bytes CellMessage.message_wf
  ∧ WholeCodec Data.from_bytes Data.to_bytes (λ e, length (nonce e) = 12).
Proof. split_and!; apply _. Qed.

#[local] Existing Instances toy_ed25519 toy_peat_lite.
Lemma codecs_exact_witness :
  Genesis.decode (Genesis.encode ex_genesis ++ [Byte.x00]) = Ok ex_genesis
  ∧ LiteWire.decode (LiteWire.encode (ack 7 9)) = Ok (ack 7 9).
Proof.
  destruct (codecs_exact (EdL := toy_ed25519_laws) (PLL := toy_peat_lite_laws))
    as (_ & _ & _ & G & _ & _ & _ & _ & _ & L & _ & _). split.
  - apply (prefix_exact (PrefixCodec := G)). split; [apply ex_genesis_wf|by exists [Byte.x00]].
  - apply (whole_exact (WholeCodec := L)). split; [by split|done].
Defined.

(** Robustness of the nested formats: for every byte string, decoding it as an
    enrollment response with its certificate and secret, as a batch of tombstones, as an
    entry of a sync batch or as a frame of the sync protocol returns a value or an error
    and never panics; what a response or a batch of tombstones was encoded from is
    what decoding returns. *)
Theorem nested_decoders {SM : SyncMessages} data rest :
  no_panic (Enrollment.Response.decode data) ∧
  no_panic (Batch.decode data) ∧
  no_panic (SyncWire.Entry.decode data) ∧
  no_panic (receive_sync_payload_from_stream data) ∧
  (∀ r, Enrollment.Response.response_wf r →
     Enrollment.Response.decode (Enrollment.Response.encode r ++ rest) = Ok r) ∧
  (∀ b, Forall SyncMessage.message_wf (Batch.tombstones b) → (zlen (Batch.tombstones b) < 2 ^ 32)%Z →
     Batch.decode (Batch.encode b ++ rest)
     = Ok {| Batch.tombstones := SyncMessage.on_wire <$> Batch.tombstones b |}).
Proof.
  split_and!; [auto with wire|auto with wire|apply Entry.entry_decode_no_panic|..].
  - apply stream_no_panic.
  - intros; by apply Enrollment.Response.response_roundtrip.
  - intros; by apply Batch.batch_roundtrip.
Qed.
