(* ===== verification/SyncTypes.v ===== *)
(** The types of the sync backend abstraction ([src/sync/types.rs]): documents, the query
    language with its deletion modifiers and spatial queries, subscriptions with their
    quality of service, and the metrics of sync modes.  The evaluation of a query on a
    document is [evaluate_query] of [src/sync/in_memory.rs]. *)
From Stdlib Require Import ZArith Lia Floats.SpecFloat Strings.Byte Strings.String.
From stdpp Require Import prelude gmap.
From S2P Require Import Prelude Wire Text Float Json Beacon SyncProtocol.

Set Default Proof Using "Type".

(** * Documents *)
Section document.
Context `{!JsonNumber}.
Record Document := {
  doc_id : option bytes;
  fields : gmap bytes Value;
  updated_at : Z
}.
End document.

Module Document.
Section ops.
Context `{!JsonNumber}.
Definition new (fs : gmap bytes Value) (now : Z) : Document :=
  {| doc_id := None; fields := fs; updated_at := now |}.
Definition with_id (id : bytes) (fs : gmap bytes Value) (now : Z) : Document :=
  {| doc_id := Some id; fields := fs; updated_at := now |}.
Definition get (d : Document) (field : bytes) : option Value := fields d !! field.
Definition set (d : Document) (field : bytes) (v : Value) (now : Z) : Document :=
  {| doc_id := doc_id d; fields := <[field := v]> (fields d); updated_at := now |}.
End ops.
End Document.

(** * Points *)
Record GeoPoint := { point_lat : float; point_lon : float }.

Module GeoPoint.
Definition new (lat lon : float) : GeoPoint := {| point_lat := lat; point_lon := lon |}.
Definition within_bounds (p min max : GeoPoint) : bool :=
  fle (point_lat min) (point_lat p) && fle (point_lat p) (point_lat max)
  && fle (point_lon min) (point_lon p) && fle (point_lon p) (point_lon max).
Section distance.
Context {Pw : Powi} {Lm : Libm}.
Definition haversine_distance (lat1 lon1 lat2 lon2 : float) : float :=
  let two := F64.of_Z 2 in
  let lat1_rad := Position.to_radians lat1 in
  let lat2_rad := Position.to_radians lat2 in
  let delta_lat := Position.to_radians (F64.sub lat2 lat1) in
  let delta_lon := Position.to_radians (F64.sub lon2 lon1) in
  let a := F64.add (powi (fsin (F64.div delta_lat two)) 2)
             (F64.mul (F64.mul (fcos lat1_rad) (fcos lat2_rad))
                (powi (fsin (F64.div delta_lon two)) 2)) in
  let c := F64.mul two (fasin (F64.sqrt a)) in
  F64.mul (F64.of_Z 6371000) c.
Definition distance_to (p other : GeoPoint) : float :=
  haversine_distance (point_lat p) (point_lon p) (point_lat other) (point_lon other).
Definition within_radius (p center : GeoPoint) (radius_meters : float) : bool :=
  fle (distance_to p center) radius_meters.
End distance.
End GeoPoint.

(** * Queries *)
Section query.
Context `{!JsonNumber}.
Inductive Query :=
| QEq (field : bytes) (value : Value)
| QLt (field : bytes) (value : Value)
| QGt (field : bytes) (value : Value)
| QAnd (queries : list Query)
| QOr (queries : list Query)
| QNot (inner : Query)
| QAll
| QCustom (query : bytes)
| IncludeDeleted (inner : Query)
| DeletedOnly
| WithinRadius (center : GeoPoint) (radius_meters : float) (lat_field lon_field : option bytes)
| WithinBounds (min max : GeoPoint) (lat_field lon_field : option bytes).
End query.

Module Query.
Section ops.
Context `{!JsonNumber}.
Definition includes_deleted (q : Query) : bool :=
  match q with IncludeDeleted _ | DeletedOnly => true | _ => false end.
Definition is_deleted_only (q : Query) : bool := match q with DeletedOnly => true | _ => false end.
Definition with_deleted (q : Query) : Query := if includes_deleted q then q else IncludeDeleted q.
Definition inner_query (q : Query) : Query := match q with IncludeDeleted inner => inner | _ => q end.
(** The soft-delete mark of a document. *)
Definition is_deleted (d : Document) : bool :=
  default false (fields d !! str "_deleted" ≫= as_bool).
Definition matches_deletion_state (q : Query) (d : Document) : bool :=
  match q with
  | DeletedOnly => is_deleted d
  | IncludeDeleted _ => true
  | _ => negb (is_deleted d)
  end.

(** ** Evaluation *)
(** Numbers compare as floats, strings by their bytes, nothing else does. *)
Definition compare_values (a b : Value) : option comparison :=
  match a, b with
  | Number a, Number b =>
      x ← number_as_f64 a; y ← number_as_f64 b; SFcompare x y
  | String a, String b => Some (bytes_cmp a b)
  | _, _ => None
  end.
(** The position of a document, from two of its fields. *)
Definition point_of (d : Document) (lat_field lon_field : option bytes) : option GeoPoint :=
  lat_val ← fields d !! default (str "lat") lat_field;
  lon_val ← fields d !! default (str "lon") lon_field;
  lat ← as_f64 lat_val; lon ← as_f64 lon_val; Some (GeoPoint.new lat lon).

Context {Pw : Powi} {Lm : Libm}.
Fixpoint evaluate_query (d : Document) (q : Query) : bool :=
  match q with
  | QAll => true
  | QEq field value =>
      if decide (field = str "id") then bool_decide (doc_id d = as_str value)
      else match fields d !! field with Some v => value_eqb v value | None => false end
  | QLt field value =>
      match fields d !! field with
      | Some v => bool_decide (compare_values v value = Some Lt)
      | None => false
      end
  | QGt field value =>
      match fields d !! field with
      | Some v => bool_decide (compare_values v value = Some Gt)
      | None => false
      end
  | QAnd queries => forallb (evaluate_query d) queries
  | QOr queries => existsb (evaluate_query d) queries
  | QNot inner => negb (evaluate_query d inner)
  | WithinRadius center radius lat_field lon_field =>
      match point_of d lat_field lon_field with
      | Some p => GeoPoint.within_radius p center radius
      | None => false
      end
  | WithinBounds min max lat_field lon_field =>
      match point_of d lat_field lon_field with
      | Some p => GeoPoint.within_bounds p min max
      | None => false
      end
  | IncludeDeleted inner => evaluate_query d inner
  | DeletedOnly => is_deleted d
  | QCustom _ => true
  end.
(** What a collection is filtered with. *)
Definition matches (q : Query) (d : Document) : bool :=
  matches_deletion_state q d && evaluate_query d (inner_query q).
End ops.
End Query.

(** * Changes and peers *)
Section events.
Context `{!JsonNumber}.
Inductive ChangeEvent :=
| Updated (collection : bytes) (document : Document)
| Removed (collection : bytes) (id : bytes)
| Initial (documents : list Document).
End events.

Inductive PeerTransport := Tcp | BluetoothTransport | Mdns | WebSocket | CustomTransport.
Record PeerInfo := {
  peer_id : bytes;
  address : option bytes;
  peer_transport : PeerTransport;
  peer_connected : bool;
  peer_last_seen : Z;
  peer_metadata : gmap bytes bytes
}.
Inductive PeerEvent :=
| Discovered (p : PeerInfo)
| Connected (p : PeerInfo)
| Disconnected (id : bytes) (reason : option bytes)
| Lost (id : bytes).

Record TransportConfig := {
  tcp_listen_port : option Z;
  tcp_connect_address : option bytes;
  enable_mdns : bool;
  enable_bluetooth : bool;
  enable_websocket : bool;
  custom : gmap bytes bytes
}.
Definition default_transport_config : TransportConfig := {|
  tcp_listen_port := None; tcp_connect_address := None; enable_mdns := true;
  enable_bluetooth := false; enable_websocket := false; custom := ∅ |}.
Record BackendConfig := {
  app_id : bytes;
  persistence_dir : bytes;
  shared_key : option bytes;
  transport_config : TransportConfig;
  extra : gmap bytes bytes
}.

(** * Subscriptions *)
Record SubscriptionQoS := {
  sync_mode : SyncMode;
  max_documents : option Z;
  update_rate_ms : option Z
}.
Module SubscriptionQoS.
Definition default_qos : SubscriptionQoS :=
  {| sync_mode := FullHistory; max_documents := None; update_rate_ms := None |}.
Definition set_mode (q : SubscriptionQoS) (m : SyncMode) : SubscriptionQoS :=
  {| sync_mode := m; max_documents := max_documents q; update_rate_ms := update_rate_ms q |}.
Definition latest_only : SubscriptionQoS := set_mode default_qos LatestOnly.
Definition full_history : SubscriptionQoS := set_mode default_qos FullHistory.
Definition windowed (window_seconds : Z) : SubscriptionQoS :=
  set_mode default_qos (WindowedHistoryMode window_seconds).
Definition with_max_documents (q : SubscriptionQoS) (max : Z) : SubscriptionQoS :=
  {| sync_mode := sync_mode q; max_documents := Some max; update_rate_ms := update_rate_ms q |}.
Definition with_rate_limit (q : SubscriptionQoS) (rate_ms : Z) : SubscriptionQoS :=
  {| sync_mode := sync_mode q; max_documents := max_documents q; update_rate_ms := Some rate_ms |}.
End SubscriptionQoS.

Section subscription.
Context `{!JsonNumber}.
Record Subscription := {
  sub_collection : bytes;
  sub_query : Query;
  sub_qos : SubscriptionQoS
}.
End subscription.
Module Subscription.
Section ops.
Context `{!JsonNumber}.
Definition with_qos (c : bytes) (q : Query) (qos : SubscriptionQoS) : Subscription :=
  {| sub_collection := c; sub_query := q; sub_qos := qos |}.
Definition with_query (c : bytes) (q : Query) : Subscription :=
  with_qos c q SubscriptionQoS.default_qos.
Definition all (c : bytes) : Subscription := with_query c QAll.
Definition within_radius (c : bytes) (center : GeoPoint) (radius : float) : Subscription :=
  with_query c (WithinRadius center radius None None).
Definition within_bounds (c : bytes) (min max : GeoPoint) : Subscription :=
  with_query c (WithinBounds min max None None).
Definition update_query (s : Subscription) (q : Query) : Subscription :=
  with_qos (sub_collection s) q (sub_qos s).
Definition update_qos (s : Subscription) (qos : SubscriptionQoS) : Subscription :=
  with_qos (sub_collection s) (sub_query s) qos.
Definition update_sync_mode (s : Subscription) (m : SyncMode) : Subscription :=
  update_qos s (SubscriptionQoS.set_mode (sub_qos s) m).
Definition update_center (s : Subscription) (new_center : GeoPoint) : Subscription :=
  match sub_query s with
  | WithinRadius _ r la lo => update_query s (WithinRadius new_center r la lo)
  | _ => s
  end.
Definition update_radius (s : Subscription) (new_radius : float) : Subscription :=
  match sub_query s with
  | WithinRadius c _ la lo => update_query s (WithinRadius c new_radius la lo)
  | _ => s
  end.
End ops.
End Subscription.

(** * Metrics of sync modes *)
Record ModeTotals := { syncs : Z; synced_bytes : Z; duration_ms : Z }.
Record SyncModeMetrics := {
  total_syncs : Z;
  full_history : ModeTotals;
  latest_only : ModeTotals;
  windowed : ModeTotals
}.
Module Metrics.
Definition no_totals : ModeTotals := {| syncs := 0; synced_bytes := 0; duration_ms := 0 |}.
Definition new : SyncModeMetrics :=
  {| total_syncs := 0; full_history := no_totals; latest_only := no_totals; windowed := no_totals |}.
Section record.
Context {E : Type} (p : profile).
(** Counters are 64 bits wide; the milliseconds of a duration are cut to 64 bits. *)
Definition add_sync (t : ModeTotals) (bytes duration : Z) : outcome E ModeTotals :=
  s ← checked p 64 (syncs t + 1);
  b ← checked p 64 (synced_bytes t + bytes);
  d ← checked p 64 (duration_ms t + wrap 64 (duration / ns_per_ms));
  Ok {| syncs := s; synced_bytes := b; duration_ms := d |}.
Definition record_sync (m : SyncModeMetrics) (mode : SyncMode) (bytes duration : Z)
    : outcome E SyncModeMetrics :=
  total ← checked p 64 (total_syncs m + 1);
  match mode with
  | FullHistory =>
      t ← add_sync (full_history m) bytes duration;
      Ok {| total_syncs := total; full_history := t; latest_only := latest_only m;
            windowed := windowed m |}
  | LatestOnly =>
      t ← add_sync (latest_only m) bytes duration;
      Ok {| total_syncs := total; full_history := full_history m; latest_only := t;
            windowed := windowed m |}
  | WindowedHistoryMode _ =>
      t ← add_sync (windowed m) bytes duration;
      Ok {| total_syncs := total; full_history := full_history m; latest_only := latest_only m;
            windowed := t |}
  end.
End record.
Definition avg_bytes (t : ModeTotals) : float :=
  if (syncs t =? 0)%Z then F64.of_Z 0 else F64.div (F64.of_Z (synced_bytes t)) (F64.of_Z (syncs t)).
Definition bandwidth_savings_ratio (m : SyncModeMetrics) : option float :=
  let fh_avg := avg_bytes (full_history m) in
  let lo_avg := avg_bytes (latest_only m) in
  if feq lo_avg (F64.of_Z 0) || feq fh_avg (F64.of_Z 0) then None else Some (F64.div fh_avg lo_avg).
End Metrics.
