(* ===== verification/InMemory.v ===== *)
(** The in-memory sync backend ([src/sync/in_memory.rs]) with the interfaces it implements
    and their default methods ([src/sync/traits.rs]).

    The locks of the backend make every operation atomic, except that [deletion_policy]
    only tries to take its lock: whether it succeeds is an argument ([readable]).  The
    channel of an observer is the list of events sent on it; a callback is the list of
    events it was called with.  Clock readings and fresh identifiers are arguments. *)
From Stdlib Require Import ZArith Lia Strings.Byte Strings.String.
From stdpp Require Import prelude gmap.
From S2P Require Import Prelude Wire Text Deletion Iteration Float Json Beacon SyncTypes.

Set Default Proof Using "Type".

Inductive BackendError := PeerTimeout (peer : bytes).

(** * [DocumentStore]: what an implementation provides, and the default methods *)
Class DocumentStore `{!JsonNumber} (S : Type) := {
  store_query : bytes → Query → stm S BackendError (list Document);
  store_remove : bytes → bytes → stm S BackendError unit;
  (** Whether the policies can be read at the moment. *)
  store_deletion_policy : bool → S → bytes → DeletionPolicy
}.
Section defaults.
Context `{!JsonNumber} {S : Type} `{!DocumentStore S}.
Abbreviation M A := (stm S BackendError A).
Definition get (c id : bytes) : M (option Document) :=
  docs ← store_query c (QEq (str "id") (Json.String id)); mret (head docs).
Definition count (c : bytes) (q : Query) : M nat :=
  docs ← store_query c q; mret (length docs).
Definition is_deleted (c id : bytes) : M bool :=
  d ← get c id;
  mret match d with
       | Some d => match fields d !! str "_deleted" with
                   | Some v => default false (as_bool v)
                   | None => false
                   end
       | None => false
       end.
(** For stores that do not override them. *)
Definition default_delete (readable : bool) (c id : bytes) : M DeleteResult := λ s,
  let policy := store_deletion_policy readable s c in
  if Policies.is_immutable policy then (Ok immutable, s)
  else (_ ← store_remove c id; mret (soft_deleted policy)) s.
Definition default_apply_tombstone (t : Tombstone) : M unit :=
  store_remove (collection t) (document_id t).
End defaults.

(** * The backend *)
Section backend.
Context `{!JsonNumber}.
Record ObserverEntry := {
  observed : bytes;
  observer_query : Query;
  sent : list ChangeEvent
}.
Record InMemoryBackend := {
  collections : gmap bytes (gmap bytes Document);
  peers : gmap bytes PeerInfo;
  observers : list ObserverEntry;
  tombstones : gmap bytes Tombstone;
  peer_callbacks : list (list PeerEvent);
  config : option BackendConfig;
  syncing : bool;
  subscriptions : list bytes;
  initialized : bool;
  deletion_policies : gmap bytes DeletionPolicy
}.
End backend.

Module Backend.
Section ops.
Context `{!JsonNumber} {Pw : Powi} {Lm : Libm} {DO : IterOrder bytes Document}
  {TO : IterOrder bytes Tombstone} {PO : IterOrder bytes PeerInfo}.
Abbreviation M A := (stm InMemoryBackend BackendError A).

Definition new : InMemoryBackend := {|
  collections := ∅; peers := ∅; observers := []; tombstones := ∅; peer_callbacks := [];
  config := None; syncing := false; subscriptions := []; initialized := false;
  deletion_policies := ∅ |}.
Definition set_docs (s : InMemoryBackend) cs obs : InMemoryBackend := {|
  collections := cs; peers := peers s; observers := obs; tombstones := tombstones s;
  peer_callbacks := peer_callbacks s; config := config s; syncing := syncing s;
  subscriptions := subscriptions s; initialized := initialized s;
  deletion_policies := deletion_policies s |}.
Definition set_tombstones (s : InMemoryBackend) ts : InMemoryBackend := {|
  collections := collections s; peers := peers s; observers := observers s; tombstones := ts;
  peer_callbacks := peer_callbacks s; config := config s; syncing := syncing s;
  subscriptions := subscriptions s; initialized := initialized s;
  deletion_policies := deletion_policies s |}.
Definition set_peers (s : InMemoryBackend) ps cbs : InMemoryBackend := {|
  collections := collections s; peers := ps; observers := observers s;
  tombstones := tombstones s; peer_callbacks := cbs; config := config s; syncing := syncing s;
  subscriptions := subscriptions s; initialized := initialized s;
  deletion_policies := deletion_policies s |}.
Definition set_lifecycle (s : InMemoryBackend) cfg sy subs init pols : InMemoryBackend := {|
  collections := collections s; peers := peers s; observers := observers s;
  tombstones := tombstones s; peer_callbacks := peer_callbacks s; config := cfg; syncing := sy;
  subscriptions := subs; initialized := init; deletion_policies := pols |}.

Definition new_initialized : InMemoryBackend := set_lifecycle new None false [] true ∅.
Definition document_count (s : InMemoryBackend) : nat :=
  map_fold (λ _ c n, size c + n) 0 (collections s).
Definition collection_count (s : InMemoryBackend) : nat := size (collections s).
Definition clear_collection (c : bytes) (s : InMemoryBackend) : InMemoryBackend :=
  match collections s !! c with
  | Some _ => set_docs s (<[c := ∅]> (collections s)) (observers s)
  | None => s
  end.
Definition set_deletion_policy (c : bytes) (p : DeletionPolicy) (s : InMemoryBackend)
    : InMemoryBackend :=
  set_lifecycle s (config s) (syncing s) (subscriptions s) (initialized s)
    (<[c := p]> (deletion_policies s)).
Definition notify_observers (c : bytes) (ev : ChangeEvent) (obs : list ObserverEntry)
    : list ObserverEntry :=
  (λ o, if decide (observed o = c)
        then {| observed := observed o; observer_query := observer_query o; sent := sent o ++ [ev] |}
        else o) <$> obs.

(** ** [DocumentStore] *)
Definition upsert (c : bytes) (d : Document) (fresh : bytes) (now : Z) : M bytes := λ s,
  let id := default fresh (doc_id d) in
  let d := {| doc_id := Some id; fields := fields d; updated_at := now |} in
  let col := default ∅ (collections s !! c) in
  (Ok id, set_docs s (<[c := <[id := d]> col]> (collections s))
            (notify_observers c (Updated c d) (observers s))).
Definition query (c : bytes) (q : Query) : M (list Document) := λ s,
  (Ok match collections s !! c with
      | Some col => filter (λ d, Query.matches q d = true) (iter col).*2
      | None => []
      end, s).
Definition remove (c id : bytes) : M unit := λ s,
  (Ok tt, match collections s !! c with
          | Some col =>
              match col !! id with
              | Some _ => set_docs s (<[c := delete id col]> (collections s))
                            (notify_observers c (Removed c id) (observers s))
              | None => s
              end
          | None => s
          end).
Definition observe (c : bytes) (q : Query) : M nat := λ s,
  (Ok (length (observers s)),
   set_docs s (collections s)
     (observers s ++ [{| observed := c; observer_query := q; sent := [] |}])).
Definition deletion_policy (readable : bool) (s : InMemoryBackend) (c : bytes) : DeletionPolicy :=
  if readable then default Policies.default_policy (deletion_policies s !! c)
  else Policies.default_policy.

(** [SystemTime + Duration]: seconds are an [i64]. *)
Definition system_time_add (t d : Z) : outcome BackendError Z :=
  if (t + d <? 2 ^ 63 * 1000000000)%Z then Ok (t + d)%Z else Panic.
Definition soft_delete (c id : bytes) (now : Z) (s : InMemoryBackend) : InMemoryBackend :=
  match collections s !! c with
  | Some col =>
      match col !! id with
      | Some d =>
          let d := {| doc_id := doc_id d; fields := <[str "_deleted" := Json.Bool true]> (fields d);
                      updated_at := now |} in
          set_docs s (<[c := <[id := d]> col]> (collections s))
            (notify_observers c (Updated c d) (observers s))
      | None => s
      end
  | None => s
  end.
Definition local_tombstone (c id : bytes) (reason : option bytes) (now : Z) : Tombstone := {|
  document_id := id; collection := c; deleted_at := now; deleted_by := str "local";
  lamport := 1; reason := reason |}.
Definition put_tombstone (t : Tombstone) (s : InMemoryBackend) : InMemoryBackend :=
  set_tombstones s (<[Tomb.key t := t]> (tombstones s)).
(** [now] and [now'] are the two clock readings. *)
Definition delete (readable : bool) (c id : bytes) (reason : option bytes) (now now' : Z)
    : M DeleteResult := λ s,
  let policy := deletion_policy readable s c in
  match policy with
  | Immutable => (Ok immutable, s)
  | SoftDelete _ => (Ok (soft_deleted policy), soft_delete c id now s)
  | TombstonePolicy ttl _ =>
      (_ ← remove c id;
       _ ← modify (put_tombstone (local_tombstone c id reason now));
       expires_at ← lift (system_time_add now' ttl);
       mret (tombstoned id expires_at policy)) s
  | ImplicitTTL _ _ => (Ok (soft_deleted policy), s)
  end.
Definition get_tombstones (c : bytes) : M (list Tombstone) := λ s,
  (Ok (filter (λ t, collection t = c) (iter (tombstones s)).*2), s).
Definition apply_tombstone (t : Tombstone) : M unit :=
  _ ← remove (collection t) (document_id t); modify (put_tombstone t).

(** ** [PeerDiscovery] *)
Definition discovered_peers (s : InMemoryBackend) : list PeerInfo := (iter (peers s)).*2.
Definition add_peer (addr : bytes) (t : PeerTransport) (now : Z) (s : InMemoryBackend)
    : InMemoryBackend :=
  let id := str "peer-" ++ addr in
  let info := {| peer_id := id; address := Some addr; peer_transport := t; peer_connected := true;
                 peer_last_seen := now; peer_metadata := ∅ |} in
  set_peers s (<[id := info]> (peers s)) ((λ calls, calls ++ [Connected info]) <$> peer_callbacks s).
Definition on_peer_event (s : InMemoryBackend) : InMemoryBackend :=
  set_peers s (peers s) (peer_callbacks s ++ [[]]).
Definition get_peer_info (id : bytes) (s : InMemoryBackend) : option PeerInfo := peers s !! id.
Definition is_peer_connected (id : bytes) (s : InMemoryBackend) : bool :=
  default false (peer_connected <$> get_peer_info id s).
(** The peers and the clock at each poll, with at least fifty milliseconds between two;
    one round of the loop for each unit of fuel. *)
Fixpoint wait_for_peer (fuel : nat) (id : bytes) (deadline : Z) (polls : nat → InMemoryBackend * Z)
    (i : nat) : option (outcome BackendError unit) :=
  match fuel with
  | 0 => None
  | S fuel =>
      let '(s, now) := polls i in
      if bool_decide (is_Some (peers s !! id)) then Some (Ok tt)
      else if (deadline <=? now)%Z then Some (Err (PeerTimeout id))
      else wait_for_peer fuel id deadline polls (S i)
  end.

(** ** [SyncEngine] and [DataSyncBackend] *)
Definition start_sync (s : InMemoryBackend) : InMemoryBackend :=
  set_lifecycle s (config s) true (subscriptions s) (initialized s) (deletion_policies s).
Definition stop_sync (s : InMemoryBackend) : InMemoryBackend :=
  set_lifecycle s (config s) false (subscriptions s) (initialized s) (deletion_policies s).
Definition subscribe (c : bytes) (s : InMemoryBackend) : InMemoryBackend :=
  set_lifecycle s (config s) (syncing s) (subscriptions s ++ [c]) (initialized s)
    (deletion_policies s).
Definition initialize (cfg : BackendConfig) (s : InMemoryBackend) : InMemoryBackend :=
  set_lifecycle s (Some cfg) (syncing s) (subscriptions s) true (deletion_policies s).
Definition shutdown (s : InMemoryBackend) : InMemoryBackend :=
  set_lifecycle s (config s) false (subscriptions s) false (deletion_policies s).
Definition is_ready (s : InMemoryBackend) : bool := initialized s.

#[export] Instance in_memory_store : DocumentStore InMemoryBackend := {|
  store_query := query; store_remove := remove; store_deletion_policy := deletion_policy |}.
End ops.
End Backend.
Import Backend.
#[export] Existing Instance in_memory_store.

(** * Executions *)
Section executions.
Context `{!JsonNumber} {Pw : Powi} {Lm : Libm} {DO : IterOrder bytes Document}
  {TO : IterOrder bytes Tombstone} {PO : IterOrder bytes PeerInfo}.

(** The steps of an execution.  A deletion by tombstone takes two locks one after the
    other; when another operation comes between, it is [RemoveStep] and later
    [TombstoneStep]. *)
Inductive op :=
| Upsert (c : bytes) (d : Document) (fresh : bytes) (now : Z)
| RemoveStep (c id : bytes)
| TombstoneStep (t : Tombstone)
| Observe (c : bytes) (q : Query)
| Delete (readable : bool) (c id : bytes) (reason : option bytes) (now now' : Z)
| ApplyTombstone (t : Tombstone)
| ClearCollection (c : bytes)
| SetPolicy (c : bytes) (p : DeletionPolicy)
| AddPeer (addr : bytes) (t : PeerTransport) (now : Z)
| OnPeerEvent
| StartSync
| StopSync
| Subscribe (c : bytes)
| Initialize (cfg : BackendConfig)
| Shutdown.
Definition apply_op (s : InMemoryBackend) (o : op) : InMemoryBackend :=
  match o with
  | Upsert c d fresh now => (upsert c d fresh now s).2
  | RemoveStep c id => (remove c id s).2
  | TombstoneStep t => put_tombstone t s
  | Observe c q => (observe c q s).2
  | Delete readable c id reason now now' => (delete readable c id reason now now' s).2
  | ApplyTombstone t => (apply_tombstone t s).2
  | ClearCollection c => clear_collection c s
  | SetPolicy c p => set_deletion_policy c p s
  | AddPeer addr t now => add_peer addr t now s
  | OnPeerEvent => on_peer_event s
  | StartSync => start_sync s
  | StopSync => stop_sync s
  | Subscribe c => subscribe c s
  | Initialize cfg => initialize cfg s
  | Shutdown => shutdown s
  end.
Definition run : InMemoryBackend → list op → InMemoryBackend := foldl apply_op.

(** ** The documents of a collection *)
Definition docs_of (s : InMemoryBackend) (c : bytes) : gmap bytes Document :=
  default ∅ (collections s !! c).

(** Every operation changes the documents of a collection by at most one of these. *)
Inductive change :=
| Keep
| Put (id : bytes) (d : Document)
| Drop (id : bytes)
| Clear.
Definition apply_change (m : gmap bytes Document) (ch : change) : gmap bytes Document :=
  match ch with Keep => m | Put id d => <[id := d]> m | Drop id => base.delete id m | Clear => ∅ end.
Definition stored (d : Document) (id : bytes) (now : Z) : Document :=
  {| doc_id := Some id; fields := fields d; updated_at := now |}.
Definition marked (d : Document) (now : Z) : Document :=
  {| doc_id := doc_id d; fields := <[str "_deleted" := Json.Bool true]> (fields d); updated_at := now |}.
Definition drop_if (c c' : bytes) (id : bytes) (m : gmap bytes Document) : change :=
  if decide (c' = c) then match m !! id with Some _ => Drop id | None => Keep end else Keep.
Definition change_of (s : InMemoryBackend) (c : bytes) (o : op) : change :=
  match o with
  | Upsert c' d fresh now =>
      if decide (c' = c) then let id := default fresh (doc_id d) in Put id (stored d id now) else Keep
  | RemoveStep c' id => drop_if c c' id (docs_of s c)
  | Delete readable c' id _ now _ =>
      match deletion_policy readable s c' with
      | SoftDelete _ =>
          if decide (c' = c) then
            match docs_of s c !! id with Some d => Put id (marked d now) | None => Keep end
          else Keep
      | TombstonePolicy _ _ => drop_if c c' id (docs_of s c)
      | _ => Keep
      end
  | ApplyTombstone t => drop_if c (collection t) (document_id t) (docs_of s c)
  | ClearCollection c' => if decide (c' = c) then Clear else Keep
  | _ => Keep
  end.
Definition events_of (c : bytes) (ch : change) : list ChangeEvent :=
  match ch with Put _ d => [Updated c d] | Drop id => [Removed c id] | _ => [] end.

(** What an observer of [c] has heard after a change. *)
Definition hear (e : ObserverEntry) (ch : change) : ObserverEntry := {|
  observed := observed e; observer_query := observer_query e;
  sent := sent e ++ events_of (observed e) ch |}.
(** From [s] to [s'] each collection undergoes its change, and its observers are told. *)
Record mutates (s s' : InMemoryBackend) (f : bytes → change) : Prop := {
  mutates_docs c : docs_of s' c = apply_change (docs_of s c) (f c);
  mutates_observers i e : observers s !! i = Some e → observers s' !! i = Some (hear e (f (observed e)))
}.

Lemma hear_keep e : hear e Keep = e.
Proof. destruct e. unfold hear. cbn. by rewrite app_nil_r. Qed.
Lemma mutates_keep s s' :
  collections s' = collections s → observers s `prefix_of` observers s' → mutates s s' (λ _, Keep).
Proof.
  intros Hc Ho. split; [intros c; unfold docs_of; by rewrite Hc|].
  intros i e He. rewrite hear_keep. by eapply prefix_lookup_Some.
Qed.
Lemma mutates_ext s s' f g : mutates s s' f → (∀ c, g c = f c) → mutates s s' g.
Proof. intros [Hd Ho] E. split; intros *; rewrite E; auto. Qed.
Lemma notify_lookup c ev obs i e :
  obs !! i = Some e →
  notify_observers c ev obs !! i
  = Some (if decide (observed e = c)
          then {| observed := observed e; observer_query := observer_query e; sent := sent e ++ [ev] |}
          else e).
Proof. intros He. unfold notify_observers. by rewrite list_lookup_fmap, He. Qed.
Lemma mutates_put c0 id d s :
  mutates s (set_docs s (<[c0 := <[id := d]> (docs_of s c0)]> (collections s))
               (notify_observers c0 (Updated c0 d) (observers s)))
    (λ c, if decide (c0 = c) then Put id d else Keep).
Proof.
  split.
  - intros c. unfold docs_of at 1. cbn. case_decide as D.
    + subst. by rewrite lookup_insert_eq.
    + by rewrite lookup_insert_ne.
  - intros i e He. cbn. rewrite (notify_lookup _ _ _ _ _ He). repeat case_decide; try congruence.
    + by subst.
    + by rewrite hear_keep.
Qed.
Lemma mutates_remove c0 id s : mutates s (remove c0 id s).2 (λ c, drop_if c c0 id (docs_of s c)).
Proof.
  unfold remove. cbn. destruct (collections s !! c0) as [col|] eqn:Hc.
  - assert (docs_of s c0 = col) as Hd by (unfold docs_of; by rewrite Hc).
    destruct (col !! id) as [d|] eqn:Hi.
    + split.
      * intros c. unfold docs_of at 1, drop_if. cbn. case_decide as D.
        -- subst. by rewrite lookup_insert_eq, Hi.
        -- by rewrite lookup_insert_ne.
      * intros i e He. cbn. rewrite (notify_lookup _ _ _ _ _ He). unfold drop_if.
        repeat case_decide; try congruence; [|by rewrite hear_keep].
        subst. by rewrite Hi.
    + eapply mutates_ext; [by apply mutates_keep|]. intros c. unfold drop_if. case_decide; [|done].
      subst. by rewrite Hi.
  - eapply mutates_ext; [by apply mutates_keep|]. intros c. unfold drop_if. case_decide; [|done].
    subst. unfold docs_of. by rewrite Hc.
Qed.
Lemma mutates_then_tombstone s s' f t :
  mutates s s' f → mutates s (put_tombstone t s') f.
Proof. intros [Hd Ho]. split; [apply Hd|apply Ho]. Qed.
Lemma mutates_step s o : mutates s (apply_op s o) (λ c, change_of s c o).
Proof.
  destruct o as [c d fresh now|c id|t|c q|readable c id reason now now'|t|c|c p|addr t now| | | |c|cfg|];
    cbn [apply_op change_of]; try (by apply mutates_keep).
  - apply (mutates_put c (default fresh (doc_id d)) (stored d _ now)).
  - apply mutates_remove.
  - apply mutates_keep; [done|]. by eexists.
  - unfold delete. destruct (deletion_policy readable s c) as [ttl k|ttl w|b|]; try (by apply mutates_keep).
    + unfold mbind, stm_bind. cbn. destruct (system_time_add now' ttl);
        apply mutates_then_tombstone, mutates_remove.
    + cbn. unfold soft_delete. destruct (collections s !! c) as [col|] eqn:Hc.
      * assert (docs_of s c = col) as Hd by (unfold docs_of; by rewrite Hc). rewrite <-Hd.
        destruct (docs_of s c !! id) as [d|] eqn:Hi.
        -- eapply mutates_ext; [apply (mutates_put c id (marked d now))|].
           intros c'. cbv beta. case_decide; [|done]. subst. by rewrite Hi.
        -- eapply mutates_ext; [by apply mutates_keep|]. intros c'. case_decide; [|done].
           subst. by rewrite Hi.
      * eapply mutates_ext; [by apply mutates_keep|]. intros c'. case_decide; [|done].
        subst. unfold docs_of. by rewrite Hc.
  - apply mutates_then_tombstone, mutates_remove.
  - unfold clear_collection. destruct (collections s !! c) as [col|] eqn:Hc.
    + split.
      * intros c'. unfold docs_of at 1. cbn. case_decide.
        -- subst. by rewrite lookup_insert_eq.
        -- by rewrite lookup_insert_ne.
      * intros i e He. cbn. rewrite He. f_equal. case_decide; [|by rewrite hear_keep].
        unfold hear. cbn. rewrite app_nil_r. by destruct e.
    + split.
      * intros c'. case_decide; [|done]. subst. unfold docs_of. by rewrite Hc.
      * intros i e He. rewrite He. f_equal. case_decide; [|by rewrite hear_keep].
        unfold hear. cbn. rewrite app_nil_r. by destruct e.
Qed.
End executions.

(** * The documents are a map *)
Section refinement.
Context `{!JsonNumber} {Pw : Powi} {Lm : Libm} {DO : IterOrder bytes Document}
  {TO : IterOrder bytes Tombstone} {PO : IterOrder bytes PeerInfo}.

(** The specification: one map from collection and identifier to documents, and the
    policies of the collections. *)
Record spec := {
  spec_policies : gmap bytes DeletionPolicy;
  spec_docs : gmap (bytes * bytes) Document
}.
Definition spec_policy (readable : bool) (σ : spec) (c : bytes) : DeletionPolicy :=
  if readable then default Policies.default_policy (spec_policies σ !! c)
  else Policies.default_policy.
Definition with_docs (σ : spec) (m : gmap (bytes * bytes) Document) : spec :=
  {| spec_policies := spec_policies σ; spec_docs := m |}.
Definition spec_op (σ : spec) (o : op) : spec :=
  match o with
  | Upsert c d fresh now =>
      let id := default fresh (doc_id d) in
      with_docs σ (<[(c, id) := stored d id now]> (spec_docs σ))
  | RemoveStep c id => with_docs σ (base.delete (c, id) (spec_docs σ))
  | Delete readable c id _ now _ =>
      match spec_policy readable σ c with
      | SoftDelete _ => with_docs σ (alter (λ d, marked d now) (c, id) (spec_docs σ))
      | TombstonePolicy _ _ => with_docs σ (base.delete (c, id) (spec_docs σ))
      | _ => σ
      end
  | ApplyTombstone t => with_docs σ (base.delete (collection t, document_id t) (spec_docs σ))
  | ClearCollection c => with_docs σ (filter (λ e, e.1.1 ≠ c) (spec_docs σ))
  | SetPolicy c p => {| spec_policies := <[c := p]> (spec_policies σ); spec_docs := spec_docs σ |}
  | _ => σ
  end.
Definition spec_run : list op → spec := foldl spec_op {| spec_policies := ∅; spec_docs := ∅ |}.

Record refines (s : InMemoryBackend) (σ : spec) : Prop := {
  refines_policies : deletion_policies s = spec_policies σ;
  refines_docs c id : docs_of s c !! id = spec_docs σ !! (c, id);
  (** Every document is stored under its own identifier. *)
  refines_keyed c id d : docs_of s c !! id = Some d → doc_id d = Some id
}.
Lemma policies_step s o :
  deletion_policies (apply_op s o)
  = match o with SetPolicy c p => <[c := p]> (deletion_policies s) | _ => deletion_policies s end.
Proof.
  assert (∀ c id s, deletion_policies (remove c id s).2 = deletion_policies s) as Hr.
  { intros c id s'. unfold remove. cbn. by repeat case_match. }
  destruct o; cbn [apply_op]; try apply Hr; try done.
  - unfold delete. destruct (deletion_policy readable s c); cbn; try done.
    + unfold mbind, stm_bind. cbn. destruct (system_time_add _ _); cbn; apply (Hr c).
    + unfold soft_delete. by repeat case_match.
  - unfold clear_collection. by case_match.
Qed.
Lemma drop_if_lookup c c' id' m id :
  apply_change m (drop_if c c' id' m) !! id = if decide ((c', id') = (c, id)) then None else m !! id.
Proof.
  unfold drop_if. case_decide as Dc; [subst c'|].
  - destruct (m !! id') as [d|] eqn:Hm; cbn [apply_change]; case_decide as D; simplify_eq; try done.
    + apply lookup_delete_eq.
    + apply lookup_delete_ne. congruence.
  - case_decide; [congruence|done].
Qed.
Lemma refines_step s σ o : refines s σ → refines (apply_op s o) (spec_op σ o).
Proof.
  intros [Hp Hd Hk]. destruct (mutates_step s o) as [Hm _]. pose proof (policies_step s o) as Hp'.
  assert (∀ r c, deletion_policy r s c = spec_policy r σ c) as HP
    by (intros; unfold deletion_policy, spec_policy; by rewrite Hp).
  split.
  - rewrite Hp'. destruct o; cbn [spec_op]; try done; [case_match; done|by rewrite Hp].
  - intros c id. rewrite Hm. destruct o as [c' d fresh now|c' id'|t|c' q|readable c' id' reason now now'|t|c'|c' p|addr t now| | | |c'|cfg|];
      cbn [change_of spec_op apply_change with_docs spec_docs]; rewrite <-?HP; try apply Hd.
    + case_decide as D; cbn [apply_change].
      * subst. destruct (decide (default fresh (doc_id d) = id)) as [<-|].
        -- by rewrite !lookup_insert_eq.
        -- rewrite !lookup_insert_ne by congruence. apply Hd.
      * rewrite lookup_insert_ne by congruence. apply Hd.
    + rewrite drop_if_lookup, lookup_delete. by rewrite Hd.
    + destruct (deletion_policy readable s c'); cbn [with_docs spec_docs apply_change]; try apply Hd.
      * rewrite drop_if_lookup, lookup_delete. by rewrite Hd.
      * rewrite lookup_alter, <-!Hd. destruct (decide (c' = c)) as [<-|]; [|by rewrite decide_False by congruence].
        destruct (decide (id' = id)) as [<-|].
        -- rewrite decide_True by done. destruct (docs_of s c' !! id') as [d|] eqn:E; cbn; [by rewrite lookup_insert_eq|done].
        -- rewrite decide_False by congruence. destruct (docs_of s c' !! id') as [d|] eqn:E; cbn; [|done].
           by rewrite lookup_insert_ne by congruence.
    + rewrite drop_if_lookup, lookup_delete. by rewrite Hd.
    + case_decide as D; cbn [apply_change].
      * subst. rewrite lookup_empty. symmetry. apply map_lookup_filter_None. right. intros d _ Hne. by apply Hne.
      * rewrite Hd. destruct (spec_docs σ !! (c, id)) as [d|] eqn:E.
        -- symmetry. apply map_lookup_filter_Some. split; [done|]. cbn. congruence.
        -- symmetry. apply map_lookup_filter_None. by left.
  - intros c id d. rewrite Hm. intros Hl. destruct (change_of s c o) as [|i d'|i|] eqn:E; cbn in Hl.
    + by eapply Hk.
    + apply lookup_insert_Some in Hl as [[<- <-]|[_ Hl]]; [|by eapply Hk].
      destruct o; cbn [change_of] in E; unfold drop_if in E; repeat case_match; simplify_eq; try done.
      cbn. by eapply Hk.
    + apply lookup_delete_Some in Hl as [_ Hl]. by eapply Hk.
    + by rewrite lookup_empty in Hl.
Qed.
Lemma refines_run ops : refines (run new ops) (spec_run ops).
Proof.
  unfold run, spec_run. induction ops as [|o ops IH] using rev_ind.
  - split; [done| |]; intros *; unfold docs_of; cbn; rewrite !lookup_empty; cbn; [done|].
    by rewrite lookup_empty.
  - rewrite !foldl_app. by apply refines_step.
Qed.
End refinement.

(** * Properties *)
Section properties.
Context `{!JsonNumber} {Pw : Powi} {Lm : Libm} {DO : IterOrder bytes Document}
  {TO : IterOrder bytes Tombstone} {PO : IterOrder bytes PeerInfo}.

(** ** Queries *)
Definition results (s : InMemoryBackend) (c : bytes) (q : Query) : list Document :=
  filter (λ d, Query.matches q d = true) (iter (docs_of s c)).*2.
Lemma iter_empty : iter (∅ : gmap bytes Document) = [].
Proof. apply Permutation_nil. by rewrite iter_perm, map_to_list_empty. Qed.
Lemma query_results s c q : query c q s = (Ok (results s c q), s).
Proof.
  unfold query, results, docs_of. destruct (collections s !! c); [done|]. cbn. by rewrite iter_empty.
Qed.
Lemma elem_of_results s c q d :
  d ∈ results s c q ↔ (∃ id, docs_of s c !! id = Some d) ∧ Query.matches q d = true.
Proof.
  unfold results. rewrite list_elem_of_filter, list_elem_of_fmap. split.
  - intros [Hm ((id & d') & -> & Hin%elem_of_iter)]. eauto.
  - intros [[id Hin%elem_of_iter] Hm]. split; [done|]. by exists (id, d).
Qed.
Definition live (d : Document) : option Document := if Query.is_deleted d then None else Some d.
Lemma get_lookup s c id :
  (∀ id d, docs_of s c !! id = Some d → doc_id d = Some id) →
  get c id s = (Ok (docs_of s c !! id ≫= live), s).
Proof.
  intros Hk. unfold get, mbind, stm_bind. cbn [store_query in_memory_store].
  rewrite query_results. unfold mret, stm_ret. do 2 f_equal. apply option_eq. intros d.
  assert (∀ d, Query.matches (QEq (str "id") (Json.String id)) d = true
               ↔ Query.is_deleted d = false ∧ doc_id d = Some id) as Hq.
  { intros d'. unfold Query.matches. cbn [Query.matches_deletion_state Query.inner_query Query.evaluate_query].
    rewrite decide_True by done. cbn [as_str]. by rewrite andb_true_iff, negb_true_iff, bool_decide_eq_true. }
  assert (∀ d, d ∈ results s c (QEq (str "id") (Json.String id))
               ↔ docs_of s c !! id = Some d ∧ Query.is_deleted d = false) as Hr.
  { intros d'. rewrite elem_of_results, Hq. split.
    - intros [[id' Hl] [Hdel Hid]]. rewrite (Hk _ _ Hl) in Hid. by simplify_eq.
    - intros [Hl Hdel]. eauto. }
  transitivity (docs_of s c !! id = Some d ∧ Query.is_deleted d = false).
  - rewrite <-Hr. split; [apply head_Some_elem_of|]. intros Hin.
    destruct (results _ _ _) as [|d' l] eqn:E; [by apply elem_of_nil in Hin|]. cbn. f_equal.
    assert (d' ∈ d' :: l) as [H1 _]%Hr by left. apply Hr in Hin as [H2 _]. congruence.
  - clear. unfold live. destruct (docs_of s c !! id) as [d'|]; cbn; [|by split; [intros []|]].
    destruct (Query.is_deleted d') eqn:E; (split; [intros [[= ->] ?]|intros [= ->]]); congruence || by split.
Qed.

(** C15.  The documents of the backend are a map.  However the operations of any number of
    tasks follow one another, [get] finds exactly what the map of the specification has
    under the collection and the identifier, unless it is marked as deleted, and a query
    returns exactly the documents of the collection that match it, each once. *)
Theorem backend_refines_map ops c :
  let s := run new ops in
  let m := spec_docs (spec_run ops) in
  (∀ id, get c id s = (Ok (m !! (c, id) ≫= live), s))
  ∧ ∀ q, ∃ docs, query c q s = (Ok docs, s) ∧ NoDup (doc_id <$> docs)
      ∧ ∀ d, d ∈ docs ↔ (∃ id, m !! (c, id) = Some d) ∧ Query.matches q d = true.
Proof.
  cbn zeta. destruct (refines_run ops) as [_ Hd Hk]. split.
  - intros id. rewrite get_lookup by apply Hk. by rewrite Hd.
  - intros q. exists (results (run new ops) c q). split_and!; [apply query_results| |].
    + eapply sublist_NoDup; [|apply fmap_sublist, sublist_filter].
      assert (doc_id <$> (iter (docs_of (run new ops) c)).*2 = Some <$> (iter (docs_of (run new ops) c)).*1) as ->.
      { rewrite <-!list_fmap_compose. apply list_fmap_ext. intros i [id d] Hin. cbn.
        eapply Hk, elem_of_iter, list_elem_of_lookup_2, Hin. }
      apply NoDup_fmap_2; [apply _|]. apply NoDup_iter_fst.
    + intros d. rewrite elem_of_results. by setoid_rewrite Hd.
Qed.

(** Queries without a deletion modifier form a Boolean algebra over the documents that
    are not marked as deleted: negation is the complement, conjunction the intersection
    and disjunction the union of the results.  A query that includes deleted documents
    finds, besides, the marked ones that satisfy it. *)
Theorem queries_form_boolean_algebra s c d :
  let found q := d ∈ results s c q in
  let plain q := Query.includes_deleted q = false in
  (∀ q, plain q → found (QNot q) ↔ found QAll ∧ ¬ found q)
  ∧ (∀ qs, Forall plain qs → found (QAnd qs) ↔ found QAll ∧ Forall found qs)
  ∧ (∀ qs, Forall plain qs → found (QOr qs) ↔ Exists found qs)
  ∧ (∀ q, plain q → found (IncludeDeleted q) ↔ found q ∨ found DeletedOnly ∧ Query.evaluate_query d q = true)
  ∧ ¬ (found QAll ∧ found DeletedOnly).
Proof.
  cbn zeta. repeat setoid_rewrite elem_of_results.
  assert (∀ q, Query.includes_deleted q = false → Query.matches q d = negb (Query.is_deleted d) && Query.evaluate_query d q) as Hp.
  { intros q Hq. unfold Query.matches. by destruct q. }
  assert (∀ qs, Forall (λ q, Query.includes_deleted q = false) qs →
    ∀ q, q ∈ qs → Query.matches q d = negb (Query.is_deleted d) && Query.evaluate_query d q) as HP.
  { intros qs Hqs q Hin. apply Hp. by eapply Forall_forall in Hqs. }
  set (E := ∃ id, docs_of s c !! id = Some d).
  split_and!.
  - intros q Hq. rewrite (Hp q Hq), !Hp by done. cbn.
    destruct (Query.is_deleted d), (Query.evaluate_query d q); cbn; naive_solver.
  - intros qs Hqs. rewrite !Hp by done. cbn [Query.evaluate_query].
    rewrite andb_true_r, andb_true_iff, forallb_forall, Forall_forall. split.
    + intros [HE [Hn Hall]]. split; [done|]. intros q Hin. split; [done|].
      rewrite (HP qs Hqs q Hin), Hn. apply Hall. by apply list_elem_of_In.
    + intros [[HE Hn] Hall]. split_and!; [done|done|]. intros q Hin%list_elem_of_In.
      destruct (Hall q Hin) as [_ Hm]. rewrite (HP qs Hqs q Hin) in Hm. by apply andb_true_iff in Hm as [_ ?].
  - intros qs Hqs. rewrite Hp by done. cbn [Query.evaluate_query].
    rewrite andb_true_iff, existsb_exists, Exists_exists. split.
    + intros [HE [Hn (q & Hin%list_elem_of_In & Hq)]]. exists q. split_and!; [done|done|].
      by rewrite (HP qs Hqs q Hin), Hn, Hq.
    + intros (q & Hin & HE & Hm). rewrite (HP qs Hqs q Hin) in Hm. apply andb_true_iff in Hm as [Hn Hq].
      split_and!; [done|done|]. exists q. split; [by apply list_elem_of_In|done].
  - intros q Hq. rewrite (Hp q Hq). unfold Query.matches. cbn.
    destruct (Query.is_deleted d), (Query.evaluate_query d q); cbn; naive_solver.
  - rewrite Hp by done. unfold Query.matches. cbn. destruct (Query.is_deleted d); cbn; naive_solver.
Qed.


(** Clearing a collection is not reported. *)
Lemma clearing_is_silent s c : observers (clear_collection c s) = observers s.
Proof. unfold clear_collection. by case_match. Qed.

(** ** Deletion *)
(** The question whether a document is deleted is always answered in the negative: a
    document that is marked is invisible to the [get] that looks for the mark, and
    tombstones are not consulted. *)
Theorem is_deleted_is_never_true s c id :
  (∀ id d, docs_of s c !! id = Some d → doc_id d = Some id) →
  is_deleted c id s = (Ok false, s).
Proof.
  intros Hk. unfold is_deleted. unfold mbind, stm_bind. rewrite get_lookup by done.
  unfold mret, stm_ret. do 2 f_equal. unfold live.
  destruct (docs_of s c !! id) as [d|]; cbn [mbind option_bind]; [|done].
  destruct (Query.is_deleted d) eqn:E; [done|]. unfold Query.is_deleted in E.
  by destruct (fields d !! str "_deleted") as [v|]; cbn in *.
Qed.


(** ** Waiting *)
(** Waiting for a peer ends: when every round of the loop finds the clock at least
    fifty milliseconds later, it returns after at most one round for each fifty
    milliseconds of the timeout and two more, successfully when the peer was there at
    one of the polls. *)
Theorem waiting_ends id started timeout polls fuel :
  (∀ i, (polls i).2 + 50 * ns_per_ms ≤ (polls (S i)).2)%Z →
  (started ≤ (polls 0%nat).2)%Z → (0 ≤ timeout)%Z → Z.to_nat (timeout / (50 * ns_per_ms)) + 2 ≤ fuel →
  let deadline := (started + timeout)%Z in
  ∃ n, n < fuel ∧ (∀ i, i < n → peers (polls i).1 !! id = None)
    ∧ wait_for_peer fuel id deadline polls 0
      = Some (if bool_decide (is_Some (peers (polls n).1 !! id)) then Ok tt else Err (PeerTimeout id))
    ∧ (peers (polls n).1 !! id = None → (deadline ≤ (polls n).2)%Z).
Proof.
  intros Hclock Hst Ht Hfuel. cbn zeta. set (deadline := (started + timeout)%Z).
  assert (∀ i, (started + Z.of_nat i * (50 * ns_per_ms) ≤ (polls i).2)%Z) as Hpolls.
  { induction i as [|i IH]; [lia|]. specialize (Hclock i). lia. }
  assert (∀ k i, i + k = fuel → (∀ j, j < i → peers (polls j).1 !! id = None) →
    1 ≤ k →
    ∃ n, n < fuel ∧ (∀ i, i < n → peers (polls i).1 !! id = None)
    ∧ wait_for_peer k id deadline polls i
      = Some (if bool_decide (is_Some (peers (polls n).1 !! id)) then Ok tt else Err (PeerTimeout id))
    ∧ (peers (polls n).1 !! id = None → (deadline ≤ (polls n).2)%Z)) as Hgo.
  { induction k as [|k IH]; intros i Hi Hnone Hk; [lia|]. cbn [wait_for_peer].
    destruct (polls i) as [s now] eqn:Ep. case_bool_decide as Hs.
    - exists i. rewrite Ep. cbn. split_and!; [lia|done|by rewrite bool_decide_eq_true_2|].
      intros Hn. destruct Hs as [? Hs]. congruence.
    - apply eq_None_not_Some in Hs. destruct (Z.leb_spec deadline now) as [Hl|Hl].
      + exists i. rewrite Ep. cbn. split_and!; [lia|done| |done].
        by rewrite bool_decide_eq_false_2 by (rewrite Hs; apply is_Some_None).
      + apply IH; [lia| |].
        * intros j Hj. destruct (decide (j = i)) as [->|]; [by rewrite Ep|apply Hnone; lia].
        * destruct k; [|lia]. exfalso. pose proof (Hpolls i) as Hpi. rewrite Ep in Hpi. cbn in Hpi.
          unfold deadline in Hl. assert (Z.of_nat i * (50 * ns_per_ms) < timeout)%Z as Hlt by lia.
          assert (Z.of_nat i ≤ timeout / (50 * ns_per_ms))%Z by (apply Z.div_le_lower_bound; unfold ns_per_ms in *; lia).
          lia. }
  apply (Hgo fuel 0); lia.
Qed.
End properties.

(** * Witnesses *)
#[local] Instance zero_powi : Powi := λ _ _, F64.of_Z 0.
#[local] Instance zero_libm : Libm := {|
  fsin _ := F64.of_Z 0; fcos _ := F64.of_Z 1; fatan2 _ _ := F64.of_Z 0; fasin _ := F64.of_Z 0;
  fexp _ := F64.of_Z 1 |}.
#[local] Instance document_order : IterOrder bytes Document := key_order bytes Document.
#[local] Instance tombstone_order : IterOrder bytes Tombstone := key_order bytes Tombstone.
#[local] Instance peer_order : IterOrder bytes PeerInfo := key_order bytes PeerInfo.

Definition note (n : Z) : Document :=
  Document.with_id (str "n") {[str "v" := Json.Number (number_from_i64 n)]} 0.
Definition written : list op := [Upsert (str "notes") (note 1) [] 1].

Lemma is_deleted_is_never_true_witness :
  let s := run new (written ++ [Delete true (str "notes") (str "n") None 3 3]) in
  Query.is_deleted <$> docs_of s (str "notes") !! str "n" = Some true
  ∧ is_deleted (str "notes") (str "n") s = (Ok false, s).
Proof.
  cbn zeta. split; [vm_eq|].
  exact (is_deleted_is_never_true _ (str "notes") (str "n")
           (λ id d, refines_keyed _ _ (refines_run _) (str "notes") id d)).
Defined.

(** While another task holds the policies, a document of an immutable collection is
    deleted. *)
Lemma locked_policies_delete_immutable :
  let s := run new (written ++ [SetPolicy (str "notes") Immutable]) in
  (delete false (str "notes") (str "n") None 3 3 s).1 = Ok (soft_deleted (SoftDelete false))
  ∧ Query.is_deleted <$> docs_of (delete false (str "notes") (str "n") None 3 3 s).2 (str "notes") !! str "n"
    = Some true
  ∧ delete true (str "notes") (str "n") None 3 3 s = (Ok immutable, s).
Proof. split_and!; vm_eq. Qed.

(** A query combined with others loses its deletion modifier. *)
Lemma nested_modifier_is_lost :
  let s := run new (written ++ [Delete true (str "notes") (str "n") None 3 3]) in
  length (results s (str "notes") (IncludeDeleted QAll)) = 1
  ∧ results s (str "notes") (QAnd [IncludeDeleted QAll]) = [].
Proof. split; vm_eq. Qed.

Lemma waiting_ends_witness :
  let polls i := (if (i <? 3) then new else add_peer (str "a") Tcp 0 new, (Z.of_nat i * 50 * ns_per_ms)%Z) in
  (∀ i, (polls i).2 + 50 * ns_per_ms ≤ (polls (S i)).2)%Z
  ∧ ∃ n, n < 22 ∧ (∀ i, i < n → peers (polls i).1 !! str "peer-a" = None)
    ∧ wait_for_peer 22 (str "peer-a") (from_secs 1) polls 0
      = Some (if bool_decide (is_Some (peers (polls n).1 !! str "peer-a")) then Ok tt
              else Err (PeerTimeout (str "peer-a")))
    ∧ (peers (polls n).1 !! str "peer-a" = None → (from_secs 1 ≤ (polls n).2)%Z).
Proof.
  cbn zeta. set (polls := λ i : nat, _).
  assert (∀ i, (polls i).2 + 50 * ns_per_ms ≤ (polls (S i)).2)%Z as H1.
  { intros i. unfold polls. cbn [snd]. unfold ns_per_ms. lia. }
  assert (0 ≤ (polls 0%nat).2)%Z as H2 by (unfold polls; cbn [snd]; lia).
  assert (0 ≤ from_secs 1)%Z as H3 by (unfold from_secs; lia).
  assert (Z.to_nat (from_secs 1 / (50 * ns_per_ms)) + 2 ≤ 22) as H4 by (apply Nat.leb_le; vm_eq).
  split; [exact H1|].
  exact (waiting_ends (str "peer-a") 0 (from_secs 1) polls 22 H1 H2 H3 H4).
Defined.
