(* ===== verification/DocTree.v ===== *)
(** Automerge documents as trees of objects: the reading and writing operations of the
    [automerge] crate that the crate uses beyond single root fields, with their documented
    behaviour, and a heap of objects that satisfies it. *)
From Stdlib Require Import ZArith Lia Strings.Byte Strings.String Floats.SpecFloat.
From stdpp Require Import prelude gmap.
From S2P Require Import Prelude Wire Float Deletion Store.

Set Default Proof Using "Type".

(** A property of an object: a key of a map or an index of a list. *)
Inductive prop := Key (k : bytes) | Index (i : nat).

Class AutomergeTree `{AM : Automerge} := {
  objid : Type;
  #[global] objid_eq_dec :: EqDecision objid;
  ROOT : objid;
  tree_keys : content → objid → list bytes;
  tree_length : content → objid → nat;
  (** the value with the object it belongs to; the outer [None] is an error *)
  tree_get : content → objid → prop → option (option (AmValue * objid));
  (** transactions; [None] is an error *)
  tx : Type;
  tx_begin : doc → tx;
  tx_commit : tx → doc;
  tx_put : tx → objid → bytes → ScalarValue → option tx;
  tx_put_object : tx → objid → bytes → ObjType → option (tx * objid);
  tx_insert : tx → objid → nat → ScalarValue → option tx;
  tx_insert_object : tx → objid → nat → ObjType → option (tx * objid);
  tx_delete : tx → objid → bytes → option tx
}.

(** What an object holds. *)
Inductive node `{AutomergeTree} :=
| NMap (m : gmap bytes (AmValue * objid))
| NList (l : list (AmValue * objid)).

Section laws.
Context `{AutomergeTree}.
(** [o] holds [n] after a step, other objects hold what they held, and a fresh object
    may have appeared. *)
Definition updated (before after : objid → option node) (o : objid) (n : node) : Prop :=
  after o = Some n ∧ ∀ o', o' ≠ o → is_Some (before o') → after o' = before o'.
Definition empty_node (t : ObjType) : option node :=
  match t with MapObject => Some (NMap ∅) | ListObject => Some (NList []) | _ => None end.

(** The behaviour of documents: reading agrees with what the objects hold, a transaction
    starts from its document, and writing to an existing object, with a key that is not
    empty or an index in range, succeeds and changes that object only. *)
Class AutomergeTreeLaws := {
  node_of : content → objid → option node;
  tx_node : tx → objid → option node;
  tree_root c : ∃ m, node_of c ROOT = Some (NMap m);
  tree_read c k : am_read c k = option_map (option_map fst) (tree_get c ROOT (Key k));
  tree_map c o m : node_of c o = Some (NMap m) →
    tree_keys c o ≡ₚ (map_to_list m).*1 ∧ ∀ k, tree_get c o (Key k) = Some (m !! k);
  tree_list c o l : node_of c o = Some (NList l) →
    tree_length c o = length l ∧ ∀ i, tree_get c o (Index i) = Some (l !! i);
  tree_new : node_of (am_content am_new) ROOT = Some (NMap ∅);
  tx_begin_node d o : tx_node (tx_begin d) o = node_of (am_content d) o;
  tx_commit_node t o : node_of (am_content (tx_commit t)) o = tx_node t o;
  tx_put_node t o m k s : tx_node t o = Some (NMap m) → k ≠ [] →
    ∃ t' c, tx_put t o k s = Some t'
      ∧ updated (tx_node t) (tx_node t') o (NMap (<[k := (Scalar s, c)]> m));
  tx_put_object_node t o m k ty n : tx_node t o = Some (NMap m) → k ≠ [] → empty_node ty = Some n →
    ∃ t' c, tx_put_object t o k ty = Some (t', c) ∧ tx_node t c = None ∧ tx_node t' c = Some n
      ∧ updated (tx_node t) (tx_node t') o (NMap (<[k := (Object ty, c)]> m));
  tx_insert_node t o l i s : tx_node t o = Some (NList l) → i ≤ length l →
    ∃ t' c, tx_insert t o i s = Some t'
      ∧ updated (tx_node t) (tx_node t') o (NList (take i l ++ (Scalar s, c) :: drop i l));
  tx_insert_object_node t o l i ty n : tx_node t o = Some (NList l) → i ≤ length l →
    empty_node ty = Some n →
    ∃ t' c, tx_insert_object t o i ty = Some (t', c) ∧ tx_node t c = None ∧ tx_node t' c = Some n
      ∧ updated (tx_node t) (tx_node t') o (NList (take i l ++ (Object ty, c) :: drop i l));
  tx_delete_node t o m k : tx_node t o = Some (NMap m) → is_Some (m !! k) →
    ∃ t', tx_delete t o k = Some t' ∧ updated (tx_node t) (tx_node t') o (NMap (delete k m))
}.
End laws.
Arguments AutomergeTreeLaws {_ _}.

(** * A heap of objects *)
Module Heap.
Definition oid := option nat.
Inductive hnode := HMap (m : gmap bytes (AmValue * oid)) | HList (l : list (AmValue * oid)).
Record heap := { root : gmap bytes (AmValue * oid); objects : gmap nat hnode }.
Definition lookup_node (h : heap) (o : oid) : option hnode :=
  match o with None => Some (HMap (root h)) | Some i => objects h !! i end.
Definition set_node (h : heap) (o : oid) (n : hnode) : option heap :=
  match o, n with
  | None, HMap m => Some {| root := m; objects := objects h |}
  | None, HList _ => None
  | Some i, n => Some {| root := root h; objects := <[i := n]> (objects h) |}
  end.
Definition empty_hnode (t : ObjType) : option hnode :=
  match t with MapObject => Some (HMap ∅) | ListObject => Some (HList []) | _ => None end.
Definition alloc (h : heap) (n : hnode) : heap * oid :=
  let i := fresh (dom (objects h) : gset nat) in
  ({| root := root h; objects := <[i := n]> (objects h) |}, Some i).
Definition put_at (h : heap) (o : oid) (k : bytes) (v : AmValue * oid) : option heap :=
  match lookup_node h o with
  | Some (HMap m) => if decide (k = []) then None else set_node h o (HMap (<[k := v]> m))
  | _ => None
  end.
Definition insert_at (h : heap) (o : oid) (i : nat) (v : AmValue * oid) : option heap :=
  match lookup_node h o with
  | Some (HList l) => if decide (i ≤ length l) then set_node h o (HList (take i l ++ v :: drop i l)) else None
  | _ => None
  end.
Definition with_object (h : heap) (t : ObjType) (f : heap → AmValue * oid → option heap)
    : option (heap * oid) :=
  n ← empty_hnode t; let '(h, c) := alloc h n in h ← f h (Object t, c); Some (h, c).
Definition delete_at (h : heap) (o : oid) (k : bytes) : option heap :=
  match lookup_node h o with Some (HMap m) => set_node h o (HMap (delete k m)) | _ => None end.
Definition keys (h : heap) (o : oid) : list bytes :=
  match lookup_node h o with Some (HMap m) => (map_to_list m).*1 | _ => [] end.
Definition len (h : heap) (o : oid) : nat :=
  match lookup_node h o with Some (HMap m) => size m | Some (HList l) => length l | None => 0 end.
Definition get (h : heap) (o : oid) (p : prop) : option (option (AmValue * oid)) :=
  match lookup_node h o, p with
  | Some (HMap m), Key k => Some (m !! k)
  | Some (HList l), Index i => Some (l !! i)
  | _, _ => None
  end.

(** Heaps as byte strings. *)
Global Instance spec_float_eq_dec : EqDecision float.
Proof. solve_decision. Defined.
Global Instance float_countable : Countable float.
Proof.
  refine (inj_countable' (λ f : float, match f with
      | S754_zero s => inl (inl s) | S754_infinity s => inl (inr s) | S754_nan => inr (inl tt)
      | S754_finite s m e => inr (inr (s, m, e)) end)
    (λ x, match x with
      | inl (inl s) => S754_zero s | inl (inr s) => S754_infinity s | inr (inl _) => S754_nan
      | inr (inr (s, m, e)) => S754_finite s m e end) _). by intros [].
Defined.
Global Instance scalar_eq_dec : EqDecision ScalarValue.
Proof. solve_decision. Defined.
Global Instance obj_type_eq_dec : EqDecision ObjType.
Proof. solve_decision. Defined.
Global Instance am_value_eq_dec : EqDecision AmValue.
Proof. solve_decision. Defined.
Global Instance am_value_countable : Countable AmValue.
Proof.
  refine (inj_countable' (λ v, match v with
      | Scalar (SBytes b) => inl (inl (false, b)) | Scalar (SStr s) => inl (inl (true, s))
      | Scalar (SInt z) => inl (inr (0, z)) | Scalar (SUint z) => inl (inr (1, z))
      | Scalar (SCounter z) => inl (inr (2, z)) | Scalar (STimestamp z) => inl (inr (3, z))
      | Scalar (SF64 f) => inr (inl f)
      | Scalar (SBoolean b) => inr (inr (if b then 0 else 1)) | Scalar SUnknown => inr (inr 2)
      | Scalar SNull => inr (inr 3) | Object MapObject => inr (inr 4) | Object ListObject => inr (inr 5)
      | Object TextObject => inr (inr 6) | Object TableObject => inr (inr 7) end)
    (λ x, match x with
      | inl (inl (false, b)) => Scalar (SBytes b) | inl (inl (true, s)) => Scalar (SStr s)
      | inl (inr (0, z)) => Scalar (SInt z) | inl (inr (1, z)) => Scalar (SUint z)
      | inl (inr (2, z)) => Scalar (SCounter z) | inl (inr (_, z)) => Scalar (STimestamp z)
      | inr (inl f) => Scalar (SF64 f)
      | inr (inr 0) => Scalar (SBoolean true) | inr (inr 1) => Scalar (SBoolean false)
      | inr (inr 2) => Scalar SUnknown | inr (inr 3) => Scalar SNull
      | inr (inr 4) => Object MapObject | inr (inr 5) => Object ListObject
      | inr (inr 6) => Object TextObject | inr (inr _) => Object TableObject end) _).
  by intros [[]|[]]; repeat case_match; simplify_eq.
Defined.
Global Instance hnode_eq_dec : EqDecision hnode.
Proof. solve_decision. Defined.
Global Instance hnode_countable : Countable hnode.
Proof.
  refine (inj_countable' (λ n, match n with HMap m => inl m | HList l => inr l end)
    (λ x, match x with inl m => HMap m | inr l => HList l end) _). by intros [].
Defined.
Global Instance heap_eq_dec : EqDecision heap.
Proof. solve_decision. Defined.
Global Instance heap_countable : Countable heap.
Proof.
  refine (inj_countable' (λ h, (root h, objects h)) (λ x, {| root := x.1; objects := x.2 |}) _).
  by intros [].
Defined.
Fixpoint save_bits (p : positive) : bytes :=
  match p with xH => [] | xO p => Byte.x00 :: save_bits p | xI p => Byte.x01 :: save_bits p end.
Fixpoint load_bits (b : bytes) : positive :=
  match b with [] => xH | Byte.x00 :: b => xO (load_bits b) | _ :: b => xI (load_bits b) end.
Lemma load_save_bits p : load_bits (save_bits p) = p.
Proof. induction p; cbn; by f_equal. Qed.

#[export] Instance heap_automerge : Automerge := {|
  doc := heap;
  am_new := {| root := ∅; objects := ∅ |};
  am_save h := save_bits (encode h);
  am_load b := decode (load_bits b);
  am_fork := id;
  content := heap;
  am_content := id;
  am_read h k := Some (fst <$> root h !! k);
  am_put h k s := put_at h None k (Scalar s, None)
|}.
#[export] Instance heap_automerge_laws : AutomergeLaws.
Proof.
  split.
  - intros h. cbn. by rewrite load_save_bits, decode_encode.
  - done.
  - intros f. cbn. by rewrite lookup_empty.
  - intros h f s h' f' Hp. unfold am_get. cbn in *. unfold put_at in Hp. cbn in Hp.
    case_decide; [done|]. injection Hp as <-. cbn. case_decide; subst.
    + by rewrite lookup_insert_eq.
    + by rewrite lookup_insert_ne.
Qed.
#[export] Instance heap_tree : AutomergeTree := {|
  objid := oid;
  ROOT := None;
  tree_keys := keys;
  tree_length := len;
  tree_get := get;
  tx := heap;
  tx_begin := id;
  tx_commit := id;
  tx_put h o k s := put_at h o k (Scalar s, None);
  tx_put_object h o k t := with_object h t (λ h v, put_at h o k v);
  tx_insert h o i s := insert_at h o i (Scalar s, None);
  tx_insert_object h o i t := with_object h t (λ h v, insert_at h o i v);
  tx_delete := delete_at
|}.
Definition to_node (n : hnode) : node := match n with HMap m => NMap m | HList l => NList l end.
Definition heap_node (h : heap) (o : oid) : option node := to_node <$> lookup_node h o.

Lemma heap_node_map (h : heap) (o : oid) (m : gmap bytes (AmValue * oid)) : heap_node h o = Some (NMap m) ↔ lookup_node h o = Some (HMap m).
Proof. unfold heap_node. destruct (lookup_node h o) as [[]|]; cbn; naive_solver. Qed.
Lemma heap_node_list (h : heap) (o : oid) (l : list (AmValue * oid)) : heap_node h o = Some (NList l) ↔ lookup_node h o = Some (HList l).
Proof. unfold heap_node. destruct (lookup_node h o) as [[]|]; cbn; naive_solver. Qed.
Lemma set_node_updated h o n n' :
  lookup_node h o = Some n → (∃ m, n' = HMap m) ∨ o ≠ None →
  ∃ h', set_node h o n' = Some h' ∧ updated (heap_node h) (heap_node h') o (to_node n').
Proof.
  intros Hn Ho. destruct o as [i|]; cbn.
  - eexists. split; [done|]. split.
    + unfold heap_node. cbn. by rewrite lookup_insert_eq.
    + intros [j|] Hne _; [|done]. unfold heap_node. cbn. by rewrite lookup_insert_ne by congruence.
  - destruct Ho as [[m ->]|]; [|done]. eexists. split; [done|]. split; [done|]. by intros [j|] Hne _.
Qed.
Lemma alloc_fresh h n :
  let '(h', c) := alloc h n in
  lookup_node h c = None ∧ lookup_node h' c = Some n
  ∧ ∀ o, is_Some (lookup_node h o) → lookup_node h' o = lookup_node h o.
Proof.
  unfold alloc. cbn. set (i := fresh _).
  assert (objects h !! i = None) as Hi.
  { apply not_elem_of_dom. apply is_fresh. }
  split; [done|]. split; [apply lookup_insert_eq|].
  intros [j|] [n' Hn]; [|done]. cbn in *. apply lookup_insert_ne. congruence.
Qed.
(** A step on the heap with a fresh object is one on the heap without it. *)
Lemma updated_alloc h n h' o m :
  let '(h1, c) := alloc h n in
  is_Some (lookup_node h o) → updated (heap_node h1) (heap_node h') o m →
  heap_node h' c = Some (to_node n) ∧ updated (heap_node h) (heap_node h') o m.
Proof.
  pose proof (alloc_fresh h n) as Hf. destruct (alloc h n) as [h1 c]. destruct Hf as (Hc & Hc' & Hold).
  intros Ho [Hm Hu]. assert (heap_node h1 c = Some (to_node n)) as E by (unfold heap_node; by rewrite Hc').
  split; [|split; [done|]].
  - rewrite Hu; [done| |by rewrite E]. intros ->. rewrite Hc in Ho. by destruct Ho.
  - intros o' Hne Hs. assert (is_Some (lookup_node h o')) as Hs'.
    { unfold heap_node in Hs. by destruct (lookup_node h o'); [|destruct Hs]. }
    assert (heap_node h1 o' = heap_node h o') as E' by (unfold heap_node; by rewrite Hold).
    rewrite <-E'. apply Hu; [done|]. by rewrite E'.
Qed.
Lemma empty_hnode_node t n : empty_node t = Some n → ∃ hn, empty_hnode t = Some hn ∧ to_node hn = n.
Proof. destruct t; cbn; intros; simplify_eq; eauto. Qed.
Lemma put_at_updated (h : heap) (o : oid) (m : gmap bytes (AmValue * oid)) (k : bytes) v :
  heap_node h o = Some (NMap m) → k ≠ [] →
  ∃ h', put_at h o k v = Some h' ∧ updated (heap_node h) (heap_node h') o (NMap (<[k := v]> m)).
Proof.
  intros Ho%heap_node_map Hk. unfold put_at. rewrite Ho, decide_False by done.
  destruct (set_node_updated h o _ (HMap (<[k := v]> m)) Ho) as (h' & -> & Hu); eauto.
Qed.
Lemma insert_at_updated (h : heap) (o : oid) (l : list (AmValue * oid)) i v :
  heap_node h o = Some (NList l) → i ≤ length l →
  ∃ h', insert_at h o i v = Some h'
    ∧ updated (heap_node h) (heap_node h') o (NList (take i l ++ v :: drop i l)).
Proof.
  intros Ho%heap_node_list Hi. unfold insert_at. rewrite Ho, decide_True by done.
  destruct (set_node_updated h o _ (HList (take i l ++ v :: drop i l)) Ho) as (h' & -> & Hu); eauto.
  right. by intros ->.
Qed.
Lemma delete_at_updated (h : heap) (o : oid) (m : gmap bytes (AmValue * oid)) (k : bytes) :
  heap_node h o = Some (NMap m) →
  ∃ h', delete_at h o k = Some h' ∧ updated (heap_node h) (heap_node h') o (NMap (delete k m)).
Proof.
  intros Ho%heap_node_map. unfold delete_at. rewrite Ho.
  destruct (set_node_updated h o _ (HMap (delete k m)) Ho) as (h' & -> & Hu); eauto.
Qed.
Lemma alloc_node h n o m : heap_node h o = Some m → heap_node (alloc h n).1 o = Some m.
Proof.
  intros Ho. pose proof (alloc_fresh h n) as Hf. destruct (alloc h n) as [h1 c]. destruct Hf as (_ & _ & Hold).
  unfold heap_node in *. cbn. rewrite Hold; [done|]. by destruct (lookup_node h o).
Qed.
Lemma with_object_updated h o t n m (f : heap → AmValue * oid → option heap) (g : AmValue * oid → node) :
  heap_node h o = Some m → empty_node t = Some n →
  (∀ h1 v, heap_node h1 o = Some m → ∃ h', f h1 v = Some h' ∧ updated (heap_node h1) (heap_node h') o (g v)) →
  ∃ h' c, with_object h t f = Some (h', c) ∧ heap_node h c = None ∧ heap_node h' c = Some n
    ∧ updated (heap_node h) (heap_node h') o (g (Object t, c)).
Proof.
  intros Ho (hn & Hh & <-)%empty_hnode_node Hf. unfold with_object. rewrite Hh. cbn [mbind option_bind].
  pose proof (alloc_fresh h hn) as Hfr. pose proof (updated_alloc h hn) as Hua.
  pose proof (alloc_node h hn o m Ho) as Ho1. destruct (alloc h hn) as [h1 c] eqn:Ha. cbn [fst] in Ho1.
  destruct (Hf h1 (Object t, c) Ho1) as (h' & Hfe & Hu). rewrite Hfe. cbn [mbind option_bind].
  exists h', c. split; [done|]. destruct Hfr as (Hc & _).
  split; [unfold heap_node; by rewrite Hc|]. apply (Hua h' o); [|done].
  unfold heap_node in Ho. by destruct (lookup_node h o).
Qed.
#[export] Instance heap_tree_laws : AutomergeTreeLaws.
Proof.
  refine {| node_of := heap_node; tx_node := heap_node |}.
  - intros c. by eexists.
  - intros c k. done.
  - intros c o m Ho%heap_node_map. cbn. unfold keys, get. by rewrite Ho.
  - intros c o l Ho%heap_node_list. cbn. unfold len, get. by rewrite Ho.
  - done.
  - done.
  - done.
  - intros t o m k s Ho Hk. destruct (put_at_updated t o m k (Scalar s, None) Ho Hk) as (t' & E & Hu). eauto.
  - intros t o m k ty n Ho Hk Hn. apply (with_object_updated t o ty n _ _ (λ v, NMap (<[k := v]> m)) Ho Hn).
    intros h1 v Ho1. by apply put_at_updated.
  - intros t o l i s Ho Hi. destruct (insert_at_updated t o l i (Scalar s, None) Ho Hi) as (t' & E & Hu). eauto.
  - intros t o l i ty n Ho Hi Hn.
    apply (with_object_updated t o ty n _ _ (λ v, NList (take i l ++ v :: drop i l)) Ho Hn).
    intros h1 v Ho1. by apply insert_at_updated.
  - intros t o m k Ho _. by apply delete_at_updated.
Defined.
End Heap.
