(* ===== verification/JsonConvert.v ===== *)
(** Conversion between Automerge documents and JSON ([src/storage/json_convert.rs]).

    Documents are trees behind the interface of [DocTree].  Reading follows the objects
    of a document, with fuel for the depth; writing recurses on the value, with its size
    as fuel since a map is visited in the order of its iterator. *)
From Stdlib Require Import ZArith Lia Strings.Byte Strings.String.
From stdpp Require Import prelude gmap.
From S2P Require Import Prelude Wire Iteration Float Json Deletion Store DocTree.

Set Default Proof Using "Type".

Inductive ConvertError := RootNotObject | TransactionFailed.

(** * Reading *)
Section reading.
Context `{AutomergeTree} `{!JsonNumber}.
Implicit Types (c : content) (o : objid).

Definition scalar_to_json (s : ScalarValue) : Value :=
  match s with
  | SNull => Json.Null
  | SBoolean b => Json.Bool b
  | SInt i => Json.Number (number_from_i64 i)
  | SUint u => Json.Number (number_from_u64 u)
  | SF64 f => match number_from_f64 f with Some n => Json.Number n | None => Json.Null end
  | SStr s => Json.String s
  | STimestamp t => Json.Number (number_from_i64 t)
  | SBytes _ | SCounter _ | SUnknown => Json.Null
  end.

(** The conversion of a child is a parameter of the two loops. *)
Definition map_to_json (convert : AmValue → objid → option Value) c o : option Value :=
  m ← foldl (λ acc key,
         m ← acc;
         match tree_get c o (Key key) with
         | Some (Some (v, child)) => j ← convert v child; Some (<[key := j]> m)
         | _ => Some m
         end) (Some ∅) (tree_keys c o);
  Some (Json.Object m).
Definition list_to_json (convert : AmValue → objid → option Value) c o : option Value :=
  l ← foldl (λ acc i,
         l ← acc;
         match tree_get c o (Index i) with
         | Some (Some (v, child)) => j ← convert v child; Some (l ++ [j])
         | _ => Some l
         end) (Some []) (seq 0 (tree_length c o));
  Some (Json.Array l).
Fixpoint am_value_to_json (fuel : nat) c (v : AmValue) (child : objid) : option Value :=
  match fuel with
  | 0 => None
  | S fuel =>
      match v with
      | Scalar s => Some (scalar_to_json s)
      | Object MapObject => map_to_json (am_value_to_json fuel c) c child
      | Object ListObject => list_to_json (am_value_to_json fuel c) c child
      | Object _ => Some Json.Null
      end
  end.
Definition automerge_to_json (fuel : nat) (d : doc) : option Value :=
  map_to_json (am_value_to_json fuel (am_content d)) (am_content d) ROOT.
End reading.

(** * Writing *)
Section writing.
Context `{AutomergeTree} `{!JsonNumber} {VO : IterOrder bytes Value}.

(** A loop of fallible steps in a transaction. *)
Definition each {A} (f : tx → A → option tx) (l : list A) (t : tx) : option tx :=
  foldl (λ acc a, t ← acc; f t a) (Some t) l.
Definition enumerate {A} (l : list A) : list (nat * A) := zip (seq 0 (length l)) l.

Fixpoint write_json_value (fuel : nat) (t : tx) (obj : objid) (key : bytes) (v : Value) : option tx :=
  match fuel with
  | 0 => None
  | S fuel =>
      match v with
      | Json.Null => tx_put t obj key SNull
      | Json.Bool b => tx_put t obj key (SBoolean b)
      | Json.Number n =>
          match number_as_i64 n with
          | Some i => tx_put t obj key (SInt i)
          | None => match number_as_f64 n with Some f => tx_put t obj key (SF64 f) | None => Some t end
          end
      | Json.String s => tx_put t obj key (SStr s)
      | Json.Array arr =>
          '(t, list_id) ← tx_put_object t obj key ListObject;
          each (λ t e, write_json_list_item fuel t list_id e.1 e.2) (enumerate arr) t
      | Json.Object m =>
          '(t, map_id) ← tx_put_object t obj key MapObject;
          each (λ t e, write_json_value fuel t map_id e.1 e.2) (iter m) t
      end
  end
with write_json_list_item (fuel : nat) (t : tx) (list : objid) (index : nat) (v : Value) : option tx :=
  match fuel with
  | 0 => None
  | S fuel =>
      match v with
      | Json.Null => tx_insert t list index SNull
      | Json.Bool b => tx_insert t list index (SBoolean b)
      | Json.Number n =>
          match number_as_i64 n with
          | Some i => tx_insert t list index (SInt i)
          | None => match number_as_f64 n with Some f => tx_insert t list index (SF64 f) | None => Some t end
          end
      | Json.String s => tx_insert t list index (SStr s)
      | Json.Array arr =>
          '(t, nested_list) ← tx_insert_object t list index ListObject;
          each (λ t e, write_json_list_item fuel t nested_list e.1 e.2) (enumerate arr) t
      | Json.Object m =>
          '(t, nested_map) ← tx_insert_object t list index MapObject;
          each (λ t e, write_json_value fuel t nested_map e.1 e.2) (iter m) t
      end
  end.

Definition json_to_automerge (v : Value) (existing : option doc) : outcome ConvertError doc :=
  m ← ok_or (as_object v) RootNotObject;
  let d := match existing with Some existing => am_fork existing | None => am_new end in
  let existing_keys := tree_keys (am_content d) ROOT in
  match
    t ← each (λ t e, write_json_value (value_size v) t ROOT e.1 e.2) (iter m) (tx_begin d);
    each (λ t key, match m !! key with Some _ => Some t | None => tx_delete t ROOT key end)
      existing_keys t
  with
  | Some t => Ok (tx_commit t)
  | None => Err TransactionFailed
  end.
End writing.

(** * What a document represents *)
Section represents.
Context `{AutomergeTree} `{!JsonNumber}.
Implicit Types (N : objid → option node) (X : objid → Prop).

(** In the heap [N] the value [v], with its object [c], stands for the JSON value, and
    all objects it is made of satisfy [X]. *)
Inductive represents N X : AmValue → objid → Value → Prop :=
| represents_scalar s c : represents N X (Scalar s) c (scalar_to_json s)
| represents_map c m mj :
    X c → N c = Some (NMap m) → (∀ k, m !! k = None ↔ mj !! k = None) →
    (∀ k v c' j, m !! k = Some (v, c') → mj !! k = Some j → represents N X v c' j) →
    represents N X (Object MapObject) c (Json.Object mj)
| represents_list c l lj :
    X c → N c = Some (NList l) → length l = length lj →
    (∀ i v c' j, l !! i = Some (v, c') → lj !! i = Some j → represents N X v c' j) →
    represents N X (Object ListObject) c (Json.Array lj).

Lemma represents_frame N N' X (X' : objid → Prop) v c j :
  represents N X v c j →
  (∀ o, X o → is_Some (N o) → N' o = N o ∧ X' o) → represents N' X' v c j.
Proof.
  intros Hr Hf. induction Hr as [|c m mj Hc Hn Hk _ IH|c l lj Hc Hn Hk _ IH]; [constructor| |].
  - destruct (Hf c Hc) as [E Hx]; [by rewrite Hn|]. by eapply represents_map; [|rewrite E| |].
  - destruct (Hf c Hc) as [E Hx]; [by rewrite Hn|]. by eapply represents_list; [|rewrite E| |].
Qed.

Lemma lookup_restrict {V} (ks : list bytes) (m : gmap bytes V) (k : bytes) :
  filter (λ e, e.1 ∈ ks) m !! k = if decide (k ∈ ks) then m !! k else None.
Proof.
  apply option_eq. intros v. rewrite map_lookup_filter_Some. cbn. case_decide; naive_solver.
Qed.
(** ** Reading yields the represented value *)
Context {TL : AutomergeTreeLaws}.
Lemma map_to_json_spec convert c o m mj :
  node_of c o = Some (NMap m) → (∀ k, m !! k = None ↔ mj !! k = None) →
  (∀ k v c' j, m !! k = Some (v, c') → mj !! k = Some j → convert v c' = Some j) →
  map_to_json convert c o = Some (Json.Object mj).
Proof using TL.
  intros Hn Hk Hc. destruct (tree_map _ _ _ Hn) as [Hkeys Hget]. unfold map_to_json.
  assert (∀ ks acc, (∀ k, k ∈ ks → is_Some (m !! k)) →
    foldl (λ acc key, m ← acc;
         match tree_get c o (Key key) with
         | Some (Some (v, child)) => j ← convert v child; Some (<[key := j]> m)
         | _ => Some m
         end) (Some acc) ks
    = Some (filter (λ e, e.1 ∈ ks) mj ∪ acc)) as Hfold.
  { induction ks as [|k ks IH]; intros acc Hks.
    - cbn. f_equal. rewrite map_empty_filter_2; [by rewrite (left_id_L ∅ _)|].
      intros k j _ Hin. by apply elem_of_nil in Hin.
    - cbn [foldl]. destruct (Hks k) as [[v c'] Hm]; [left|].
      assert (is_Some (mj !! k)) as [j Hj].
      { apply not_eq_None_Some. rewrite <-Hk. congruence. }
      rewrite Hget, Hm. cbn [mbind option_bind]. rewrite (Hc _ _ _ _ Hm Hj). cbn [mbind option_bind].
      rewrite IH by (intros; apply Hks; by right). f_equal. apply map_eq. intros k'.
      rewrite !lookup_union, !lookup_restrict. destruct (decide (k' = k)) as [->|].
      + rewrite lookup_insert_eq, Hj. rewrite (decide_True (P:=k ∈ k :: ks)) by left.
        case_decide; by destruct (acc !! k).
      + rewrite lookup_insert_ne by done. f_equal. apply decide_ext. rewrite elem_of_cons. naive_solver. }
  rewrite Hfold.
  - cbn [mbind option_bind]. do 2 f_equal. rewrite (right_id_L ∅ _). apply map_filter_id.
    intros k j Hj. cbn. rewrite Hkeys. apply list_elem_of_fmap.
    destruct (m !! k) as [e|] eqn:E; [|apply Hk in E; congruence].
    exists (k, e). split; [done|]. by apply elem_of_map_to_list.
  - intros k Hin. rewrite Hkeys in Hin. apply list_elem_of_fmap in Hin as ([k' e] & -> & Hin).
    apply elem_of_map_to_list in Hin. by exists e.
Qed.
Lemma list_to_json_spec convert c o l lj :
  node_of c o = Some (NList l) → length l = length lj →
  (∀ i v c' j, l !! i = Some (v, c') → lj !! i = Some j → convert v c' = Some j) →
  list_to_json convert c o = Some (Json.Array lj).
Proof using TL.
  intros Hn Hl Hc. destruct (tree_list _ _ _ Hn) as [Hlen Hget]. unfold list_to_json. rewrite Hlen.
  assert (∀ k i, i + k = length l →
    foldl (λ acc i, l ← acc;
         match tree_get c o (Index i) with
         | Some (Some (v, child)) => j ← convert v child; Some (l ++ [j])
         | _ => Some l
         end) (Some (take i lj)) (seq i k) = Some lj) as Hfold.
  { induction k as [|k IH]; intros i Hi; cbn [seq foldl].
    - by rewrite take_ge by lia.
    - destruct (lookup_lt_is_Some_2 l i) as [[v c'] Hv]; [lia|].
      destruct (lookup_lt_is_Some_2 lj i) as [j Hj]; [lia|].
      rewrite Hget, Hv. cbn [mbind option_bind]. rewrite (Hc _ _ _ _ Hv Hj). cbn [mbind option_bind].
      rewrite <-(take_S_r _ _ _ Hj). apply IH. lia. }
  specialize (Hfold (length l) 0 eq_refl). rewrite take_0 in Hfold. by rewrite Hfold.
Qed.
Lemma represents_reads c X v o j :
  represents (node_of c) X v o j → ∀ fuel, value_size j ≤ fuel → am_value_to_json fuel c v o = Some j.
Proof using TL.
  induction 1 as [s o|o m mj _ Hn Hk _ IH|o l lj _ Hn Hk _ IH]; intros fuel Hf.
  - destruct fuel as [|fuel]; [|done]. destruct (scalar_to_json s); cbn in Hf; lia.
  - destruct fuel as [|fuel]; [cbn in Hf; lia|]. cbn [am_value_to_json].
    apply (map_to_json_spec _ _ _ _ _ Hn Hk). intros k v c' j Hv Hj. eapply IH; [done..|].
    pose proof (object_size_lt _ _ _ Hj). lia.
  - destruct fuel as [|fuel]; [cbn in Hf; lia|]. cbn [am_value_to_json].
    apply (list_to_json_spec _ _ _ _ _ Hn Hk). intros i v c' j Hv Hj. eapply IH; [done..|].
    pose proof (array_size_lt lj j (list_elem_of_lookup_2 _ _ _ Hj)). lia.
Qed.
End represents.

(** * Values that documents can hold *)
Section values.
Context `{!JsonNumber}.

(** A number as it comes back: an integer beyond [i64] is stored as a float. *)
Definition norm_number (n : number) : Value :=
  match number_as_i64 n with
  | Some z => Json.Number (number_from_i64 z)
  | None => match number_as_f64 n ≫= number_from_f64 with
            | Some n => Json.Number n
            | None => Json.Null
            end
  end.
Fixpoint norm (v : Value) : Value :=
  match v with
  | Json.Number n => norm_number n
  | Json.Array l => Json.Array (norm <$> l)
  | Json.Object m => Json.Object (norm <$> m)
  | _ => v
  end.
(** Every key in the value satisfies [K] and every number [F]. *)
Fixpoint every (K : bytes → Prop) (F : number → Prop) (v : Value) : Prop :=
  match v with
  | Json.Number n => F n
  | Json.Array l => foldr (λ v P, every K F v ∧ P) True l
  | Json.Object m => map_fold (λ k v P, K k ∧ every K F v ∧ P) True m
  | _ => True
  end.
Lemma every_array K F l : every K F (Json.Array l) ↔ Forall (every K F) l.
Proof. cbn. induction l as [|v l IH]; cbn; [done|]. rewrite Forall_cons. naive_solver. Qed.
Lemma every_object K F m :
  every K F (Json.Object m) ↔ ∀ k v, m !! k = Some v → K k ∧ every K F v.
Proof.
  cbn. apply (map_fold_weak_ind (λ P m, P ↔ ∀ k v, m !! k = Some v → K k ∧ every K F v)).
  - split; [|done]. intros _ k v. by rewrite lookup_empty.
  - intros k v m' P Hk IH. setoid_rewrite lookup_insert_Some. rewrite IH. split.
    + intros (HK & HF & Hall) k' v' [[<- <-]|[_ Hm]]; auto.
    + intros Hall. split; [by apply (Hall k v); left|]. split; [by apply (Hall k v); left|].
      intros k' v' Hm. apply Hall. right. split; [congruence|done].
Qed.
Definition nonempty_keys (v : Value) : Prop := every (λ k, k ≠ []) (λ _, True) v.
(** The number is an [i64] or a float. *)
Definition exact_number (n : number) : Prop :=
  is_Some (number_as_i64 n) ∨ ∃ f, number_from_f64 f = Some n.
Definition exact (v : Value) : Prop := every (λ _, True) exact_number v.

Context {JL : JsonNumberLaws}.
Lemma norm_exact_number n : exact_number n → norm_number n = Json.Number n.
Proof using JL.
  unfold norm_number. intros [[z Hz]|[f Hf]].
  - rewrite Hz. destruct (number_cases n) as [(z' & Hz' & ->)|[(z' & Hz' & ->)|[f Hf]]].
    + rewrite as_i64_from_i64 in Hz by done. congruence.
    + rewrite as_i64_from_u64 in Hz by done. destruct (Z.leb_spec z' i64_max); [|done].
      injection Hz as <-. by rewrite from_i64_u64 by (unfold in_u in Hz'; lia).
    + apply from_f64_Some in Hf as [? _]. congruence.
  - destruct (from_f64_Some _ _ Hf) as [-> ->]. cbn. by rewrite Hf.
Qed.
Lemma norm_exact v : exact v → norm v = v.
Proof using JL.
  unfold exact. induction v as [|b|n|s|l IH|m IH] using value_ind'; try done.
  - apply norm_exact_number.
  - rewrite every_array. intros Hl. cbn. f_equal.
    induction l as [|v l IHl]; [done|]. cbn. apply Forall_cons in IH as [IHv IH]. apply Forall_cons in Hl as [Hv Hl].
    f_equal; auto.
  - rewrite every_object. intros Hm. cbn. f_equal. apply map_eq. intros k. rewrite lookup_fmap.
    destruct (m !! k) as [v|] eqn:E; [|done]. cbn. f_equal. apply (IH k v E). by apply (Hm k v).
Qed.
Lemma as_f64_total n : number_as_i64 n = None → is_Some (number_as_f64 n).
Proof using JL.
  intros _. destruct (number_cases n) as [(z & Hz & ->)|[(z & Hz & ->)|[f Hf]]].
  - rewrite as_f64_from_i64 by done. eauto.
  - rewrite as_f64_from_u64 by done. eauto.
  - apply from_f64_Some in Hf as [_ ->]. eauto.
Qed.
End values.

(** * Writing *)
Section written.
Context `{AutomergeTree} {TL : AutomergeTreeLaws} `{!JsonNumber} {JL : JsonNumberLaws}
  {VO : IterOrder bytes Value}.
Implicit Types (t : tx) (o c : objid).

Definition fresh_in t : objid → Prop := λ x, tx_node t x = None.
Lemma updated_fresh t t' o n x :
  is_Some (tx_node t o) → updated (tx_node t) (tx_node t') o n → fresh_in t' x → fresh_in t x.
Proof.
  intros Ho [Hn Hu] Hx. unfold fresh_in in *. apply eq_None_not_Some. intros Hs.
  destruct (decide (x = o)) as [->|]; [congruence|]. rewrite Hu in Hx by done. rewrite Hx in Hs. by destruct Hs.
Qed.
Lemma updated_trans t1 t2 t3 o n n' :
  updated (tx_node t1) (tx_node t2) o n → updated (tx_node t2) (tx_node t3) o n' →
  updated (tx_node t1) (tx_node t3) o n'.
Proof.
  intros [Hn Hu] [Hn' Hu']. split; [done|]. intros o' Hne Hs. rewrite Hu'; [by apply Hu|done|].
  by rewrite Hu by done.
Qed.
(** A part stays what it is while the object it belongs to changes. *)
Lemma represents_updated t t' t0 o n v c j :
  is_Some (tx_node t0 o) → updated (tx_node t) (tx_node t') o n →
  represents (tx_node t) (fresh_in t0) v c j → represents (tx_node t') (fresh_in t0) v c j.
Proof.
  intros Ho [_ Hu] Hr. eapply represents_frame; [done|]. intros x Hx Hs. split; [|done].
  apply Hu; [|done]. intros ->. unfold fresh_in in Hx. rewrite Hx in Ho. by destruct Ho.
Qed.
Lemma represents_weaken t t0 t1 v c j :
  (∀ x, fresh_in t1 x → fresh_in t0 x) →
  represents (tx_node t) (fresh_in t1) v c j → represents (tx_node t) (fresh_in t0) v c j.
Proof. intros Hf Hr. eapply represents_frame; [done|]. auto. Qed.
Lemma each_cons {A} (f : tx → A → option tx) a l t : each f (a :: l) t = f t a ≫= each f l.
Proof.
  unfold each. cbn. destruct (f t a) as [t'|]; cbn; [done|].
  induction l as [|b l IH]; cbn; done.
Qed.

(** What writing a value at a key, or at the end of a list, does. *)
Definition writes_key (fuel : nat) : Prop := ∀ t o key v m,
  value_size v ≤ fuel → nonempty_keys v → key ≠ [] → tx_node t o = Some (NMap m) →
  ∃ t' w c, write_json_value fuel t o key v = Some t'
    ∧ updated (tx_node t) (tx_node t') o (NMap (<[key := (w, c)]> m))
    ∧ represents (tx_node t') (fresh_in t) w c (norm v).
Definition writes_item (fuel : nat) : Prop := ∀ t o v l,
  value_size v ≤ fuel → nonempty_keys v → tx_node t o = Some (NList l) →
  ∃ t' w c, write_json_list_item fuel t o (length l) v = Some t'
    ∧ updated (tx_node t) (tx_node t') o (NList (l ++ [(w, c)]))
    ∧ represents (tx_node t') (fresh_in t) w c (norm v).

Lemma items_written fuel c : writes_item fuel → ∀ arr t l,
  Forall (λ v, value_size v ≤ fuel ∧ nonempty_keys v) arr → tx_node t c = Some (NList l) →
  ∃ t' l', each (λ t e, write_json_list_item fuel t c e.1 e.2) (zip (seq (length l) (length arr)) arr) t = Some t'
    ∧ updated (tx_node t) (tx_node t') c (NList (l ++ l'))
    ∧ Forall2 (λ e v, represents (tx_node t') (fresh_in t) e.1 e.2 (norm v)) l' arr.
Proof.
  intros Hw. induction arr as [|v arr IH]; intros t l Hall Hc.
  - exists t, []. rewrite app_nil_r. split_and!; [done|by split|constructor].
  - apply Forall_cons in Hall as [[Hs Hk] Hall].
    destruct (Hw t c v l Hs Hk Hc) as (t1 & w & cw & Hw1 & Hu1 & Hr1).
    destruct (IH t1 (l ++ [(w, cw)]) Hall (proj1 Hu1)) as (t' & l' & He & Hu & Hr).
    exists t', ((w, cw) :: l'). cbn [length seq zip zip_with]. rewrite each_cons. cbn [fst snd]. rewrite Hw1.
    cbn [mbind option_bind]. rewrite length_app in He. cbn [length] in He.
    replace (length l + 1) with (S (length l)) in He by lia. split; [done|].
    rewrite <-(assoc_L (++)) in Hu. split; [by eapply updated_trans|]. constructor.
    + cbn. eapply represents_updated; [|exact Hu|done]. by rewrite Hc.
    + eapply Forall2_impl; [done|]. intros e v'. apply represents_weaken. intros x.
      eapply updated_fresh; [|exact Hu1]. by rewrite Hc.
Qed.
Lemma fields_written fuel c : writes_key fuel → ∀ (l : list (bytes * Value)) t m,
  NoDup l.*1 → Forall (λ e, value_size e.2 ≤ fuel ∧ nonempty_keys e.2 ∧ e.1 ≠ []) l →
  tx_node t c = Some (NMap m) →
  ∃ t' m', each (λ t e, write_json_value fuel t c e.1 e.2) l t = Some t'
    ∧ updated (tx_node t) (tx_node t') c (NMap m')
    ∧ (∀ k, k ∉ l.*1 → m' !! k = m !! k)
    ∧ ∀ k v, (k, v) ∈ l →
        ∃ w cw, m' !! k = Some (w, cw) ∧ represents (tx_node t') (fresh_in t) w cw (norm v).
Proof.
  intros Hw. induction l as [|[k v] l IH]; intros t m Hnd Hall Hc.
  - exists t, m. split_and!; [done|by split|done|]. by intros k v ?%elem_of_nil.
  - cbn in Hnd. apply NoDup_cons in Hnd as [Hnk Hnd]. apply Forall_cons in Hall as [(Hs & Hk & Hne) Hall].
    destruct (Hw t c k v m Hs Hk Hne Hc) as (t1 & w & cw & Hw1 & Hu1 & Hr1).
    destruct (IH t1 _ Hnd Hall (proj1 Hu1)) as (t' & m' & He & Hu & Hold & Hr).
    exists t', m'. rewrite each_cons. cbn [fst snd] in *. rewrite Hw1. split; [done|].
    split; [by eapply updated_trans|]. split.
    + intros k' Hk'. cbn in Hk'. rewrite not_elem_of_cons in Hk'. destruct Hk' as [Hne' Hk'].
      rewrite Hold by done. by rewrite lookup_insert_ne.
    + intros k' v' [[= -> ->]|Hin]%elem_of_cons.
      * exists w, cw. rewrite Hold by done. rewrite lookup_insert_eq. split; [done|].
        eapply represents_updated; [|exact Hu|done]. by rewrite Hc.
      * destruct (Hr k' v' Hin) as (w' & cw' & Hm' & Hr'). exists w', cw'. split; [done|].
        revert Hr'. apply represents_weaken. intros x. eapply updated_fresh; [|exact Hu1]. by rewrite Hc.
Qed.
(** Filling the fresh object [c] that was put into [o]. *)
Lemma filled t t1 t' o c n n1 n' :
  tx_node t o = Some n → tx_node t c = None → updated (tx_node t) (tx_node t1) o n1 →
  updated (tx_node t1) (tx_node t') c n' → updated (tx_node t) (tx_node t') o n1.
Proof.
  intros Ho Hc [Hn1 Hu1] [_ Hu]. split.
  - rewrite Hu; [done|congruence|by rewrite Hn1].
  - intros x Hne Hs. rewrite Hu; [by apply Hu1| |by rewrite Hu1].
    intros ->. rewrite Hc in Hs. by destruct Hs.
Qed.
Lemma array_written fuel t t1 o c n n1 arr :
  writes_item fuel → Forall (λ v, value_size v ≤ fuel ∧ nonempty_keys v) arr →
  tx_node t o = Some n → tx_node t c = None → tx_node t1 c = Some (NList []) →
  updated (tx_node t) (tx_node t1) o n1 →
  ∃ t', each (λ t e, write_json_list_item fuel t c e.1 e.2) (enumerate arr) t1 = Some t'
    ∧ updated (tx_node t) (tx_node t') o n1
    ∧ represents (tx_node t') (fresh_in t) (Object ListObject) c (norm (Json.Array arr)).
Proof.
  intros Hw Hall Ho Hc Hc1 Hu1. destruct (items_written fuel c Hw arr t1 [] Hall Hc1) as (t' & l & He & Hu & Hr).
  exists t'. split; [done|]. split; [by eapply filled|]. cbn [app] in Hu. cbn [norm].
  eapply represents_list; [done|apply Hu| |].
  - rewrite length_fmap. by eapply Forall2_length.
  - intros i v c' j Hv. rewrite list_lookup_fmap, fmap_Some. intros (v' & Hv' & ->).
    pose proof (Forall2_lookup_lr _ _ _ _ _ _ Hr Hv Hv') as Hr'.
    revert Hr'. cbn [fst snd]. apply represents_weaken. intros x. eapply updated_fresh; [|exact Hu1]. by rewrite Ho.
Qed.
Lemma object_written (fuel : nat) t t1 o c (n n1 : node) (m : gmap bytes Value) :
  writes_key fuel → map_Forall (λ k v, value_size v ≤ fuel ∧ nonempty_keys v ∧ k ≠ []) m →
  tx_node t o = Some n → tx_node t c = None → tx_node t1 c = Some (NMap ∅) →
  updated (tx_node t) (tx_node t1) o n1 →
  ∃ t', each (λ t e, write_json_value fuel t c e.1 e.2) (iter m) t1 = Some t'
    ∧ updated (tx_node t) (tx_node t') o n1
    ∧ represents (tx_node t') (fresh_in t) (Object MapObject) c (norm (Json.Object m)).
Proof.
  intros Hw Hall Ho Hc Hc1 Hu1.
  destruct (fields_written fuel c Hw (iter m) t1 ∅ (NoDup_iter_fst m)) as (t' & m' & He & Hu & Hold & Hr); [|done|].
  { apply Forall_forall. intros [k v] Hin%elem_of_iter. by apply Hall. }
  assert (∀ k, k ∉ (iter m).*1 ↔ m !! k = None) as Hdom.
  { intros k. split.
    - intros Hni. destruct (m !! k) as [v|] eqn:E; [|done]. destruct Hni. apply list_elem_of_fmap.
      exists (k, v). split; [done|]. by apply elem_of_iter.
    - intros E (e & -> & Hin)%list_elem_of_fmap. destruct e as [k v]. apply elem_of_iter in Hin. cbn in E. congruence. }
  exists t'. split; [done|]. split; [by eapply filled|]. cbn [norm].
  eapply represents_map; [done|apply Hu| |].
  - intros k. rewrite lookup_fmap, fmap_None, <-Hdom. split.
    + intros E Hin. apply list_elem_of_fmap in Hin as ([k' v] & -> & Hin).
      destruct (Hr k' v Hin) as (w & cw & Hw' & _). cbn in E. congruence.
    + intros Hni. by rewrite Hold.
  - intros k v c' j Hv. rewrite lookup_fmap, fmap_Some. intros (v' & Hv' & ->).
    apply elem_of_iter in Hv'. destruct (Hr k v' Hv') as (w & cw & Hw' & Hr').
    rewrite Hv in Hw'. injection Hw' as <- <-. revert Hr'. apply represents_weaken.
    intros x. eapply updated_fresh; [|exact Hu1]. by rewrite Ho.
Qed.
Lemma parts_array fuel arr :
  value_size (Json.Array arr) ≤ S fuel → nonempty_keys (Json.Array arr) →
  Forall (λ v, value_size v ≤ fuel ∧ nonempty_keys v) arr.
Proof.
  intros Hs Hk%every_array. apply Forall_forall. intros v Hv. pose proof (array_size_lt arr v Hv).
  split; [lia|]. by eapply Forall_forall in Hk.
Qed.
Lemma parts_object (fuel : nat) (m : gmap bytes Value) :
  value_size (Json.Object m) ≤ S fuel → nonempty_keys (Json.Object m) →
  map_Forall (λ k v, value_size v ≤ fuel ∧ nonempty_keys v ∧ k ≠ []) m.
Proof.
  intros Hs Hk k v Hv. pose proof (object_size_lt m k v Hv).
  pose proof (proj1 (every_object _ _ _) Hk k v Hv) as [? ?]. split_and!; [lia|done|done].
Qed.
(** The scalar a value is stored as, when it is one. *)
Definition scalar_of (v : Value) : option ScalarValue :=
  match v with
  | Json.Null => Some SNull
  | Json.Bool b => Some (SBoolean b)
  | Json.Number n => match number_as_i64 n with Some i => Some (SInt i) | None => SF64 <$> number_as_f64 n end
  | Json.String s => Some (SStr s)
  | _ => None
  end.
Lemma scalar_of_norm v s : scalar_of v = Some s → norm v = scalar_to_json s.
Proof.
  destruct v as [|b|n|b|l|m]; cbn; intros; simplify_eq; try done. unfold norm_number.
  destruct (number_as_i64 n); simplify_eq; [done|]. destruct (number_as_f64 n); cbn in *; simplify_eq. done.
Qed.
Lemma value_cases v :
  (∃ s, scalar_of v = Some s) ∨ (∃ l, v = Json.Array l) ∨ ∃ m, v = Json.Object m.
Proof using JL.
  destruct v as [|b|n|b|l|m]; cbn; eauto. left. destruct (number_as_i64 n) eqn:E; [eauto|].
  destruct (as_f64_total n E) as [f ->]. eauto.
Qed.
Lemma write_scalar_key fuel t o key v s :
  scalar_of v = Some s → write_json_value (S fuel) t o key v = tx_put t o key s.
Proof.
  destruct v; cbn; intros; simplify_eq; try done.
  destruct (number_as_i64 n); simplify_eq; [done|]. by destruct (number_as_f64 n); cbn in *; simplify_eq.
Qed.
Lemma write_scalar_item fuel t o i v s :
  scalar_of v = Some s → write_json_list_item (S fuel) t o i v = tx_insert t o i s.
Proof.
  destruct v; cbn; intros; simplify_eq; try done.
  destruct (number_as_i64 n); simplify_eq; [done|]. by destruct (number_as_f64 n); cbn in *; simplify_eq.
Qed.
Lemma writing_spec fuel : writes_key fuel ∧ writes_item fuel.
Proof using TL JL.
  induction fuel as [|fuel [IHk IHi]].
  { split; intros t o; intros; destruct v; cbn in *; lia. }
  split.
  - intros t o key v m Hs Hk Hne Ho. destruct (value_cases v) as [[s Hv]|[[l ->]|[m' ->]]].
    + rewrite (write_scalar_key _ _ _ _ _ _ Hv), (scalar_of_norm _ _ Hv).
      destruct (tx_put_node t o m key s Ho Hne) as (t' & c & Hp & Hu). exists t', (Scalar s), c.
      split_and!; [done|done|constructor].
    + destruct (tx_put_object_node t o m key ListObject _ Ho Hne eq_refl) as (t1 & c & Hp & Hc & Hc1 & Hu).
      destruct (array_written fuel t t1 o c _ _ l IHi (parts_array _ _ Hs Hk) Ho Hc Hc1 Hu) as (t' & He & Hu' & Hr).
      exists t', (Object ListObject), c. cbn [write_json_value]. by rewrite Hp.
    + destruct (tx_put_object_node t o m key MapObject _ Ho Hne eq_refl) as (t1 & c & Hp & Hc & Hc1 & Hu).
      destruct (object_written fuel t t1 o c _ _ m' IHk (parts_object _ _ Hs Hk) Ho Hc Hc1 Hu) as (t' & He & Hu' & Hr).
      exists t', (Object MapObject), c. cbn [write_json_value]. by rewrite Hp.
  - intros t o v l Hs Hk Ho.
    assert (∀ e, take (length l) l ++ e :: drop (length l) l = l ++ [e]) as Hend.
    { intros e. by rewrite take_ge, drop_ge by lia. }
    destruct (value_cases v) as [[s Hv]|[[l' ->]|[m' ->]]].
    + rewrite (write_scalar_item _ _ _ _ _ _ Hv), (scalar_of_norm _ _ Hv).
      destruct (tx_insert_node t o l (length l) s Ho (le_n _)) as (t' & c & Hp & Hu). rewrite Hend in Hu.
      exists t', (Scalar s), c. split_and!; [done|done|constructor].
    + destruct (tx_insert_object_node t o l (length l) ListObject _ Ho (le_n _) eq_refl) as (t1 & c & Hp & Hc & Hc1 & Hu).
      rewrite Hend in Hu.
      destruct (array_written fuel t t1 o c _ _ l' IHi (parts_array _ _ Hs Hk) Ho Hc Hc1 Hu) as (t' & He & Hu' & Hr).
      exists t', (Object ListObject), c. cbn [write_json_list_item]. by rewrite Hp.
    + destruct (tx_insert_object_node t o l (length l) MapObject _ Ho (le_n _) eq_refl) as (t1 & c & Hp & Hc & Hc1 & Hu).
      rewrite Hend in Hu.
      destruct (object_written fuel t t1 o c _ _ m' IHk (parts_object _ _ Hs Hk) Ho Hc Hc1 Hu) as (t' & He & Hu' & Hr).
      exists t', (Object MapObject), c. cbn [write_json_list_item]. by rewrite Hp.
Qed.
End written.

(** * Round trip *)
Section roundtrip.
Context `{AutomergeTree} {TL : AutomergeTreeLaws} `{!JsonNumber} {JL : JsonNumberLaws}
  {VO : IterOrder bytes Value}.
Implicit Types t : tx.

Lemma stale_keys_deleted (keep : gmap bytes Value) (ks : list bytes) t m :
  NoDup ks → (∀ k, k ∈ ks → is_Some (m !! k)) → tx_node t ROOT = Some (NMap m) →
  ∃ t' m', each (λ t key, match keep !! key with Some _ => Some t | None => tx_delete t ROOT key end) ks t
           = Some t'
    ∧ updated (tx_node t) (tx_node t') ROOT (NMap m')
    ∧ ∀ k, m' !! k = if decide (k ∈ ks ∧ keep !! k = None) then None else m !! k.
Proof using TL.
  revert t m. induction ks as [|k ks IH]; intros t m Hnd Hks Ht.
  - exists t, m. split_and!; [done|by split|]. intros k. rewrite decide_False; [done|].
    by intros [?%elem_of_nil _].
  - apply NoDup_cons in Hnd as [Hni Hnd]. rewrite each_cons. destruct (keep !! k) as [v|] eqn:Hk.
    + destruct (IH t m Hnd) as (t' & m' & He & Hu & Hm'); [by intros; apply Hks; right|done|].
      exists t', m'. cbn [mbind option_bind]. split_and!; [done|done|]. intros k'. rewrite Hm'.
      apply decide_ext. rewrite elem_of_cons. destruct (decide (k' = k)) as [->|]; [|naive_solver].
      rewrite Hk. naive_solver.
    + destruct (tx_delete_node t ROOT m k Ht) as (t1 & Hd & Hu1); [by apply Hks; left|].
      destruct (IH t1 (delete k m) Hnd) as (t' & m' & He & Hu & Hm'); [|apply Hu1|].
      { intros k' Hin. rewrite lookup_delete_ne by (intros ->; done). apply Hks. by right. }
      exists t', m'. rewrite Hd. cbn [mbind option_bind]. split; [done|].
      split; [by eapply updated_trans|]. intros k'. rewrite Hm'. destruct (decide (k' = k)) as [->|].
      * rewrite lookup_delete_eq. rewrite (decide_True (P:=k ∈ k :: ks ∧ _)) by (split; [left|done]).
        by case_decide.
      * rewrite lookup_delete_ne by done. apply decide_ext. rewrite elem_of_cons. naive_solver.
Qed.

(** An object is written over any document, and nothing else is left in it. *)
Lemma object_stored m existing :
  nonempty_keys (Json.Object m) →
  ∃ d, json_to_automerge (Json.Object m) existing = Ok d
    ∧ ∀ fuel, value_size (norm (Json.Object m)) ≤ fuel → automerge_to_json fuel d = Some (norm (Json.Object m)).
Proof using TL JL.
  intros Hk. set (v := Json.Object m) in *.
  unfold json_to_automerge. change (as_object v) with (Some m). cbn [ok_or mbind outcome_bind].
  set (d0 := match existing with Some e => am_fork e | None => am_new end).
  destruct (tree_root (am_content d0)) as [m0 Hroot]. destruct (tree_map _ _ _ Hroot) as [Hkeys _].
  assert (tx_node (tx_begin d0) ROOT = Some (NMap m0)) as Ht0 by by rewrite tx_begin_node.
  destruct (fields_written (value_size v) ROOT (proj1 (writing_spec _)) (iter m) (tx_begin d0) m0
    (NoDup_iter_fst m)) as (t1 & m1 & He1 & Hu1 & Hold & Hnew); [|done|].
  { apply Forall_forall. intros [k w] Hin%elem_of_iter. cbn [fst snd].
    pose proof (object_size_lt m k w Hin). pose proof (proj1 (every_object _ _ _) Hk k w Hin) as [? ?].
    split_and!; [unfold v; lia|done|done]. }
  rewrite He1. cbn [mbind option_bind].
  destruct (stale_keys_deleted m (tree_keys (am_content d0) ROOT) t1 m1) as (t2 & m2 & He2 & Hu2 & Hm2).
  { rewrite Hkeys. apply NoDup_fst_map_to_list. }
  { intros k Hin. rewrite Hkeys in Hin. apply list_elem_of_fmap in Hin as ([k' e] & -> & Hin%elem_of_map_to_list).
    cbn. destruct (m !! k') as [w|] eqn:E.
    - apply elem_of_iter in E. destruct (Hnew k' w E) as (? & ? & -> & _). eauto.
    - rewrite Hold, Hin; [eauto|]. intros ([k2 w] & -> & Hin2%elem_of_iter)%list_elem_of_fmap. cbn in *. congruence. }
  { apply Hu1. }
  rewrite He2. exists (tx_commit t2). split; [done|].
  intros fuel Hf. unfold automerge_to_json, v. cbn [norm].
  apply (map_to_json_spec _ _ _ m2); [rewrite tx_commit_node; apply Hu2| |].
  - intros k. rewrite lookup_fmap, fmap_None, Hm2. split.
    + intros E. destruct (m !! k) as [w|] eqn:Ek; [|done]. rewrite decide_False in E by naive_solver.
      apply elem_of_iter in Ek. destruct (Hnew k w Ek) as (? & ? & Hs & _). congruence.
    + intros E. case_decide as D; [done|]. rewrite Hold.
      * apply eq_None_not_Some. intros [e Hs]. destruct D. split; [|done]. rewrite Hkeys.
        apply list_elem_of_fmap. exists (k, e). split; [done|]. by apply elem_of_map_to_list.
      * intros ([k2 w] & -> & Hin2%elem_of_iter)%list_elem_of_fmap. cbn in *. congruence.
  - intros k w c' j. rewrite Hm2, lookup_fmap, fmap_Some. case_decide; [done|]. intros Hw (v' & Hv' & ->).
    pose proof (object_size_lt (norm <$> m) k (norm v')) as Hs. rewrite lookup_fmap, Hv' in Hs.
    specialize (Hs eq_refl). apply elem_of_iter in Hv'. destruct (Hnew k v' Hv') as (w' & cw & Hw' & Hr).
    rewrite Hw in Hw'. injection Hw' as <- <-. eapply represents_reads; [|unfold v in Hf; cbn [norm] in Hf; lia].
    eapply represents_frame; [eapply represents_updated; [|exact Hu2|exact Hr]; by rewrite Ht0|].
    intros o Hx _. split; [apply tx_commit_node|exact Hx].
Qed.

(** C5.  JSON survives documents.  A JSON object without empty keys can be stored as a new
    document or over any existing one, and reading the document back yields the object,
    with nothing left of what the existing document had, except that integers beyond the
    range of [i64] come back as floats; without such integers it comes back exactly.
    Any other JSON value is refused. *)
Theorem json_roundtrip v existing :
  match v with
  | Json.Object m =>
      nonempty_keys v →
      ∃ d, json_to_automerge v existing = Ok d
        ∧ (∀ fuel, value_size (norm v) ≤ fuel → automerge_to_json fuel d = Some (norm v))
        ∧ (exact v → automerge_to_json (value_size v) d = Some v)
  | _ => json_to_automerge v existing = Err RootNotObject
  end.
Proof using TL JL.
  destruct v as [|b|n|s|l|m]; try done. intros Hk.
  destruct (object_stored m existing Hk) as (d & Hd & Hread). exists d. split_and!; [done|done|].
  intros Hex. rewrite <-(norm_exact _ Hex) at 2. apply Hread. by rewrite norm_exact.
Qed.
End roundtrip.

(** * Witnesses *)
Import Heap.
#[local] Existing Instances heap_automerge heap_tree heap_tree_laws.
#[local] Instance value_order : IterOrder bytes Value := key_order bytes Value.
Definition sample : Value := Json.Object (list_to_map [
  (str "name", Json.String (str "test")); (str "count", Json.Number (number_from_i64 42));
  (str "tags", Json.Array [Json.String (str "a"); Json.Null; Json.Object {[str "x" := Json.Bool true]}])]).
Definition old_doc : heap :=
  {| root := {[str "stale" := (Scalar (SInt 1), None); str "name" := (Object ListObject, Some 0)]};
     objects := {[0 := HList []]} |}.
Definition sample_doc : outcome ConvertError heap := json_to_automerge sample (Some old_doc).
Lemma sample_keys : nonempty_keys sample.
Proof. unfold nonempty_keys. vm_compute. repeat split; intros [=]. Qed.
Lemma json_roundtrip_witness :
  nonempty_keys sample
  ∧ ∃ d : heap, sample_doc = Ok d ∧ automerge_to_json (value_size sample) d = Some sample.
Proof.
  split; [exact sample_keys|].
  destruct (json_roundtrip sample (Some (old_doc : @doc heap_automerge)) sample_keys) as (d & Hd & Hr & _).
  exists d. split; [exact Hd|].
  assert (norm sample = sample) as E by vm_eq. rewrite E in Hr. exact (Hr _ (le_n _)).
Defined.

(** An unsigned integer beyond [i64] is stored as a float and loses its last digits. *)
Lemma large_integers_are_rounded :
  let v := Json.Object {[str "n" := Json.Number (number_from_u64 (2 ^ 63 + 1))]} in
  let w := Json.Object {[str "n" := Json.Number (number_from_u64 (2 ^ 63))]} in
  let stored x := match json_to_automerge x None with
                  | Ok d => automerge_to_json 3 (d : heap)
                  | _ => None
                  end in
  value_eqb v w = false ∧ stored v = stored w.
Proof. split; vm_eq. Qed.
