(* ===== verification/StoreQuery.v ===== *)
(** Queries over the document store ([src/storage/query.rs]): the values of fields and
    their partial order, extraction of nested fields, the query builder and its
    execution. *)
From Stdlib Require Import ZArith Lia Strings.Byte Strings.String Sorting.Sorted Floats.SpecFloat.
From stdpp Require Import prelude gmap.
From S2P Require Import Prelude Wire Text Iteration Float Json Deletion Store DocTree JsonConvert.

Set Default Proof Using "Type".

(** * Values *)
Inductive SortOrder := Asc | Desc.
Inductive QueryValue :=
| VNull
| VBool (b : bool)
| VInt (z : Z)
| VUint (z : Z)
| VFloat (f : float)
| VString (s : bytes)
| VTimestamp (z : Z).

Module QueryValue.
(** The derived equality: the same constructor, floats as IEEE compares them. *)
Definition eqb (a b : QueryValue) : bool :=
  match a, b with
  | VNull, VNull => true
  | VBool a, VBool b => Bool.eqb a b
  | VInt a, VInt b | VUint a, VUint b | VTimestamp a, VTimestamp b => (a =? b)%Z
  | VFloat a, VFloat b => feq a b
  | VString a, VString b => bool_decide (a = b)
  | _, _ => false
  end.
Definition bool_cmp (a b : bool) : comparison :=
  match a, b with false, true => Lt | true, false => Gt | _, _ => Eq end.
Definition partial_cmp (a b : QueryValue) : option comparison :=
  match a, b with
  | VNull, VNull => Some Eq
  | VBool a, VBool b => Some (bool_cmp a b)
  | VInt a, VInt b | VUint a, VUint b => Some (Z.compare a b)
  | VFloat a, VFloat b => SFcompare a b
  | VString a, VString b => Some (bytes_cmp a b)
  | VTimestamp a, VTimestamp b => Some (Z.compare a b)
  | VInt a, VUint b | VUint a, VInt b => SFcompare (F64.of_Z a) (F64.of_Z b)
  | VInt a, VFloat b | VUint a, VFloat b => SFcompare (F64.of_Z a) b
  | VFloat a, VInt b | VFloat a, VUint b => SFcompare a (F64.of_Z b)
  | _, _ => None
  end.
End QueryValue.

(** [str::split('.')]: one part more than there are dots. *)
Fixpoint split_dot (s : bytes) : list bytes :=
  match s with
  | [] => [[]]
  | b :: s =>
      match split_dot s with
      | part :: parts => if decide (u8 b = 46%Z) then [] :: part :: parts else (b :: part) :: parts
      | [] => [[b]]
      end
  end.

(** * Fields *)
Section fields.
Context `{AutomergeTree}.
Implicit Types (c : content) (o : objid).

Definition automerge_value_to_query_value (v : AmValue) : option QueryValue :=
  match v with
  | Scalar SNull => Some VNull
  | Scalar (SBoolean b) => Some (VBool b)
  | Scalar (SInt i) => Some (VInt i)
  | Scalar (SUint u) => Some (VUint u)
  | Scalar (SF64 f) => Some (VFloat f)
  | Scalar (SStr s) => Some (VString s)
  | Scalar (STimestamp t) => Some (VTimestamp t)
  | Scalar (SBytes _ | SCounter _ | SUnknown) => None
  | Object _ => None
  end.
Fixpoint extract_field_recursive c o (parts : list bytes) : option QueryValue :=
  match parts with
  | [] => None
  | field_name :: remaining =>
      match tree_get c o (Key field_name) with
      | Some (Some (v, nested)) =>
          match remaining with
          | [] => automerge_value_to_query_value v
          | _ => match v with
                 | Object MapObject => extract_field_recursive c nested remaining
                 | _ => None
                 end
          end
      | _ => None
      end
  end.
Definition extract_field (d : doc) (field : bytes) : option QueryValue :=
  extract_field_recursive (am_content d) ROOT (split_dot field).

Definition list_contains c o (target : QueryValue) : bool :=
  existsb (λ i, match tree_get c o (Index i) with
                | Some (Some (v, _)) =>
                    match automerge_value_to_query_value v with
                    | Some q => QueryValue.eqb q target
                    | None => false
                    end
                | _ => false
                end) (seq 0 (tree_length c o)).
Fixpoint extract_array_contains_recursive c o (parts : list bytes) (target : QueryValue) : bool :=
  match parts with
  | [] => false
  | field_name :: remaining =>
      match tree_get c o (Key field_name) with
      | Some (Some (v, nested)) =>
          match remaining with
          | [] => match v with Object ListObject => list_contains c nested target | _ => false end
          | _ => match v with
                 | Object MapObject => extract_array_contains_recursive c nested remaining target
                 | _ => false
                 end
          end
      | _ => false
      end
  end.
Definition extract_array_contains (d : doc) (field : bytes) (target : QueryValue) : bool :=
  extract_array_contains_recursive (am_content d) ROOT (split_dot field) target.

(** * The builder *)
Record Query := {
  collection_name : bytes;
  predicates : list (doc → bool);
  sort_field : option (bytes * SortOrder);
  limit : option nat;
  offset : nat;
  doc_id_filter : option (gset bytes)
}.
End fields.

Module StoreQuery.
Section builder.
Context `{AutomergeTree}.
Definition new (name : bytes) : Query := {|
  collection_name := name; predicates := []; sort_field := None; limit := None; offset := 0;
  doc_id_filter := None |}.
Definition where_ (q : Query) (p : doc → bool) : Query := {|
  collection_name := collection_name q; predicates := predicates q ++ [p];
  sort_field := sort_field q; limit := limit q; offset := offset q;
  doc_id_filter := doc_id_filter q |}.
Definition compares (field : bytes) (value : QueryValue) (accept : comparison → bool) (d : doc) : bool :=
  match extract_field d field ≫= λ v, QueryValue.partial_cmp v value with
  | Some ord => accept ord
  | None => false
  end.
Definition where_eq (q : Query) (field : bytes) (value : QueryValue) : Query :=
  where_ q (λ d, match extract_field d field with Some v => QueryValue.eqb v value | None => false end).
Definition where_gt (q : Query) (field : bytes) (value : QueryValue) : Query :=
  where_ q (compares field value (λ ord, bool_decide (ord = Gt))).
Definition where_lt (q : Query) (field : bytes) (value : QueryValue) : Query :=
  where_ q (compares field value (λ ord, bool_decide (ord = Lt))).
Definition where_gte (q : Query) (field : bytes) (value : QueryValue) : Query :=
  where_ q (compares field value (λ ord, bool_decide (ord ≠ Lt))).
Definition where_lte (q : Query) (field : bytes) (value : QueryValue) : Query :=
  where_ q (compares field value (λ ord, bool_decide (ord ≠ Gt))).
Definition where_contains (q : Query) (field : bytes) (value : QueryValue) : Query :=
  where_ q (λ d, extract_array_contains d field value).
Definition filter_by_ids (q : Query) (ids : list bytes) : Query := {|
  collection_name := collection_name q; predicates := predicates q; sort_field := sort_field q;
  limit := limit q; offset := offset q; doc_id_filter := Some (list_to_set ids) |}.
Definition order_by (q : Query) (field : bytes) (order : SortOrder) : Query := {|
  collection_name := collection_name q; predicates := predicates q;
  sort_field := Some (field, order); limit := limit q; offset := offset q;
  doc_id_filter := doc_id_filter q |}.
Definition set_limit (q : Query) (n : nat) : Query := {|
  collection_name := collection_name q; predicates := predicates q; sort_field := sort_field q;
  limit := Some n; offset := offset q; doc_id_filter := doc_id_filter q |}.
Definition set_offset (q : Query) (n : nat) : Query := {|
  collection_name := collection_name q; predicates := predicates q; sort_field := sort_field q;
  limit := limit q; offset := n; doc_id_filter := doc_id_filter q |}.

(** ** Execution *)
Definition compare_docs (field : bytes) (order : SortOrder) (a b : bytes * doc) : comparison :=
  let cmp := match extract_field a.2 field, extract_field b.2 field with
             | Some a, Some b => default Eq (QueryValue.partial_cmp a b)
             | Some _, None => Lt
             | None, Some _ => Gt
             | None, None => Eq
             end in
  match order with Asc => cmp | Desc => CompOpp cmp end.

Context {RD : Redb} {LR : Lru doc} {SS : SliceSort}.
Abbreviation action A := (stm AutomergeStore StoreError A).
Definition execute (q : Query) : action (list (bytes * doc)) :=
  let prefix := collection_name q ++ str ":" in
  all_docs ← scan_prefix prefix;
  let filtered_by_id :=
    match doc_id_filter q with
    | Some ids =>
        filter (λ e, match strip_prefix prefix e.1 with Some id => bool_decide (id ∈ ids) | None => false end = true)
          all_docs
    | None => all_docs
    end in
  let results :=
    (λ e, (default e.1 (strip_prefix prefix e.1), e.2))
    <$> filter (λ e, forallb (λ p, p e.2) (predicates q) = true) filtered_by_id in
  results ← match sort_field q with
            | Some (field, order) =>
                lift match slice_sort (compare_docs field order) results with
                     | Some l => Ok l
                     | None => Panic
                     end
            | None => mret results
            end;
  let rest := drop (offset q) results in
  mret match limit q with Some n => take n rest | None => rest end.
Definition execute_ids (q : Query) : action (list bytes) :=
  results ← execute q; mret results.*1.
Definition count (q : Query) : action nat :=
  results ← execute q; mret (length results).
Context `{!JsonNumber}.
(** With fuel for the depth of the documents. *)
Definition execute_json (fuel : nat) (q : Query) : action (list (bytes * option Value)) :=
  results ← execute q; mret ((λ e, (e.1, automerge_to_json fuel e.2)) <$> results).
End builder.
End StoreQuery.
Import StoreQuery.

(** * The order of comparable values *)
(** The values that compare with each other: those of one constructor, without NaN. *)
Definition kind (v : QueryValue) : option nat :=
  match v with
  | VNull => Some 0
  | VBool _ => Some 1
  | VInt _ => Some 2
  | VUint _ => Some 3
  | VFloat f => if is_nan f then None else Some 4
  | VString _ => Some 5
  | VTimestamp _ => Some 6
  end.
Lemma partial_cmp_kind a b k :
  kind a = Some k → kind b = Some k →
  ∃ c, QueryValue.partial_cmp a b = Some c ∧ QueryValue.partial_cmp b a = Some (CompOpp c).
Proof.
  destruct a as [|x|x|x|x|x|x], b as [|y|y|y|y|y|y]; cbn; try (destruct (is_nan x) eqn:Ex); try (destruct (is_nan y) eqn:Ey);
    intros; simplify_eq; eauto.
  - exists (QueryValue.bool_cmp x y). by destruct x, y.
  - exists (x ?= y)%Z. by rewrite (Z.compare_antisym x y).
  - exists (x ?= y)%Z. by rewrite (Z.compare_antisym x y).
  - destruct (fcompare_total x y Ex Ey) as [c E]. exists c. by rewrite (fcompare_opp x y), E.
  - exists (bytes_cmp x y). by rewrite (bytes_cmp_opp x y).
  - exists (x ?= y)%Z. by rewrite (Z.compare_antisym x y).
Qed.
Lemma partial_cmp_trans a b c k x y z :
  kind a = Some k → kind b = Some k → kind c = Some k →
  QueryValue.partial_cmp a b = Some x → QueryValue.partial_cmp b c = Some y →
  QueryValue.partial_cmp a c = Some z → x ≠ Gt → y ≠ Gt → z ≠ Gt.
Proof.
  assert (∀ p q r : Z, (p ?= q)%Z ≠ Gt → (q ?= r)%Z ≠ Gt → (p ?= r)%Z ≠ Gt) as HZ.
  { intros p q r. rewrite !Z.compare_le_iff. lia. }
  destruct a as [|a|a|a|a|a|a], b as [|b|b|b|b|b|b], c as [|c|c|c|c|c|c]; cbn;
    try (destruct (is_nan a)); try (destruct (is_nan b)); try (destruct (is_nan c)); intros; simplify_eq; try done.
  - by destruct a, b, c.
  - eauto.
  - eauto.
  - erewrite fcompare_key in * by done. by eapply key_le_trans.
  - rewrite bytes_cmp_le in *. by etrans.
  - eauto.
Qed.

(** * What a query returns *)
Section properties.
Context `{AutomergeTree} {AML : AutomergeLaws} {RD : Redb} {RDL : RedbLaws} {LR : Lru doc}
  {LRL : LruLaws doc} {SS : SliceSort}.
Implicit Types (q : Query) (s : AutomergeStore).

(** The documents a query asks for. *)
Definition selected q s (id : bytes) (d : doc) : Prop :=
  contents s !! (collection_name q ++ str ":" ++ id) = Some d
  ∧ (∀ ids, doc_id_filter q = Some ids → id ∈ ids)
  ∧ Forall (λ p, p d = true) (predicates q).
Definition paged q (off : nat) (lim : option nat) : Query := {|
  collection_name := collection_name q; predicates := predicates q; sort_field := sort_field q;
  limit := lim; offset := off; doc_id_filter := doc_id_filter q |}.
Definition page {A} (off : nat) (lim : option nat) (l : list A) : list A :=
  match lim with Some n => take n (drop off l) | None => drop off l end.

(** The documents that pass the filters, in the order of the scan. *)
Definition matching q (docs : list (bytes * doc)) : list (bytes * doc) :=
  let prefix := collection_name q ++ str ":" in
  (λ e, (default e.1 (strip_prefix prefix e.1), e.2))
  <$> filter (λ e, forallb (λ p, p e.2) (predicates q) = true)
        match doc_id_filter q with
        | Some ids =>
            filter (λ e, match strip_prefix prefix e.1 with Some id => bool_decide (id ∈ ids) | None => false end = true)
              docs
        | None => docs
        end.
Definition sorted q (l : list (bytes * doc)) : option (list (bytes * doc)) :=
  match sort_field q with
  | Some (field, order) => slice_sort (compare_docs field order) l
  | None => Some l
  end.
Lemma execute_eq q s docs :
  scan_prefix (collection_name q ++ str ":") s = (Ok docs, s) →
  execute q s = (match sorted q (matching q docs) with
                 | Some full => Ok (page (offset q) (limit q) full)
                 | None => Panic
                 end, s).
Proof.
  intros Hs. unfold execute. unfold mbind at 1, stm_bind at 1. rewrite Hs. fold (matching q docs).
  unfold sorted, page, mbind, stm_bind, lift, mret, stm_ret. destruct (sort_field q) as [[f o]|]; [|done].
  by destruct (slice_sort _ _).
Qed.
Lemma stripped_NoDup (prefix : bytes) (l : list (bytes * doc)) :
  NoDup l.*1 → Forall (λ e, ∃ id, e.1 = prefix ++ id) l →
  NoDup ((λ e, (default e.1 (strip_prefix prefix e.1), e.2)) <$> l).*1.
Proof.
  assert (∀ id, strip_prefix prefix (prefix ++ id) = Some id) as Hstrip by (intros; by apply strip_prefix_Some).
  induction l as [|[k d] l IH]; cbn; [constructor|]. intros [Hk Hn]%NoDup_cons [[id E] Hall]%Forall_cons.
  cbn in E. subst k. rewrite Hstrip. cbn. apply NoDup_cons. split; [|auto].
  rewrite <-list_fmap_compose. intros ([k' d'] & E & Hin)%list_elem_of_fmap. cbn in E.
  pose proof (proj1 (Forall_forall _ _) Hall _ Hin) as [id' E']. cbn in E'. subst k'. rewrite Hstrip in E. cbn in E.
  subst id'. apply Hk, list_elem_of_fmap. by exists (prefix ++ id, d').
Qed.
Lemma matching_selected q s docs :
  docs ≡ₚ filter (λ e, starts_with (collection_name q ++ str ":") e.1 = true) (map_to_list (contents s)) →
  NoDup (matching q docs).*1 ∧ ∀ id d, (id, d) ∈ matching q docs ↔ selected q s id d.
Proof.
  intros Hp. set (prefix := collection_name q ++ str ":") in *.
  assert (∀ k d, (k, d) ∈ docs ↔ ∃ id, k = prefix ++ id ∧ contents s !! k = Some d) as Hdocs.
  { intros k d. rewrite Hp, list_elem_of_filter, elem_of_map_to_list. cbn [fst]. rewrite starts_with_spec. naive_solver. }
  assert (NoDup docs.*1) as Hnd.
  { rewrite Hp. eapply sublist_NoDup; [apply (NoDup_fst_map_to_list (contents s))|]. apply fmap_sublist, sublist_filter. }
  assert (∀ id, strip_prefix prefix (prefix ++ id) = Some id) as Hstrip by (intros; by apply strip_prefix_Some).
  unfold matching. fold prefix.
  set (byid := match doc_id_filter q with Some _ => _ | None => _ end).
  assert (sublist byid docs) as Hsub by (unfold byid; destruct (doc_id_filter q); [apply sublist_filter|done]).
  assert (∀ k d, (k, d) ∈ byid ↔ ∃ id, k = prefix ++ id ∧ contents s !! k = Some d
            ∧ ∀ ids, doc_id_filter q = Some ids → id ∈ ids) as Hbyid.
  { intros k d. unfold byid. destruct (doc_id_filter q) as [ids|].
    - rewrite list_elem_of_filter, Hdocs. cbn [fst]. split.
      + intros [Hid (id & -> & Hc)]. rewrite Hstrip in Hid. apply bool_decide_eq_true in Hid.
        exists id. split_and!; [done|done|]. by intros ? [= <-].
      + intros (id & -> & Hc & Hid). rewrite Hstrip. split; [apply bool_decide_eq_true; auto|eauto].
    - rewrite Hdocs. naive_solver. }
  split.
  - assert (sublist (filter (λ e : bytes * doc, forallb (λ p, p e.2) (predicates q) = true) byid) docs) as Hf
      by (etrans; [apply sublist_filter|done]).
    apply stripped_NoDup; [eapply sublist_NoDup; [exact Hnd|by apply fmap_sublist]|].
    apply Forall_forall. intros [k d] Hin. cbn [fst].
    assert ((k, d) ∈ docs) as (id & -> & _)%Hdocs by by eapply elem_of_sublist. eauto.
  - intros id d. rewrite list_elem_of_fmap. unfold selected.
    replace (collection_name q ++ str ":" ++ id) with (prefix ++ id) by (unfold prefix; by rewrite <-(assoc_L (++))).
    rewrite Forall_forall. split.
    + intros ([k d'] & [= -> ->] & [Hpred Hin]%list_elem_of_filter). cbn [fst snd] in *.
      apply Hbyid in Hin as (id' & -> & Hc & Hids). rewrite Hstrip. cbn. rewrite forallb_forall in Hpred.
      split_and!; [done|done|]. intros p Hp'. by apply Hpred, list_elem_of_In.
    + intros (Hc & Hids & Hpred). exists (prefix ++ id, d). cbn [fst snd]. rewrite Hstrip. split; [done|].
      apply list_elem_of_filter. split; [|apply Hbyid; eauto]. cbn [snd]. apply forallb_forall.
      intros p Hp'. by apply Hpred, list_elem_of_In.
Qed.

(** The values of a field are all of one kind. *)
Definition one_kind (field : bytes) (l : list (bytes * doc)) : Prop :=
  ∃ k, ∀ e v, e ∈ l → extract_field e.2 field = Some v → kind v = Some k.
Lemma one_kind_preorder field order l :
  one_kind field l → total_preorder (compare_docs field order) l.
Proof.
  intros [k Hk]. split.
  - intros x y Hx Hy. unfold compare_docs.
    destruct (extract_field x.2 field) as [a|] eqn:Ea, (extract_field y.2 field) as [b|] eqn:Eb; try by destruct order.
    destruct (partial_cmp_kind a b k (Hk _ _ Hx Ea) (Hk _ _ Hy Eb)) as (c & -> & ->). cbn.
    destruct order; [done|by rewrite CompOpp_involutive].
  - intros x y z Hx Hy Hz. unfold compare_docs.
    destruct (extract_field x.2 field) as [a|] eqn:Ea, (extract_field y.2 field) as [b|] eqn:Eb,
      (extract_field z.2 field) as [c|] eqn:Ec; try by destruct order.
    pose proof (Hk _ _ Hx Ea) as Ka. pose proof (Hk _ _ Hy Eb) as Kb. pose proof (Hk _ _ Hz Ec) as Kc.
    destruct (partial_cmp_kind a b k Ka Kb) as (x1 & E1 & E1'). destruct (partial_cmp_kind b c k Kb Kc) as (x2 & E2 & E2').
    destruct (partial_cmp_kind a c k Ka Kc) as (x3 & E3 & E3'). rewrite E1, E2, E3. cbn.
    destruct order.
    + exact (partial_cmp_trans a b c k _ _ _ Ka Kb Kc E1 E2 E3).
    + intros H1 H2. exact (partial_cmp_trans c b a k _ _ _ Kc Kb Ka E2' E1' E3' H2 H1).
Qed.

(** C18.  A query returns what it asks for.  On a working store its answer is, up to the
    offset and the limit, the list of exactly the documents of the collection that pass
    the filters, each once under its identifier; all pages are cut from the same list.
    When the values of the sort field are of one kind, the list is sorted by them,
    documents without the field last in ascending and first in descending order.  The
    query changes nothing, and it panics only while sorting incomparable values. *)
Theorem query_returns_selected q s :
  store_ok s →
  (execute q s).2 = s
  ∧ match (execute q s).1 with
    | Ok results =>
        ∃ full, results = page (offset q) (limit q) full
          ∧ NoDup full.*1 ∧ (∀ id d, (id, d) ∈ full ↔ selected q s id d)
          ∧ (∀ off lim, execute (paged q off lim) s = (Ok (page off lim full), s))
          ∧ ∀ field order, sort_field q = Some (field, order) → one_kind field full →
              StronglySorted (λ a b, compare_docs field order a b ≠ Gt) full
    | Err e => e = DatabaseError
    | Panic => ∃ field order docs, sort_field q = Some (field, order)
                 ∧ (∀ id d, (id, d) ∈ docs → selected q s id d) ∧ ¬ one_kind field docs
    end.
Proof using All.
  intros Hok. destruct (scan_prefix (collection_name q ++ str ":") s) as [r s'] eqn:Hs.
  destruct (scan_prefix_ok _ _ _ _ Hs Hok) as [-> [(docs & -> & Hp)| ->]].
  2: { unfold execute, mbind, stm_bind. by rewrite Hs. }
  destruct (matching_selected q s docs Hp) as [Hnd Hsel]. rewrite (execute_eq _ _ _ Hs). split; [done|].
  assert (∀ off lim, execute (paged q off lim) s = (match sorted q (matching q docs) with
                 | Some full => Ok (page off lim full) | None => Panic end, s)) as Hpage.
  { intros off lim. by rewrite (execute_eq (paged q off lim) s docs Hs). }
  destruct (sorted q (matching q docs)) as [full|] eqn:Hsort; cbn [fst].
  - exists full. assert (full ≡ₚ matching q docs) as Hperm.
    { unfold sorted in Hsort. destruct (sort_field q) as [[f o]|]; [by eapply slice_sort_perm|by simplify_eq]. }
    split_and!; [done|by rewrite Hperm|intros id d; by rewrite Hperm|exact Hpage|].
    intros field order Hf Hk. unfold sorted in Hsort. rewrite Hf in Hsort.
    assert (total_preorder (compare_docs field order) (matching q docs)) as Ht.
    { apply one_kind_preorder. destruct Hk as [k Hk]. exists k. intros e v He. apply Hk. by rewrite Hperm. }
    rewrite (slice_sort_total _ _ Ht) in Hsort. injection Hsort as <-. by apply sort_by_preorder.
  - unfold sorted in Hsort. destruct (sort_field q) as [[f o]|]; [|done].
    exists f, o, (matching q docs). split_and!; [done|by intros id d ?%Hsel|].
    intros Hk. by rewrite (slice_sort_total _ _ (one_kind_preorder f o _ Hk)) in Hsort.
Qed.
End properties.

(** * Witnesses *)
Import Heap.
#[local] Existing Instances heap_automerge heap_automerge_laws heap_tree insertion_sort.
Definition int_doc (z : Z) : heap :=
  {| root := {[str "n" := (Scalar (SInt z), None)]}; objects := ∅ |}.
Definition text_doc (t : bytes) : heap :=
  {| root := {[str "n" := (Scalar (SStr t), None)]}; objects := ∅ |}.
Definition two_notes : AutomergeStore :=
  opened ({| toy_docs := {[str "notes:a" := am_save (int_doc 1 : @doc heap_automerge);
                           str "notes:b" := am_save (int_doc 2 : @doc heap_automerge)]};
             toy_tombs := ∅; toy_bad := ∅ |} : @database toy_redb).
Lemma two_notes_ok : store_ok two_notes.
Proof.
  apply opened_ok. rewrite toy_db_view. cbn [toy_view toy_docs]. rewrite map_Forall_insert by vm_eq.
  split; [|apply map_Forall_singleton]; (split; [vm_eq|cbn; rewrite load_save_bits, decode_encode; by eexists]).
Qed.
Definition newest_note : Query :=
  set_limit (order_by (where_gt (new (str "notes")) (str "n") (VInt 0)) (str "n") Desc) 1.
Lemma query_returns_selected_witness :
  store_ok two_notes ∧ (execute newest_note two_notes).2 = two_notes
  ∧ (execute_ids newest_note two_notes).1 = Ok [str "b"].
Proof.
  split; [exact two_notes_ok|].
  split; [exact (proj1 (query_returns_selected newest_note two_notes two_notes_ok))|]. vm_eq.
Defined.

(** Equality distinguishes the representation of a number, the order does not: a
    document can be neither equal to a value nor different in order. *)
Lemma equality_disagrees_with_order :
  QueryValue.partial_cmp (VInt 5) (VUint 5) = Some Eq ∧ QueryValue.eqb (VInt 5) (VUint 5) = false
  ∧ QueryValue.partial_cmp (VInt (2 ^ 53 + 1)) (VUint (2 ^ 53)) = Some Eq.
Proof. split_and!; vm_eq. Qed.
(** With values of different kinds in the field the comparison is not an order: each
    number equals every text, but not every other number. *)
Lemma mixed_values_are_not_ordered :
  let a := (str "a", int_doc 1) in
  let b := (str "b", text_doc (str "x")) in
  let c := (str "c", int_doc 0) in
  compare_docs (str "n") Asc a b = Eq ∧ compare_docs (str "n") Asc b c = Eq
  ∧ compare_docs (str "n") Asc a c = Gt.
Proof. split_and!; vm_eq. Qed.
