(* ===== verification/TypedCollection.v ===== *)
(** Typed collections ([src/storage/typed_collection.rs]): documents of the store as values
    of a type that converts to and from JSON.  The conversions of the type are an
    interface ([Serde]); reading takes fuel for the depth of documents. *)
From Stdlib Require Import ZArith Lia Strings.Byte Strings.String.
From stdpp Require Import prelude gmap.
From S2P Require Import Prelude Wire Text Iteration Float Json Deletion Store Ttl DocTree JsonConvert.
From S2P Require Import StoreQuery.

Set Default Proof Using "Type".

(** [Serialize] and [DeserializeOwned]: a value is restored from its own JSON. *)
Class Serde `{!JsonNumber} (T : Type) := {
  to_value : T → option Value;
  from_value : Value → option T
}.
Class SerdeLaws `{!JsonNumber} (T : Type) `{!Serde T} : Prop :=
  from_to_value x v : to_value x = Some v → from_value v = Some x.

(** The store and the manager of expiries are arguments of the operations. *)
Record TypedCollection := { tc_name : bytes; tc_prefix : bytes }.
Inductive CollectionError :=
| StoreFailed (e : StoreError)
| SerializeFailed
| DeserializeFailed
| ConvertFailed (e : ConvertError).

Module Typed.
Section ops.
Context `{AutomergeTree} {RD : Redb} {LR : Lru doc} `{!JsonNumber} {VO : IterOrder bytes Value}
  {T : Type} `{!Serde T}.
Abbreviation action A := (stm AutomergeStore CollectionError A).

Definition new (name : bytes) : TypedCollection := {| tc_name := name; tc_prefix := name ++ str ":" |}.
Definition from_store {A} (m : stm AutomergeStore StoreError A) : action A := λ s,
  let '(r, s) := m s in (map_err StoreFailed r, s).
Definition key_of (c : TypedCollection) (id : bytes) : bytes := tc_prefix c ++ id.
(** [upsert]; a collection made by [with_ttl_manager] passes its manager, which schedules
    the document to expire. *)
Definition upsert (c : TypedCollection) (id : bytes) (x : T) (mgr : option TtlManager) (now : Z)
    : action (option TtlManager) :=
  json ← lift (ok_or (to_value x) SerializeFailed);
  existing ← from_store (Store.get (key_of c id));
  d ← lift (map_err ConvertFailed (json_to_automerge json existing));
  match mgr with
  | Some m => m' ← from_store (Ttl.put_with_ttl (key_of c id) d m now); mret (Some m')
  | None => _ ← from_store (Store.put (key_of c id) d); mret None
  end.

Section reading.
Context (fuel : nat).
(** Documents deeper than the fuel are not converted. *)
Definition get (c : TypedCollection) (id : bytes) : action (option T) :=
  found ← from_store (Store.get (key_of c id));
  match found with
  | Some d => x ← lift (ok_or (automerge_to_json fuel d ≫= from_value) DeserializeFailed); mret (Some x)
  | None => mret None
  end.
Definition get_json (c : TypedCollection) (id : bytes) : action (option (option Value)) :=
  found ← from_store (Store.get (key_of c id));
  mret (automerge_to_json fuel <$> found).
Definition scan (c : TypedCollection) : action (list (bytes * T)) :=
  docs ← from_store (scan_prefix (tc_prefix c));
  mret (omap (λ e, id ← strip_prefix (tc_prefix c) e.1;
                   x ← automerge_to_json fuel e.2 ≫= from_value; Some (id, x)) docs).
Definition scan_json (c : TypedCollection) : action (list (bytes * option Value)) :=
  docs ← from_store (scan_prefix (tc_prefix c));
  mret (omap (λ e, id ← strip_prefix (tc_prefix c) e.1; Some (id, automerge_to_json fuel e.2)) docs).
End reading.
Definition delete (c : TypedCollection) (id : bytes) : action unit := from_store (delete_doc (key_of c id)).
Definition count (c : TypedCollection) : action nat :=
  docs ← from_store (scan_prefix (tc_prefix c)); mret (length docs).
Definition query (c : TypedCollection) : Query := StoreQuery.new (tc_name c).
(** What a subscriber that does not lag sees of the keys announced between two states. *)
Definition subscribe (c : TypedCollection) (s s' : AutomergeStore) : list bytes :=
  omap (strip_prefix (tc_prefix c)) (drop (length (change_tx s)) (change_tx s')).
Definition subscribe_all (c : TypedCollection) (s s' : AutomergeStore) : list bytes :=
  omap (strip_prefix (tc_prefix c)) (drop (length (observer_tx s)) (observer_tx s')).
End ops.
End Typed.
Import Typed.

Section properties.
Context `{AutomergeTree} {AML : AutomergeLaws} {TL : AutomergeTreeLaws} {RD : Redb} {RDL : RedbLaws}
  {LR : Lru doc} {LRL : LruLaws doc} `{!JsonNumber} {JL : JsonNumberLaws}
  {VO : IterOrder bytes Value} {T : Type} `{!Serde T} {SL : SerdeLaws T}.
Implicit Types s : AutomergeStore.

(** What is read from a document depends on its content only. *)
Definition read (fuel : nat) (d : doc) : option T := automerge_to_json fuel d ≫= from_value.
#[local] Instance read_proper fuel : Proper ((≡) ==> (=)) (read fuel).
Proof. intros d1 d2 Hd. unfold read, automerge_to_json. by rewrite Hd. Qed.
(** The answer of [get] for a document. *)
Definition reading (fuel : nat) (o : option doc) : outcome CollectionError (option T) :=
  match o with Some d => ok_or (Some <$> read fuel d) DeserializeFailed | None => Ok None end.
#[local] Instance reading_proper fuel : Proper ((≡) ==> (=)) (reading fuel).
Proof. intros o1 o2 Ho. destruct Ho as [d1 d2 Hd|]; cbn; [by rewrite (read_proper fuel _ _ Hd)|done]. Qed.

Lemma from_store_Ok {A} (m : stm AutomergeStore StoreError A) s a s' :
  from_store m s = (Ok a, s') → m s = (Ok a, s').
Proof. unfold from_store. destruct (m s) as [[]]; cbn; intros; by simplify_eq. Qed.
Lemma get_reads fuel c id s r s' :
  get fuel c id s = (r, s') → store_ok s →
  reads s s' ∧ (r = reading fuel (contents s !! key_of c id) ∨ r = Err (StoreFailed DatabaseError)).
Proof using RDL LRL.
  unfold get, mbind, stm_bind, from_store. intros Hg Hok.
  destruct (Store.get (key_of c id) s) as [r0 s0] eqn:E.
  destruct (get_ok _ _ _ _ E Hok) as [Hrd [(o & -> & Ho)| ->]]; cbn [map_err] in Hg;
    [|injection Hg as <- <-; eauto].
  assert (r = reading fuel o ∧ s' = s0) as [-> ->].
  { destruct o as [d|]; [|by injection Hg as <- <-].
    change (option_bind Value T from_value (automerge_to_json fuel d)) with (read fuel d) in Hg.
    unfold lift in Hg. unfold reading. by destruct (read fuel d); injection Hg as <- <-. }
  split; [done|]. left. by rewrite Ho.
Qed.
(** A successful [upsert] stores the converted document, announced once. *)
Lemma upsert_stores c id x mgr now s mgr' s1 :
  upsert c id x mgr now s = (Ok mgr', s1) → store_ok s → is_Some (db s) → utf8_valid (key_of c id) = true →
  ∃ v existing d, to_value x = Some v ∧ json_to_automerge v existing = Ok d
    ∧ store_ok s1 ∧ contents s1 ≡ <[key_of c id := d]> (contents s)
    ∧ change_tx s1 = change_tx s ++ [key_of c id] ∧ observer_tx s1 = observer_tx s ++ [key_of c id].
Proof using AML RDL LRL.
  intros (v & ? & Hv & Hu)%stm_bind_Ok_inv Hok [d0 Hdb] Hk. unfold lift in Hv. injection Hv as Hv <-.
  apply stm_bind_Ok_inv in Hu as (o & s0 & Hg%from_store_Ok & Hu).
  apply stm_bind_Ok_inv in Hu as (d & ? & Hc & Hu). unfold lift in Hc. injection Hc as Hc <-.
  destruct (get_ok _ _ _ _ Hg Hok) as [Hr _].
  assert (∃ s', Store.put (key_of c id) d s0 = (Ok tt, s') ∧ s1 = s') as (s' & Hp & ->).
  { destruct mgr as [m|]; apply stm_bind_Ok_inv in Hu as (m' & s2 & Hp%from_store_Ok & [= <- <-]);
      [|destruct m'; eauto].
    apply stm_bind_Ok_inv in Hp as ([] & s3 & Hp & Hset). exists s3. split; [done|].
    by destruct (Config.get_collection_ttl _ _); injection Hset. }
  assert (room s0 (key_of c id)) as Hroom by (unfold room; by rewrite (reads_db _ _ Hr), Hdb).
  destruct (put_inner_ok _ _ true _ _ _ Hp (reads_ok _ _ Hr) Hroom Hk)
    as [(_ & Hok1 & Hc1 & Hobs & Hch & _)|[? _]]; [|done].
  rewrite (reads_contents _ _ Hr) in Hc1. rewrite (reads_change _ _ Hr) in Hch. rewrite (reads_observer _ _ Hr) in Hobs.
  exists v, o, d. split_and!; try done.
  - by destruct (to_value x); cbn in Hv; simplify_eq.
  - by destruct (json_to_automerge v o); cbn in Hc; simplify_eq.
Qed.

(** The stored document reads as the value. *)
Lemma upsert_reads c id x v mgr now s mgr' s1 :
  upsert c id x mgr now s = (Ok mgr', s1) → store_ok s → is_Some (db s) → utf8_valid (key_of c id) = true →
  to_value x = Some v → nonempty_keys v → exact v →
  ∃ d, store_ok s1 ∧ contents s1 ≡ <[key_of c id := d]> (contents s)
    ∧ (∀ fuel, value_size v ≤ fuel → read fuel d = Some x)
    ∧ change_tx s1 = change_tx s ++ [key_of c id] ∧ observer_tx s1 = observer_tx s ++ [key_of c id].
Proof using All.
  intros Hu Hok Hdb Hk Hv Hne Hex.
  destruct (upsert_stores _ _ _ _ _ _ _ _ Hu Hok Hdb Hk) as (v' & o & d & Hv' & Hd & Hok1 & Hc & Hch & Hobs).
  assert (v' = v) as -> by congruence. exists d. split_and!; [done|done| |done|done]. intros fuel Hf.
  destruct v as [| | | | |m]; try done.
  destruct (object_stored m o Hne) as (d' & Hd' & Hread). rewrite Hd' in Hd. injection Hd as ->.
  rewrite (norm_exact _ Hex) in Hread. unfold read. rewrite (Hread fuel Hf). cbn. by rewrite (from_to_value _ _ Hv).
Qed.

(** C4.  What is put into a typed collection is found there.  When the JSON of a value has
    no empty keys and no integers beyond [i64], a successful [upsert], with or without
    expiry, announces the document once to the subscribers of the collection; [get] then
    returns the value, whatever the document held before, and the answer for every other
    document is what it was, unless the database fails. *)
Theorem typed_roundtrip c id (x : T) v mgr now s mgr' s1 :
  store_ok s → is_Some (db s) → utf8_valid (key_of c id) = true →
  to_value x = Some v → nonempty_keys v → exact v →
  upsert c id x mgr now s = (Ok mgr', s1) →
  subscribe c s s1 = [id] ∧ subscribe_all c s s1 = [id]
  ∧ (∀ fuel, value_size v ≤ fuel →
       (get fuel c id s1).1 = Ok (Some x) ∨ (get fuel c id s1).1 = Err (StoreFailed DatabaseError))
  ∧ ∀ fuel c' id', key_of c' id' ≠ key_of c id →
       (get fuel c' id' s).1 = (get fuel c' id' s1).1
       ∨ (get fuel c' id' s).1 = Err (StoreFailed DatabaseError)
       ∨ (get fuel c' id' s1).1 = Err (StoreFailed DatabaseError).
Proof using All.
  intros Hok Hdb Hk Hv Hne Hex Hu.
  destruct (upsert_reads _ _ _ _ _ _ _ _ _ Hu Hok Hdb Hk Hv Hne Hex) as (d & Hok1 & Hc & Hread & Hch & Hobs).
  assert (strip_prefix (tc_prefix c) (key_of c id) = Some id) as Hstrip by by apply strip_prefix_Some.
  split_and!.
  - unfold subscribe. rewrite Hch, drop_app_length. cbn. by rewrite Hstrip.
  - unfold subscribe_all. rewrite Hobs, drop_app_length. cbn. by rewrite Hstrip.
  - intros fuel Hf. destruct (get fuel c id s1) as [r s2] eqn:Hg.
    destruct (get_reads _ _ _ _ _ _ Hg Hok1) as [_ [->|]]; [left|by right].
    rewrite (Hc (key_of c id)), lookup_insert_eq. cbn. by rewrite (Hread fuel Hf).
  - intros fuel c' id' Hne'. destruct (get fuel c' id' s) as [r s2] eqn:H1, (get fuel c' id' s1) as [r' s3] eqn:H2.
    destruct (get_reads _ _ _ _ _ _ H1 Hok) as [_ [->|]], (get_reads _ _ _ _ _ _ H2 Hok1) as [_ [->|]]; eauto.
    left. cbn. by rewrite (Hc (key_of c' id')), lookup_insert_ne.
Qed.

(** A deletion empties the document and is announced to nobody. *)
Lemma deletions_are_silent c id s s1 :
  delete c id s = (Ok tt, s1) → store_ok s →
  contents s1 !! key_of c id = None ∧ subscribe c s s1 = [] ∧ subscribe_all c s s1 = [].
Proof using RDL LRL.
  intros Hd%from_store_Ok Hok. destruct (delete_doc_ok _ _ _ _ Hd Hok) as [(_ & _ & -> & Hch & Hobs & _)|[? _]]; [|done].
  unfold subscribe, subscribe_all. by rewrite lookup_delete_eq, Hch, Hobs, !drop_all.
Qed.
(** [scan] lists the documents of the collection that convert to the type, each once. *)
Lemma scan_lists fuel c s r s' :
  scan fuel c s = (Ok r, s') → store_ok s →
  s' = s ∧ ∀ id x, (id, x) ∈ r ↔ ∃ d, contents s !! key_of c id = Some d ∧ read fuel d = Some x.
Proof using RDL LRL.
  intros (l & s1 & Hs%from_store_Ok & [= <- <-])%stm_bind_Ok_inv Hok.
  destruct (scan_prefix_ok _ _ _ _ Hs Hok) as [-> [(? & [= <-] & Hl)|]]; [|done]. split; [done|].
  intros id x. rewrite list_elem_of_omap. setoid_rewrite Hl. setoid_rewrite list_elem_of_filter. split.
  - intros ([k d] & [_ Hin%elem_of_map_to_list] & He). cbn in *.
    destruct (strip_prefix (tc_prefix c) k) as [i|] eqn:E; [|done]. apply strip_prefix_Some in E as ->. cbn in He.
    exists d. unfold read. destruct (automerge_to_json fuel d ≫= from_value); cbn in He; simplify_eq. done.
  - intros (d & Hd & Hr). exists (key_of c id, d). cbn.
    assert (strip_prefix (tc_prefix c) (key_of c id) = Some id) as Hstrip by by apply strip_prefix_Some.
    split; [split; [|by apply elem_of_map_to_list]|rewrite Hstrip; cbn; unfold read in Hr; by rewrite Hr].
    apply starts_with_app.
Qed.
End properties.

(** * Witnesses *)
Import Heap.
#[local] Existing Instances heap_automerge heap_automerge_laws heap_tree heap_tree_laws value_order.
(** A collection of untyped JSON. *)
#[local] Instance json_serde : Serde Value := {| to_value := Some; from_value := Some |}.
#[local] Instance json_serde_laws : SerdeLaws Value.
Proof. by intros x v [= ->]. Qed.
Definition notes : TypedCollection := new (str "notes").
Lemma sample_exact : exact sample.
Proof.
  assert (exact_number (number_from_i64 42)) as Hn by (left; by eexists).
  unfold exact. revert Hn. generalize exact_number. intros P Hn. vm_compute in Hn |- *. by repeat split.
Qed.
Lemma typed_roundtrip_witness :
  let '(r, s1) := upsert notes (str "a") sample None 0 two_notes in
  r = Ok None ∧ subscribe notes two_notes s1 = [str "a"]
  ∧ ((Typed.get (value_size sample) notes (str "a") s1).1 = Ok (Some sample)
     ∨ (Typed.get (value_size sample) notes (str "a") s1).1 = Err (StoreFailed DatabaseError)).
Proof.
  assert ((upsert notes (str "a") sample None 0 two_notes).1 = Ok None) as Hr by vm_eq.
  destruct (upsert notes (str "a") sample None 0 two_notes) as [r s1] eqn:E. cbn [fst] in Hr. rewrite Hr in E.
  destruct (typed_roundtrip notes (str "a") sample sample None 0 two_notes None s1 two_notes_ok) as (Hs & _ & Hg & _);
    [by eexists|vm_eq|reflexivity|exact sample_keys|exact sample_exact|exact E|].
  split; [exact Hr|]. split; [exact Hs|exact (Hg _ (le_n _))].
Defined.
