(* ===== verification/CertificateStore.v ===== *)
(** Certificates and revocations as documents ([src/storage/certificate_store.rs]): typed
    collections over the document store, from which the local certificate bundle is
    loaded and kept up to date.  Every clock reading of a loop is an argument, by the
    position of the entry. *)
From Stdlib Require Import ZArith Lia Strings.Byte Strings.String.
From stdpp Require Import prelude gmap.
From S2P Require Import Prelude Wire Text Iteration Float Json Crypto Device Certificate Bundle Deletion Store.
From S2P Require Import Formation Ttl DocTree JsonConvert StoreQuery TypedCollection.

Set Default Proof Using "Type".

Definition CERTIFICATES_COLLECTION : bytes := str "certificates".
Definition REVOCATIONS_COLLECTION : bytes := str "revocations".

Record CertificateEntry := {
  cert_data : bytes;
  entry_node_id : bytes;
  entry_tier : bytes;
  entry_subject : bytes;
  entry_issuer : bytes;
  entry_permissions : byte;
  entry_expires_at_ms : Z;
  written_at_ms : Z
}.
Record RevocationEntry := { rev_subject : bytes; rev_reason : bytes; rev_timestamp_ms : Z }.

Module CertificateEntry.
Section ops.
Context `{!Base64, !Hex}.
Definition from_certificate (c : MeshCertificate) (now_ms : Z) : CertificateEntry := {|
  cert_data := base64_encode (Cert.encode c);
  entry_node_id := node_id c;
  entry_tier := str (Tier.as_str (tier c));
  entry_subject := hex_encode (subject_public_key c);
  entry_issuer := hex_encode (issuer_public_key c);
  entry_permissions := perms c;
  entry_expires_at_ms := expires_at_ms c;
  written_at_ms := now_ms
|}.
Definition to_certificate (e : CertificateEntry) : outcome SecurityError MeshCertificate :=
  data ← ok_or (base64_decode (cert_data e)) (SerializationError "invalid base64");
  Cert.decode data.
End ops.
End CertificateEntry.
Import CertificateEntry.

Record CertificateStore `{Automerge} {RD : Redb} {LR : Lru doc} :=
  { bundle : CertificateBundle; cs_store : AutomergeStore }.
Arguments CertificateStore {_ _ _}.

Module CertStore.
Section ops.
Context `{AutomergeTree} {RD : Redb} {LR : Lru doc} `{!JsonNumber} {VO : IterOrder bytes Value}
  {Ed : Ed25519} `{!Base64, !Hex} `{!Serde CertificateEntry, !Serde RevocationEntry} (fuel : nat).
Abbreviation action A := (stm CertificateStore CollectionError A).

Definition certificates : TypedCollection := Typed.new CERTIFICATES_COLLECTION.
Definition revocations : TypedCollection := Typed.new REVOCATIONS_COLLECTION.
Definition new (store : AutomergeStore) (trusted_authorities : list bytes) : CertificateStore :=
  {| bundle := foldl Bundle.add_authority Bundle.new trusted_authorities; cs_store := store |}.
Definition set_bundle (s : CertificateStore) (b : CertificateBundle) : CertificateStore :=
  {| bundle := b; cs_store := cs_store s |}.
Definition on_collection {A} (m : stm AutomergeStore CollectionError A) : action A := λ s,
  let '(r, st) := m (cs_store s) in (r, {| bundle := bundle s; cs_store := st |}).

(** The certificate enters the own bundle even when it is refused. *)
Definition add_local (c : MeshCertificate) (now_ms : Z) : action unit := λ s,
  match Bundle.add_certificate (bundle s) c now_ms with
  | Ok b => (Ok tt, set_bundle s b)
  | Err _ => (Ok tt, set_bundle s (Bundle.add_certificate_unchecked (bundle s) c))
  | Panic => (Panic, s)
  end.
Definition publish_certificate (c : MeshCertificate) (written now_ms : Z) : action unit :=
  _ ← on_collection
    (Typed.upsert certificates (hex_encode (subject_public_key c)) (from_certificate c written) None 0);
  add_local c now_ms.
Definition publish_revocation (subject_public_key reason : bytes) (now_ms : Z) : action unit :=
  let subject_hex := hex_encode subject_public_key in
  _ ← on_collection
    (Typed.upsert revocations subject_hex
       {| rev_subject := subject_hex; rev_reason := reason; rev_timestamp_ms := now_ms |} None 0);
  mret tt.
Definition load_revocation_set : action (gset bytes) :=
  entries ← on_collection (Typed.scan fuel revocations);
  mret (list_to_set (rev_subject ∘ snd <$> entries)).

(** The loop of [load_all] and [rebuild_bundle], from the [i]-th entry. *)
Fixpoint add_entries (now_ms : nat → Z) (revoked : gset bytes) (i : nat)
    (entries : list (bytes * CertificateEntry)) (b : CertificateBundle) (count : nat)
    : outcome CollectionError nat * CertificateBundle :=
  match entries with
  | [] => (Ok count, b)
  | (_, e) :: entries =>
      if decide (entry_subject e ∈ revoked) then add_entries now_ms revoked (S i) entries b count
      else match c ← to_certificate e; Bundle.add_certificate b c (now_ms i) with
           | Ok b => add_entries now_ms revoked (S i) entries b (count + 1)
           | Err _ => add_entries now_ms revoked (S i) entries b count
           | Panic => (Panic, b)
           end
  end.
Definition add_all (now_ms : nat → Z) (revoked : gset bytes) (entries : list (bytes * CertificateEntry))
    : action nat := λ s,
  let '(r, b) := add_entries now_ms revoked 0 entries (bundle s) 0 in (r, set_bundle s b).
Definition load_all (now_ms : nat → Z) : action nat :=
  entries ← on_collection (Typed.scan fuel certificates);
  revoked ← load_revocation_set;
  add_all now_ms revoked entries.
(** The rebuilt bundle starts from the old one, which keeps what it has. *)
Definition rebuild_bundle (now_ms : nat → Z) : action unit :=
  _ ← load_all now_ms; mret tt.

Definition handle_cert_change (subject_hex : bytes) (now_ms : Z) : action unit := λ s,
  let '(r, s) := on_collection (Typed.get (T:=RevocationEntry) fuel revocations subject_hex) s in
  match r with
  | Ok (Some _) => (Ok tt, s)
  | Ok None | Err _ =>
      let '(r, s) := on_collection (Typed.get (T:=CertificateEntry) fuel certificates subject_hex) s in
      match r with
      | Ok (Some e) =>
          match c ← to_certificate e; Bundle.add_certificate (bundle s) c now_ms with
          | Ok b => (Ok tt, set_bundle s b)
          | Err _ => (Ok tt, s)
          | Panic => (Panic, s)
          end
      | Ok None | Err _ => (Ok tt, s)
      | Panic => (Panic, s)
      end
  | Panic => (Panic, s)
  end.
Definition handle_revocation_change (subject_hex : bytes) (now_ms : nat → Z) : action unit := λ s,
  let '(r, s) := on_collection (Typed.get (T:=RevocationEntry) fuel revocations subject_hex) s in
  match r with
  | Ok (Some e) =>
      match hex_decode (rev_subject e) with
      | Some subject_bytes =>
          if decide (length subject_bytes = 32) then
            let '(r, s) := rebuild_bundle now_ms s in
            (match r with Panic => Panic | _ => Ok tt end, s)
          else (Ok tt, s)
      | None => (Ok tt, s)
      end
  | Ok None | Err _ => (Ok tt, s)
  | Panic => (Panic, s)
  end.
End ops.
End CertStore.
Import CertStore.

(** * The loop over the entries *)
Section loop.
Context {Ed : Ed25519} `{!Base64, !Hex}.
Implicit Types (b : CertificateBundle) (c : MeshCertificate) (e : CertificateEntry).

Lemma add_certificate_result b c t b' :
  Bundle.add_certificate b c t = Ok b' →
  Bundle.authorities b' = Bundle.authorities b
  ∧ Bundle.certificates b' = <[subject_public_key c := c]> (Bundle.certificates b).
Proof. by intros (_ & -> & _)%Bundle.add_certificate_inv. Qed.
(** An invariant of the bundle that accepted certificates keep. *)
Lemma add_entries_inv (P : CertificateBundle → Prop) now revoked i es b n :
  (∀ id e c b b' t, (id, e) ∈ es → entry_subject e ∉ revoked → to_certificate e = Ok c →
     (∃ j, t = now j) → Bundle.add_certificate b c t = Ok b' → P b → P b') →
  P b → P (add_entries now revoked i es b n).2.
Proof.
  revert i b n. induction es as [|[id e] es IH]; intros i b n Hstep Hb; [done|]. cbn.
  assert (∀ i b n, P b → P (add_entries now revoked i es b n).2) as IH'.
  { intros. apply IH; [|done]. intros. eapply Hstep; eauto. by right. }
  case_decide; [by apply IH'|].
  destruct (to_certificate e) as [c| |] eqn:Hc; cbn [mbind outcome_bind]; [|by apply IH'|done].
  destruct (Bundle.add_certificate b c (now i)) as [b'| |] eqn:Ha; [|by apply IH'|done].
  apply IH'. eapply Hstep; eauto. by left.
Qed.
Lemma add_entries_authorities now revoked i es b n :
  Bundle.authorities (add_entries now revoked i es b n).2 = Bundle.authorities b.
Proof.
  apply (add_entries_inv (λ b', Bundle.authorities b' = Bundle.authorities b)); [|done].
  intros id e c b1 b2 t _ _ _ _ [-> _]%add_certificate_result ->. done.
Qed.
Lemma add_entries_chain now revoked i es b n limit :
  (∀ j, (now j ≤ limit)%Z) → Bundle.bundle_ok limit b → Bundle.bundle_ok limit (add_entries now revoked i es b n).2.
Proof.
  intros Hnow. apply add_entries_inv. intros id e c b1 b2 t _ _ _ [j ->] Ha Hok.
  eapply Bundle.add_certificate_ok; eauto.
Qed.
(** A key whose entries are all revoked is left alone. *)
Lemma add_entries_frozen now revoked i es b n pk :
  (∀ id e c, (id, e) ∈ es → to_certificate e = Ok c → subject_public_key c = pk → entry_subject e ∈ revoked) →
  Bundle.certificates (add_entries now revoked i es b n).2 !! pk = Bundle.certificates b !! pk.
Proof.
  intros Hpk. apply (add_entries_inv (λ b', Bundle.certificates b' !! pk = Bundle.certificates b !! pk)); [|done].
  intros id e c b1 b2 t Hin Hnr Hc _ [_ ->]%add_certificate_result <-. apply lookup_insert_ne. naive_solver.
Qed.
(** A certificate that the authorities issued is loaded and stays. *)
Lemma add_entries_added now revoked i es b n r b' id e c :
  add_entries now revoked i es b n = (Ok r, b') →
  (id, e) ∈ es → entry_subject e ∉ revoked → to_certificate e = Ok c →
  Cert.verify c = Ok tt → issuer_public_key c ∈ Bundle.authorities b →
  (∀ id' e' c', (id', e') ∈ es → to_certificate e' = Ok c' → subject_public_key c' = subject_public_key c → c' = c) →
  Bundle.certificates b' !! subject_public_key c = Some c.
Proof.
  revert i b n. induction es as [|[id0 e0] es IH]; intros i b n Hr Hin Hnr Hc Hv Hi Hsame; [by apply elem_of_nil in Hin|].
  cbn in Hr. apply elem_of_cons in Hin as [[= <- <-]|Hin].
  - rewrite decide_False in Hr by done. rewrite Hc in Hr. cbn [mbind outcome_bind] in Hr.
    assert (Bundle.add_certificate b c (now i) = Ok (Bundle.add_certificate_unchecked b c)) as Ha.
    { unfold Bundle.add_certificate, Bundle.is_trusted_issuer. rewrite Hv. cbn [mbind outcome_bind].
      rewrite decide_True by done. by rewrite andb_false_r. }
    rewrite Ha in Hr. apply (f_equal snd) in Hr. cbn [snd] in Hr. rewrite <-Hr.
    apply (add_entries_inv (λ b', Bundle.certificates b' !! subject_public_key c = Some c)).
    + intros id' e' c' b1 b2 t Hin _ Hc' _ [_ ->]%add_certificate_result Hb.
      destruct (decide (subject_public_key c' = subject_public_key c)) as [E|E]; [|by rewrite lookup_insert_ne].
      rewrite (Hsame id' e' c'); [apply lookup_insert_eq|by right|done|done].
    + apply lookup_insert_eq.
  - assert (∀ id' e' c', (id', e') ∈ es → to_certificate e' = Ok c' → subject_public_key c' = subject_public_key c → c' = c)
      as Hsame' by (intros; eapply Hsame; eauto; by right).
    case_decide; [by eapply IH|]. destruct (to_certificate e0) as [c0| |]; cbn [mbind outcome_bind] in Hr; [|by eapply IH|done].
    destruct (Bundle.add_certificate b c0 (now i)) as [b0| |] eqn:Ha; [|by eapply IH|done].
    apply add_certificate_result in Ha as [Hau _]. eapply IH; eauto. by rewrite Hau.
Qed.
(** The subject an entry names is not compared with the certificate: under another name a
    revoked certificate is loaded. *)
Lemma relabelled_certificate_returns now revoked i b n id e c :
  hex_encode (subject_public_key c) ∈ revoked → entry_subject e ∉ revoked → to_certificate e = Ok c →
  Cert.verify c = Ok tt → issuer_public_key c ∈ Bundle.authorities b →
  Bundle.certificates (add_entries now revoked i [(id, e)] b n).2 !! subject_public_key c = Some c.
Proof.
  intros _ Hnr Hc Hv Hi. destruct (add_entries now revoked i [(id, e)] b n) as [r b'] eqn:E.
  cbn in E. rewrite decide_False, Hc in E by done. cbn in E.
  unfold Bundle.add_certificate, Bundle.is_trusted_issuer in E. rewrite Hv in E. cbn in E.
  rewrite decide_True, andb_false_r in E by done. injection E as _ <-. apply lookup_insert_eq.
Qed.
(** Entries are loaded in the order of their keys, once: a certificate that comes before
    that of its issuer is skipped. *)
Lemma delegate_before_issuer_is_skipped now revoked i b n id1 e1 c1 id2 e2 c2 :
  to_certificate e1 = Ok c1 → to_certificate e2 = Ok c2 →
  issuer_public_key c1 = subject_public_key c2 → subject_public_key c1 ≠ issuer_public_key c1 →
  issuer_public_key c1 ∉ Bundle.authorities b → Bundle.certificates b !! issuer_public_key c1 = None →
  Bundle.certificates (add_entries now revoked i [(id1, e1); (id2, e2)] b n).2 !! subject_public_key c1
  = Bundle.certificates b !! subject_public_key c1.
Proof.
  intros Hc1 Hc2 Hi Hs Hna Hnc.
  assert (∀ t b', Bundle.add_certificate b c1 t ≠ Ok b') as Hno.
  { intros t b' (_ & _ & [Hr|Ht])%Bundle.add_certificate_inv; [by apply bool_decide_eq_true in Hr|].
    apply Bundle.is_trusted_issuer_inv in Ht as [?|(d & ? & _)]; congruence. }
  assert (∀ i n, Bundle.certificates (add_entries now revoked i [(id2, e2)] b n).2 !! subject_public_key c1
    = Bundle.certificates b !! subject_public_key c1) as Htail.
  { intros j m. cbn. case_decide; [done|]. rewrite Hc2. cbn [mbind outcome_bind].
    destruct (Bundle.add_certificate b c2 (now j)) eqn:Ha; [|done..]. apply add_certificate_result in Ha as [_ E].
    cbn. rewrite E. apply lookup_insert_ne. congruence. }
  change (add_entries now revoked i [(id1, e1); (id2, e2)] b n) with
    (if decide (entry_subject e1 ∈ revoked) then add_entries now revoked (S i) [(id2, e2)] b n
     else match c ← to_certificate e1; Bundle.add_certificate b c (now i) with
          | Ok b => add_entries now revoked (S i) [(id2, e2)] b (n + 1)
          | Err _ => add_entries now revoked (S i) [(id2, e2)] b n
          | Panic => (Panic, b)
          end).
  case_decide; [apply Htail|]. rewrite Hc1. cbn [mbind outcome_bind].
  destruct (Bundle.add_certificate b c1 (now i)) eqn:Ha; [by apply Hno in Ha|apply Htail|done].
Qed.
End loop.

(** * The bundle over time *)
Section properties.
Context `{AutomergeTree} {AML : AutomergeLaws} {TL : AutomergeTreeLaws} {RD : Redb} {RDL : RedbLaws}
  {LR : Lru doc} {LRL : LruLaws doc} `{!JsonNumber} {JL : JsonNumberLaws} {VO : IterOrder bytes Value}
  {Ed : Ed25519} `{!Base64} {BL : Base64Laws} `{!Hex} {HL : HexLaws}
  `{!Serde CertificateEntry} {SCL : SerdeLaws CertificateEntry}
  `{!Serde RevocationEntry} {SRL : SerdeLaws RevocationEntry} (fuel : nat).
Implicit Types (s : CertificateStore) (st : AutomergeStore).

(** What happens to a running certificate store: synchronisation replaces the documents
    by any others, and the watcher handles notifications. *)
Inductive event :=
| Synced (st : AutomergeStore)
| CertChange (id : bytes) (now_ms : Z)
| RevocationChange (id : bytes) (now_ms : nat → Z)
| Load (now_ms : nat → Z).
Definition apply_event s (ev : event) : CertificateStore :=
  match ev with
  | Synced st => {| bundle := bundle s; cs_store := st |}
  | CertChange id now => (handle_cert_change fuel id now s).2
  | RevocationChange id now => (handle_revocation_change fuel id now s).2
  | Load now => (load_all fuel now s).2
  end.
Definition at_most (limit : Z) (ev : event) : Prop :=
  match ev with
  | Synced _ => True
  | CertChange _ now => (now ≤ limit)%Z
  | RevocationChange _ now | Load now => ∀ i, (now i ≤ limit)%Z
  end.

Definition cert_key (id : bytes) : bytes := Typed.key_of certificates id.
Definition rev_key (id : bytes) : bytes := Typed.key_of revocations id.

(** ** Handlers *)
(** What a handler does to the bundle. *)
Lemma load_all_bundle now s :
  bundle (load_all fuel now s).2 = bundle s
  ∨ ∃ entries revoked, bundle (load_all fuel now s).2 = (add_entries now revoked 0 entries (bundle s) 0).2.
Proof.
  unfold load_all, load_revocation_set, on_collection, add_all, mbind, stm_bind.
  destruct (Typed.scan fuel certificates _) as [[entries| |] st]; [|by left..].
  destruct (Typed.scan fuel revocations _) as [[revs| |] st']; [|by left..]. right.
  exists entries, (list_to_set (rev_subject ∘ snd <$> revs)). unfold mret, stm_ret. cbn -[add_entries].
  by destruct (add_entries _ _ _ _ _ _).
Qed.
Lemma rebuild_bundle_state now s : (rebuild_bundle fuel now s).2 = (load_all fuel now s).2.
Proof. unfold rebuild_bundle, mbind, stm_bind. by destruct (load_all fuel now s) as [[]]. Qed.
(** Whatever accepted certificates keep, every event keeps. *)
Lemma event_inv (P : CertificateBundle → Prop) limit s ev :
  (∀ c b b' t, (t ≤ limit)%Z → Bundle.add_certificate b c t = Ok b' → P b → P b') →
  at_most limit ev → P (bundle s) → P (bundle (apply_event s ev)).
Proof.
  intros Hstep Hev Hb.
  assert (∀ now s, (∀ i, (now i ≤ limit)%Z) → P (bundle s) → P (bundle (load_all fuel now s).2)) as Hload.
  { intros now s0 Hnow Hb0. destruct (load_all_bundle now s0) as [->|(es & rv & ->)]; [done|].
    apply add_entries_inv; [|done]. intros id e c b b' t _ _ _ [j ->]. by apply Hstep. }
  destruct ev as [st|id now|id now|now]; cbn in *; [done| | |by apply Hload].
  - unfold handle_cert_change, on_collection. destruct (Typed.get fuel revocations id _) as [[[rv|]|err|] st1]; try done;
      cbn [cs_store bundle]; destruct (Typed.get fuel certificates id st1) as [[[e|]|err'|] st2]; try done;
      cbn [bundle]; (destruct (to_certificate e) as [c| |]; cbn [mbind outcome_bind]; [|done|done]);
      destruct (Bundle.add_certificate (bundle s) c now) eqn:Ha; try done; by eapply Hstep.
  - unfold handle_revocation_change, on_collection. destruct (Typed.get fuel revocations id _) as [[[e|]| |] st1]; try done.
    destruct (hex_decode (rev_subject e)) as [k|]; [|done]. case_decide; [|done].
    pose proof (rebuild_bundle_state now {| bundle := bundle s; cs_store := st1 |}) as E.
    destruct (rebuild_bundle fuel now _) as [r s2]. cbn in E |- *. subst s2. by apply Hload.
Qed.

Lemma events_chain limit evs s :
  Forall (at_most limit) evs → Bundle.bundle_ok limit (bundle s) →
  Bundle.authorities (bundle (foldl apply_event s evs)) = Bundle.authorities (bundle s)
  ∧ Bundle.bundle_ok limit (bundle (foldl apply_event s evs)).
Proof.
  intros Hevs. revert s. induction Hevs as [|ev evs Hev _ IH]; intros s Hok; [done|]. cbn.
  assert (Bundle.authorities (bundle (apply_event s ev)) = Bundle.authorities (bundle s)) as Ha.
  { eapply (event_inv (λ b, Bundle.authorities b = Bundle.authorities (bundle s))); [|exact Hev|done].
    by intros c b b' t' _ [-> _]%add_certificate_result. }
  rewrite <-Ha. apply IH. eapply (event_inv (Bundle.bundle_ok limit)); [|exact Hev|done].
  intros c b b' t' Ht Hadd Hb. by eapply Bundle.add_certificate_ok.
Qed.
Lemma new_chain limit st auths : Bundle.bundle_ok limit (bundle (new st auths)).
Proof.
  cbn. assert (Bundle.bundle_ok limit Bundle.new) as Hn by apply map_Forall_empty.
  revert Hn. generalize Bundle.new. induction auths as [|a auths IH]; intros b0 Hb; [done|].
  apply IH. by apply Bundle.add_authority_ok.
Qed.

(** C0.  Documents cannot smuggle in certificates.  Whatever documents other nodes write
    and in whatever order the watcher hears of them, the authorities stay those the
    store was made with, and a peer that the bundle validates has a certificate inside
    its validity window, correctly signed, with a chain of delegation from an authority
    or a self-signed root. *)
Theorem synced_certificates_have_chain st auths evs limit peer t :
  Forall (at_most limit) evs →
  let b := bundle (foldl apply_event (new st auths) evs) in
  Bundle.authorities b = Bundle.authorities (bundle (new st auths))
  ∧ (Bundle.validate_peer b peer t = true →
     ∃ c, Bundle.get_certificate b peer = Some c ∧ subject_public_key c = peer ∧ Cert.is_valid c t = true
       ∧ Cert.verify c = Ok tt ∧ Bundle.chain (Bundle.authorities b) limit c).
Proof.
  intros Hevs b. destruct (events_chain limit evs (new st auths) Hevs (new_chain _ _ _)) as [Ha Hb].
  split; [done|]. fold b in Hb. unfold Bundle.validate_peer, Bundle.get_certificate.
  destruct (Bundle.certificates b !! peer) as [c|] eqn:Hl; [|done].
  intros [Hval Hver]%Bundle.check_cert_inv. apply Hb in Hl as [Hs Hc]. eauto 10.
Qed.

(** ** Revocation *)
(** The documents name certificates by their subjects. *)
Definition honest (st : AutomergeStore) : Prop := ∀ id d e c,
  contents st !! cert_key id = Some d → read fuel d = Some e → to_certificate e = Ok c →
  id = hex_encode (subject_public_key c) ∧ entry_subject e = id.
(** Besides, they revoke [pk], and the database answers for the revocation. *)
Record governed (pk : bytes) (st : AutomergeStore) : Prop := {
  gov_ok : store_ok st;
  gov_honest : honest st;
  gov_revoked : ∃ d (r : RevocationEntry), contents st !! rev_key (hex_encode pk) = Some d
    ∧ read fuel d = Some r ∧ rev_subject r = hex_encode pk;
  gov_works d : db st = Some d → is_Some (db_get d DOCUMENTS_TABLE (rev_key (hex_encode pk)))
}.
Lemma governed_reads pk st st' : reads st st' → governed pk st → governed pk st'.
Proof.
  intros Hr [Hok Hh Hrev Hw].
  split; unfold honest; rewrite ?(reads_contents _ _ Hr), ?(reads_db _ _ Hr); [apply (reads_ok _ _ Hr)|done..].
Qed.
Lemma get_works k st r st' :
  Store.get k st = (r, st') → (∀ d, db st = Some d → is_Some (db_get d DOCUMENTS_TABLE k)) → r ≠ Err DatabaseError.
Proof.
  unfold Store.get, mbind, stm_bind, cache_get, read_doc. intros Hg Hw ->.
  destruct (lru_get (cache st) k) as [[d|] c]; [done|]. cbn [set_cache db] in Hg.
  destruct (db st) as [d0|]; [|done]. destruct (Hw d0 eq_refl) as [[v|] Hv]; rewrite Hv in Hg; [|done].
  by destruct (am_load v).
Qed.
(** The revocation of a governed key is found. *)
Lemma revocation_found pk st :
  governed pk st →
  ∃ r st', Typed.get (T:=RevocationEntry) fuel revocations (hex_encode pk) st = (Ok (Some r), st') ∧ reads st st'.
Proof using RDL LRL.
  intros [Hok _ (d & r & Hd & Hr & _) Hw].
  destruct (Typed.get fuel revocations (hex_encode pk) st) as [res st'] eqn:E.
  destruct (get_reads _ _ _ _ _ _ E Hok) as [Hrd [->|Herr]].
  - unfold rev_key in Hd. rewrite Hd in E |- *. cbn in E |- *. rewrite Hr in E |- *. eauto.
  - unfold Typed.get, mbind, stm_bind, Typed.from_store in E.
    destruct (Store.get (Typed.key_of revocations (hex_encode pk)) st) as [g st0] eqn:Eg.
    pose proof (get_works _ _ _ _ Eg Hw). destruct (get_ok _ _ _ _ Eg Hok) as [_ [(o & -> & _)| ->]]; [|done].
    destruct o as [d'|]; cbn in E; [|by simplify_eq].
    by destruct (option_bind _ _ _ _); simplify_eq.
Qed.
Lemma scan_collection {T} `{!Serde T} c st r st' :
  Typed.scan (T:=T) fuel c st = (r, st') → store_ok st →
  st' = st ∧ ∀ l, r = Ok l → ∀ id x, (id, x) ∈ l ↔ ∃ d, contents st !! Typed.key_of c id = Some d ∧ read fuel d = Some x.
Proof using RDL LRL.
  intros Hs Hok. unfold Typed.scan, mbind, stm_bind, Typed.from_store in Hs.
  split; [|intros l ->; eapply scan_lists; [exact Hs|done]].
  destruct (scan_prefix (tc_prefix c) st) as [g st0] eqn:Eg.
  destruct (scan_prefix_ok _ _ _ _ Eg Hok) as [-> _]. by destruct g; injection Hs as <- <-.
Qed.
Lemma load_frozen pk now s :
  governed pk (cs_store s) →
  Bundle.certificates (bundle (load_all fuel now s).2) !! pk = Bundle.certificates (bundle s) !! pk
  ∧ cs_store (load_all fuel now s).2 = cs_store s.
Proof using RDL LRL HL.
  intros [Hok Hh (d & r & Hd & Hr & Hsub) _].
  unfold load_all, load_revocation_set, on_collection, add_all, mbind, stm_bind.
  destruct (Typed.scan fuel certificates (cs_store s)) as [re st1] eqn:E1.
  destruct (scan_collection _ _ _ _ E1 Hok) as [-> Hes]. destruct re as [es| |]; [|done..]. cbn [cs_store bundle].
  destruct (Typed.scan fuel revocations (cs_store s)) as [rv st2] eqn:E2.
  destruct (scan_collection _ _ _ _ E2 Hok) as [-> Hrs]. destruct rv as [rs| |]; [|done..].
  cbn [mret stm_ret cs_store bundle]. set (revoked := list_to_set _).
  pose proof (add_entries_frozen now revoked 0 es (bundle s) 0 pk) as Hf.
  destruct (add_entries now revoked 0 es (bundle s) 0) as [res b']. cbn in Hf |- *. split; [|done].
  apply Hf. intros id e c Hin Hc Hpk. apply (Hes es eq_refl) in Hin as (d' & Hd' & Hr').
  destruct (Hh id d' e c Hd' Hr' Hc) as [-> Hs]. rewrite Hs, Hpk. unfold revoked.
  apply elem_of_list_to_set, list_elem_of_fmap. exists (hex_encode pk, r). split; [done|].
  apply (Hrs rs eq_refl). eauto.
Qed.
Lemma cert_change_frozen pk id now s :
  governed pk (cs_store s) →
  Bundle.certificates (bundle (handle_cert_change fuel id now s).2) !! pk = Bundle.certificates (bundle s) !! pk
  ∧ reads (cs_store s) (cs_store (handle_cert_change fuel id now s).2).
Proof using RDL LRL HL.
  intros Hg. destruct (Typed.get (T:=RevocationEntry) fuel revocations id (cs_store s)) as [r1 st1] eqn:E1.
  destruct (get_reads _ _ _ _ _ _ E1 (gov_ok _ _ Hg)) as [Hr1 _].
  unfold handle_cert_change, on_collection. rewrite E1. cbn [cs_store bundle].
  destruct (decide (id = hex_encode pk)) as [->|Hid].
  { destruct (revocation_found pk _ Hg) as (r & st' & E & _). rewrite E1 in E. by injection E as -> _. }
  destruct (Typed.get (T:=CertificateEntry) fuel certificates id st1) as [r2 st2] eqn:E2.
  pose proof (governed_reads _ _ _ Hr1 Hg) as Hg1.
  destruct (get_reads _ _ _ _ _ _ E2 (gov_ok _ _ Hg1)) as [Hr2 Hres].
  assert (reads (cs_store s) st2) as Hr.
  { destruct Hr1, Hr2. split; solve [congruence|done|auto]. }
  assert (∀ e c b', r2 = Ok (Some e) → to_certificate e = Ok c → Bundle.add_certificate (bundle s) c now = Ok b' →
    Bundle.certificates b' !! pk = Bundle.certificates (bundle s) !! pk) as Hadd.
  { intros e c b' -> Hc [_ ->]%add_certificate_result. apply lookup_insert_ne. intros <-. destruct Hid.
    destruct Hres as [Hres|]; [|done]. unfold reading in Hres.
    destruct (contents st1 !! Typed.key_of certificates id) as [d|] eqn:Hd; [|done].
    destruct (read fuel d) as [e'|] eqn:He; cbn in Hres; [|done]. injection Hres as <-.
    by destruct (gov_honest _ _ Hg1 id d e c Hd He Hc). }
  destruct r1 as [[r|]|err|]; [done| | |done]; (destruct r2 as [[e|]|err'|]; [|done..]); cbn [bundle cs_store];
    (destruct (to_certificate e) as [c| |] eqn:Hc; cbn [mbind outcome_bind]; [|done..]);
    (destruct (Bundle.add_certificate (bundle s) c now) as [b'| |] eqn:Ha; [|done..]); split; eauto.
Qed.
Lemma revocation_change_frozen pk id now s :
  governed pk (cs_store s) →
  Bundle.certificates (bundle (handle_revocation_change fuel id now s).2) !! pk = Bundle.certificates (bundle s) !! pk
  ∧ reads (cs_store s) (cs_store (handle_revocation_change fuel id now s).2).
Proof using RDL LRL HL.
  intros Hg. destruct (Typed.get (T:=RevocationEntry) fuel revocations id (cs_store s)) as [r1 st1] eqn:E1.
  destruct (get_reads _ _ _ _ _ _ E1 (gov_ok _ _ Hg)) as [Hr1 _].
  unfold handle_revocation_change, on_collection. rewrite E1.
  destruct r1 as [[e|]|err|]; [|done..]. destruct (hex_decode (rev_subject e)) as [k|]; [|done].
  case_decide; [|done]. set (s1 := {| bundle := bundle s; cs_store := st1 |}).
  assert (governed pk (cs_store s1)) as Hg1 by (by eapply governed_reads).
  destruct (load_frozen pk now s1 Hg1) as [Hf Hst]. pose proof (rebuild_bundle_state now s1) as E.
  destruct (rebuild_bundle fuel now s1) as [r s2]. cbn [snd] in E |- *. subst s2. by rewrite Hf, Hst.
Qed.

(** C0.  Revocation keeps certificates out and never takes one back.  While the documents
    revoke a key, and name every certificate by its subject, no synchronisation,
    notification or load changes what the bundle holds for the key: a node that did not
    have the certificate does not get it, and a node that had it goes on validating the
    peer, also after the revocation was handled. *)
Theorem revocation_freezes pk s evs :
  governed pk (cs_store s) →
  Forall (λ ev, match ev with Synced st => governed pk st | _ => True end) evs →
  let s' := foldl apply_event s evs in
  Bundle.get_certificate (bundle s') pk = Bundle.get_certificate (bundle s) pk
  ∧ ∀ t, Bundle.validate_peer (bundle s') pk t = Bundle.validate_peer (bundle s) pk t.
Proof using RDL LRL HL.
  intros Hg Hevs s'.
  assert (Bundle.certificates (bundle s') !! pk = Bundle.certificates (bundle s) !! pk) as E.
  { unfold s'. clear s'. revert s Hg. induction Hevs as [|ev evs Hev _ IH]; intros s Hg; [done|]. cbn.
    assert (Bundle.certificates (bundle (apply_event s ev)) !! pk = Bundle.certificates (bundle s) !! pk
      ∧ governed pk (cs_store (apply_event s ev))) as [<- Hg']; [|by apply IH].
    destruct ev as [st|id now|id now|now]; cbn [apply_event].
    - done.
    - destruct (cert_change_frozen pk id now s Hg). split; [done|]. by eapply governed_reads.
    - destruct (revocation_change_frozen pk id now s Hg). split; [done|]. by eapply governed_reads.
    - destruct (load_frozen pk now s Hg) as [? ->]. done. }
  unfold Bundle.get_certificate, Bundle.validate_peer. by rewrite E.
Qed.

(** ** Publication *)
Lemma entry_roundtrip c now :
  cert_wf c → cert_ids_fit c → to_certificate (from_certificate c now) = Ok c.
Proof using BL.
  intros Hwf Hfit. unfold to_certificate. cbn. rewrite base64_decode_encode. cbn.
  eapply (Cert.cert_decode_cursor _ _ []); [done|done|]. rewrite app_nil_r. apply cursor_start.
Qed.

(** A store with one document, a certificate. *)
Lemma single_certificate c written st d :
  contents st ≡ {[cert_key (hex_encode (subject_public_key c)) := d]} →
  read fuel d = Some (from_certificate c written) → cert_wf c → cert_ids_fit c →
  honest st ∧ ∀ id, contents st !! rev_key id = None.
Proof using AML BL.
  intros Hc Hr Hwf Hfit. split.
  - intros id d' e c' Hd' Hre Hce. pose proof (Hc (cert_key id)) as Hk. rewrite Hd' in Hk. symmetry in Hk.
    destruct (decide (cert_key (hex_encode (subject_public_key c)) = cert_key id)) as [E|E].
    + rewrite E, lookup_singleton_eq in Hk. inversion Hk as [? ? Hk'|]; subst. rewrite <-(read_proper _ _ _ Hk') in Hre.
      rewrite Hr in Hre. injection Hre as <-. rewrite entry_roundtrip in Hce by done. injection Hce as <-.
      apply (inj (app _)) in E. by rewrite E.
    + rewrite lookup_singleton_ne in Hk by done. inversion Hk.
  - intros id. pose proof (Hc (rev_key id)) as Hk. rewrite lookup_singleton_ne in Hk by done. by inversion Hk.
Qed.
Lemma publish_upserts c written now s s1 :
  publish_certificate c written now s = (Ok tt, s1) →
  ∃ m, Typed.upsert certificates (hex_encode (subject_public_key c)) (from_certificate c written) None 0 (cs_store s)
    = (Ok m, cs_store s1).
Proof.
  intros (m & s' & Hu & Ha)%stm_bind_Ok_inv. unfold on_collection in Hu.
  destruct (Typed.upsert _ _ _ _ _ (cs_store s)) as [ru st1]. injection Hu as -> <-. exists m.
  unfold add_local in Ha. cbn in Ha. by destruct (Bundle.add_certificate _ _ _); simplify_eq/=.
Qed.

(** C0.  A published certificate reaches the mesh.  When a node publishes a certificate and
    the document arrives at another node, whose documents name certificates by their
    subjects and do not revoke the key, and which has the issuer among its authorities,
    then loading puts exactly this certificate into the bundle. *)
Theorem published_certificate_loads c v written now s s1 s2 nows n s3 :
  cert_wf c → cert_ids_fit c → Cert.verify c = Ok tt →
  to_value (from_certificate c written) = Some v → nonempty_keys v → exact v → value_size v ≤ fuel →
  store_ok (cs_store s) → is_Some (db (cs_store s)) →
  publish_certificate c written now s = (Ok tt, s1) →
  let id := hex_encode (subject_public_key c) in
  store_ok (cs_store s2) → honest (cs_store s2) →
  contents (cs_store s2) !! cert_key id ≡ contents (cs_store s1) !! cert_key id →
  (∀ id' d (r : RevocationEntry), contents (cs_store s2) !! rev_key id' = Some d → read fuel d = Some r → rev_subject r ≠ id) →
  issuer_public_key c ∈ Bundle.authorities (bundle s2) →
  load_all fuel nows s2 = (Ok n, s3) →
  Bundle.get_certificate (bundle s3) (subject_public_key c) = Some c.
Proof using All.
  intros Hwf Hfit Hver Hv Hne Hex Hf Hok Hdb Hp id Hok2 Hh Hsame Hnr Hi Hl.
  apply publish_upserts in Hp as [m Eu].
  assert (utf8_valid (Typed.key_of certificates id) = true) as Hk.
  { apply utf8_ascii, Forall_app. split; [by apply (bool_decide_unpack _)|].
    eapply Forall_impl; [apply hex_alphanumeric|]. cbn. intros b ?. lia. }
  destruct (upsert_reads _ _ _ _ _ _ _ _ _ Eu Hok Hdb Hk Hv Hne Hex) as (d & _ & Hc & Hread & _).
  rewrite (Hc (cert_key id)), lookup_insert_eq in Hsame. apply Some_equiv_eq in Hsame as (d2 & Hd2 & Hequiv).
  assert (read fuel d2 = Some (from_certificate c written)) as Hr2.
  { rewrite (read_proper fuel _ _ Hequiv). by apply Hread. }
  apply stm_bind_Ok_inv in Hl as (es & s4 & Hs1 & Hl). apply stm_bind_Ok_inv in Hl as (rv & s5 & Hs2 & Hl).
  apply stm_bind_Ok_inv in Hs2 as (rs & s6 & Hs2 & [= <- <-]).
  unfold on_collection in Hs1, Hs2. destruct (Typed.scan fuel certificates (cs_store s2)) as [r4 st4] eqn:E4.
  injection Hs1 as -> <-. destruct (scan_collection _ _ _ _ E4 Hok2) as [-> Hes]. cbn [cs_store bundle] in Hs2.
  destruct (Typed.scan fuel revocations (cs_store s2)) as [r5 st5] eqn:E5. injection Hs2 as -> <-.
  destruct (scan_collection _ _ _ _ E5 Hok2) as [-> Hrs]. unfold add_all in Hl. cbn [bundle] in Hl.
  destruct (add_entries _ _ _ _ _ _) as [r6 b6] eqn:E6. injection Hl as -> <-. cbn [set_bundle bundle].
  eapply (add_entries_added _ _ _ _ _ _ _ _ id (from_certificate c written) c E6).
  - apply (Hes es eq_refl). eauto.
  - cbn. rewrite elem_of_list_to_set, list_elem_of_fmap. intros ([id' r] & Hid & Hin). cbn in Hid.
    apply (Hrs rs eq_refl) in Hin as (d' & Hd' & Hr'). by eapply Hnr.
  - by apply entry_roundtrip.
  - done.
  - done.
  - intros id' e' c' Hin Hc' Hsub. apply (Hes es eq_refl) in Hin as (d' & Hd' & Hr').
    destruct (Hh id' d' e' c' Hd' Hr' Hc') as [-> _]. rewrite Hsub in Hd'. unfold cert_key in Hd2.
    assert (d' = d2) as -> by (unfold id in Hd2; congruence). rewrite Hr2 in Hr'. injection Hr' as <-.
    rewrite entry_roundtrip in Hc' by done. congruence.
Qed.
End properties.

(** * Witnesses *)
Import Heap.
#[local] Existing Instances toy_ed25519 heap_automerge heap_automerge_laws heap_tree heap_tree_laws value_order.
#[local] Instance hex_as_base64 : Base64 := {| base64_encode := hex_encode; base64_decode := hex_decode |}.
#[local] Instance hex_as_base64_laws : Base64Laws.
Proof.
  split; intros b; cbn -[hex_encode hex_decode]; [apply hex_decode_encode|].
  eapply Forall_impl; [apply hex_alphanumeric|]. cbn. intros c ?. lia.
Qed.
#[local] Instance certificate_entry_eq_dec : EqDecision CertificateEntry.
Proof. solve_decision. Defined.
#[local] Instance revocation_entry_eq_dec : EqDecision RevocationEntry.
Proof. solve_decision. Defined.
(** A struct is an object with its fields. *)
Definition entry_object (e : CertificateEntry) : Value := Json.Object (list_to_map [
  (str "cert_data", Json.String (cert_data e)); (str "node_id", Json.String (entry_node_id e));
  (str "tier", Json.String (entry_tier e)); (str "subject", Json.String (entry_subject e));
  (str "issuer", Json.String (entry_issuer e));
  (str "permissions", Json.Number (number_from_i64 (u8 (entry_permissions e))));
  (str "expires_at_ms", Json.Number (number_from_i64 (entry_expires_at_ms e)));
  (str "written_at_ms", Json.Number (number_from_i64 (written_at_ms e)))]).
Definition text_field (m : gmap bytes Value) (k : bytes) : option bytes := m !! k ≫= as_str.
Definition int_field (m : gmap bytes Value) (k : bytes) : option Z :=
  v ← m !! k; match v with Json.Number n => number_as_i64 n | _ => None end.
Definition object_entry (v : Value) : option CertificateEntry :=
  m ← as_object v;
  data ← text_field m (str "cert_data"); node ← text_field m (str "node_id");
  tier ← text_field m (str "tier"); subject ← text_field m (str "subject");
  issuer ← text_field m (str "issuer"); p ← int_field m (str "permissions");
  x ← int_field m (str "expires_at_ms"); w ← int_field m (str "written_at_ms");
  Some {| cert_data := data; entry_node_id := node; entry_tier := tier; entry_subject := subject;
          entry_issuer := issuer; entry_permissions := as_u8 p; entry_expires_at_ms := x; written_at_ms := w |}.
Definition revocation_object (e : RevocationEntry) : Value := Json.Object (list_to_map [
  (str "subject", Json.String (rev_subject e)); (str "reason", Json.String (rev_reason e));
  (str "timestamp_ms", Json.Number (number_from_i64 (rev_timestamp_ms e)))]).
Definition object_revocation (v : Value) : option RevocationEntry :=
  m ← as_object v; subject ← text_field m (str "subject"); reason ← text_field m (str "reason");
  t ← int_field m (str "timestamp_ms");
  Some {| rev_subject := subject; rev_reason := reason; rev_timestamp_ms := t |}.
(** What does not come back, for a number out of range, is an error. *)
#[local] Instance entry_serde : Serde CertificateEntry := {|
  to_value e := if decide (object_entry (entry_object e) = Some e) then Some (entry_object e) else None;
  from_value := object_entry
|}.
#[local] Instance entry_serde_laws : SerdeLaws CertificateEntry.
Proof. intros e v. cbn. case_decide; [|done]. by intros [= <-]. Qed.
#[local] Instance revocation_serde : Serde RevocationEntry := {|
  to_value e := if decide (object_revocation (revocation_object e) = Some e) then Some (revocation_object e) else None;
  from_value := object_revocation
|}.
#[local] Instance revocation_serde_laws : SerdeLaws RevocationEntry.
Proof. intros e v. cbn. case_decide; [|done]. by intros [= <-]. Qed.

Definition no_documents : AutomergeStore :=
  opened ({| toy_docs := ∅; toy_tombs := ∅; toy_bad := ∅ |} : @database toy_redb).
Lemma no_documents_ok : store_ok no_documents.
Proof. apply opened_ok. rewrite toy_db_view. apply map_Forall_empty. Qed.
Definition ex_publisher : CertificateStore := new no_documents [].
Definition ex_published : CertificateStore := (publish_certificate ex_old 10 10 ex_publisher).2.
Abbreviation ex_receiver := {| bundle := ex_bundle; cs_store := cs_store ex_published |}.
Lemma ex_published_Ok : publish_certificate ex_old 10 10 ex_publisher = (Ok tt, ex_published).
Proof.
  assert ((publish_certificate ex_old 10 10 ex_publisher).1 = Ok tt) as E by vm_eq.
  unfold ex_published. destruct (publish_certificate ex_old 10 10 ex_publisher). cbn in *. by subst.
Qed.
Definition ex_entry : CertificateEntry := from_certificate ex_old 10.
Lemma ex_entry_keys : nonempty_keys (entry_object ex_entry).
Proof. unfold nonempty_keys. vm_compute. repeat split; intros [=]. Qed.
Lemma ex_entry_exact : exact (entry_object ex_entry).
Proof.
  assert (∀ z, (- 2 ^ 63 <=? z)%Z && (z <? 2 ^ 63)%Z = true → number_as_i64 (number_from_i64 z) = Some z →
    exact_number (number_from_i64 z)) as Hint by (intros z _ Hz; left; by rewrite Hz).
  pose proof (Hint (u8 (entry_permissions ex_entry)) eq_refl eq_refl) as H1.
  pose proof (Hint (entry_expires_at_ms ex_entry) eq_refl eq_refl) as H2.
  pose proof (Hint (written_at_ms ex_entry) eq_refl eq_refl) as H3. clear Hint.
  unfold exact. revert H1 H2 H3. generalize exact_number. intros P H1 H2 H3.
  vm_compute in H1, H2, H3 |- *. by repeat split.
Qed.
Lemma ex_entry_value : to_value ex_entry = Some (entry_object ex_entry).
Proof. cbn [to_value entry_serde]. rewrite decide_True; [done|]. vm_eq. Qed.
Lemma ex_published_contents : ∃ d,
  contents (cs_store ex_published) ≡ {[cert_key (hex_encode (subject_public_key ex_old)) := d]}
  ∧ read (value_size (entry_object ex_entry)) d = Some ex_entry ∧ store_ok (cs_store ex_published).
Proof.
  destruct (publish_upserts _ _ _ _ _ ex_published_Ok) as [m Eu].
  destruct (upsert_reads _ _ _ _ _ _ _ _ _ Eu no_documents_ok ltac:(by eexists) ltac:(vm_eq) ex_entry_value
    ex_entry_keys ex_entry_exact) as (d & Hok & Hc & Hr & _).
  exists d. split_and!; [|by apply Hr|done]. rewrite Hc.
  assert (contents (cs_store ex_publisher) = ∅) as -> by vm_eq. by rewrite insert_empty.
Qed.

Lemma synced_certificates_have_chain_witness :
  let evs := [Load (λ _, 20%Z)] in
  let b := bundle (foldl (apply_event (value_size (entry_object ex_entry)))
    (new (cs_store ex_published) [public_key_bytes ex_auth]) evs) in
  Forall (at_most 20) evs
  ∧ ∃ c, Bundle.get_certificate b (subject_public_key ex_old) = Some c
         ∧ Bundle.chain (Bundle.authorities b) 20 c.
Proof.
  intros evs b. assert (Forall (at_most 20) evs) as He by (repeat constructor; cbn; lia). split; [exact He|].
  destruct (synced_certificates_have_chain (value_size (entry_object ex_entry)) (cs_store ex_published)
    [public_key_bytes ex_auth] evs 20 (subject_public_key ex_old) 30 He) as [_ Hv].
  destruct Hv as (c & Hc & _ & _ & _ & Hch); [vm_eq|]. exists c. split; [exact Hc|exact Hch].
Defined.

Lemma ex_old_wf : cert_wf ex_old.
Proof. split; vm_compute; (reflexivity || (split; congruence) || done). Qed.
Lemma ex_old_fits : cert_ids_fit ex_old.
Proof. split; apply Nat.leb_le; vm_eq. Qed.
Lemma ex_receiver_loads : (load_all (value_size (entry_object ex_entry)) (λ _, 20%Z) ex_receiver).1 = Ok 1.
Proof. vm_eq. Qed.
Lemma published_certificate_loads_witness :
  let '(r, s3) := load_all (value_size (entry_object ex_entry)) (λ _, 20%Z) ex_receiver in
  r = Ok 1 ∧ Bundle.get_certificate (bundle s3) (subject_public_key ex_old) = Some ex_old.
Proof.
  destruct ex_published_contents as (d & Hc & Hr & Hok). pose proof ex_receiver_loads as E.
  destruct (single_certificate _ _ _ _ _ Hc Hr ex_old_wf ex_old_fits) as [Hh Hn].
  destruct (load_all _ _ ex_receiver) as [r s3] eqn:El.
  cbn [fst] in E. subst r.
  split; [reflexivity|]. remember (cs_store ex_published) as st eqn:Est.
  eapply (published_certificate_loads (value_size (entry_object ex_entry)) ex_old (entry_object ex_entry) 10 10
    ex_publisher ex_published {| bundle := ex_bundle; cs_store := st |} (λ _, 20%Z) 1 s3 ex_old_wf ex_old_fits);
    [vm_eq|exact ex_entry_value|exact ex_entry_keys|exact ex_entry_exact|exact (le_n _)|exact no_documents_ok
    |by eexists|exact ex_published_Ok|exact Hok|exact Hh| | | |exact El].
  - cbn [cs_store]. rewrite Est. reflexivity.
  - cbn [cs_store]. intros id' d' rv Hd'. rewrite (Hn id') in Hd'. discriminate Hd'.
  - apply (bool_decide_eq_true_1 _). vm_eq.
Defined.
